(* ===== verification/_CoqProject ===== *)
-Q . S2P
Prelude.v
World.v
Queue.v
Idl.v
LcapNet.v
NetMem.v
RpcUtils.v
Effects.v
Config.v
ConfigProps.v
Log.v
Broker.v
Lcapd.v
Signals.v
SignalProps.v
Modules.v
PxClient.v
Client.v
Tool.v
Reader.v
ReaderRep.v
ReaderInv.v
ReaderBuckets.v
ReaderRpc.v
ReaderEffects.v
ReaderEnqueue.v
ReaderSpec.v
Demo.v
ReaderHandlers.v
ReaderMain.v
ReaderRun.v
ReaderProps.v
ReaderRunProps.v
PxSpec.v
PxProps.v
ClientProps.v
ToolProps.v
Routing.v
System.v
SystemProps.v
Network.v
NetworkProps.v
Session.v
Startup.v
Devices.v
Fleet.v
FleetProps.v
