(* ===== verification/Prelude.v ===== *)
(** * LCAP: a verification of the Lustre changelog aggregator

    LCAP reads the changelogs of Lustre metadata targets (MDTs) once and shares
    them among clients. The daemon has one reader thread per MDT and a broker;
    clients link a library that speaks to the broker.

    - A _reader_ (src/src/lcapd/reader.c) fetches records with the Lustre API,
      stores them in buckets, serves a bucket to each client that asks
      (DEQUEUE), takes it back when the client is done (CLEAR) and acknowledges
      the oldest buckets upstream. A bucket that is not given back in time is
      served again.
    - The _broker_ (src/src/lcapd/broker.c) owns the ROUTER socket. It forwards
      the RPCs of the clients to the reader they name, those of the readers to
      the client they name, and keeps the table of the readers that are up
      (SIGNAL).
    - The _daemon_ (src/src/lcapd/lcapd.c) reads the configuration
      (config.c), starts a thread that handles signals, starts the readers and
      runs the broker.
    - The _proxy client_ (src/src/client/px_client.c) sends the RPCs of the
      library's user and hands out the records of the packets it receives. A
      command line tool (src/src/tools/lcap.c) is such a user.
    - All of them share the RPC definitions (src/src/include/lcap_idl.h), the
      reception (src/src/lcapnet/lcap_net.c) and emission
      (src/src/lcapd/rpc_utils.c) of RPCs over 0MQ, the intrusive list
      (src/src/include/queue.h) and the logging (src/src/common/lcap_log.c).

    ** How the program is modelled

    Code that changes state is a function of the state monad [M] of this file;
    undefined behaviour of C (a use after free, a NULL dereference, an access
    out of bounds, a failed assertion, an overflow, a read of uninitialised
    memory, a call that the standard leaves undefined) is a fault of the run,
    so that "no fault" is part of what is proved. Specifications are weakest
    preconditions [wp m Q E s]: from [s], [m] ends in [Q] or meets a fault in
    [E]; [safe] is no fault.

    libc, pthread, the dynamic loader, 0MQ and the Lustre API are outside. A run
    records its calls in a trace, and the [World] (World.v) answers each call by
    an arbitrary function of the trace. Every theorem holds for every world,
    except where a hypothesis names the documented behaviour that it needs:
    [upstream_ok] and [upstream_ordered] (records are well formed, and come in
    order), [ChangelogRecLaws] (the layout of a record), [ZmqSocketsLaws] (the
    frames that sockets add and remove), [~ send_refused] (0MQ takes every
    frame), [punctual] (the clock stays within one acknowledgement timeout and
    memory does not run out), [dequeue_answered] and [one_frame_reply] (the
    answers that a client gets; [reader_honours_contract] and
    [recv_gets_bucket] show that the reader and the broker give them),
    [message_ends] (a 0MQ message is finite), [~ call_fails] and [connected]
    (the calls of a client succeed, and its sockets lead to the system),
    [joins_detected] (joining a detached thread answers EINVAL),
    [poll_documented] (zmq_poll reports the event that it was asked for),
    [work_conserving] (a message is delivered as long as there is one).

    Pointers to shared objects are locations of explicit heaps: the nodes,
    buckets and clients of a reader, the packets of a client. Machine integers
    are [Z] with their wrap-around written out where the code can reach it.

    ** Files

    - Prelude: bytes, integers of fixed width, little-endian fields, C strings,
      the monad, [wp] and its rules (hint database [wp], tactics [wp_step],
      [wp_steps], [wp_apply]).
    - World: the calls, the trace, the state types that have one ([HasTrace]).
    - Queue: queue.h. [is_list] is its heap representation; [list_append],
      [list_pop_head], [list_insert_before], [list_remove] against it.
    - Idl: lcap_idl.h, the wire format and its accessors, with round trips.
    - LcapNet, RpcUtils: lcap_net.c and rpc_utils.c. [request_of] and
      [envelope] say what a message is. NetMem: the functions of lcap_net.c on
      the memory that they allocate and free, which refine those of LcapNet
      ([refines], [owns]).
    - Effects: which calls a piece of code can make ([emits], hint database
      [emits], tactic [emit]).
    - Config, ConfigProps: config.c; [cfg_wf] is the invariant, [apply_items]
      the meaning of a file.
    - Log: lcap_log.c and its two facilities.
    - Broker: broker.c; [brokered] and [processed] are the step relation.
    - Lcapd: lcapd.c, composed from Config, Log and Broker.
    - Signals, SignalProps: main and the thread of the signal handlers of
      lcapd.c, interleaved by a schedule ([run]); [process_inv] is the
      invariant.
    - Modules: modules.c and modules.h.
    - PxClient: px_client.c. PxSpec: [client_holds], the view of a client, and
      what a reader may answer. PxProps: the theorems of the client.
    - Client, ClientProps: the front end of the library (client.c,
      lcap_client.h) and the direct client (lu_client.c).
    - Tool, ToolProps: the command line client (tools/lcap.c).
    - Reader: the data of reader.c, its buckets, start and end. ReaderRpc: its
      RPC handlers, the reading loop, [reader_main]. ReaderEffects: the calls
      that each of them makes.
    - ReaderRep, ReaderInv, ReaderBuckets: the heap of a reader represents a
      list of buckets and a list of clients ([rep]), the invariant
      ([reader_inv]) and the operations on buckets.
    - ReaderSpec: the abstract [view] of a reader and the step relation
      [served] of one RPC. ReaderHandlers, ReaderMain: the handlers, the
      dispatcher and the main loop implement it. ReaderEnqueue: the batches.
    - ReaderRun: the transition system of the view ([vstep], [vsteps]), which
      the main loop implements ([ran]), and its runs within one acknowledgement
      timeout ([orderly]).
    - ReaderProps, ReaderRunProps: the theorems of the reader and of its runs.
    - Routing: the theorems of the broker, and the path of a message between
      client and reader.
    - System, SystemProps: a client, the broker and a reader together: one
      request and its answer ([exchange]), sequences of them ([sys_run]).
    - Network, NetworkProps: many clients, the broker and a reader, with the
      messages that are under way between them; a schedule ([net_run]) is a
      list of moves, each a request, the delivery of a message or a batch of
      records. [linear] is the specification, a reader that serves one request
      after the other; [net_inv] is the invariant.
    - Session: a user of the library, from start to end, whose sockets lead to
      such a system ([connected]).
    - Startup: the readers report to the broker when they start and when they
      fail ([report]).
    - Devices: many clients and the readers of many devices behind the broker
      ([fleet_run]), and what each reader does alone ([device_run]).
    - Fleet, FleetProps: the same with the messages that are under way between
      them; a schedule ([daemon_run]) is a list of moves. [at_device] is the
      daemon as the clients of one device see it, a network of their own
      ([stepped_ok]: each move of the daemon is a move of that network or does
      nothing); [daemon_ok] is the invariant.
    - Demo: a concrete record layout, world and reader, for the witnesses.

    ** What the theorems show

    - The system: [daemon_linearizable] (interleaved requests behave as if the
      reader of each device served those of its clients one at a time),
      [daemon_answers_all] (every request is answered),
      [daemon_shares_streams] (what all clients of a device get is the upstream
      stream of that device, in order, nothing twice),
      [daemon_packets_genuine] (what stays true without a bound on the time);
      [network_linearizable], [network_answers_all],
      [network_shares_the_stream], [network_packets_genuine] and
      [clients_share_the_stream] for one device;
      [session_gets_bucket] (a client from start to end), [exchange_answered]
      (a request is served as specified and answered once),
      [devices_independent] (each device behaves as if it were alone),
      [exchange_is_schedule] (an exchange is a schedule of the network),
      [idle_client_gets_next], [recv_gets_bucket].
    - Refinement: [reader_rpc_refines], [reader_loop_runs], [broker_refines],
      [reader_honours_contract]; [receive_leaks_requests] for the memory of
      the requests; [main_steps_alone] for the two models of main.
    - Invariants and safety: [reader_rpc_keeps_records], [packets_in_order],
      [buckets_held_once], [reader_init_inv], [reader_capacity],
      [broker_tracks_readers], [reader_main_safe], [daemon_threads_safe],
      [daemon_end_justified],
      [config_always_wf], [lcapd_main_safe], [px_free_keeps_pending].
    - Liveness: [termination_not_lost], [sent_last_then_starves].
    - Functional behaviour: [enqueue_in_order], [reader_loop_keeps_all],
      [dequeue_sends_bucket], [clear_acks_oldest],
      [expired_bucket_served_again], [px_recv_refills], [px_delivers_in_order],
      [px_clear_acks], [px_start_registers], [px_fini_releases],
      [reader_signal_registers], [recv_assembles_message],
      [tool_acks_packet_once], [tool_arguments], [lcap_start_outcomes],
      [module_lifecycle], [log_by_verbosity], [terminate_stops_readers],
      [list_fifo].
    - Round trips: [config_file_meaning], [reader_signal_frames].
    - Which calls an operation may make: [reader_effects].
    - Termination and bounds: [enqueue_terminates], [list_remove_then_empty],
      [stats_need_short_runs]; also part of [recv_assembles_message] and
      [config_always_wf].
    - Errors that the code answers, and defects it has: [bad_request_answered],
      [clear_reads_freed_bucket], [clear_without_bucket_unanswered],
      [receive_leaks_requests],
      [sent_last_then_starves], [interrupted_poll_ends],
      [early_termination_faults], [failed_load_leaves_symbol],
      [px_lost_cache_deref], [px_empty_packet_refused],
      [px_start_name_overflow], [missing_argument_undefined],
      [indented_statement_rejected], [config_release].

    ** Fuel

    Loops that the C code bounds by a count or a list are structural. The
    others take fuel and meet [OutOfFuel] without it: the reading of a batch
    (the size of a batch is enough, [enqueue_terminates]), the frames of a
    message (their number is enough, [recv_assembles_message]; a client's reply
    is one frame, and one is enough), the lines of a file (its length is given,
    [config_always_wf] shows that it is enough), the walk over a list of a
    reader (its length is given). The loops that never end by themselves - the
    turns of [reader_main] and of [lcapd_serve], and the messages that wait on a
    socket - keep [OutOfFuel] as an outcome. A schedule of the two threads of
    the daemon, or of the messages of a network, is a finite list of steps.

    ** What is not modelled

    - The text that vasprintf makes of the format of a log message, what usage
      and the messages on stderr print, the calls of lcap_debug, lcap_verb,
      lcap_info and lcap_error in the other parts, the rate in the statistics
      of a reader, and what tools/lcap.c prints of a record: output. But where
      the arguments of a message may be undefined, evaluating them is
      modelled: the name in an unexpected SIGNAL and the negated code of a
      failed reader ([request_fault]), the identity that could not be set
      ([init_fault]) and, at the debug level, the operation code of a body
      that is too short for one ([lcap_debug_op_type]). The exception is the
      name of a module in modules.c, which is NULL if strdup failed.
    - The overflow of ccf_verbosity, an int that each option -v increments.
    - The interleaving of the reader threads with the others. They share the
      configuration, which does not change after the start, and the flag
      [TerminateSig], whose reads are calls that the world answers. main and
      the thread of the signal handlers, which do share their context, are
      interleaved (Signals): a statement of the handlers' thread and a phase of
      main (the opening of the log and the socket, the start of all readers, a
      turn of the server, the release) are each one step.
    - 0MQ: what the sockets add to and remove from a message is [ZmqSockets];
      the delivery of a message is a move of a schedule. The broker or a reader
      handles a message in one move: they share no memory, and the messages
      between them are the whole of their interaction. In Devices a request
      and its answer are one move; in Fleet they are not, and each client
      speaks to one device from its start on.
    - modules.c uses fields of a context that the present lcapd_internal.h does
      not have; they are a record of their own in Modules.
    - lcap_config.h, which configure generates. *)
From Stdlib Require Export ZArith Strings.Byte Lia.
From stdpp Require Export base gmap strings numbers list.

Declare Scope lcap_scope.
Delimit Scope lcap_scope with lcap.
#[export] Set Default Goal Selector "!".

Local Open Scope Z_scope.

(** ** Bytes *)

Abbreviation byte := Byte.byte.
Abbreviation bytes := (list byte).

#[export] Instance byte_eq_decision : EqDecision byte := Byte.byte_eq_dec.

(** The C character constants and string literals of the source. *)
Definition of_str (s : string) : bytes := String.list_byte_of_string s.

Definition NUL : byte := x00.

(** A [uint8_t] as a number, and the truncation of a number to a [uint8_t]. *)
Definition Z_of_byte (b : byte) : Z := Z.of_N (Byte.to_N b).
Definition byte_of_Z (z : Z) : byte :=
  default NUL (Byte.of_N (Z.to_N (z mod 256))).

Lemma Z_of_byte_range b : 0 <= Z_of_byte b < 256.
Proof. unfold Z_of_byte. pose proof (Byte.to_N_bounded b). lia. Qed.

Lemma Z_of_byte_of_Z z : Z_of_byte (byte_of_Z z) = z mod 256.
Proof.
  unfold byte_of_Z, Z_of_byte. pose proof (Z.mod_pos_bound z 256 ltac:(lia)) as Hr.
  destruct (Byte.of_N _) as [b|] eqn:Hb; simpl.
  - apply Byte.to_of_N in Hb. rewrite Hb. lia.
  - apply Byte.of_N_None_iff in Hb. lia.
Qed.

Lemma byte_of_Z_of_byte b : byte_of_Z (Z_of_byte b) = b.
Proof.
  unfold byte_of_Z. rewrite Z.mod_small by apply Z_of_byte_range.
  unfold Z_of_byte. by rewrite N2Z.id, Byte.of_to_N.
Qed.

(** ** Machine integers

    [to_u w] and [to_s w] are the conversions to the unsigned and to the
    two's-complement [w]-bit integer types. *)

Definition to_u (w : Z) (z : Z) : Z := z mod 2 ^ w.
Definition to_s (w : Z) (z : Z) : Z :=
  let u := z mod 2 ^ w in if u <? 2 ^ (w - 1) then u else u - 2 ^ w.

Definition in_u (w z : Z) : Prop := 0 <= z < 2 ^ w.
Definition in_s (w z : Z) : Prop := - 2 ^ (w - 1) <= z < 2 ^ (w - 1).

#[export] Instance in_u_dec w z : Decision (in_u w z).
Proof. unfold in_u. apply _. Defined.
#[export] Instance in_s_dec w z : Decision (in_s w z).
Proof. unfold in_s. apply _. Defined.

Definition u32 := to_u 32.
Definition u64 := to_u 64.
Definition s32 := to_s 32.
Definition s64 := to_s 64.

Lemma pow2_split w : 0 < w -> 2 ^ w = 2 * 2 ^ (w - 1).
Proof. intros. rewrite <- Z.pow_succ_r by lia. f_equal. lia. Qed.

Lemma to_u_range w z : 0 <= w -> in_u w (to_u w z).
Proof. intros. apply Z.mod_pos_bound. lia. Qed.

Lemma to_u_id w z : in_u w z -> to_u w z = z.
Proof. apply Z.mod_small. Qed.

Lemma to_s_id w z : 0 < w -> in_s w z -> to_s w z = z.
Proof.
  intros Hw Hz. unfold to_s, in_s in *. pose proof (pow2_split w Hw) as Hp.
  destruct (decide (0 <= z)).
  - rewrite Z.mod_small by lia. destruct (Z.ltb_spec z (2 ^ (w - 1))); lia.
  - rewrite <- (Z.mod_unique_pos z (2 ^ w) (-1) (z + 2 ^ w)) by lia.
    destruct (Z.ltb_spec (z + 2 ^ w) (2 ^ (w - 1))); lia.
Qed.

Lemma to_s_range w z : 0 < w -> in_s w (to_s w z).
Proof.
  intros Hw. unfold to_s, in_s. pose proof (pow2_split w Hw).
  pose proof (Z.mod_pos_bound z (2 ^ w) ltac:(lia)).
  destruct (Z.ltb_spec (z mod 2 ^ w) (2 ^ (w - 1))); lia.
Qed.

(** Storing a signed value through an unsigned field and reading it back. *)
Lemma to_s_to_u w z : 0 < w -> in_s w z -> to_s w (to_u w z) = z.
Proof.
  intros Hw Hz. rewrite <- (to_s_id w z Hw Hz) at 2.
  unfold to_s, to_u. by rewrite Z.mod_mod by lia.
Qed.

(** ** Little-endian fields *)

Fixpoint le_enc (n : nat) (z : Z) : bytes :=
  match n with
  | O => []
  | S k => byte_of_Z z :: le_enc k (z / 256)
  end.

Fixpoint le_dec (bs : bytes) : Z :=
  match bs with
  | [] => 0
  | b :: t => Z_of_byte b + 256 * le_dec t
  end.

Lemma length_le_enc n z : length (le_enc n z) = n.
Proof. revert z. induction n; intros; simpl; auto. Qed.

Lemma le_dec_enc n z : le_dec (le_enc n z) = z mod 2 ^ (8 * Z.of_nat n).
Proof.
  revert z. induction n as [|n IH]; intros z; [by rewrite Z.mod_1_r|].
  cbn [le_enc le_dec]. rewrite Z_of_byte_of_Z, IH.
  replace (8 * Z.of_nat (S n)) with (8 + 8 * Z.of_nat n) by lia.
  rewrite Z.pow_add_r by lia. change (2 ^ 8) with 256.
  rewrite Z.rem_mul_r by lia. done.
Qed.

Lemma le_dec_range bs : 0 <= le_dec bs < 2 ^ (8 * Z.of_nat (length bs)).
Proof.
  induction bs as [|b t IH]; [simpl; lia|]. cbn [le_dec length].
  replace (8 * Z.of_nat (S (length t))) with (8 + 8 * Z.of_nat (length t)) by lia.
  rewrite Z.pow_add_r by lia. pose proof (Z_of_byte_range b). lia.
Qed.

(** [field bs off n] reads the [n]-byte little-endian field at offset [off]. *)
Definition field (bs : bytes) (off n : nat) : Z := le_dec (take n (drop off bs)).

Lemma field_app pre f post n :
  length f = n -> field (pre ++ f ++ post) (length pre) n = le_dec f.
Proof. intros <-. unfold field. by rewrite drop_app_length, take_app_length. Qed.

Lemma field_enc pre post n z :
  field (pre ++ le_enc n z ++ post) (length pre) n = z mod 2 ^ (8 * Z.of_nat n).
Proof. rewrite field_app by apply length_le_enc. apply le_dec_enc. Qed.

Lemma field_app_l a b off n :
  (off + n <= length a)%nat -> field (a ++ b) off n = field a off n.
Proof.
  intros. unfold field. rewrite drop_app_le by lia.
  rewrite take_app_le; [done|]. rewrite length_drop. lia.
Qed.

(** ** C strings

    [cstr mem] is the string that starts at the first byte of the memory
    region [mem]: the bytes before the first NUL. [None] when the region
    holds no NUL: reading the string runs past its end. *)

Fixpoint cstr (mem : bytes) : option bytes :=
  match mem with
  | [] => None
  | b :: t => if decide (b = NUL) then Some [] else cons b <$> cstr t
  end.

Definition no_nul (s : bytes) : Prop := NUL ∉ s.

Lemma cstr_app s rest : no_nul s -> cstr (s ++ NUL :: rest) = Some s.
Proof.
  intros Hs. induction s as [|b t IH]; simpl; [done|].
  apply not_elem_of_cons in Hs as [Hb Ht].
  destruct (decide (b = NUL)); [congruence|]. by rewrite IH.
Qed.

Lemma cstr_Some mem s :
  cstr mem = Some s -> no_nul s /\ exists rest, mem = s ++ NUL :: rest.
Proof.
  revert s. induction mem as [|b t IH]; intros s H; simpl in H; [done|].
  destruct (decide (b = NUL)) as [->|Hb]; simplify_eq.
  - split; [apply not_elem_of_nil|by exists t].
  - destruct (cstr t) as [s'|] eqn:E; simplify_eq/=.
    destruct (IH s' eq_refl) as (? & rest & ->).
    split; [apply not_elem_of_cons; auto|by exists rest].
Qed.

(** ** Outcomes of a run

    Undefined behaviour of the C program is a value: the fault that the run
    meets. [OutOfFuel] is the model's own: a loop bound was too small. *)

Inductive fault :=
| UseAfterFree
| NullDeref
| OutOfBounds
| UninitRead
| AssertFail
| IntOverflow
| UndefinedCall
| OutOfFuel.

#[export] Instance fault_eq_decision : EqDecision fault.
Proof. solve_decision. Defined.

Inductive res (A : Type) : Type :=
| Ok (a : A)
| Fault (f : fault).
Arguments Ok {A} a.
Arguments Fault {A} f.

(** Stateful code that may fault. *)
Definition M (S A : Type) : Type := S -> res (A * S).

#[export] Instance M_ret {S} : MRet (M S) := fun A a s => Ok (a, s).
#[export] Instance M_bind {S} : MBind (M S) := fun A B k m s =>
  match m s with
  | Ok (a, s') => k a s'
  | Fault f => Fault f
  end.

Definition fail {S A} (f : fault) : M S A := fun _ => Fault f.
Definition gets {S A} (g : S -> A) : M S A := fun s => Ok (g s, s).
Definition modify {S} (g : S -> S) : M S unit := fun s => Ok (tt, g s).

(** Fault unless the option holds a value. *)
Definition unwrap {S A} (f : fault) (o : option A) : M S A :=
  match o with Some a => mret a | None => fail f end.

(** [assert(3)]. *)
Definition assert {S} (b : bool) : M S unit :=
  if b then mret tt else fail AssertFail.

(** Run code on a part of the state. *)
Definition zoom {S T A} (g : S -> T) (p : T -> S -> S) (m : M T A) : M S A :=
  fun s => match m (g s) with
           | Ok (a, t) => Ok (a, p t s)
           | Fault f => Fault f
           end.

(** ** Weakest preconditions

    [wp m Q E s]: run from [s], [m] ends in a result and a state that satisfy
    [Q], or meets a fault that satisfies [E]. *)

Definition wp {S A} (m : M S A) (Q : A -> S -> Prop) (E : fault -> Prop) (s : S) : Prop :=
  match m s with
  | Ok (a, s') => Q a s'
  | Fault f => E f
  end.

(** No fault at all. *)
Definition safe (f : fault) : Prop := False.

Section wp_rules.
Context {S : Type}.
Implicit Types (E : fault -> Prop) (s : S).

Lemma wp_ret {A} (a : A) Q E s : wp (mret a) Q E s <-> Q a s.
Proof. done. Qed.

Lemma wp_bind {A B} (m : M S A) (k : A -> M S B) Q E s :
  wp (m ≫= k) Q E s <-> wp m (fun a s' => wp (k a) Q E s') E s.
Proof. unfold wp, mbind, M_bind. by destruct (m s) as [[a s']|f]. Qed.

Lemma wp_gets {A} (g : S -> A) Q E s : wp (gets g) Q E s <-> Q (g s) s.
Proof. done. Qed.

Lemma wp_modify (g : S -> S) Q E s : wp (modify g) Q E s <-> Q tt (g s).
Proof. done. Qed.

Lemma wp_fail {A} f (Q : A -> S -> Prop) E s : wp (fail f) Q E s <-> E f.
Proof. done. Qed.

Lemma wp_unwrap {A} f (o : option A) (Q : A -> S -> Prop) E s :
  wp (unwrap f o) Q E s <-> match o with Some a => Q a s | None => E f end.
Proof. by destruct o. Qed.

Lemma wp_assert b (Q : unit -> S -> Prop) E s :
  wp (assert b) Q E s <-> if b then Q tt s else E AssertFail.
Proof. by destruct b. Qed.

Lemma wp_zoom {T A} (g : S -> T) (p : T -> S -> S) (m : M T A) Q E s :
  wp (zoom g p m) Q E s <-> wp m (fun a t => Q a (p t s)) E (g s).
Proof. unfold wp, zoom. by destruct (m (g s)) as [[a t]|f]. Qed.

Lemma wp_if {A} (b : bool) (m1 m2 : M S A) Q E s :
  wp (if b then m1 else m2) Q E s <-> if b then wp m1 Q E s else wp m2 Q E s.
Proof. by destruct b. Qed.

Lemma wp_mono {A} (m : M S A) (Q Q' : A -> S -> Prop) E E' s :
  wp m Q E s -> (forall a s', Q a s' -> Q' a s') -> (forall f, E f -> E' f) ->
  wp m Q' E' s.
Proof. unfold wp. destruct (m s) as [[a s']|f]; auto. Qed.

Lemma wp_self {A} (m : M S A) (Q : A -> S -> Prop) E s :
  wp m Q E s -> wp m (fun a s' => m s = Ok (a, s') /\ Q a s') (fun f => m s = Fault f /\ E f) s.
Proof. unfold wp. by destruct (m s) as [[a s']|f]. Qed.

Lemma wp_safe {A} (m : M S A) (Q : A -> S -> Prop) s :
  wp m Q safe s <-> exists a s', m s = Ok (a, s') /\ Q a s'.
Proof.
  unfold wp. split.
  - destruct (m s) as [[a s']|f]; [eauto|done].
  - by intros (a & s' & -> & ?).
Qed.

Lemma wp_eq {A} (m : M S A) a s' s :
  m s = Ok (a, s') <-> wp m (fun x t => x = a /\ t = s') safe s.
Proof.
  rewrite wp_safe. split; [eauto|]. by intros (? & ? & ? & -> & ->).
Qed.

Lemma wp_fault {A} (m : M S A) f s :
  m s = Fault f <-> wp m (fun _ _ => False) (eq f) s.
Proof. unfold wp. destruct (m s) as [[a s']|g]; split; congruence || done. Qed.

(** What is known of a run that is known to end. *)
Lemma wp_Ok {A} (m : M S A) Q E s a s' : wp m Q E s -> m s = Ok (a, s') -> Q a s'.
Proof. intros H Hm. unfold wp in H. by rewrite Hm in H. Qed.
End wp_rules.

Create Rewrite HintDb wp.
#[export] Hint Rewrite @wp_ret @wp_bind @wp_gets @wp_modify @wp_fail @wp_unwrap
  @wp_assert @wp_zoom : wp.

(** One pass of the rules at the head of the goal. *)
Ltac wp_step :=
  first [ rewrite wp_bind | rewrite wp_ret | rewrite wp_gets | rewrite wp_modify
        | rewrite wp_fail | rewrite wp_unwrap | rewrite wp_assert | rewrite wp_zoom ].
Ltac wp_steps := repeat (wp_step; cbn beta).

(** Apply a specification lemma to the run at the head of the goal. *)
Tactic Notation "wp_apply" open_constr(lem) :=
  eapply wp_mono; [eapply lem | cbn beta | try done].

(** ** Lists *)

Lemma last_cons_ne {A} (x : A) l : l <> [] -> last (x :: l) = last l.
Proof. by destruct l. Qed.

Lemma head_app_ne {A} (l k : list A) : l <> [] -> head (l ++ k) = head l.
Proof. by destruct l. Qed.

Lemma Forall_snoc {A} (P : A -> Prop) l x : Forall P (l ++ [x]) <-> Forall P l /\ P x.
Proof. by rewrite Forall_app, Forall_singleton. Qed.
