(* ===== verification/World.v ===== *)
(** * The world around the program

    The libraries the program calls (libc, 0MQ, the Lustre API) are not part of
    it. A run is a sequence of calls to them, its trace; what a call answers is
    an arbitrary function of the trace so far, the [World]. Nothing is assumed
    of it: the theorems hold for every world, and a theorem that needs a
    documented behaviour of a library names it as a hypothesis. *)
From S2P Require Import Prelude.
Local Open Scope Z_scope.

(** The calls. [Alloc] is [malloc], [calloc] or [realloc] of that many bytes;
    [ZmqSend] carries the frame and whether [ZMQ_SNDMORE] is set. *)
Inductive extcall :=
| Alloc (size : Z)
| ZmqCtxNew
| ZmqSocket
| ZmqSetIdentity (id : bytes)
| ZmqConnect (url : bytes)
| ZmqBind (url : bytes)
| ZmqSend (frame : bytes) (more : bool)
| ZmqMsgInit
| ZmqMsgRecv (flags : Z)
| ZmqRecv (buflen : Z)
| ZmqGetRcvMore
| ZmqPoll (timeout : Z)
| ZmqClose
| ZmqCtxDestroy
| ClockGettime
| GetTimeOfDay
| Sigaction (signo : Z)
| Sleep (seconds : Z)
| Dlopen (name : bytes)
| Dlsym (handle : Z) (symbol : bytes)
| Dlerror
| Dlclose (handle : Z)
| CallSymbol (address : Z)
| Fopen (name : bytes)
| Sscanf (line : bytes)
| PthreadAttrInit
| PthreadAttrSetdetachstate
| PthreadCreate (idx : Z)
| PthreadJoin (idx : Z)
| Errno
| ReadTerminateSig
| LlapiChangelogStart (flags : Z) (device : bytes) (startrec : Z)
| LlapiChangelogRecv
| LlapiChangelogClear (device reader : bytes) (endrec : Z)
| LlapiChangelogFini
| LlapiChangelogFree.

(** A call and its answer. A negative answer [- e] is a failure that leaves
    [e] in [errno] (for an allocation: [NULL]); the code reads [errno] right
    after the call. [Sscanf] is the result of a [sscanf] that stored nothing: 0 or
    [EOF]. [Errno] is a read of [errno] that follows no failed call. *)
Abbreviation event := (extcall * Z)%type.
Abbreviation trace := (list (extcall * Z)).

Class World := {
  w_rc : trace -> extcall -> Z;
  (** The seconds of the clock that was just read, and their fraction:
      [tv_nsec] of [clock_gettime], [tv_usec] of [gettimeofday]. *)
  w_clock : trace -> Z * Z;
  (** The record that a successful [llapi_changelog_recv] returns. *)
  w_rec : trace -> bytes;
  (** The frame that a successful 0MQ receive returns, and whether more frames
      of the same message follow. *)
  w_frame : trace -> bytes * bool;
  (** The [revents] of the item that a [zmq_poll] just looked at. *)
  w_revents : trace -> Z;
}.

Definition ZMQ_POLLIN := 1.

(** What 0MQ documents of [zmq_poll]: the items of which it reports an event
    have the event that was asked for. *)
Definition poll_documented `{World} : Prop :=
  forall t timeout, let z := w_rc t (ZmqPoll timeout) in
    0 < z -> Z.land (w_revents (t ++ [(ZmqPoll timeout, z)])) ZMQ_POLLIN <> 0.

(** POSIX leaves it undefined to join a thread that was created detached; an
    implementation may tell, with EINVAL. *)
Definition EINVAL := 22.
Definition joins_detected `{World} : Prop := forall t i, w_rc t (PthreadJoin i) = EINVAL.

(** The clock shows [now] at some point; an allocation fails at some point. *)
Definition shown `{World} (now : Z * Z) : Prop := exists t, now = w_clock t.
Definition out_of_memory `{World} : Prop := exists t size, w_rc t (Alloc size) < 0.

(** 0MQ refuses a frame at some point. *)
Definition send_refused `{World} : Prop := exists t f more, w_rc t (ZmqSend f more) < 0.

(** Some call fails. *)
Definition call_fails `{World} : Prop := exists t c, w_rc t c < 0.

Lemma memory_fails `{World} : out_of_memory -> call_fails.
Proof. intros (t & size & Hz). by exists t, (Alloc size). Qed.
Lemma send_fails `{World} : send_refused -> call_fails.
Proof. intros (t & f & more & Hz). by exists t, (ZmqSend f more). Qed.
Lemma call_failed `{World} t c : w_rc t c < 0 -> call_fails.
Proof. intros. by exists t, c. Qed.
#[export] Hint Resolve memory_fails send_fails call_failed : core.

(** State types that record the trace of the run. *)
Class HasTrace (S : Type) := {
  s_trace : S -> trace;
  s_put : trace -> S -> S;
}.

Class HasTraceLaws (S : Type) {HT : HasTrace S} := {
  s_trace_put : forall t s, s_trace (s_put t s) = t;
  s_put_put : forall t t' s, s_put t (s_put t' s) = s_put t s;
  s_put_trace : forall s, s_put (s_trace s) s = s;
}.

#[export] Instance trace_has_trace : HasTrace trace := {
  s_trace t := t;
  s_put t _ := t;
}.
#[export] Instance trace_has_trace_laws : HasTraceLaws trace.
Proof. by constructor. Qed.

(** Make a call: its answer, and one more event in the trace. *)
Definition ext `{World, HasTrace St} (c : extcall) : M St Z := fun s =>
  let z := w_rc (s_trace s) c in
  Ok (z, s_put (s_trace s ++ [(c, z)]) s).

(** A memory allocation of [size] bytes: whether it succeeded. *)
Definition alloc `{World, HasTrace St} (size : Z) : M St bool :=
  z ← ext (Alloc size); mret (0 <=? z).

Section rules.
Context `{World, HasTraceLaws St}.

Definition logged (c : extcall) (s : St) : St :=
  s_put (s_trace s ++ [(c, w_rc (s_trace s) c)]) s.

Lemma wp_ext c (Q : Z -> St -> Prop) E s :
  wp (ext c) Q E s <-> Q (w_rc (s_trace s) c) (logged c s).
Proof. done. Qed.

Lemma wp_alloc sz (Q : bool -> St -> Prop) E s :
  wp (alloc sz) Q E s <->
  Q (0 <=? w_rc (s_trace s) (Alloc sz)) (logged (Alloc sz) s).
Proof. unfold alloc. by rewrite wp_bind, wp_ext, wp_ret. Qed.

Lemma alloc_failed t sz : (0 <=? w_rc t (Alloc sz)) = false -> out_of_memory.
Proof. intros Hf%Z.leb_gt. by exists t, sz. Qed.
End rules.

#[export] Hint Rewrite @wp_ext @wp_alloc : wp.

(** [extends s t s']: from [s] to [s'] only the calls [t] were made. *)
Definition extends `{HasTrace St} (s : St) (t : trace) (s' : St) : Prop :=
  s' = s_put (s_trace s ++ t) s.

Section extends.
Context `{HasTraceLaws St}.

Lemma extends_refl (s : St) : extends s [] s.
Proof. unfold extends. by rewrite app_nil_r, s_put_trace. Qed.

Lemma extends_trace (s s' : St) t : extends s t s' -> s_trace s' = s_trace s ++ t.
Proof. intros ->. apply s_trace_put. Qed.

Lemma extends_nil (s s' : St) : extends s [] s' -> s' = s.
Proof. intros ->. by rewrite app_nil_r, s_put_trace. Qed.

Lemma extends_trans (s s1 s2 : St) t1 t2 :
  extends s t1 s1 -> extends s1 t2 s2 -> extends s (t1 ++ t2) s2.
Proof. unfold extends. intros -> ->. by rewrite s_trace_put, s_put_put, app_assoc. Qed.

Lemma extends_logged `{World} c (s : St) : extends s [(c, w_rc (s_trace s) c)] (logged c s).
Proof. done. Qed.

(** Whatever the trace does not change, a call does not change. *)
Lemma extends_inv (P : St -> Prop) s t s' :
  (forall t s, P s -> P (s_put t s)) -> extends s t s' -> P s -> P s'.
Proof. intros HP -> Hs. by apply HP. Qed.
End extends.

#[export] Hint Resolve extends_refl extends_logged : core.

(** The frames that were handed to the socket, with their [ZMQ_SNDMORE] flag. *)
Definition frames_of (t : trace) : list (bytes * bool) :=
  omap (fun e => match e with
                 | (ZmqSend f more, z) => if 0 <=? z then Some (f, more) else None
                 | _ => None
                 end) t.

Lemma frames_of_app t1 t2 : frames_of (t1 ++ t2) = frames_of t1 ++ frames_of t2.
Proof. apply omap_app. Qed.

(** The upstream acknowledgements: device, reader and record number. *)
Definition clears_of (t : trace) : list (bytes * bytes * Z) :=
  omap (fun e => match e with
                 | (LlapiChangelogClear d r n, z) =>
                     if 0 <=? z then Some (d, r, n) else None
                 | _ => None
                 end) t.

Lemma clears_of_app t1 t2 : clears_of (t1 ++ t2) = clears_of t1 ++ clears_of t2.
Proof. apply omap_app. Qed.

(** A trace that neither sends nor acknowledges anything. *)
Definition silent (t : trace) : Prop := frames_of t = [] /\ clears_of t = [].

Lemma silent_app t1 t2 : silent t1 -> silent t2 -> silent (t1 ++ t2).
Proof.
  unfold silent. rewrite frames_of_app, clears_of_app. by intros [-> ->] [-> ->].
Qed.

(** The answers of the upstream log to its opening and to the reads. *)
Definition recvs_of (t : trace) : list Z :=
  omap (fun e => match e with
                 | (LlapiChangelogStart _ _ _, z) | (LlapiChangelogRecv, z) => Some z
                 | _ => None
                 end) t.

Lemma recvs_of_app t1 t2 : recvs_of (t1 ++ t2) = recvs_of t1 ++ recvs_of t2.
Proof. apply omap_app. Qed.

(** The records that upstream handed out in [t], [pre] being the trace before. *)
Fixpoint received `{World} (pre t : trace) : list bytes :=
  match t with
  | [] => []
  | e :: t' =>
      match e with
      | (LlapiChangelogRecv, z) => if z =? 0 then [w_rec (pre ++ [e])] else []
      | _ => []
      end ++ received (pre ++ [e]) t'
  end.

Section received.
Context `{World}.

Lemma received_app pre t1 t2 :
  received pre (t1 ++ t2) = received pre t1 ++ received (pre ++ t1) t2.
Proof.
  revert pre. induction t1 as [|e t1 IH]; intros pre; simpl; [by rewrite app_nil_r|].
  by rewrite IH, <- (app_assoc pre [e]), app_assoc.
Qed.

Lemma received_nil pre t : recvs_of t = [] -> received pre t = [].
Proof.
  revert pre. induction t as [|[c z] t IH]; intros pre; [done|].
  cbn [received recvs_of omap]. destruct c; try done; intros Ht; apply (IH _ Ht).
Qed.
End received.

(** ** Error numbers (Linux) *)

Definition ENOENT := 2.
Definition EINTR := 4.
Definition EAGAIN := 11.
Definition ENOMEM := 12.
Definition ENODEV := 19.
Definition EPROTO := 71.
Definition EOVERFLOW := 75.
Definition EALREADY := 114.

(** A world where every call succeeds, for the examples: allocations, sends
    and connections answer 0, the clock stands at [now]. *)
Definition quiet_world (now : Z) : World := {|
  w_rc _ _ := 0;
  w_clock _ := (now, 0);
  w_rec _ := [];
  w_frame _ := ([], false);
  w_revents _ := ZMQ_POLLIN;
|}.

(** ** Changelog records

    What the source uses of a [struct changelog_rec] of the Lustre API: the
    argument is the memory that starts at the record; [changelog_rec_name] is
    the offset of the name. *)
Class ChangelogRec := {
  cr_index : bytes -> Z;
  cr_namelen : bytes -> Z;
  changelog_rec_size : bytes -> Z;
  changelog_rec_name : bytes -> Z;
  sizeof_changelog_rec : Z;
  CHANGELOG_FLAG_FOLLOW : Z;
  CHANGELOG_FLAG_BLOCK : Z;
  CHANGELOG_FLAG_JOBID : Z;
}.

(** The bytes of a record that are copied: header, extensions and name. *)
Definition rec_len `{ChangelogRec} (r : bytes) : Z := changelog_rec_size r + cr_namelen r.

(** What the Lustre API documents of the layout: the header and its extensions
    come first, the name follows them, and all fields are in the header. *)
Class ChangelogRecLaws `{ChangelogRec} : Prop := {
  crl_sizeof : 0 < sizeof_changelog_rec;
  crl_size : forall r, sizeof_changelog_rec <= changelog_rec_size r;
  crl_name : forall r, changelog_rec_name r = changelog_rec_size r;
  crl_namelen : forall r, 0 <= cr_namelen r;
  crl_header : forall r rest, sizeof_changelog_rec <= Z.of_nat (length r) ->
    cr_index (r ++ rest) = cr_index r /\ cr_namelen (r ++ rest) = cr_namelen r /\
    changelog_rec_size (r ++ rest) = changelog_rec_size r;
}.
