(* ===== verification/Queue.v ===== *)
(** * The intrusive doubly linked list ([src/include/queue.h])

    Nodes are embedded in their containers: a node and its container have the
    same location here, so [list_entry] (a constant pointer offset) is the
    identity. The operations read and write the nodes of a shared heap in the
    order of the source; [is_list] says which list of locations a header and a
    heap represent, and one theorem per operation says what it does to it. *)
From S2P Require Import Prelude.
Local Open Scope Z_scope.

Abbreviation loc := positive.
(** A C pointer to an object of the model: [None] is [NULL]. *)
Abbreviation ptr := (option loc).

Record list_node := mkNode { ln_prev : ptr; ln_next : ptr }.
Record list_hd := mkList { l_count : Z; l_first : ptr; l_last : ptr }.

Definition EMPTY_LIST_INITIALIZER : list_hd := mkList 0 None None.

Abbreviation nheap := (gmap loc list_node).

(** A list header and the heap that its nodes live in. *)
Record qst := mkQ { q_list : list_hd; q_heap : nheap }.

Definition load_node (l : loc) : M qst list_node := fun s =>
  match q_heap s !! l with
  | Some nd => Ok (nd, s)
  | None => Fault UseAfterFree
  end.

Definition store_node (l : loc) (nd : list_node) : M qst unit :=
  load_node l;; modify (fun s => mkQ (q_list s) (<[l := nd]> (q_heap s))).

Definition set_next (l : loc) (p : ptr) : M qst unit :=
  nd ← load_node l; store_node l (mkNode (ln_prev nd) p).
Definition set_prev (l : loc) (p : ptr) : M qst unit :=
  nd ← load_node l; store_node l (mkNode p (ln_next nd)).

Definition set_first (p : ptr) : M qst unit :=
  modify (fun s => mkQ (mkList (l_count (q_list s)) p (l_last (q_list s))) (q_heap s)).
Definition set_last (p : ptr) : M qst unit :=
  modify (fun s => mkQ (mkList (l_count (q_list s)) (l_first (q_list s)) p) (q_heap s)).
Definition add_count (d : Z) : M qst unit :=
  modify (fun s => mkQ (mkList (l_count (q_list s) + d)
                               (l_first (q_list s)) (l_last (q_list s))) (q_heap s)).

Definition list_append (n : loc) : M qst unit :=
  last ← gets (l_last ∘ q_list);
  match last with Some p => set_next p (Some n) | None => mret tt end;;
  set_prev n last;;
  set_next n None;;
  cnt ← gets (l_count ∘ q_list);
  (if cnt =? 0 then set_first (Some n) else mret tt);;
  set_last (Some n);;
  add_count 1.

Definition list_remove (n : loc) : M qst unit :=
  nd ← load_node n;
  match ln_prev nd with
  | Some p => set_next p (ln_next nd)
  | None => set_first (ln_next nd)
  end;;
  nd ← load_node n;
  match ln_next nd with
  | Some q => set_prev q (ln_prev nd)
  | None => set_last (ln_prev nd)
  end;;
  set_prev n None;;
  set_next n None;;
  add_count (-1).

Definition list_pop_head : M qst ptr :=
  first ← gets (l_first ∘ q_list);
  match first with
  | None => mret None
  | Some n =>
      nd ← load_node n;
      set_first (ln_next nd);;
      match ln_next nd with Some q => set_prev q None | None => mret tt end;;
      add_count (-1);;
      cnt ← gets (l_count ∘ q_list);
      first ← gets (l_first ∘ q_list);
      (if (cnt =? 1) || (cnt =? 0) then set_last first else mret tt);;
      set_prev n None;;
      set_next n None;;
      mret (Some n)
  end.

Definition list_insert_before (n inserted : loc) : M qst unit :=
  nd ← load_node n;
  set_prev inserted (ln_prev nd);;
  set_next inserted (Some n);;
  nd ← load_node n;
  match ln_prev nd with
  | Some p => set_next p (Some inserted)
  | None => set_first (Some inserted)
  end;;
  set_prev n (Some inserted);;
  add_count 1.

(** [while (lst->l_count > 0) list_pop_head(lst);] *)
Fixpoint list_empty (fuel : nat) : M qst unit :=
  match fuel with
  | O => fail OutOfFuel
  | S fuel =>
      cnt ← gets (l_count ∘ q_list);
      if 0 <? cnt then list_pop_head;; list_empty fuel else mret tt
  end.

(** ** Representation *)

(** [dseg h pv xs nx]: the nodes [xs] of [h] are chained both ways, the first
    one's previous node being [pv] and the last one's next node [nx]. *)
Fixpoint dseg (h : nheap) (pv : ptr) (xs : list loc) (nx : ptr) : Prop :=
  match xs with
  | [] => True
  | x :: t => h !! x = Some (mkNode pv (from_option Some nx (head t)))
              /\ dseg h (Some x) t nx
  end.

Record is_list (s : qst) (xs : list loc) : Prop := {
  il_nodup : NoDup xs;
  il_count : l_count (q_list s) = Z.of_nat (length xs);
  il_first : l_first (q_list s) = head xs;
  il_last : l_last (q_list s) = last xs;
  il_seg : dseg (q_heap s) None xs None;
}.

(** The part of the heap that an operation on the nodes [xs] must leave alone. *)
Definition same_outside (xs : list loc) (h h' : nheap) : Prop :=
  forall l, l ∉ xs -> h' !! l = h !! l.

Definition last_or (pv : ptr) (xs : list loc) : ptr := from_option Some pv (last xs).
Definition head_or (xs : list loc) (nx : ptr) : ptr := from_option Some nx (head xs).

Lemma last_or_None xs : last_or None xs = last xs.
Proof. unfold last_or. by destruct (last xs). Qed.
Lemma head_or_None xs : head_or xs None = head xs.
Proof. unfold head_or. by destruct (head xs). Qed.

Section dseg.
Implicit Types (h : nheap) (xs ys : list loc).

Lemma dseg_app h pv xs ys nx :
  dseg h pv (xs ++ ys) nx <->
  dseg h pv xs (head_or ys nx) /\ dseg h (last_or pv xs) ys nx.
Proof.
  unfold last_or, head_or. revert pv.
  induction xs as [|x t IH]; intros pv; cbn [app dseg]; [simpl; tauto|].
  rewrite IH. destruct t as [|y t]; [simpl; tauto|].
  rewrite (last_cons_ne x) by done. destruct (last (y :: t)) eqn:Hl; [simpl; tauto|].
  by apply last_None in Hl.
Qed.

Lemma dseg_frame h pv xs nx l nd :
  l ∉ xs -> dseg (<[l := nd]> h) pv xs nx <-> dseg h pv xs nx.
Proof.
  revert pv. induction xs as [|x t IH]; intros pv Hl; simpl; [done|].
  apply not_elem_of_cons in Hl as [Hx Ht].
  rewrite lookup_insert_ne by done. by rewrite IH.
Qed.

Lemma dseg_same h h' pv xs nx :
  (forall l, l ∈ xs -> h' !! l = h !! l) -> dseg h pv xs nx -> dseg h' pv xs nx.
Proof.
  revert pv. induction xs as [|x t IH]; intros pv Hs; simpl; [done|].
  intros [Hx Ht]. split; [rewrite Hs by (by left); done|].
  apply IH; [|done]. intros. apply Hs. by right.
Qed.

(** Redirect the outgoing pointers of a segment. *)
Lemma dseg_set_next h pv xs p nx nx' :
  NoDup (xs ++ [p]) -> dseg h pv (xs ++ [p]) nx ->
  h !! p = Some (mkNode (last_or pv xs) nx) /\
  dseg (<[p := mkNode (last_or pv xs) nx']> h) pv (xs ++ [p]) nx'.
Proof.
  intros [_ [Hp _]]%NoDup_app. rewrite !dseg_app. intros [Hxs [Hl _]].
  assert (p ∉ xs) by (intros ?; by apply (Hp p); [|left]).
  split; [done|]. rewrite dseg_frame by done. simpl.
  by rewrite lookup_insert_eq.
Qed.

Lemma dseg_set_prev h pv pv' q ys nx :
  NoDup (q :: ys) -> dseg h pv (q :: ys) nx ->
  h !! q = Some (mkNode pv (head_or ys nx)) /\
  dseg (<[q := mkNode pv' (head_or ys nx)]> h) pv' (q :: ys) nx.
Proof.
  intros [Hq _]%NoDup_cons [Hl Ht]. split; [done|]. simpl.
  by rewrite lookup_insert_eq, dseg_frame.
Qed.

(** What a node in the middle of a list looks like. *)
Lemma dseg_mid h xs x ys :
  dseg h None (xs ++ x :: ys) None -> h !! x = Some (mkNode (last xs) (head ys)).
Proof.
  intros [_ [Hx _]]%dseg_app. fold (head_or ys None) in Hx.
  by rewrite last_or_None, head_or_None in Hx.
Qed.
End dseg.

(** ** What a represented list gives to the code that walks it *)

Lemma is_list_mid s xs x ys :
  is_list s (xs ++ x :: ys) -> q_heap s !! x = Some (mkNode (last xs) (head ys)).
Proof. intros Hs. exact (dseg_mid _ _ _ _ (il_seg _ _ Hs)). Qed.

Lemma is_list_in s xs x : is_list s xs -> x ∈ xs -> is_Some (q_heap s !! x).
Proof.
  intros Hs (l1 & l2 & ->)%list_elem_of_split. rewrite (is_list_mid _ _ _ _ Hs). eauto.
Qed.

Lemma is_list_same l h h' xs :
  (forall x, x ∈ xs -> h' !! x = h !! x) -> is_list (mkQ l h) xs -> is_list (mkQ l h') xs.
Proof. intros Hsame [Hnd Hc Hf Hl Hs]. constructor; try done. by apply (dseg_same h). Qed.

Lemma is_list_nil h : is_list (mkQ EMPTY_LIST_INITIALIZER h) [].
Proof. by constructor; [apply NoDup_nil_2|..]. Qed.

(** ** Reasoning rules for the accesses *)

Section access.
Context (E : fault -> Prop).

Lemma wp_load_node l nd Q s :
  q_heap s !! l = Some nd -> Q nd s -> wp (load_node l) Q E s.
Proof. intros Hl HQ. unfold wp, load_node. by rewrite Hl. Qed.

Lemma wp_store_node l nd0 nd Q s :
  q_heap s !! l = Some nd0 ->
  Q tt (mkQ (q_list s) (<[l := nd]> (q_heap s))) -> wp (store_node l nd) Q E s.
Proof. intros Hl HQ. unfold store_node. wp_step. by eapply wp_load_node. Qed.

Lemma wp_set_next l nd p Q s :
  q_heap s !! l = Some nd ->
  Q tt (mkQ (q_list s) (<[l := mkNode (ln_prev nd) p]> (q_heap s))) ->
  wp (set_next l p) Q E s.
Proof.
  intros Hl HQ. unfold set_next. wp_step. eapply wp_load_node; [done|].
  by eapply wp_store_node.
Qed.

Lemma wp_set_prev l nd p Q s :
  q_heap s !! l = Some nd ->
  Q tt (mkQ (q_list s) (<[l := mkNode p (ln_next nd)]> (q_heap s))) ->
  wp (set_prev l p) Q E s.
Proof.
  intros Hl HQ. unfold set_prev. wp_step. eapply wp_load_node; [done|].
  by eapply wp_store_node.
Qed.
End access.

(** ** The operations *)

(** [q_heap] at the nodes that an update touched. *)
Ltac heap_lookup :=
  repeat first [ rewrite lookup_insert_eq | rewrite lookup_insert_ne by congruence ].

Ltac qcbn := cbn [q_list q_heap l_count l_first l_last ln_prev ln_next compose].

(** Run through the accesses whose node is known. *)
Ltac q_step :=
  first [ wp_step; cbn beta
        | progress unfold set_first, set_last, add_count
        | progress qcbn
        | eapply wp_load_node; [solve [qcbn; heap_lookup; done]|]
        | eapply wp_set_next; [solve [qcbn; heap_lookup; done]|]
        | eapply wp_set_prev; [solve [qcbn; heap_lookup; done]|] ].
Ltac q_steps := repeat q_step; qcbn.

(** [n->ln_prev = NULL; n->ln_next = NULL;], the end of the removing operations. *)
Lemma wp_clear_links {B} n nd (k : M qst B) Q E s :
  q_heap s !! n = Some nd ->
  wp k Q E (mkQ (q_list s) (<[n := mkNode None None]> (q_heap s))) ->
  wp (set_prev n None;; set_next n None;; k) Q E s.
Proof. intros Hn Hk. q_steps. by rewrite insert_insert_eq. Qed.

Lemma nodup_snoc (xs : list loc) n : n ∉ xs -> NoDup xs -> NoDup (xs ++ [n]).
Proof.
  intros Hn Hxs. apply NoDup_app. repeat split; [done| |apply NoDup_singleton].
  intros x Hx ->%list_elem_of_singleton. done.
Qed.

Section operations.
Implicit Types (s : qst) (xs ys : list loc).

Lemma list_append_spec s xs n :
  is_list s xs -> n ∉ xs -> is_Some (q_heap s !! n) ->
  wp (list_append n) (fun _ s' => is_list s' (xs ++ [n])
    /\ same_outside (n :: xs) (q_heap s) (q_heap s')) safe s.
Proof.
  intros [Hnd Hc Hf Hl Hs] Hn [nd Hh]. unfold list_append. wp_steps.
  destruct xs as [|p ys _] using rev_ind; simpl in *.
  - rewrite Hl. q_steps. rewrite Hc. simpl. q_steps.
    split; [|intros l Hl'; simpl; by rewrite !lookup_insert_ne by set_solver].
    constructor; simpl; [apply NoDup_singleton|lia|done|done|].
    split; [by heap_lookup|done].
  - rewrite last_snoc in Hl. rewrite Hl.
    destruct (dseg_set_next _ None ys p None (Some n) Hnd Hs) as [Hp Hs'].
    assert (n <> p) by set_solver. q_steps.
    rewrite length_app in Hc. simpl in Hc.
    destruct (Z.eqb_spec (l_count (q_list s)) 0) as [H0|_]; [lia|].
    q_steps. split.
    + constructor; simpl; [by apply nodup_snoc| | | |].
      * rewrite !length_app. simpl. lia.
      * rewrite Hf. by rewrite (head_app_ne (ys ++ [p])) by (by destruct ys).
      * by rewrite last_snoc.
      * apply dseg_app. split; [by rewrite !dseg_frame by done|].
        unfold last_or. rewrite last_snoc. split; [by heap_lookup|done].
    + intros l Hl'. simpl. by rewrite !lookup_insert_ne by set_solver.
Qed.

(** Cut a node out of a chain: its neighbours now point at each other. *)
Lemma dseg_cut (h : nheap) xs n ys :
  NoDup (xs ++ n :: ys) -> dseg h None (xs ++ n :: ys) None ->
  let h1 := match last xs with
            | Some p => <[p := mkNode (last (take (length xs - 1) xs)) (head ys)]> h
            | None => h end in
  let h2 := match head ys with
            | Some q => <[q := mkNode (last xs) (head (drop 1 ys))]> h1
            | None => h1 end in
  (forall p, last xs = Some p ->
     h !! p = Some (mkNode (last (take (length xs - 1) xs)) (Some n))) /\
  (forall q, head ys = Some q -> h1 !! q = Some (mkNode (Some n) (head (drop 1 ys)))) /\
  dseg h2 None (xs ++ ys) None.
Proof.
  intros Hnd Hs h1 h2.
  assert (Hx : dseg h1 None xs (head ys) /\ dseg h1 (Some n) ys None /\
    forall p, last xs = Some p ->
     h !! p = Some (mkNode (last (take (length xs - 1) xs)) (Some n))).
  { apply dseg_app in Hs as [Hxs [Hn Hys]]. apply NoDup_app in Hnd as (Hnx & Hd & Hny).
    apply NoDup_cons in Hny as [Hny Hnd']. subst h1.
    destruct xs as [|p zs _] using rev_ind; simpl; [done|].
    rewrite last_snoc. destruct (dseg_set_next _ _ _ _ _ (head ys) Hnx Hxs) as [Hp Hps].
    rewrite length_app, Nat.add_sub, take_app_length. rewrite last_or_None in Hp, Hps.
    split; [done|]. split; [|by intros ? [= <-]].
    rewrite dseg_frame; [done|]. intros Hin. apply (Hd p); [|by right]. apply elem_of_app. right. by left. }
  destruct Hx as (Hxs & Hys & Hp). split; [done|].
  apply NoDup_app in Hnd as (Hnx & Hd & [Hny Hnd']%NoDup_cons).
  destruct ys as [|q zs].
  - split; [done|]. subst h2. cbn [head]. by rewrite app_nil_r.
  - destruct (dseg_set_prev h1 (Some n) (last xs) q zs None Hnd' Hys) as [Hq Hqs].
    rewrite head_or_None in Hq, Hqs. subst h2. cbn [drop head]. rewrite drop_0.
    split; [by intros ? [= <-]|]. apply dseg_app. split; [|by rewrite last_or_None].
    rewrite dseg_frame; [done|]. intros Hin. apply (Hd q); [done|]. right. left.
Qed.

Lemma nodup_cut {A} (xs : list A) n (ys : list A) :
  NoDup (xs ++ n :: ys) -> (n ∉ xs ++ ys) /\ NoDup (xs ++ ys).
Proof. rewrite <- Permutation_middle. apply NoDup_cons. Qed.

Lemma list_remove_spec s xs n ys :
  is_list s (xs ++ n :: ys) ->
  wp (list_remove n) (fun _ s' => is_list s' (xs ++ ys)
    /\ q_heap s' !! n = Some (mkNode None None)
    /\ same_outside (xs ++ n :: ys) (q_heap s) (q_heap s')) safe s.
Proof.
  intros [Hnd Hc Hf Hl Hs].
  destruct (dseg_cut _ _ _ _ Hnd Hs) as (Hp & Hq & Hseg).
  pose proof (dseg_mid _ _ _ _ Hs) as Hn.
  destruct (nodup_cut _ _ _ Hnd) as [Hno Hnd'].
  assert (Hpx : forall p, last xs = Some p -> p ∈ xs) by (intros; by apply last_Some_elem_of).
  assert (Hqx : forall q, head ys = Some q -> q ∈ ys) by (intros; by apply head_Some_elem_of).
  rewrite length_app in Hc. cbn [length] in Hc.
  assert (Hhd : head (xs ++ ys) = if last xs is Some _ then l_first (q_list s) else head ys).
  { rewrite Hf. destruct xs as [|x xs]; [done|]. destruct (last (x :: xs)) eqn:E; [done|].
    by apply last_None in E. }
  assert (Htl : last (xs ++ ys) = if head ys is Some _ then l_last (q_list s) else last xs).
  { rewrite Hl, !last_app, last_cons. destruct ys as [|y ys]; [done|]. simpl.
    destruct (last (y :: ys)) eqn:E; [done|]. by apply last_None in E. }
  assert (Hpq : forall p q, last xs = Some p -> head ys = Some q -> p <> q).
  { intros p q H1 H2 ->. apply NoDup_app in Hnd' as (_ & Hd & _). apply (Hd q); auto. }
  unfold list_remove. q_steps.
  destruct (last xs) as [p|]; destruct (head ys) as [q|]; simpl;
    try specialize (Hp _ eq_refl); try specialize (Hq _ eq_refl);
    try specialize (Hpx _ eq_refl); try specialize (Hqx _ eq_refl);
    try specialize (Hpq _ _ eq_refl eq_refl);
    try (assert (n <> p) by set_solver); try (assert (n <> q) by set_solver);
    try rewrite lookup_insert_ne in Hq by done; q_steps.
  all: split; [constructor; simpl; [done|rewrite length_app; lia|done|done|]|].
  all: try (rewrite !dseg_frame by done; exact Hseg).
  all: split; [by heap_lookup|intros l Hl'; simpl; by rewrite !lookup_insert_ne by set_solver].
Qed.

Lemma list_pop_head_nil s : is_list s [] -> list_pop_head s = Ok (None, s).
Proof.
  intros [_ _ Hf _ _]. apply wp_eq. unfold list_pop_head. wp_steps. simpl.
  rewrite Hf. by wp_steps.
Qed.

(** Cut the head: the second node has no previous one any more. *)
Lemma is_list_pop s x xs :
  is_list s (x :: xs) ->
  let h1 := match xs with
            | y :: ys => <[y := mkNode None (head ys)]> (q_heap s)
            | [] => q_heap s end in
  let c1 := l_count (q_list s) - 1 in
  is_list (mkQ (mkList c1 (head xs)
    (if (c1 =? 1) || (c1 =? 0) then head xs else l_last (q_list s))) h1) xs /\
  q_heap s !! x = Some (mkNode None (head xs)) /\
  (forall y ys, xs = y :: ys -> q_heap s !! y = Some (mkNode (Some x) (head ys))).
Proof.
  intros [Hnd Hc Hf Hl [Hx Hs]] h1 c1. apply NoDup_cons in Hnd as [Hnx Hnd].
  fold (head_or xs None) in Hx. rewrite head_or_None in Hx. cbn [length] in Hc.
  split; [|split; [done|]].
  - subst c1. constructor; qcbn; [done|lia|done| |].
    + destruct xs as [|y [|z zs]]; cbn [length] in *; [by rewrite Hc|by rewrite Hc|].
      rewrite (proj2 (Z.eqb_neq _ 1)), (proj2 (Z.eqb_neq _ 0)) by lia. done.
    + subst h1. destruct xs as [|y ys]; [done|].
      destruct (dseg_set_prev _ (Some x) None y ys None Hnd Hs) as [_ Hys].
      by rewrite head_or_None in Hys.
  - intros y ys ->. destruct Hs as [Hy _]. fold (head_or ys None) in Hy.
    by rewrite head_or_None in Hy.
Qed.

Lemma is_list_frame s xs l nd :
  l ∉ xs -> is_list s xs -> is_list (mkQ (q_list s) (<[l := nd]> (q_heap s))) xs.
Proof.
  intros Hl [Hnd Hc Hf Hla Hs]. constructor; qcbn; try done. by apply dseg_frame.
Qed.

Lemma list_pop_head_spec s x xs :
  is_list s (x :: xs) ->
  wp list_pop_head (fun r s' => r = Some x /\ is_list s' xs
    /\ q_heap s' !! x = Some (mkNode None None)
    /\ same_outside (x :: xs) (q_heap s) (q_heap s')) safe s.
Proof.
  intros Hl. destruct (is_list_pop _ _ _ Hl) as (Hl' & Hx & Hy).
  apply il_nodup in Hl as Hnd. apply NoDup_cons in Hnd as [Hnx Hnd].
  assert (Hf : l_first (q_list s) = Some x) by apply (il_first _ _ Hl).
  assert (Hend : forall q, is_list q xs -> same_outside (x :: xs) (q_heap s) (q_heap q) ->
    q_heap q !! x = Some (mkNode None (head xs)) ->
    wp (set_prev x None;; set_next x None;; mret (Some x)) (fun r s' => r = Some x
      /\ is_list s' xs /\ q_heap s' !! x = Some (mkNode None None)
      /\ same_outside (x :: xs) (q_heap s) (q_heap s')) safe q).
  { intros q Hq Hso Hqx. eapply wp_clear_links; [done|]. q_steps.
    split; [done|]. split; [by apply is_list_frame|]. split; [by heap_lookup|].
    intros l Hl''. rewrite lookup_insert_ne by set_solver. by apply Hso. }
  unfold list_pop_head. q_steps. rewrite Hf. q_steps.
  destruct xs as [|y ys]; cbn [head] in *.
  - q_steps. replace (l_count (q_list s) + -1) with (l_count (q_list s) - 1) by lia.
    destruct (_ || _); first [rewrite wp_modify | rewrite wp_ret]; by apply Hend.
  - specialize (Hy _ _ eq_refl). assert (x <> y) by set_solver. q_steps.
    replace (l_count (q_list s) + -1) with (l_count (q_list s) - 1) by lia.
    assert (Hso : same_outside (x :: y :: ys) (q_heap s)
      (<[y := mkNode None (head ys)]> (q_heap s))).
    { intros l Hl''. by rewrite lookup_insert_ne by set_solver. }
    destruct (_ || _); first [rewrite wp_modify | rewrite wp_ret]; qcbn;
      (apply Hend; [done|done|qcbn; by heap_lookup]).
Qed.

(** Open a chain between [xs] and [n :: ys] and put [m] there. *)
Lemma dseg_insert (h : nheap) xs n ys m ndm :
  NoDup (m :: xs ++ n :: ys) -> dseg h None (xs ++ n :: ys) None ->
  let h1 := match last xs with
            | Some p => <[p := mkNode (last (take (length xs - 1) xs)) (Some m)]>
                          (<[m := ndm]> h)
            | None => <[m := ndm]> h end in
  (forall p, last xs = Some p ->
     h !! p = Some (mkNode (last (take (length xs - 1) xs)) (Some n))) /\
  h1 !! n = Some (mkNode (last xs) (head ys)) /\
  (ndm = mkNode (last xs) (Some n) ->
   dseg (<[n := mkNode (Some m) (head ys)]> h1) None (xs ++ m :: n :: ys) None).
Proof.
  intros [Hm Hnd]%NoDup_cons Hs h1. pose proof (dseg_mid _ _ _ _ Hs) as Hn.
  apply dseg_app in Hs as [Hxs Hys]. rewrite last_or_None in Hys.
  pose proof Hnd as (Hnx & Hd & Hny)%NoDup_app.
  destruct (dseg_set_prev _ _ (Some m) n ys None Hny Hys) as [_ Hys'].
  rewrite head_or_None in Hys'. assert (m <> n) by set_solver.
  destruct xs as [|p zs _] using rev_ind; subst h1; cbn [last head app] in *.
  - split; [done|]. split; [by heap_lookup|]. intros ->. split; [by heap_lookup|].
    by rewrite insert_insert_ne, (dseg_frame _ _ (n :: ys)) by done.
  - rewrite last_snoc, length_app, Nat.add_sub, take_app_length in *.
    destruct (dseg_set_next _ _ _ _ _ (Some m) Hnx Hxs) as [Hp Hps].
    rewrite last_or_None in Hp, Hps.
    assert (p <> n) by (intros ->; apply (Hd n); set_solver).
    assert (m <> p) by set_solver.
    split; [by intros ? [= <-]|]. split; [by heap_lookup|]. intros ->.
    apply dseg_app. rewrite last_or_None, last_snoc. split; [|split; [by heap_lookup|]].
    + rewrite dseg_frame by (intros Hin; apply (Hd n); set_solver).
      rewrite insert_insert_ne by done. by rewrite dseg_frame by set_solver.
    + rewrite insert_insert_ne, (dseg_frame _ _ (n :: ys)) by
        (done || (intros Hin; apply (Hd p); set_solver)).
      by rewrite insert_insert_ne, (dseg_frame _ _ (n :: ys)) by set_solver.
Qed.

Lemma list_insert_before_spec s xs n ys m :
  is_list s (xs ++ n :: ys) -> m ∉ xs ++ n :: ys -> is_Some (q_heap s !! m) ->
  wp (list_insert_before n m) (fun _ s' => is_list s' (xs ++ m :: n :: ys)
    /\ same_outside (m :: xs ++ n :: ys) (q_heap s) (q_heap s')) safe s.
Proof.
  intros [Hnd Hc Hf Hl Hs] Hm [ndm Hhm].
  pose proof (dseg_mid _ _ _ _ Hs) as Hn.
  assert (Hmnd : NoDup (m :: xs ++ n :: ys)) by by apply NoDup_cons.
  destruct (dseg_insert _ _ _ _ _ (mkNode (last xs) (Some n)) Hmnd Hs) as (Hp & Hn1 & Hseg).
  specialize (Hseg eq_refl). rewrite length_app in Hc. cbn [length] in Hc.
  assert (Hl' : l_last (q_list s) = last (xs ++ m :: n :: ys)).
  { rewrite Hl, !last_app, !last_cons. by destruct (last ys). }
  assert (Hpx : forall p, last xs = Some p -> p ∈ xs) by (intros; by apply last_Some_elem_of).
  assert (m <> n) by set_solver. unfold list_insert_before. q_steps.
  rewrite insert_insert_eq.
  assert (Hf' : l_first (q_list s) = head xs \/ last xs = None).
  { rewrite Hf. destruct xs; auto. }
  destruct (last xs) as [p|] eqn:Elast.
  - specialize (Hp _ eq_refl). specialize (Hpx _ eq_refl).
    assert (m <> p) by set_solver.
    destruct xs as [|x xs]; [done|]. q_steps. split.
    + constructor; qcbn; [|rewrite length_app; cbn [length] in *; lia|done|done|done].
      by rewrite <- Permutation_middle.
    + intros l Hl''. by rewrite !lookup_insert_ne by set_solver.
  - apply last_None in Elast as ->. q_steps. split.
    + constructor; qcbn; [done|cbn [length app] in *; lia|done|done|done].
    + intros l Hl''. by rewrite !lookup_insert_ne by set_solver.
Qed.

Lemma list_empty_spec s xs :
  is_list s xs -> wp (list_empty (S (length xs))) (fun _ s' => is_list s' []) safe s.
Proof.
  revert s. induction xs as [|x t IH]; intros s Hs.
  - cbn [length list_empty]. q_steps. rewrite (il_count _ _ Hs). by cbn.
  - cbn [length list_empty]. q_steps. rewrite (il_count _ _ Hs).
    destruct (Z.ltb_spec 0 (Z.of_nat (length (x :: t)))); [|cbn [length] in *; lia].
    q_steps. wp_apply (list_pop_head_spec _ _ _ Hs). intros _ s' (-> & Hs' & _).
    by apply IH.
Qed.
End operations.

(** ** Properties *)

(** A node appended to a non-empty list comes out after the nodes that were
    there; the rest of the memory is untouched. *)
Theorem list_fifo (s : qst) (x : loc) (xs : list loc) (n : loc) :
  is_list s (x :: xs) -> n ∉ x :: xs -> is_Some (q_heap s !! n) ->
  wp (list_append n;; list_pop_head) (fun r s' => r = Some x /\ is_list s' (xs ++ [n])
      /\ same_outside (n :: x :: xs) (q_heap s) (q_heap s')) safe s.
Proof.
  intros Hs Hn Hh. wp_steps. wp_apply (list_append_spec _ _ _ Hs Hn Hh).
  intros _ s1 [Hs1 Hout1]. wp_apply (list_pop_head_spec s1 x (xs ++ [n]) Hs1).
  intros r s2 (-> & Hs2 & _ & Hout2). split_and!; [done|done|].
  intros l Hl. rewrite Hout2, Hout1; [done|done|]. intros Hin. apply Hl.
  rewrite !elem_of_cons, elem_of_app, list_elem_of_singleton in *. tauto.
Qed.

(** A list of two nodes, and a third node. *)
Definition two_nodes : qst :=
  mkQ (mkList 2 (Some 1%positive) (Some 2%positive))
    {[1%positive := mkNode None (Some 2%positive);
      2%positive := mkNode (Some 1%positive) None;
      3%positive := mkNode None None]}.

Lemma two_nodes_list : is_list two_nodes [1%positive; 2%positive].
Proof. split; try done. apply (bool_decide_unpack _). by vm_compute. Qed.

Lemma list_fifo_witness :
  wp (list_append 3;; list_pop_head) (fun r s' => r = Some 1%positive
      /\ is_list s' [2%positive; 3%positive]
      /\ same_outside [3%positive; 1%positive; 2%positive] (q_heap two_nodes) (q_heap s')) safe
     two_nodes.
Proof.
  apply (list_fifo two_nodes 1%positive [2%positive] 3%positive);
    [exact two_nodes_list| |by eexists].
  apply (bool_decide_unpack _). vm_compute. exact I.
Defined.

(** list_insert_before puts the node right before the given one, whether or
    not that is the head. *)
Theorem list_insert_before_correct (s : qst) (xs : list loc) (n : loc) (ys : list loc) (m : loc) :
  is_list s (xs ++ n :: ys) -> m ∉ xs ++ n :: ys -> is_Some (q_heap s !! m) ->
  wp (list_insert_before n m) (fun _ s' => is_list s' (xs ++ m :: n :: ys)
    /\ same_outside (m :: xs ++ n :: ys) (q_heap s) (q_heap s')) safe s.
Proof. apply list_insert_before_spec. Qed.

Lemma list_insert_before_correct_witness :
  wp (list_insert_before 2 3) (fun _ s' => is_list s' [1%positive; 3%positive; 2%positive]
    /\ same_outside [3%positive; 1%positive; 2%positive] (q_heap two_nodes) (q_heap s')) safe
    two_nodes.
Proof.
  apply (list_insert_before_correct two_nodes [1%positive] 2%positive [] 3%positive);
    [exact two_nodes_list| |by eexists].
  apply (bool_decide_unpack _). vm_compute. exact I.
Defined.

(** Removing a node relinks its neighbours and keeps the count, so that
    emptying the list ends with the empty list. *)
Theorem list_remove_then_empty (s : qst) (xs : list loc) (n : loc) (ys : list loc) :
  is_list s (xs ++ n :: ys) ->
  wp (list_remove n;; list_empty (length (xs ++ n :: ys))) (fun _ s' => is_list s' []) safe s /\
  wp (list_remove n) (fun _ s' => is_list s' (xs ++ ys)) safe s.
Proof.
  intros Hs. pose proof (list_remove_spec _ _ _ _ Hs) as Hrm. split.
  - wp_steps. eapply wp_mono; [exact Hrm| |done]. intros _ s1 (Hs1 & _ & _).
    replace (length (xs ++ n :: ys)) with (S (length (xs ++ ys))).
    + by apply list_empty_spec.
    + rewrite !length_app. cbn. lia.
  - eapply wp_mono; [exact Hrm| |done]. by intros _ s1 (Hs1 & _ & _).
Qed.

Lemma list_remove_then_empty_witness :
  wp (list_remove 1;; list_empty 2) (fun _ s' => is_list s' []) safe two_nodes.
Proof. apply (list_remove_then_empty two_nodes [] 1%positive [2%positive] two_nodes_list). Defined.
