(* ===== verification/Idl.v ===== *)
(** * The RPCs ([src/include/lcap_idl.h])

    The packed structures of the wire format, as the bytes that a little-endian
    machine sends and the accessors that a pointer cast gives. *)
From S2P Require Import Prelude.
Local Open Scope Z_scope.

Inductive rpc_op_type :=
| RPC_OP_START
| RPC_OP_DEQUEUE
| RPC_OP_CLEAR
| RPC_OP_FINI
| RPC_OP_ENQUEUE
| RPC_OP_ACK
| RPC_OP_SIGNAL.

#[export] Instance rpc_op_type_eq_decision : EqDecision rpc_op_type.
Proof. solve_decision. Defined.

Definition op_code (op : rpc_op_type) : Z :=
  match op with
  | RPC_OP_START => 0
  | RPC_OP_DEQUEUE => 1
  | RPC_OP_CLEAR => 2
  | RPC_OP_FINI => 3
  | RPC_OP_ENQUEUE => 4
  | RPC_OP_ACK => 5
  | RPC_OP_SIGNAL => 6
  end.

Definition RPC_OP_FIRST := op_code RPC_OP_START.
Definition RPC_OP_LAST := op_code RPC_OP_SIGNAL.

(** The enumerator of a value of the enumeration's integer type. *)
Definition op_of_code (z : Z) : option rpc_op_type :=
  if z =? 0 then Some RPC_OP_START
  else if z =? 1 then Some RPC_OP_DEQUEUE
  else if z =? 2 then Some RPC_OP_CLEAR
  else if z =? 3 then Some RPC_OP_FINI
  else if z =? 4 then Some RPC_OP_ENQUEUE
  else if z =? 5 then Some RPC_OP_ACK
  else if z =? 6 then Some RPC_OP_SIGNAL
  else None.

Lemma op_of_code_code op : op_of_code (op_code op) = Some op.
Proof. by destruct op. Qed.

Lemma op_of_code_Some z op : op_of_code z = Some op <-> z = op_code op.
Proof.
  split; [|intros ->; apply op_of_code_code]. unfold op_of_code.
  repeat (case_match; [intros [= <-]; by apply Z.eqb_eq|]). done.
Qed.

(** The range check of the two dispatchers lets exactly the enumerators pass. *)
Lemma op_of_code_range z :
  is_Some (op_of_code z) <-> RPC_OP_FIRST <= z <= RPC_OP_LAST.
Proof.
  unfold RPC_OP_FIRST, RPC_OP_LAST, op_code. split.
  - intros [op ->%op_of_code_Some]. destruct op; simpl; lia.
  - intros. unfold op_of_code. repeat (case_match; [by eexists|]). lia.
Qed.

Lemma op_of_code_valid z :
  op_of_code z = None <-> (z <? RPC_OP_FIRST) || (RPC_OP_LAST <? z) = true.
Proof.
  pose proof (op_of_code_range z) as Hr. rewrite orb_true_iff, !Z.ltb_lt.
  destruct (op_of_code z); split; try done.
  - intros Hz. destruct (proj1 Hr ltac:(eauto)). lia.
  - intros _. destruct (decide (RPC_OP_FIRST <= z <= RPC_OP_LAST)) as [Hz|Hz]; [|lia].
    by destruct (proj2 Hr Hz).
Qed.

(** ** Structures *)

Record px_rpc_hdr := { op_type : Z; reserved : Z }.

Record px_rpc_register := {
  reg_hdr : px_rpc_hdr;
  reg_flags : Z;
  reg_padding : Z;
  reg_start : Z;
  reg_mdtname : bytes;
}.

Record px_rpc_clear := {
  clear_hdr : px_rpc_hdr;
  clear_index : Z;
  clear_id_len : Z;
  clear_id : bytes;  (** the variable-length tail *)
}.

Record px_rpc_enqueue := {
  enq_hdr : px_rpc_hdr;
  enq_count : Z;
  enq_records : bytes;  (** the variable-length tail *)
}.

Record px_rpc_dequeue := { deq_hdr : px_rpc_hdr }.
Record px_rpc_fini := { fini_hdr : px_rpc_hdr }.
Record px_rpc_ack := { ack_hdr : px_rpc_hdr; ack_retcode_field : Z }.

Record px_rpc_signal := {
  sig_hdr : px_rpc_hdr;
  sig_ret : Z;
  sig_mdtname : bytes;
}.

Definition sizeof_hdr := 8.
Definition sizeof_register := 152.
Definition sizeof_clear := 20.
Definition sizeof_enqueue := 12.
Definition sizeof_dequeue := 8.
Definition sizeof_fini := 8.
Definition sizeof_ack := 12.
Definition sizeof_signal := 144.
Definition sizeof_mdtname := 128.

Definition rpc_expected_length (op : Z) : Z :=
  match op_of_code op with
  | Some RPC_OP_START => sizeof_register
  | Some RPC_OP_DEQUEUE => sizeof_dequeue
  | Some RPC_OP_CLEAR => sizeof_clear
  | Some RPC_OP_FINI => sizeof_fini
  | Some RPC_OP_ENQUEUE => sizeof_enqueue
  | Some RPC_OP_ACK => sizeof_ack
  | Some RPC_OP_SIGNAL => sizeof_signal
  | None => u64 (-1)
  end.

Definition rpc_optype2str (type : Z) : bytes :=
  match op_of_code type with
  | Some RPC_OP_ENQUEUE => of_str "ENQUEUE"
  | Some RPC_OP_START => of_str "START"
  | Some RPC_OP_DEQUEUE => of_str "DEQUEUE"
  | Some RPC_OP_CLEAR => of_str "CLEAR"
  | Some RPC_OP_FINI => of_str "FINI"
  | Some RPC_OP_ACK => of_str "ACK"
  | Some RPC_OP_SIGNAL => of_str "SIGNAL"
  | None => of_str "???"
  end.

(** ** The bytes of the structures *)

Definition enc_hdr (h : px_rpc_hdr) : bytes := le_enc 4 (op_type h) ++ le_enc 4 (reserved h).
Definition enc_register (m : px_rpc_register) : bytes :=
  enc_hdr (reg_hdr m) ++ le_enc 4 (reg_flags m) ++ le_enc 4 (reg_padding m)
  ++ le_enc 8 (reg_start m) ++ reg_mdtname m.
Definition enc_clear (m : px_rpc_clear) : bytes :=
  enc_hdr (clear_hdr m) ++ le_enc 8 (clear_index m) ++ le_enc 4 (clear_id_len m)
  ++ clear_id m.
Definition enc_enqueue (m : px_rpc_enqueue) : bytes :=
  enc_hdr (enq_hdr m) ++ le_enc 4 (enq_count m) ++ enq_records m.
Definition enc_dequeue (m : px_rpc_dequeue) : bytes := enc_hdr (deq_hdr m).
Definition enc_fini (m : px_rpc_fini) : bytes := enc_hdr (fini_hdr m).
Definition enc_ack (m : px_rpc_ack) : bytes :=
  enc_hdr (ack_hdr m) ++ le_enc 4 (ack_retcode_field m).
Definition enc_signal (m : px_rpc_signal) : bytes :=
  enc_hdr (sig_hdr m) ++ le_enc 8 (sig_ret m) ++ sig_mdtname m.

(** Reading through a cast pointer. The callers check the length first. *)
Definition get_op_type (body : bytes) : Z := field body 0 4.
Definition get_start (body : bytes) : Z := field body 16 8.
Definition get_reg_mdtname (body : bytes) : bytes := take 128 (drop 24 body).
Definition get_clear_index (body : bytes) : Z := to_s 64 (field body 8 8).
Definition get_id_len (body : bytes) : Z := to_s 32 (field body 16 4).
Definition get_count (body : bytes) : Z := field body 8 4.
Definition get_records (body : bytes) : bytes := drop 12 body.
Definition get_retcode (body : bytes) : Z := to_s 32 (field body 8 4).
Definition get_sig_ret (body : bytes) : Z := field body 8 8.
Definition get_sig_mdtname (body : bytes) : bytes := drop 16 body.

(** [rpc->pr_id] and what follows it, up to the end of the message. *)
Definition get_pr_id (body : bytes) : bytes := drop 20 body.

(** [None]: the string runs past the end of the message. *)
Definition px_rpc_get_id (body : bytes) : option bytes := cstr (get_pr_id body).
Definition px_rpc_get_mdtname (body : bytes) : option bytes :=
  id ← px_rpc_get_id body;
  cstr (drop (length id + 1) (get_pr_id body)).

(** ** Lengths and round trips *)

Lemma length_enc_hdr h : length (enc_hdr h) = 8%nat.
Proof. unfold enc_hdr. by rewrite length_app, !length_le_enc. Qed.

Create Rewrite HintDb idl_len.
#[export] Hint Rewrite @length_app length_le_enc length_enc_hdr @length_replicate
  @length_cons : idl_len.

Lemma length_enc_register m :
  length (reg_mdtname m) = 128%nat -> Z.of_nat (length (enc_register m)) = sizeof_register.
Proof. intros Hl. unfold enc_register, sizeof_register. autorewrite with idl_len. lia. Qed.

Lemma length_enc_signal m :
  length (sig_mdtname m) = 128%nat -> Z.of_nat (length (enc_signal m)) = sizeof_signal.
Proof. intros Hl. unfold enc_signal, sizeof_signal. autorewrite with idl_len. lia. Qed.

Lemma length_enc_clear m :
  Z.of_nat (length (enc_clear m)) = sizeof_clear + Z.of_nat (length (clear_id m)).
Proof. unfold enc_clear, sizeof_clear. autorewrite with idl_len. lia. Qed.

Lemma length_enc_enqueue m :
  Z.of_nat (length (enc_enqueue m)) = sizeof_enqueue + Z.of_nat (length (enq_records m)).
Proof. unfold enc_enqueue, sizeof_enqueue. autorewrite with idl_len. lia. Qed.

Lemma length_enc_dequeue m : Z.of_nat (length (enc_dequeue m)) = sizeof_dequeue.
Proof. unfold enc_dequeue. by rewrite length_enc_hdr. Qed.

Lemma length_enc_fini m : Z.of_nat (length (enc_fini m)) = sizeof_fini.
Proof. unfold enc_fini. by rewrite length_enc_hdr. Qed.

Lemma length_enc_ack m : Z.of_nat (length (enc_ack m)) = sizeof_ack.
Proof. unfold enc_ack, sizeof_ack. autorewrite with idl_len. lia. Qed.

(** The operation code is the first field of every structure. *)
Lemma get_op_type_hdr h rest :
  in_u 32 (op_type h) -> get_op_type (enc_hdr h ++ rest) = op_type h.
Proof.
  intros Hr. unfold get_op_type, enc_hdr. rewrite <- app_assoc.
  etransitivity; [apply (field_enc [] _ 4)|]. by apply Z.mod_small.
Qed.

(** A field behind a prefix of known length. *)
Lemma field_at pre f post off n :
  length pre = off -> length f = n -> field (pre ++ f ++ post) off n = le_dec f.
Proof. intros <- <-. by apply field_app. Qed.

Lemma get_retcode_ack m :
  in_s 32 (ack_retcode_field m) -> get_retcode (enc_ack m) = ack_retcode_field m.
Proof.
  intros Hr. unfold get_retcode, enc_ack.
  rewrite <- (app_nil_r (le_enc 4 _)).
  rewrite field_at by (apply length_enc_hdr || apply length_le_enc).
  rewrite le_dec_enc. by apply to_s_to_u.
Qed.

Lemma get_count_enqueue m :
  in_u 32 (enq_count m) -> get_count (enc_enqueue m) = enq_count m.
Proof.
  intros Hr. unfold get_count, enc_enqueue.
  rewrite field_at by (apply length_enc_hdr || apply length_le_enc).
  rewrite le_dec_enc. by apply Z.mod_small.
Qed.

Lemma get_records_enqueue m : get_records (enc_enqueue m) = enq_records m.
Proof.
  unfold get_records, enc_enqueue. rewrite app_assoc.
  apply drop_app_length'. by autorewrite with idl_len.
Qed.

Lemma get_start_register m :
  in_u 64 (reg_start m) -> get_start (enc_register m) = reg_start m.
Proof.
  intros Hr. unfold get_start, enc_register. rewrite !app_assoc.
  rewrite <- (app_assoc _ (le_enc 8 _)).
  rewrite field_at by (apply length_le_enc || by autorewrite with idl_len).
  rewrite le_dec_enc. by apply Z.mod_small.
Qed.

Lemma get_mdtname_register m :
  length (reg_mdtname m) = 128%nat -> get_reg_mdtname (enc_register m) = reg_mdtname m.
Proof.
  intros Hl. unfold get_reg_mdtname, enc_register. rewrite !app_assoc.
  rewrite drop_app_length' by by autorewrite with idl_len. apply take_ge. lia.
Qed.

Lemma get_sig_ret_signal m :
  in_u 64 (sig_ret m) -> get_sig_ret (enc_signal m) = sig_ret m.
Proof.
  intros Hr. unfold get_sig_ret, enc_signal.
  rewrite field_at by (apply length_enc_hdr || apply length_le_enc).
  rewrite le_dec_enc. by apply Z.mod_small.
Qed.

Lemma get_sig_mdtname_signal m : get_sig_mdtname (enc_signal m) = sig_mdtname m.
Proof.
  unfold get_sig_mdtname, enc_signal. rewrite app_assoc.
  apply drop_app_length'. by autorewrite with idl_len.
Qed.

Lemma get_clear_index_clear m :
  in_s 64 (clear_index m) -> get_clear_index (enc_clear m) = clear_index m.
Proof.
  intros Hr. unfold get_clear_index, enc_clear.
  rewrite field_at by (apply length_enc_hdr || apply length_le_enc).
  rewrite le_dec_enc. by apply to_s_to_u.
Qed.

Lemma get_pr_id_clear m : get_pr_id (enc_clear m) = clear_id m.
Proof.
  unfold get_pr_id, enc_clear. rewrite !app_assoc.
  apply drop_app_length'. by autorewrite with idl_len.
Qed.

(** The two strings of a CLEAR message, whatever follows them. *)
Lemma px_rpc_get_id_clear m id rest :
  no_nul id -> clear_id m = id ++ NUL :: rest -> px_rpc_get_id (enc_clear m) = Some id.
Proof.
  intros Hid Hm. unfold px_rpc_get_id. rewrite get_pr_id_clear, Hm. by apply cstr_app.
Qed.

Lemma px_rpc_get_mdtname_clear m id mdt rest :
  no_nul id -> no_nul mdt -> clear_id m = id ++ NUL :: mdt ++ NUL :: rest ->
  px_rpc_get_mdtname (enc_clear m) = Some mdt.
Proof.
  intros Hid Hmdt Hm. unfold px_rpc_get_mdtname.
  rewrite (px_rpc_get_id_clear _ id (mdt ++ NUL :: rest)) by done. simpl.
  rewrite get_pr_id_clear, Hm.
  change (id ++ NUL :: mdt ++ NUL :: rest) with (id ++ [NUL] ++ mdt ++ NUL :: rest).
  rewrite app_assoc, drop_app_length' by (rewrite length_app; simpl; lia).
  by apply cstr_app.
Qed.
