(* ===== verification/LcapNet.v ===== *)
(** * Receiving RPCs ([src/lcapnet/lcap_net.c], [src/include/lcap_net.h])

    A request is put together from the frames of one 0MQ message; the loop that
    receives messages hands each request to a callback. *)
From S2P Require Import Prelude World.
Local Open Scope Z_scope.

(** [struct conn_id]: [ci_length] is the length of the list. *)
Abbreviation conn_id := bytes.
Definition sizeof_conn_id := 8.
Definition ci_length (c : conn_id) : Z := Z.of_nat (length c).

Definition LCAP_RECV_NO_ENVELOPE := 1.
Definition LCAP_RECV_NONBLOCK := 2.

(** [zmq.h]: a flag of [zmq_msg_recv] and one of [zmq_send]. *)
Definition ZMQ_DONTWAIT := 1.
Definition ZMQ_SNDMORE := 2.

(** The body and its length are one list; [NULL] is the empty body. *)
Record lcapnet_request := {
  lr_flags : Z;
  lr_remote : option conn_id;
  lr_forward : option conn_id;
  lr_body : bytes;
}.

Definition lr_body_len (req : lcapnet_request) : Z := Z.of_nat (length (lr_body req)).

(** What the callback of [lcap_rpc_recv] is: the hint is part of the state. *)
Abbreviation lcap_rpc_hdl St := (lcapnet_request -> M St Z).

Section net.
Context `{World, HasTrace St}.

Definition connection_id_new (b : bytes) : M St (option conn_id) :=
  ok ← alloc (sizeof_conn_id + Z.of_nat (length b));
  mret (if ok : bool then Some b else None).

Definition lcapnet_req_init : M St (option lcapnet_request) :=
  ok ← alloc 40;
  mret (if ok : bool then Some {| lr_flags := 0; lr_remote := None;
                                  lr_forward := None; lr_body := [] |} else None).

(** [req->lr_remote == NULL && !req->lr_flags & LCAP_RECV_NO_ENVELOPE]: in C
    the negation binds tighter than [&]. *)
Definition wants_envelope (req : lcapnet_request) : bool :=
  bool_decide (lr_remote req = None) &&
  negb (Z.land (if lr_flags req =? 0 then 1 else 0) LCAP_RECV_NO_ENVELOPE =? 0).

Definition lcapnet_req_update (req : lcapnet_request) (frame : bytes)
    : M St (Z * lcapnet_request) :=
  if bool_decide (frame = []) then mret (0, req)
  else if wants_envelope req then
    cid ← connection_id_new frame;
    mret (if cid is Some _ then 0 else - ENOMEM,
          {| lr_flags := lr_flags req; lr_remote := cid;
             lr_forward := lr_forward req; lr_body := lr_body req |})
  else if bool_decide (lr_forward req = None) then
    cid ← connection_id_new frame;
    mret (if cid is Some _ then 0 else - ENOMEM,
          {| lr_flags := lr_flags req; lr_remote := lr_remote req;
             lr_forward := cid; lr_body := lr_body req |})
  else
    ok ← alloc (lr_body_len req + Z.of_nat (length frame));
    mret (if ok : bool then 0 else - ENOMEM,
          {| lr_flags := lr_flags req; lr_remote := lr_remote req;
             lr_forward := lr_forward req;
             lr_body := if ok then lr_body req ++ frame else [] |}).

(** The [for (;;)] of [lcap_rpc_recv_once]. The [flags] handed to
    [zmq_msg_recv] are the function's own, as in the source. *)
Fixpoint recv_frames (fuel : nat) (flags : Z) (req : lcapnet_request)
    : M St (Z * lcapnet_request) :=
  match fuel with
  | O => fail OutOfFuel
  | S fuel =>
      rc ← ext ZmqMsgInit;
      if rc <? 0 then mret (rc, req)
      else
        rc ← ext (ZmqMsgRecv flags);
        if rc <? 0 then mret (rc, req)
        else
          fm ← gets (fun s => w_frame (s_trace s));
          ru ← lcapnet_req_update req (fst fm);
          if fst ru <? 0 then mret ru
          else if negb (snd fm) then mret ru
          else recv_frames fuel flags (snd ru)
  end.

(** [zmq_flags], which the source computes and does not use. *)
Definition zmq_flags (flags : Z) : Z :=
  if Z.land flags LCAP_RECV_NONBLOCK =? 0 then 0 else ZMQ_DONTWAIT.

Definition lcap_rpc_recv_once (fuel : nat) (flags : Z) (cb : lcap_rpc_hdl St) : M St Z :=
  oreq ← lcapnet_req_init;
  match oreq with
  | None => mret (- ENOMEM)
  | Some req =>
      let req := {| lr_flags := if Z.land flags LCAP_RECV_NO_ENVELOPE =? 0
                                then lr_flags req
                                else Z.lor (lr_flags req) LCAP_RECV_NO_ENVELOPE;
                    lr_remote := lr_remote req; lr_forward := lr_forward req;
                    lr_body := lr_body req |} in
      ru ← recv_frames fuel flags req;
      if (0 <=? fst ru) && (0 <? lr_body_len (snd ru)) then cb (snd ru)
      else mret (fst ru)
  end.

(** [lcap_rpc_recv]: [n] bounds the messages, [fuel] the frames of each. *)
Fixpoint lcap_rpc_recv (n fuel : nat) (flags : Z) (cb : lcap_rpc_hdl St) (processed : Z)
    : M St Z :=
  match n with
  | O => fail OutOfFuel
  | S n =>
      rc ← lcap_rpc_recv_once fuel flags cb;
      if rc <? 0 then mret processed
      else lcap_rpc_recv n fuel flags cb (processed + 1)
  end.
End net.

(** ** What a message means *)

Definition nonempty (fs : list bytes) : list bytes := filter (fun f => f <> []) fs.

(** The request of a message: with an envelope the first non-empty frame is
    the peer, the next one the address and the rest the body. *)
Definition request_of (noenv : bool) (fs : list bytes) : lcapnet_request :=
  let fs := nonempty fs in
  if noenv then {| lr_flags := 1; lr_remote := None; lr_forward := head fs;
                   lr_body := concat (drop 1 fs) |}
  else {| lr_flags := 0; lr_remote := head fs; lr_forward := head (drop 1 fs);
          lr_body := concat (drop 2 fs) |}.

(** The frames that the receives of [t] returned, [pre] being the trace before. *)
Fixpoint rx `{World} (pre t : trace) : list (bytes * bool) :=
  match t with
  | [] => []
  | e :: t' =>
      match e with
      | (ZmqMsgRecv _, z) | (ZmqRecv _, z) =>
          if z <? 0 then [] else [w_frame (pre ++ [e])]
      | _ => []
      end ++ rx (pre ++ [e]) t'
  end.

(** The frames of exactly one message: all but the last announce another one. *)
Fixpoint one_message (fs : list (bytes * bool)) : Prop :=
  match fs with
  | [] => False
  | [f] => snd f = false
  | f :: fs' => snd f = true /\ one_message fs'
  end.

Section assembly.
Context `{World, HasTraceLaws St}.
Implicit Types (s : St) (fs : list bytes) (t : trace).

Lemma rx_app pre t1 t2 : rx pre (t1 ++ t2) = rx pre t1 ++ rx (pre ++ t1) t2.
Proof.
  revert pre. induction t1 as [|e t1 IH]; intros pre; simpl; [by rewrite app_nil_r|].
  by rewrite IH, <- (app_assoc pre [e]), app_assoc.
Qed.

Lemma nonempty_app fs1 fs2 : nonempty (fs1 ++ fs2) = nonempty fs1 ++ nonempty fs2.
Proof. apply filter_app. Qed.

Lemma nonempty_one f : f <> [] -> nonempty [f] = [f].
Proof. intros. unfold nonempty. by rewrite filter_cons_True. Qed.

(** The guard with the odd precedence tests what it should: the flags of a
    request are 0 or [LCAP_RECV_NO_ENVELOPE]. *)
Lemma wants_envelope_spec noenv fs :
  wants_envelope (request_of noenv fs) = negb noenv && bool_decide (nonempty fs = []).
Proof.
  unfold wants_envelope, request_of. destruct noenv; cbn [lr_flags lr_remote].
  - by rewrite bool_decide_eq_true_2.
  - change (negb _) with true. rewrite andb_true_r. apply bool_decide_ext.
    by destruct (nonempty fs).
Qed.

Lemma lcapnet_req_update_spec noenv fs f s :
  wp (lcapnet_req_update (request_of noenv fs) f) (fun ru s' => exists t,
    extends s t s' /\ silent t /\ rx (s_trace s) t = [] /\
    (fst ru = 0 /\ snd ru = request_of noenv (fs ++ [f]) \/ fst ru = - ENOMEM)) safe s.
Proof.
  unfold lcapnet_req_update, connection_id_new. rewrite wants_envelope_spec.
  destruct (bool_decide_reflect (f = [])) as [->|Hf].
  { wp_steps. exists []. split; [apply extends_refl|]. split; [done|]. split; [done|]. left. split; [done|]. simpl.
    unfold request_of. by rewrite nonempty_app, app_nil_r. }
  assert (Hnil : forall sz z, rx (s_trace s) [(Alloc sz, z)] = []) by done.
  unfold request_of. rewrite !nonempty_app, (nonempty_one f Hf).
  destruct (nonempty fs) as [|f1 [|f2 fs']] eqn:Hfs; destruct noenv; simpl; wp_steps;
    rewrite wp_alloc; wp_steps; eexists; (split; [by apply extends_logged|]);
    (split; [done|]); (split; [by apply Hnil|]); simpl;
    destruct (0 <=? _); simpl; rewrite ?app_nil_r; try tauto.
  all: left; split; [done|]; try done.
  all: rewrite ?drop_0, concat_app; simpl; by rewrite app_nil_r, ?app_assoc.
Qed.

(** The loop puts the frames of exactly one message into the request, in
    order, unless a call fails: then its error is what it returns. *)
Lemma recv_frames_spec fuel flags noenv fs0 s :
  wp (recv_frames fuel flags (request_of noenv fs0)) (fun ru s' => exists t,
    extends s t s' /\ silent t /\
    (fst ru = 0 /\ one_message (rx (s_trace s) t) /\
       snd ru = request_of noenv (fs0 ++ (rx (s_trace s) t).*1)
     \/ fst ru < 0)) (eq OutOfFuel) s.
Proof.
  revert fs0 s. induction fuel as [|fuel IH]; intros fs0 s; simpl; [done|].
  wp_steps. rewrite wp_ext. set (s1 := logged ZmqMsgInit s).
  destruct (Z.ltb_spec (w_rc (s_trace s) ZmqMsgInit) 0).
  { wp_steps. eexists. split; [by apply extends_logged|]. split; [done|]. by right. }
  wp_steps. rewrite wp_ext. set (c := ZmqMsgRecv flags). set (s2 := logged c s1).
  assert (H12 : extends s [(ZmqMsgInit, w_rc (s_trace s) ZmqMsgInit);
                           (c, w_rc (s_trace s1) c)] s2).
  { apply (extends_trans s s1 s2 [_] [_]); by apply extends_logged. }
  destruct (Z.ltb_spec (w_rc (s_trace s1) c) 0) as [|Hc].
  { wp_steps. eexists. split; [exact H12|]. split; [done|]. by right. }
  wp_steps. set (f := w_frame (s_trace s2)).
  wp_apply (lcapnet_req_update_spec noenv fs0 (fst f)).
  intros [rc req] s3 (t3 & H23 & Hs3 & Hrx3 & Hru). cbn [fst snd] in *.
  assert (Hs13 : silent ([(ZmqMsgInit, w_rc (s_trace s) ZmqMsgInit); (c, w_rc (s_trace s1) c)] ++ t3)).
  { by apply silent_app. }
  pose proof (extends_trans _ _ _ _ _ H12 H23) as H13.
  assert (Hrx : rx (s_trace s) ([(ZmqMsgInit, w_rc (s_trace s) ZmqMsgInit);
                                 (c, w_rc (s_trace s1) c)] ++ t3) = [f]).
  { rewrite rx_app. simpl. rewrite (proj2 (Z.ltb_ge _ _) Hc).
    rewrite (extends_trace _ _ _ H12) in Hrx3. rewrite Hrx3, app_nil_r. simpl. f_equal.
    subst f. rewrite (extends_trace _ _ _ H12). by rewrite <- app_assoc. }
  destruct Hru as [[-> ->]| ->]; simpl; [|wp_steps; eexists; split; [exact H13|split; [exact Hs13|by right]]].
  destruct (snd f) eqn:Hmore; simpl; wp_steps.
  - wp_apply IH. intros [rc req] s4 (t4 & H34 & Hs4 & Hr).
    exists (([(ZmqMsgInit, w_rc (s_trace s) ZmqMsgInit); (c, w_rc (s_trace s1) c)] ++ t3) ++ t4).
    split; [by apply (extends_trans _ s3)|].
    split; [by apply silent_app|]. rewrite rx_app, Hrx.
    rewrite <- (extends_trace _ _ _ H13).
    destruct Hr as [(-> & Hone & ->)|?]; [left|by right]. split; [done|].
    rewrite <- app_assoc. split; [|done]. simpl. destruct (rx _ t4); [done|]. done.
  - eexists. split; [exact H13|]. split; [exact Hs13|]. left. rewrite Hrx. done.
Qed.

Definition no_envelope (flags : Z) : bool :=
  negb (Z.land flags LCAP_RECV_NO_ENVELOPE =? 0).

(** A request with a body has an address and, with an envelope, a peer. *)
Lemma request_of_body noenv fs :
  lr_body (request_of noenv fs) <> [] ->
  is_Some (lr_forward (request_of noenv fs)) /\
  (noenv = false -> is_Some (lr_remote (request_of noenv fs))).
Proof.
  unfold request_of. destruct noenv; destruct (nonempty fs) as [|f1 [|f2 fs']];
    simpl; intros Hb; split; try done; eauto.
Qed.

(** Rule for one receive: the callback runs on the request of exactly one
    message, which has a body; otherwise an error or 0 is returned. *)
Lemma wp_lcap_rpc_recv_once fuel flags cb (Q : Z -> St -> Prop) (E : fault -> Prop) s :
  E OutOfFuel ->
  (forall t s1, extends s t s1 -> silent t -> one_message (rx (s_trace s) t) ->
     let req := request_of (no_envelope flags) (rx (s_trace s) t).*1 in
     lr_body req <> [] -> wp (cb req) Q E s1) ->
  (forall rc t s1, extends s t s1 -> silent t -> rc <= 0 -> Q rc s1) ->
  wp (lcap_rpc_recv_once fuel flags cb) Q E s.
Proof.
  intros HE Hcb Hno. unfold lcap_rpc_recv_once, lcapnet_req_init. wp_steps.
  rewrite wp_alloc. wp_steps.
  destruct (0 <=? _) eqn:Hal; wp_steps;
    [|eapply Hno; [by apply extends_logged|done|unfold ENOMEM; lia]].
  set (req := Build_lcapnet_request _ _ _ _).
  assert (req = request_of (no_envelope flags) []) as ->.
  { subst req. unfold no_envelope, request_of. by destruct (Z.land flags _ =? 0). }
  eapply wp_mono; [apply recv_frames_spec| |by intros ? <-].
  intros [rc req] s1 (t & Hext & Hs & Hr). cbn [fst snd] in *.
  set (a := (Alloc 40, w_rc (s_trace s) (Alloc 40))).
  assert (Hext' : extends s ([a] ++ t) s1) by (eapply extends_trans; [apply extends_logged|done]).
  assert (Hs' : silent ([a] ++ t)) by (by apply silent_app).
  assert (Hrx : rx (s_trace s) ([a] ++ t) = rx (s_trace (logged (Alloc 40) s)) t).
  { rewrite rx_app. simpl. unfold logged. by rewrite s_trace_put. }
  destruct Hr as [(-> & Hone & ->)|Hrc].
  - change (0 <=? 0) with true. cbn [andb app]. rewrite <- Hrx in *.
    destruct (Z.ltb_spec 0 (lr_body_len (request_of (no_envelope flags)
      (rx (s_trace s) ([a] ++ t)).*1))) as [Hl|Hl].
    + apply Hcb; [done|done|done|]. intros Hb. unfold lr_body_len in Hl. by rewrite Hb in Hl.
    + wp_steps. eapply Hno; [done|done|lia].
  - rewrite (proj2 (Z.leb_gt 0 rc)) by done. simpl. wp_steps. eapply Hno; [done|done|lia].
Qed.

(** A request that is put together from frames that 0MQ hands out. *)
Definition receivable (noenv : bool) (req : lcapnet_request) : Prop :=
  lr_body req <> [] /\ exists fs, Forall (fun f => exists t, f = fst (w_frame t)) fs /\
    req = request_of noenv fs.

Lemma rx_frames pre t : Forall (fun f => exists t, f = fst (w_frame t)) (rx pre t).*1.
Proof.
  revert pre. induction t as [|[c z] t IH]; intros pre; [by apply Forall_nil_2|].
  cbn [rx]. rewrite fmap_app. apply Forall_app. split; [|apply IH].
  destruct c; try by apply Forall_nil_2.
  all: try (destruct (_ <? _); [by apply Forall_nil_2|]).
  all: apply Forall_singleton; by eexists.
Qed.

(** Rule for the loop: what the calls and the callback preserve, it preserves,
    and the result is at least the count it started from. *)
Lemma wp_lcap_rpc_recv n fuel flags cb p (I : St -> Prop) (E : fault -> Prop) s :
  E OutOfFuel ->
  (forall t s s', extends s t s' -> silent t -> I s -> I s') ->
  (forall req s, I s -> receivable (no_envelope flags) req -> is_Some (lr_forward req) ->
     (no_envelope flags = false -> is_Some (lr_remote req)) ->
     wp (cb req) (fun _ => I) E s) ->
  I s -> wp (lcap_rpc_recv n fuel flags cb p) (fun z s' => p <= z /\ I s') E s.
Proof.
  intros HE Hext Hcb. revert p s. induction n as [|n IH]; intros p s Hs; simpl; [done|].
  wp_steps. apply wp_lcap_rpc_recv_once; [done| |].
  - intros t s1 Ht Hsil _ req Hb. destruct (request_of_body _ _ Hb) as [Hf Hr].
    wp_apply (Hcb req s1); [by apply (Hext t s)| |done..|].
    { split; [done|]. exists (rx (s_trace s) t).*1. split; [apply rx_frames|done]. }
    intros rc s2 Hs2. destruct (rc <? 0); [by wp_steps|].
    wp_apply (IH (p + 1) s2 Hs2). intros z s3 [??]. split; [lia|done].
  - intros rc t s1 Ht Hsil Hrc. pose proof (Hext _ _ _ Ht Hsil Hs) as Hs1.
    destruct (rc <? 0); [by wp_steps|].
    wp_apply (IH (p + 1) s1 Hs1). intros z s3 [??]. split; [lia|done].
Qed.

(** More fuel does not change a run that ended. *)
Lemma recv_frames_mono fuel fuel' flags req s r :
  (fuel <= fuel')%nat -> recv_frames fuel flags req s = Ok r ->
  recv_frames fuel' flags req s = Ok r.
Proof.
  revert fuel' req s. induction fuel as [|fuel IH]; intros [|fuel'] req s Hle; simpl;
    [done|done|lia|].
  unfold mbind, M_bind, ext, gets. destruct (_ <? 0); [done|].
  destruct (_ <? 0); [done|].
  destruct (lcapnet_req_update _ _ _) as [[ru s']|]; [|done].
  destruct (_ <? 0); [done|]. destruct (negb _); [done|]. apply IH. lia.
Qed.

(** The receives of a trace. *)
Definition is_recv (e : event) : bool := match e.1 with ZmqMsgRecv _ => true | _ => false end.
Definition recv_count (t : trace) : nat := length (filter (fun e => is_recv e = true) t).

Lemma recv_count_app t1 t2 : recv_count (t1 ++ t2) = (recv_count t1 + recv_count t2)%nat.
Proof. unfold recv_count. by rewrite filter_app, length_app. Qed.

(** After [n] receives from [s] on, no frame announces another one. *)
Definition message_ends (n : nat) s : Prop :=
  forall t, (n <= recv_count t)%nat -> snd (w_frame (s_trace s ++ t)) = false.

Lemma req_update_no_recv req f s :
  wp (lcapnet_req_update req f) (fun _ s' => exists t, extends s t s' /\ recv_count t = 0%nat) safe s.
Proof.
  unfold lcapnet_req_update, connection_id_new.
  assert (Ha : forall sz, exists t, extends s t (logged (Alloc sz) s) /\ recv_count t = 0%nat).
  { intros sz. eexists. split; [apply extends_logged|done]. }
  destruct (bool_decide _); [wp_steps; exists []; split; [apply extends_refl|done]|].
  destruct (wants_envelope req); [|destruct (bool_decide _)]; wp_steps;
    rewrite wp_alloc; wp_steps; apply Ha.
Qed.

Lemma recv_frames_total n fuel flags req s :
  (n <= fuel)%nat -> (0 < n)%nat -> message_ends n s ->
  wp (recv_frames fuel flags req) (fun _ _ => True) safe s.
Proof.
  revert n req s. induction fuel as [|fuel IH]; intros n req s Hle Hn Hend; cbn [recv_frames]; [lia|].
  wp_steps. rewrite wp_ext. set (s1 := logged ZmqMsgInit s).
  destruct (_ <? 0); wp_steps; [done|]. rewrite wp_ext. set (c := ZmqMsgRecv flags).
  set (s2 := logged c s1). destruct (_ <? 0); wp_steps; [done|].
  assert (H12 : extends s [(ZmqMsgInit, w_rc (s_trace s) ZmqMsgInit);
                           (c, w_rc (s_trace s1) c)] s2).
  { apply (extends_trans s s1 s2 [_] [_]); by apply extends_logged. }
  eapply wp_mono; [apply req_update_no_recv|cbn beta|done].
  intros ru s3 (t3 & H23 & Hc3). destruct (_ <? 0); [by wp_steps|].
  destruct (snd (w_frame (s_trace s2))) eqn:Hmore; cbn [negb]; [|by wp_steps].
  destruct n as [|[|n]]; [lia| |].
  - rewrite (extends_trace _ _ _ H12), Hend in Hmore; [done|exact (le_n 1%nat)].
  - apply (IH (S n)); [lia|lia|]. intros t Ht.
    rewrite (extends_trace _ _ _ (extends_trans _ _ _ _ _ H12 H23)), <- app_assoc.
    apply Hend. rewrite !recv_count_app, Hc3. exact (le_n_S _ _ Ht).
Qed.

(** C34: A request is put together from exactly the frames of one message, in
    order: the first two non-empty frames are the peer and the address (only
    the address without an envelope) and the rest is the body; a failed call
    is reported; enough fuel for the frames of the message always suffices. *)
Theorem recv_assembles_message n fuel flags noenv s :
  (n <= fuel)%nat -> (0 < n)%nat -> message_ends n s ->
  wp (recv_frames fuel flags (request_of noenv [])) (fun ru s' => exists t, extends s t s' /\
    (fst ru = 0 /\ one_message (rx (s_trace s) t) /\
       snd ru = request_of noenv (rx (s_trace s) t).*1
     \/ fst ru < 0)) safe s.
Proof.
  intros Hle Hn Hend. pose proof (recv_frames_spec fuel flags noenv [] s) as Hspec.
  pose proof (recv_frames_total n fuel flags (request_of noenv []) s Hle Hn Hend) as Htot.
  unfold wp in *. destruct (recv_frames _ _ _ s) as [[ru s']|f]; [|done].
  destruct Hspec as (t & Ht & _ & Hr). by exists t.
Qed.

(** The loop that receives messages never returns a negative code, although
    its callers test for one: an error ends it with the number of messages
    handled so far. *)
Theorem recv_loop_hides_errors n fuel flags cb s z s' :
  lcap_rpc_recv n fuel flags cb 0 s = Ok (z, s') -> 0 <= z.
Proof.
  intros Hrun. enough (Hge : forall p s z s', lcap_rpc_recv n fuel flags cb p s = Ok (z, s') -> p <= z)
    by by eapply Hge.
  clear. induction n as [|n IH]; intros p s z s'; cbn [lcap_rpc_recv]; [done|].
  unfold mbind, M_bind. destruct (lcap_rpc_recv_once fuel flags cb s) as [[rc s1]|]; [|done].
  destruct (rc <? 0); [by intros [= <- _]|]. intros Hz%IH. lia.
Qed.
End assembly.

(** ** On a concrete message *)

(** A peer that sends single frames, once, after which receives fail. *)
Definition one_frame_world : World := {|
  w_rc t c := match c with
              | ZmqMsgRecv _ => if bool_decide (recv_count t = 0%nat) then 0 else - EAGAIN
              | _ => 0
              end;
  w_clock _ := (0, 0); w_rec _ := []; w_frame _ := ([x01], false);
  w_revents _ := ZMQ_POLLIN |}.

Lemma recv_assembles_message_witness :
  @wp _ _ (@recv_frames one_frame_world trace _ 1 0 (request_of true []))
   (fun ru s' => exists t, extends [] t s' /\
    (fst ru = 0 /\ one_message (@rx one_frame_world [] t) /\
       snd ru = request_of true (@rx one_frame_world [] t).*1
     \/ fst ru < 0)) safe [].
Proof.
  refine (@recv_assembles_message one_frame_world trace _ _ 1 1 0 true [] (le_n 1) Nat.lt_0_1 _).
  intros t _. reflexivity.
Defined.

(** A run in which the first receive fails: 0 messages, and no error. *)
Lemma recv_loop_hides_errors_witness :
  exists s', @lcap_rpc_recv one_frame_world trace _ 1 1 0 (fun _ => mret 0)
    0 [(ZmqMsgRecv 0, 0)] = Ok (0, s') /\ 0 <= 0.
Proof.
  eexists. split; [vm_compute; reflexivity|].
  eapply (@recv_loop_hides_errors one_frame_world trace _ 1 1 0 (fun _ => mret 0) [(ZmqMsgRecv 0, 0)]).
  vm_compute. reflexivity.
Defined.
