(* ===== verification/NetMem.v ===== *)
(** * The memory of a request ([src/lcapnet/lcap_net.c])

    LcapNet handles a request by value. Here the same functions work on the
    memory that the C code allocates, fills, reallocates and frees. They refine
    the functions of LcapNet - so that nothing is used after it was freed, read
    before it was written, or accessed out of bounds - and what is left in the
    memory after a call tells what the call leaks. *)
From S2P Require Import Prelude World LcapNet.
Local Open Scope Z_scope.

(** [struct lcapnet_request], with its pointers. *)
Record req_struct := mkReq {
  rq_flags : Z;
  rq_remote : option positive;
  rq_forward : option positive;
  rq_body : option positive;
  rq_body_len : Z;
}.

Definition set_rq_flags (f : Z) (q : req_struct) : req_struct :=
  mkReq f (rq_remote q) (rq_forward q) (rq_body q) (rq_body_len q).
Definition set_rq_remote (p : option positive) (q : req_struct) : req_struct :=
  mkReq (rq_flags q) p (rq_forward q) (rq_body q) (rq_body_len q).
Definition set_rq_forward (p : option positive) (q : req_struct) : req_struct :=
  mkReq (rq_flags q) (rq_remote q) p (rq_body q) (rq_body_len q).
Definition set_rq_body (p : option positive) (n : Z) (q : req_struct) : req_struct :=
  mkReq (rq_flags q) (rq_remote q) (rq_forward q) p n.

(** The blocks that are allocated; [None] is memory that was not written. *)
Inductive block :=
| BReq (q : req_struct)
| BConn (len : option Z) (data : list (option byte))
| BBody (data : list (option byte)).

Abbreviation heap := (gmap positive block).

Record mstate (St : Type) := mkMs { ms_st : St; ms_heap : heap }.
Arguments mkMs {St} _ _.
Arguments ms_st {St} _.
Arguments ms_heap {St} _.

#[export] Instance mstate_has_trace `{HasTrace St} : HasTrace (mstate St) := {
  s_trace s := s_trace (ms_st s);
  s_put t s := mkMs (s_put t (ms_st s)) (ms_heap s);
}.
#[export] Instance mstate_has_trace_laws `{HasTraceLaws St} : HasTraceLaws (mstate St).
Proof.
  constructor; intros; destruct s; cbn; rewrite ?s_trace_put, ?s_put_put, ?s_put_trace; done.
Qed.

(** ** malloc, realloc, free, memcpy *)

Section memory.
Context {St : Type}.

Definition set_heap (f : heap -> heap) (s : mstate St) : mstate St :=
  mkMs (ms_st s) (f (ms_heap s)).

Definition load (l : positive) : M (mstate St) block :=
  b ← gets (lookup l ∘ ms_heap); unwrap UseAfterFree b.
Definition store (l : positive) (b : block) : M (mstate St) unit :=
  load l;; modify (set_heap (insert l b)).

(** [free]; of [NULL] it does nothing. *)
Definition free (p : option positive) : M (mstate St) unit :=
  match p with
  | None => mret tt
  | Some l => load l;; modify (set_heap (delete l))
  end.

(** The address that an allocation returns was not in use. *)
Definition place (b : block) : M (mstate St) positive :=
  l ← gets (fun s => fresh (dom (ms_heap s)));
  modify (set_heap (insert l b));;
  mret l.

Definition load_req (l : positive) : M (mstate St) req_struct :=
  b ← load l; if b is BReq q then mret q else fail UseAfterFree.
Definition store_req (l : positive) (q : req_struct) : M (mstate St) unit := store l (BReq q).

Definition load_body (l : positive) : M (mstate St) (list (option byte)) :=
  b ← load l; if b is BBody d then mret d else fail UseAfterFree.

(** [memcpy] of [src] to the offset [off] of an area. *)
Definition memcpy (off : Z) (src : bytes) (dst : list (option byte))
    : M (mstate St) (list (option byte)) :=
  let o := Z.to_nat off in
  if (off <? 0) || (Z.of_nat (length dst) <? off + Z.of_nat (length src)) then fail OutOfBounds
  else mret (take o dst ++ (Some <$> src) ++ drop (o + length src) dst).

(** Reading [n] bytes of an area. *)
Definition read_area (n : Z) (d : list (option byte)) : M (mstate St) bytes :=
  if (n <? 0) || (Z.of_nat (length d) <? n) then fail OutOfBounds
  else unwrap UninitRead (mapM id (take (Z.to_nat n) d)).
End memory.

Section net.
Context `{World, HasTrace St}.

(** [malloc] and [calloc]: the caller says what the fresh memory holds. *)
Definition malloc (size : Z) (b : block) : M (mstate St) (option positive) :=
  ok ← alloc size;
  if ok : bool then l ← place b; mret (Some l) else mret None.

(** [realloc]: the old block survives a failure, and is freed otherwise. *)
Definition realloc_body (p : option positive) (size : Z) : M (mstate St) (option positive) :=
  old ← (if p is Some l then load_body l else mret []) : M (mstate St) (list (option byte));
  ok ← alloc size;
  if ok : bool then
    free p;;
    l ← place (BBody (take (Z.to_nat size) old ++
                      replicate (Z.to_nat size - length old) None));
    mret (Some l)
  else mret None.

Definition connection_id_new_mem (b : bytes) : M (mstate St) (option positive) :=
  let n := Z.of_nat (length b) in
  cid ← malloc (sizeof_conn_id + n) (BConn None (replicate (length b) None));
  match cid with
  | None => mret None
  | Some l =>
      store l (BConn (Some n) (replicate (length b) None));;
      d ← memcpy 0 b (replicate (length b) None);
      store l (BConn (Some n) d);;
      mret (Some l)
  end.

Definition lcapnet_req_init_mem : M (mstate St) (option positive) :=
  malloc 40 (BReq (mkReq 0 None None None 0)).

(** The request itself is not freed, only what it points to. *)
Definition lcapnet_req_release (req : option positive) : M (mstate St) unit :=
  match req with
  | None => mret tt
  | Some r =>
      q ← load_req r;
      free (rq_remote q);;
      free (rq_forward q);;
      free (rq_body q)
  end.

Definition wants_envelope_mem (q : req_struct) : bool :=
  bool_decide (rq_remote q = None) &&
  negb (Z.land (if rq_flags q =? 0 then 1 else 0) LCAP_RECV_NO_ENVELOPE =? 0).

Definition lcapnet_req_update_mem (r : positive) (frame : bytes) : M (mstate St) Z :=
  let n := Z.of_nat (length frame) in
  if bool_decide (frame = []) then mret 0
  else
    q ← load_req r;
    if wants_envelope_mem q then
      cid ← connection_id_new_mem frame;
      store_req r (set_rq_remote cid q);;
      mret (if cid is Some _ then 0 else - ENOMEM)
    else if bool_decide (rq_forward q = None) then
      cid ← connection_id_new_mem frame;
      store_req r (set_rq_forward cid q);;
      mret (if cid is Some _ then 0 else - ENOMEM)
    else
      body ← realloc_body (rq_body q) (rq_body_len q + n);
      store_req r (set_rq_body body (rq_body_len q) q);;
      match body with
      | None => mret (- ENOMEM)
      | Some b =>
          d ← load_body b;
          d ← memcpy (rq_body_len q) frame d;
          store b (BBody d);;
          store_req r (set_rq_body body (rq_body_len q + n) q);;
          mret 0
      end.

Fixpoint recv_frames_mem (fuel : nat) (flags : Z) (r : positive) : M (mstate St) Z :=
  match fuel with
  | O => fail OutOfFuel
  | S fuel =>
      rc ← ext ZmqMsgInit;
      if rc <? 0 then mret rc
      else
        rc ← ext (ZmqMsgRecv flags);
        if rc <? 0 then mret rc
        else
          fm ← gets (fun s => w_frame (s_trace s));
          rc ← lcapnet_req_update_mem r (fst fm);
          if rc <? 0 then mret rc
          else if negb (snd fm) then mret rc
          else recv_frames_mem fuel flags r
  end.

(** What the callback reads through the pointer that it is given. *)
Definition read_conn (p : option positive) : M (mstate St) (option conn_id) :=
  match p with
  | None => mret None
  | Some l =>
      b ← load l;
      match b with
      | BConn n d => n ← unwrap UninitRead n; bs ← read_area n d; mret (Some bs)
      | _ => fail UseAfterFree
      end
  end.

Definition read_req (r : positive) : M (mstate St) lcapnet_request :=
  q ← load_req r;
  remote ← read_conn (rq_remote q);
  forward ← read_conn (rq_forward q);
  b ← unwrap NullDeref (rq_body q);
  d ← load_body b;
  body ← read_area (rq_body_len q) d;
  mret {| lr_flags := rq_flags q; lr_remote := remote; lr_forward := forward; lr_body := body |}.

Definition lcap_rpc_recv_once_mem (fuel : nat) (flags : Z) (cb : lcap_rpc_hdl St)
    : M (mstate St) Z :=
  oreq ← lcapnet_req_init_mem;
  match oreq with
  | None => mret (- ENOMEM)
  | Some r =>
      (if Z.land flags LCAP_RECV_NO_ENVELOPE =? 0 then mret tt
       else q ← load_req r;
            store_req r (set_rq_flags (Z.lor (rq_flags q) LCAP_RECV_NO_ENVELOPE) q));;
      rc ← recv_frames_mem fuel flags r;
      q ← load_req r;
      rc ← (if (0 <=? rc) && (0 <? rq_body_len q) then
              req ← read_req r; zoom ms_st (fun st m => mkMs st (ms_heap m)) (cb req)
            else mret rc) : M (mstate St) Z;
      lcapnet_req_release (Some r);;
      mret rc
  end.

Fixpoint lcap_rpc_recv_mem (n fuel : nat) (flags : Z) (cb : lcap_rpc_hdl St) (processed : Z)
    : M (mstate St) Z :=
  match n with
  | O => fail OutOfFuel
  | S n =>
      rc ← lcap_rpc_recv_once_mem fuel flags cb;
      if rc <? 0 then mret processed
      else lcap_rpc_recv_mem n fuel flags cb (processed + 1)
  end.
End net.

(** ** The memory operations, one by one *)

Section steps.
Context {St : Type}.
Implicit Types (s : St) (h : heap).

Lemma load_run l b s h : h !! l = Some b -> load l (mkMs s h) = Ok (b, mkMs s h).
Proof. intros Hl. unfold load, mbind, M_bind, gets. cbn. by rewrite Hl. Qed.

Lemma store_run l b b' s h :
  h !! l = Some b -> store l b' (mkMs s h) = Ok (tt, mkMs s (<[l := b']> h)).
Proof. intros Hl. unfold store, mbind, M_bind. by rewrite (load_run l b). Qed.

Lemma free_run l b s h : h !! l = Some b -> free (Some l) (mkMs s h) = Ok (tt, mkMs s (delete l h)).
Proof. intros Hl. unfold free, mbind, M_bind. by rewrite (load_run l b). Qed.

Lemma place_run b s h :
  exists l, h !! l = None /\ place b (mkMs s h) = Ok (l, mkMs s (<[l := b]> h)).
Proof.
  exists (fresh (dom h)). split; [|done]. apply not_elem_of_dom, is_fresh.
Qed.

Lemma load_req_run r q s h :
  h !! r = Some (BReq q) -> load_req r (mkMs s h) = Ok (q, mkMs s h).
Proof. intros Hl. unfold load_req, mbind, M_bind. by rewrite (load_run _ _ _ _ Hl). Qed.

Lemma load_body_run l d s h :
  h !! l = Some (BBody d) -> load_body l (mkMs s h) = Ok (d, mkMs s h).
Proof. intros Hl. unfold load_body, mbind, M_bind. by rewrite (load_run _ _ _ _ Hl). Qed.

(** Appending to what was written, in memory of the right size. *)
Lemma memcpy_append (pre src : bytes) s h :
  memcpy (Z.of_nat (length pre)) src ((Some <$> pre) ++ replicate (length src) None) (mkMs s h) =
    Ok (Some <$> pre ++ src, mkMs s h).
Proof.
  unfold memcpy. rewrite length_app, length_fmap, length_replicate, Nat2Z.id.
  rewrite (proj2 (Z.ltb_ge _ 0)) by lia. rewrite (proj2 (Z.ltb_ge _ _)) by lia. cbn [orb].
  rewrite take_app_length' by (by rewrite length_fmap).
  rewrite drop_ge by (rewrite length_app, length_fmap, length_replicate; lia).
  by rewrite app_nil_r, fmap_app.
Qed.

Lemma mapM_written (b : bytes) : mapM (M := option) id (Some <$> b) = Some b.
Proof. induction b as [|x b IH]; [done|]. cbn. by rewrite IH. Qed.

Lemma read_area_written (b : bytes) s h :
  read_area (Z.of_nat (length b)) (Some <$> b) (mkMs s h) = Ok (b, mkMs s h).
Proof.
  unfold read_area. rewrite length_fmap. rewrite (proj2 (Z.ltb_ge _ 0)) by lia.
  rewrite Z.ltb_irrefl. cbn [orb]. rewrite Nat2Z.id, take_ge by (by rewrite length_fmap).
  by rewrite mapM_written.
Qed.
End steps.

(** ** Refinement

    [refines m m' R s h]: on the memory [h], [m'] does what [m] does: the same
    fault, or the same state and results and a memory related by [R]. *)
Section refinement.
Context `{World, HasTraceLaws St}.
Implicit Types (s : St) (h : heap).

Definition refines {A B} (m : M St A) (m' : M (mstate St) B) (R : A -> B -> heap -> Prop)
    (s : St) (h : heap) : Prop :=
  match m s with
  | Ok (a, s') => exists b h', m' (mkMs s h) = Ok (b, mkMs s' h') /\ R a b h'
  | Fault x => m' (mkMs s h) = Fault x
  end.

Lemma refines_ret {A B} (a : A) (b : B) (R : A -> B -> heap -> Prop) s h :
  R a b h -> refines (mret a) (mret b) R s h.
Proof. intros HR. by exists b, h. Qed.

Lemma refines_fail {A B} x (R : A -> B -> heap -> Prop) s h : refines (fail x) (fail x) R s h.
Proof. done. Qed.

Lemma refines_bind {A B A' B'} (m : M St A) (k : A -> M St A') (m' : M (mstate St) B)
    (k' : B -> M (mstate St) B') (R1 : A -> B -> heap -> Prop) R s h :
  refines m m' R1 s h ->
  (forall a b s' h', R1 a b h' -> refines (k a) (k' b) R s' h') ->
  refines (m ≫= k) (m' ≫= k') R s h.
Proof.
  unfold refines, mbind, M_bind. intros Hm Hk. destruct (m s) as [[a s']|x].
  - destruct Hm as (b & h' & -> & HR). by apply Hk.
  - by rewrite Hm.
Qed.

Lemma refines_bind_r {A B B'} (m : M St A) (m' : M (mstate St) B)
    (k' : B -> M (mstate St) B') (R1 : A -> B -> heap -> Prop) (R : A -> B' -> heap -> Prop) s h :
  refines m m' R1 s h ->
  (forall a b s' h', R1 a b h' -> refines (mret a) (k' b) R s' h') ->
  refines m (m' ≫= k') R s h.
Proof.
  unfold refines, mbind, M_bind. intros Hm Hk. destruct (m s) as [[a s']|x].
  - destruct Hm as (b & h' & -> & HR). by apply (Hk _ _ _ _ HR).
  - by rewrite Hm.
Qed.

Lemma refines_mono {A B} (m : M St A) (m' : M (mstate St) B) (R R' : A -> B -> heap -> Prop) s h :
  refines m m' R s h -> (forall a b h', R a b h' -> R' a b h') -> refines m m' R' s h.
Proof.
  unfold refines. intros Hm HR. destruct (m s) as [[a s']|x]; [|done].
  destruct Hm as (b & h' & ? & ?). eauto.
Qed.

(** A step of the memory alone. *)
Lemma refines_mem {A B B'} (m : M St A) (m' : M (mstate St) B) (k' : B -> M (mstate St) B')
    R s h b h' :
  m' (mkMs s h) = Ok (b, mkMs s h') -> refines m (k' b) R s h' ->
  refines m (m' ≫= k') R s h.
Proof. unfold refines, mbind, M_bind. by intros ->. Qed.

Lemma refines_assoc {A B B1 B'} (m : M St A) (m1 : M (mstate St) B) (k1 : B -> M (mstate St) B1)
    (k2 : B1 -> M (mstate St) B') R s h :
  refines m (m1 ≫= (fun b => k1 b ≫= k2)) R s h -> refines m ((m1 ≫= k1) ≫= k2) R s h.
Proof. unfold refines, mbind, M_bind. by destruct (m1 (mkMs s h)) as [[? ?]|]. Qed.

Lemma refines_assoc_l {A A1 A' B} (m : M St A) (k1 : A -> M St A1) (k2 : A1 -> M St A')
    (m' : M (mstate St) B) R s h :
  refines (m ≫= (fun a => k1 a ≫= k2)) m' R s h -> refines ((m ≫= k1) ≫= k2) m' R s h.
Proof. unfold refines, mbind, M_bind. by destruct (m s) as [[? ?]|]. Qed.

Lemma refines_ext c s h : refines (ext c) (ext c) (fun a b h' => b = a /\ h' = h) s h.
Proof. unfold refines, ext. cbn. eauto. Qed.

Lemma refines_alloc sz s h : refines (alloc sz) (alloc sz) (fun a b h' => b = a /\ h' = h) s h.
Proof. by eexists _, _. Qed.

Lemma refines_gets {A} (f : St -> A) s h :
  refines (gets f) (gets (fun m => f (ms_st m))) (fun a b h' => b = a /\ h' = h) s h.
Proof. unfold refines, gets. cbn. eauto. Qed.

(** ** The memory of one request

    [owns h0 r q req h]: besides [h0], [h] holds the structure [q] at [r] and
    what it points to, which represents [req]. *)
Definition conn_at (h : heap) (p : option positive) (c : option conn_id) : Prop :=
  match p, c with
  | None, None => True
  | Some l, Some b => h !! l = Some (BConn (Some (Z.of_nat (length b))) (Some <$> b))
  | _, _ => False
  end.
Definition body_at (h : heap) (p : option positive) (b : bytes) : Prop :=
  match p with
  | None => b = []
  | Some l => h !! l = Some (BBody (Some <$> b))
  end.

Definition opt_list {A} (p : option A) : list A := if p is Some l then [l] else [].
Definition ptrs (r : positive) (q : req_struct) : list positive :=
  r :: opt_list (rq_remote q) ++ opt_list (rq_forward q) ++ opt_list (rq_body q).

Record owns (h0 : heap) (r : positive) (q : req_struct) (req : lcapnet_request) (h : heap) : Prop := {
  own_req : h !! r = Some (BReq q);
  own_flags : rq_flags q = lr_flags req;
  own_remote : conn_at h (rq_remote q) (lr_remote req);
  own_forward : conn_at h (rq_forward q) (lr_forward req);
  own_body : body_at h (rq_body q) (lr_body req);
  own_distinct : NoDup (ptrs r q);
  own_new : forall l, l ∈ ptrs r q -> h0 !! l = None;
  own_rest : forall l, l ∉ ptrs r q -> h !! l = h0 !! l;
}.
End refinement.

Section receive.
Context `{World, HasTraceLaws St}.
Implicit Types (s : St) (h : heap).

Lemma conn_at_None h p c : conn_at h p c -> (p = None <-> c = None).
Proof. by destruct p, c. Qed.

Lemma wants_envelope_owns h0 r q req h :
  owns h0 r q req h -> wants_envelope_mem q = wants_envelope req.
Proof.
  intros Ho. unfold wants_envelope_mem, wants_envelope. rewrite (own_flags _ _ _ _ _ Ho).
  f_equal. apply bool_decide_ext. apply (conn_at_None _ _ _ (own_remote _ _ _ _ _ Ho)).
Qed.

(** A new block and a change of the structure, seen from the other blocks. *)
Lemma conn_at_ext h h' p c :
  (forall l, l ∈ opt_list p -> h' !! l = h !! l) -> conn_at h p c -> conn_at h' p c.
Proof. intros Hl. destruct p as [l|], c; try done. cbn. rewrite Hl; [done|by apply list_elem_of_singleton]. Qed.
Lemma body_at_ext h h' p b :
  (forall l, l ∈ opt_list p -> h' !! l = h !! l) -> body_at h p b -> body_at h' p b.
Proof. intros Hl. destruct p as [l|]; try done. cbn. rewrite Hl; [done|by apply list_elem_of_singleton]. Qed.

(** All pointers of the structure point to blocks. *)
Lemma own_alive h0 r q req h l : owns h0 r q req h -> l ∈ ptrs r q -> is_Some (h !! l).
Proof.
  intros [Hr _ Hre Hf Hb _ _ _] Hl. unfold ptrs in Hl.
  rewrite elem_of_cons, !elem_of_app in Hl. destruct Hl as [->|[Hl|[Hl|Hl]]]; [by rewrite Hr|..];
    [destruct (rq_remote q), (lr_remote req)|destruct (rq_forward q), (lr_forward req)|destruct (rq_body q)];
    try done; cbn in *;
    first [by apply elem_of_nil in Hl|apply list_elem_of_singleton in Hl as ->; by eexists].
Qed.

Lemma own_fresh h0 r q req h l : owns h0 r q req h -> h !! l = None -> l ∉ ptrs r q.
Proof. intros Ho Hl Hin. destruct (own_alive _ _ _ _ _ _ Ho Hin). congruence. Qed.

(** The structure gets a new block. *)
Lemma owns_add h0 r q q' req req' h l b :
  owns h0 r q req h -> h !! l = None -> ptrs r q' ≡ₚ l :: ptrs r q ->
  rq_flags q' = lr_flags req' ->
  let h' := <[r := BReq q']> (<[l := b]> h) in
  conn_at h' (rq_remote q') (lr_remote req') -> conn_at h' (rq_forward q') (lr_forward req') ->
  body_at h' (rq_body q') (lr_body req') -> owns h0 r q' req' h'.
Proof.
  intros Ho Hl Hp Hf h' Hre Hfo Hb. pose proof (own_fresh _ _ _ _ _ _ Ho Hl) as Hni.
  constructor; try done.
  - apply lookup_insert_eq.
  - rewrite Hp. constructor; [done|]. apply Ho.
  - intros l'. rewrite Hp, elem_of_cons. intros [->|Hin]; [|by apply (own_new _ _ _ _ _ Ho)].
    by rewrite <- (own_rest _ _ _ _ _ Ho) by done.
  - intros l'. rewrite Hp, not_elem_of_cons. intros [Hne Hni'].
    unfold h'. rewrite !lookup_insert_ne; [by apply (own_rest _ _ _ _ _ Ho)|done|].
    intros ->. apply Hni'. by left.
Qed.

(** The structure forgets a block, which stays allocated. *)
Lemma owns_forget h0 r q q' req req' h l b :
  owns h0 r q req h -> h !! l = Some b -> ptrs r q ≡ₚ l :: ptrs r q' ->
  rq_flags q' = lr_flags req' ->
  let h' := <[r := BReq q']> h in
  conn_at h' (rq_remote q') (lr_remote req') -> conn_at h' (rq_forward q') (lr_forward req') ->
  body_at h' (rq_body q') (lr_body req') -> owns (<[l := b]> h0) r q' req' h'.
Proof.
  intros Ho Hl Hp Hf h' Hre Hfo Hb.
  pose proof (own_distinct _ _ _ _ _ Ho) as Hnd. rewrite Hp in Hnd.
  apply NoDup_cons in Hnd as [Hni Hnd].
  constructor; try done.
  - apply lookup_insert_eq.
  - intros l' Hin. rewrite lookup_insert_ne by congruence. apply (own_new _ _ _ _ _ Ho).
    rewrite Hp. by right.
  - intros l' Hni'. unfold h'. rewrite lookup_insert_ne by (intros ->; apply Hni'; by left).
    destruct (decide (l' = l)) as [->|Hne]; [by rewrite lookup_insert_eq|].
    rewrite lookup_insert_ne by done. apply (own_rest _ _ _ _ _ Ho). rewrite Hp.
    by apply not_elem_of_cons.
Qed.

(** Another block is freed. *)
Lemma owns_delete h0 r q req h l :
  owns h0 r q req h -> l ∉ ptrs r q -> owns (delete l h0) r q req (delete l h).
Proof.
  intros Ho Hni. destruct Ho as [Hr Hf Hre Hfo Hb Hnd Hnew Hrest].
  assert (Hin : forall p, (forall x, x ∈ opt_list p -> x ∈ ptrs r q) ->
    forall x, x ∈ opt_list p -> delete l h !! x = h !! x).
  { intros p Hp x Hx. apply lookup_delete_ne. intros ->. by apply Hni, Hp. }
  assert (Hsub : forall x, x ∈ opt_list (rq_remote q) \/ x ∈ opt_list (rq_forward q) \/
    x ∈ opt_list (rq_body q) -> x ∈ ptrs r q).
  { intros x Hx. unfold ptrs. rewrite elem_of_cons, !elem_of_app. tauto. }
  constructor; try done.
  - rewrite lookup_delete_ne; [done|]. intros ->. apply Hni. by left.
  - eapply conn_at_ext; [|done]. apply Hin. intros; apply Hsub; tauto.
  - eapply conn_at_ext; [|done]. apply Hin. intros; apply Hsub; tauto.
  - eapply body_at_ext; [|done]. apply Hin. intros; apply Hsub; tauto.
  - intros x Hx. rewrite lookup_delete_ne; [by apply Hnew|congruence].
  - intros x Hx. destruct (decide (x = l)) as [->|Hne]; [by rewrite !lookup_delete_eq|].
    rewrite !lookup_delete_ne by done. by apply Hrest.
Qed.

(** What the structure points to is not affected by a change of the structure
    and of blocks that it does not point to. *)
Lemma own_kept h0 r q req h h' :
  owns h0 r q req h -> (forall x, x ∈ ptrs r q -> x <> r -> h' !! x = h !! x) ->
  conn_at h' (rq_remote q) (lr_remote req) /\ conn_at h' (rq_forward q) (lr_forward req) /\
  body_at h' (rq_body q) (lr_body req).
Proof.
  intros Ho Hk. pose proof (own_distinct _ _ _ _ _ Ho) as Hnd.
  apply NoDup_cons in Hnd as [Hr _].
  assert (Hk' : forall x, x ∈ opt_list (rq_remote q) ++ opt_list (rq_forward q) ++ opt_list (rq_body q) ->
    h' !! x = h !! x).
  { intros x Hx. apply Hk; [by right|]. by intros ->. }
  destruct Ho. split_and!.
  - eapply conn_at_ext; [|done]. intros. apply Hk', elem_of_app. by left.
  - eapply conn_at_ext; [|done]. intros. apply Hk'. rewrite !elem_of_app. tauto.
  - eapply body_at_ext; [|done]. intros. apply Hk'. rewrite !elem_of_app. tauto.
Qed.

Lemma own_kept_add h0 r q req h q' l b :
  owns h0 r q req h -> h !! l = None -> let h' := <[r := BReq q']> (<[l := b]> h) in
  conn_at h' (rq_remote q) (lr_remote req) /\ conn_at h' (rq_forward q) (lr_forward req) /\
  body_at h' (rq_body q) (lr_body req).
Proof.
  intros Ho Hl h'. eapply own_kept; [done|]. intros x Hx Hne. unfold h'.
  rewrite !lookup_insert_ne; [done| |done]. intros ->. by eapply own_fresh.
Qed.

Lemma own_kept_req h0 r q req h q' :
  owns h0 r q req h -> let h' := <[r := BReq q']> h in
  conn_at h' (rq_remote q) (lr_remote req) /\ conn_at h' (rq_forward q) (lr_forward req) /\
  body_at h' (rq_body q) (lr_body req).
Proof.
  intros Ho h'. eapply own_kept; [done|]. intros x Hx Hne. by apply lookup_insert_ne.
Qed.

(** A change of the flags and of the length. *)
Lemma owns_fields h0 r q q' req req' h :
  owns h0 r q req h -> ptrs r q' = ptrs r q -> rq_flags q' = lr_flags req' ->
  rq_remote q' = rq_remote q -> rq_forward q' = rq_forward q -> rq_body q' = rq_body q ->
  lr_remote req' = lr_remote req -> lr_forward req' = lr_forward req -> lr_body req' = lr_body req ->
  owns h0 r q' req' (<[r := BReq q']> h).
Proof.
  intros Ho Hp Hf Hr1 Hr2 Hr3 Hr4 Hr5 Hr6.
  destruct (own_kept_req h0 r q req h q' Ho) as (Kr & Kf & Kb).
  destruct Ho as [_ _ _ _ _ Hnd Hnew Hrest]. rewrite <- Hp in Hnd.
  constructor; rewrite ?Hr1, ?Hr2, ?Hr3, ?Hr4, ?Hr5, ?Hr6; try done.
  - apply lookup_insert_eq.
  - intros l. rewrite Hp. apply Hnew.
  - intros l Hl. rewrite lookup_insert_ne by (intros ->; apply Hl; by left).
    apply Hrest. by rewrite <- Hp.
Qed.

Lemma connection_id_new_refines b s h :
  refines (connection_id_new b) (connection_id_new_mem b) (fun c p h' =>
    match c with
    | None => p = None /\ h' = h
    | Some b' => b' = b /\ exists l, p = Some l /\ h !! l = None /\
        h' = <[l := BConn (Some (Z.of_nat (length b))) (Some <$> b)]> h
    end) s h.
Proof.
  unfold connection_id_new, connection_id_new_mem, malloc. apply refines_assoc.
  eapply refines_bind; [apply refines_alloc|cbn beta]. intros ok ? s' ? [-> ->].
  destruct ok; [|by apply refines_ret].
  destruct (place_run (BConn None (replicate (length b) None)) s' h) as (l & Hl & Hp).
  apply refines_assoc. eapply refines_mem; [exact Hp|].
  eapply refines_mem; [done|]. cbn beta.
  eapply refines_mem; [eapply store_run, lookup_insert_eq|].
  eapply refines_mem; [apply (memcpy_append [])|].
  eapply refines_mem; [eapply store_run, lookup_insert_eq|].
  apply refines_ret. split; [done|]. exists l. split_and!; [done|done|].
  by rewrite !insert_insert_eq.
Qed.

(** What an update that fails may lose: the body. *)
Definition lost (rc : Z) (h0 h0' : heap) : Prop :=
  h0' = h0 \/ rc < 0 /\ exists l d, h0 !! l = None /\ h0' = <[l := BBody d]> h0.

Definition updated (h0 : heap) (r : positive) (ru : Z * lcapnet_request) (rc : Z) (h' : heap) : Prop :=
  rc = fst ru /\ exists h0' q', owns h0' r q' (snd ru) h' /\ lost rc h0 h0' /\
    (0 <= rc -> rq_body_len q' = lr_body_len (snd ru)).

(** The peer or the address is stored, or no memory was left for it. *)
Lemma store_conn h0 r q q' req req' l b s h :
  owns h0 r q req h -> h !! l = None -> ptrs r q' ≡ₚ l :: ptrs r q ->
  rq_flags q' = lr_flags req' -> rq_body_len q' = lr_body_len req' ->
  let h' := <[r := BReq q']> (<[l := b]> h) in
  conn_at h' (rq_remote q') (lr_remote req') -> conn_at h' (rq_forward q') (lr_forward req') ->
  body_at h' (rq_body q') (lr_body req') ->
  refines (mret (0, req')) (store_req r q';; mret 0) (updated h0 r) s (<[l := b]> h).
Proof.
  intros Ho Hl Hp Hf Hlen h' Hre Hfo Hb. eapply refines_mem.
  - apply (store_run _ (BReq q)). rewrite lookup_insert_ne; [apply (own_req _ _ _ _ _ Ho)|].
    intros ->. rewrite (own_req _ _ _ _ _ Ho) in Hl. done.
  - apply refines_ret. split; [done|]. exists h0, q'. split_and!; [by eapply owns_add|by left|done].
Qed.

Lemma store_none h0 r q q' req req' s h :
  owns h0 r q req h -> q' = q -> req' = req ->
  refines (mret (- ENOMEM, req')) (store_req r q';; mret (- ENOMEM)) (updated h0 r) s h.
Proof.
  intros Ho -> ->. eapply refines_mem; [by eapply store_run, (own_req _ _ _ _ _ Ho)|].
  apply refines_ret. split; [done|]. exists h0, q. split_and!; [|by left|done].
  rewrite insert_id by apply (own_req _ _ _ _ _ Ho). done.
Qed.

Lemma update_remote h0 r q req frame s h :
  owns h0 r q req h -> rq_body_len q = lr_body_len req -> rq_remote q = None ->
  refines
    (cid ← connection_id_new frame;
     mret (if cid is Some _ then 0 else - ENOMEM,
           {| lr_flags := lr_flags req; lr_remote := cid;
              lr_forward := lr_forward req; lr_body := lr_body req |}))
    (cid ← connection_id_new_mem frame;
     store_req r (set_rq_remote cid q);;
     mret (if cid is Some _ then 0 else - ENOMEM)) (updated h0 r) s h.
Proof.
  intros Ho Hlen Hnone. pose proof (conn_at_None _ _ _ (own_remote _ _ _ _ _ Ho)) as [Hre _].
  eapply refines_bind; [apply connection_id_new_refines|cbn beta]. intros [b|] p s' h' Hc.
  - destruct Hc as (-> & l & -> & Hl & ->).
    destruct (own_kept_add h0 r q req h (set_rq_remote (Some l) q) l
      (BConn (Some (Z.of_nat (length frame))) (Some <$> frame)) Ho Hl) as (_ & Kf & Kb).
    eapply store_conn; try done; cbn.
    + unfold ptrs. cbn. rewrite Hnone. cbn. apply Permutation_swap.
    + apply (own_flags _ _ _ _ _ Ho).
    + rewrite lookup_insert_ne; [apply lookup_insert_eq|].
      intros ->. by rewrite (own_req _ _ _ _ _ Ho) in Hl.
  - destruct Hc as [-> ->]. eapply store_none; [done|..].
    + destruct q; cbn in *. by subst.
    + specialize (Hre Hnone). destruct req; cbn in *. by subst.
Qed.

Lemma update_forward h0 r q req frame s h :
  owns h0 r q req h -> rq_body_len q = lr_body_len req -> rq_forward q = None ->
  refines
    (cid ← connection_id_new frame;
     mret (if cid is Some _ then 0 else - ENOMEM,
           {| lr_flags := lr_flags req; lr_remote := lr_remote req;
              lr_forward := cid; lr_body := lr_body req |}))
    (cid ← connection_id_new_mem frame;
     store_req r (set_rq_forward cid q);;
     mret (if cid is Some _ then 0 else - ENOMEM)) (updated h0 r) s h.
Proof.
  intros Ho Hlen Hnone. pose proof (conn_at_None _ _ _ (own_forward _ _ _ _ _ Ho)) as [Hfo _].
  eapply refines_bind; [apply connection_id_new_refines|cbn beta]. intros [b|] p s' h' Hc.
  - destruct Hc as (-> & l & -> & Hl & ->).
    destruct (own_kept_add h0 r q req h (set_rq_forward (Some l) q) l
      (BConn (Some (Z.of_nat (length frame))) (Some <$> frame)) Ho Hl) as (Kr & _ & Kb).
    eapply store_conn; try done; cbn.
    + unfold ptrs. cbn. rewrite Hnone. cbn. by rewrite <- !Permutation_middle, (Permutation_swap l r).
    + apply (own_flags _ _ _ _ _ Ho).
    + rewrite lookup_insert_ne; [apply lookup_insert_eq|].
      intros ->. by rewrite (own_req _ _ _ _ _ Ho) in Hl.
  - destruct Hc as [-> ->]. eapply store_none; [done|..].
    + destruct q; cbn in *. by subst.
    + specialize (Hfo Hnone). destruct req; cbn in *. by subst.
Qed.

(** The request without its body. *)
Definition bodyless (q : req_struct) : req_struct := set_rq_body None 0 q.
Definition emptied (req : lcapnet_request) : lcapnet_request :=
  {| lr_flags := lr_flags req; lr_remote := lr_remote req; lr_forward := lr_forward req;
     lr_body := [] |}.

Lemma owns_emptied h0 r q req h l :
  owns h0 r q req h -> rq_body q = Some l ->
  forall n, owns (<[l := BBody (Some <$> lr_body req)]> h0) r (set_rq_body None n q) (emptied req)
                 (<[r := BReq (set_rq_body None n q)]> h).
Proof.
  intros Ho Hq n. destruct (own_kept_req h0 r q req h (set_rq_body None n q) Ho) as (Kr & Kf & _).
  pose proof (own_body _ _ _ _ _ Ho) as Hb. rewrite Hq in Hb. cbn in Hb.
  eapply owns_forget; try done.
  - unfold ptrs. cbn. rewrite Hq. cbn. rewrite app_nil_r.
    rewrite app_assoc. rewrite <- (Permutation_cons_append _ l). apply Permutation_swap.
  - apply (own_flags _ _ _ _ _ Ho).
Qed.

(** [realloc] of the body: no memory and nothing has changed, or the old block
    is replaced. *)
Lemma realloc_refines h0 r q req size s h :
  owns h0 r q req h ->
  let old := (Some <$> lr_body req) : list (option byte) in
  refines (alloc size) (realloc_body (rq_body q) size) (fun ok p h' =>
    if ok : bool then
      exists l h1, p = Some l /\ h1 !! l = None /\ h1 !! r = Some (BReq q) /\
        h' = <[l := BBody (take (Z.to_nat size) old ++
                           replicate (Z.to_nat size - length old) None)]> h1 /\
        owns h0 r (bodyless q) (emptied req) (<[r := BReq (bodyless q)]> h1)
    else p = None /\ h' = h) s h.
Proof.
  intros Ho old. unfold realloc_body. pose proof (own_body _ _ _ _ _ Ho) as Hb.
  destruct (rq_body q) as [b0|] eqn:Hq; cbn in Hb.
  - eapply refines_mem; [by eapply load_body_run|]. fold old.
    eapply refines_bind_r; [apply refines_alloc|cbn beta]. intros ok ? s' ? [-> ->].
    destruct ok; [|by apply refines_ret].
    eapply refines_mem; [by apply (free_run b0 (BBody old))|].
    destruct (place_run (BBody (take (Z.to_nat size) old ++
      replicate (Z.to_nat size - length old) None)) s' (delete b0 h)) as (l & Hl & Hp).
    eapply refines_mem; [exact Hp|]. apply refines_ret.
    assert (Hne : b0 <> r).
    { intros ->. rewrite (own_req _ _ _ _ _ Ho) in Hb. done. }
    assert (Hnew : h0 !! b0 = None).
    { apply (own_new _ _ _ _ _ Ho). unfold ptrs. rewrite Hq. cbn. set_solver. }
    exists l, (delete b0 h). split_and!; [done|done| |done|].
    + rewrite lookup_delete_ne by done. apply (own_req _ _ _ _ _ Ho).
    + pose proof (owns_emptied _ _ _ _ _ _ Ho Hq 0) as He.
      apply (owns_delete _ _ _ _ _ b0) in He.
      * rewrite delete_insert_id, delete_insert_ne in He by done. exact He.
      * pose proof (own_distinct _ _ _ _ _ Ho) as Hnd. revert Hnd.
        unfold ptrs. rewrite Hq. cbn. rewrite app_nil_r.
        rewrite app_assoc, <- (Permutation_cons_append _ b0), Permutation_swap.
        by intros [? _]%NoDup_cons.
  - eapply refines_mem; [done|]. subst old. rewrite Hb.
    eapply refines_bind_r; [apply refines_alloc|cbn beta]. intros ok ? s' ? [-> ->].
    destruct ok; [|by apply refines_ret].
    eapply refines_mem; [done|].
    destruct (place_run (BBody (take (Z.to_nat size) [] ++
      replicate (Z.to_nat size - length (A := option byte) []) None)) s' h) as (l & Hl & Hp).
    eapply refines_mem; [exact Hp|]. apply refines_ret.
    exists l, h. split_and!; [done|done|apply (own_req _ _ _ _ _ Ho)|done|].
    eapply owns_fields; try done; [|apply (own_flags _ _ _ _ _ Ho)].
    unfold ptrs. cbn. by rewrite Hq.
Qed.

Lemma update_body h0 r q req frame s h :
  owns h0 r q req h -> rq_body_len q = lr_body_len req ->
  refines
    (ok ← alloc (lr_body_len req + Z.of_nat (length frame));
     mret (if ok : bool then 0 else - ENOMEM,
           {| lr_flags := lr_flags req; lr_remote := lr_remote req;
              lr_forward := lr_forward req;
              lr_body := if ok then lr_body req ++ frame else [] |}))
    (let n := Z.of_nat (length frame) in
     body ← realloc_body (rq_body q) (rq_body_len q + n);
     store_req r (set_rq_body body (rq_body_len q) q);;
     match body with
     | None => mret (- ENOMEM)
     | Some b =>
         d ← load_body b;
         d ← memcpy (rq_body_len q) frame d;
         store b (BBody d);;
         store_req r (set_rq_body body (rq_body_len q + n) q);;
         mret 0
     end) (updated h0 r) s h.
Proof.
  intros Ho Hlen. cbn zeta. rewrite Hlen.
  eapply refines_bind; [by apply realloc_refines|cbn beta]. intros [] p s' h' Hok; cbn in Hok.
  - destruct Hok as (l & h1 & -> & Hl & Hr & -> & Ho1).
    assert (Hne : l <> r) by congruence.
    eapply refines_mem; [by apply (store_run _ (BReq q)); rewrite lookup_insert_ne|].
    eapply refines_mem; [by eapply load_body_run; rewrite lookup_insert_ne, lookup_insert_eq|].
    rewrite take_ge by (rewrite length_fmap; unfold lr_body_len; lia).
    rewrite length_fmap. replace (Z.to_nat _ - _)%nat with (length frame) by (unfold lr_body_len; lia).
    eapply refines_mem; [apply memcpy_append|].
    eapply refines_mem; [by eapply store_run; rewrite lookup_insert_ne, lookup_insert_eq|].
    eapply refines_mem.
    { apply (store_run _ (BReq (set_rq_body (Some l) (lr_body_len req) q))).
      by rewrite lookup_insert_ne, lookup_insert_eq. }
    apply refines_ret. split; [done|].
    exists h0, (set_rq_body (Some l) (lr_body_len req + Z.of_nat (length frame)) q).
    split_and!; [|by left|intros _; unfold lr_body_len; cbn; rewrite length_app; lia].
    set (q1 := set_rq_body _ _ q). set (b1 := BBody (Some <$> lr_body req ++ frame)).
    match goal with |- owns _ _ _ _ ?h2 => assert (h2 = <[r := BReq q1]> (<[l := b1]>
      (<[r := BReq (bodyless q)]> h1))) as -> end.
    { apply map_eq. intros x. destruct (decide (x = r)) as [->|]; [by rewrite !lookup_insert_eq|].
      rewrite !(lookup_insert_ne _ r) by done.
      destruct (decide (x = l)) as [->|]; [by rewrite !lookup_insert_eq|].
      by rewrite !lookup_insert_ne. }
    assert (Hl1 : <[r := BReq (bodyless q)]> h1 !! l = None) by by rewrite lookup_insert_ne.
    destruct (own_kept_add _ _ _ _ _ q1 l b1 Ho1 Hl1) as (Kr & Kf & _).
    apply (owns_add _ _ _ _ _ _ _ _ _ Ho1); try done.
    + unfold ptrs. cbn. rewrite app_nil_r, app_assoc, <- (Permutation_cons_append _ l).
      apply Permutation_swap.
    + apply (own_flags _ _ _ _ _ Ho).
    + unfold q1. cbn. rewrite lookup_insert_ne by done. apply lookup_insert_eq.
  - destruct Hok as [-> ->].
    eapply refines_mem; [by eapply store_run, (own_req _ _ _ _ _ Ho)|].
    apply refines_ret. split; [done|]. cbn [snd fst].
    destruct (rq_body q) as [b0|] eqn:Hq.
    + eexists _, _. split_and!; [by apply owns_emptied| |done].
      right. split; [done|]. exists b0, (Some <$> lr_body req). split; [|done].
      apply (own_new _ _ _ _ _ Ho). unfold ptrs. rewrite Hq. set_solver.
    + eexists h0, _. split_and!; [|by left|done].
      pose proof (own_body _ _ _ _ _ Ho) as Hb. rewrite Hq in Hb.
      eapply owns_fields; try done; [|apply (own_flags _ _ _ _ _ Ho)].
      unfold ptrs. cbn. by rewrite Hq.
Qed.

Lemma lcapnet_req_update_refines h0 r q req frame s h :
  owns h0 r q req h -> rq_body_len q = lr_body_len req ->
  refines (lcapnet_req_update req frame) (lcapnet_req_update_mem r frame) (updated h0 r) s h.
Proof.
  intros Ho Hlen. unfold lcapnet_req_update, lcapnet_req_update_mem. cbn zeta.
  destruct (bool_decide_reflect (frame = [])) as [->|Hf].
  { apply refines_ret. split; [done|]. exists h0, q. split_and!; [done|by left|done]. }
  eapply refines_mem; [by apply load_req_run, (own_req _ _ _ _ _ Ho)|].
  rewrite (wants_envelope_owns _ _ _ _ _ Ho).
  pose proof (conn_at_None _ _ _ (own_remote _ _ _ _ _ Ho)) as Hre.
  pose proof (conn_at_None _ _ _ (own_forward _ _ _ _ _ Ho)) as Hfo.
  destruct (wants_envelope req) eqn:Hw.
  - apply update_remote; [done|done|]. apply Hre.
    unfold wants_envelope in Hw. apply andb_prop in Hw as [Hw _]. by apply bool_decide_eq_true in Hw.
  - rewrite (bool_decide_ext (lr_forward req = None) (rq_forward q = None)) by tauto.
    destruct (bool_decide_reflect (rq_forward q = None)) as [Hn|Hn]; [by apply update_forward|].
    by apply update_body.
Qed.

(** The frames of a message. *)
Lemma recv_frames_refines fuel flags h0 r q req s h :
  owns h0 r q req h -> rq_body_len q = lr_body_len req ->
  refines (recv_frames fuel flags req) (recv_frames_mem fuel flags r) (updated h0 r) s h.
Proof.
  assert (Hstop : forall h0 r q req h s z, owns h0 r q req h -> rq_body_len q = lr_body_len req ->
    refines (mret (z, req)) (mret z) (updated h0 r) s h).
  { intros ??????? Ho' ?. apply refines_ret. split; [done|]. eexists _, _.
    split_and!; [exact Ho'|by left|done]. }
  revert q req s h. induction fuel as [|fuel IH]; intros q req s h Ho Hlen; cbn [recv_frames recv_frames_mem]; [done|].
  eapply refines_bind; [apply refines_ext|cbn beta]. intros rc ? s1 ? [-> ->].
  destruct (rc <? 0); [by eapply Hstop|].
  eapply refines_bind; [apply refines_ext|cbn beta]. intros rc1 ? s2 ? [-> ->].
  destruct (rc1 <? 0); [by eapply Hstop|].
  eapply refines_bind; [apply (refines_gets (fun s => w_frame (s_trace s)))|cbn beta]. intros fm ? s3 ? [-> ->].
  eapply refines_bind; [by eapply lcapnet_req_update_refines|cbn beta].
  intros [rc2 req2] z s4 h4 (-> & h0' & q2 & Ho2 & Hlost & Hlen2). cbn [fst snd] in *.
  assert (Hdone : refines (mret (rc2, req2)) (mret rc2) (updated h0 r) s4 h4).
  { apply refines_ret. split; [done|]. by exists h0', q2. }
  destruct (Z.ltb_spec rc2 0); [done|]. destruct (negb (snd fm)); [done|].
  destruct Hlost as [->|[??]]; [|lia]. apply (IH q2); [done|by apply Hlen2].
Qed.

(** ** The release *)

Definition delete_opt (p : option positive) (h : heap) : heap :=
  if p is Some l then delete l h else h.

Lemma free_opt p s h :
  (forall l, p = Some l -> is_Some (h !! l)) -> free p (mkMs s h) = Ok (tt, mkMs s (delete_opt p h)).
Proof.
  destruct p as [l|]; [|done]. intros Hp. destruct (Hp l eq_refl) as [b Hb]. by eapply free_run.
Qed.

Lemma lookup_delete_opt p h l : l ∉ opt_list p -> delete_opt p h !! l = h !! l.
Proof. destruct p as [l'|]; [|done]. intros Hl. apply lookup_delete_ne. intros ->. apply Hl. by left. Qed.

Lemma delete_opt_None p h l : l ∈ opt_list p \/ h !! l = None -> delete_opt p h !! l = None.
Proof.
  destruct p as [l'|]; cbn; [|by intros [?%elem_of_nil|?]].
  intros [->%list_elem_of_singleton|Hl]; [apply lookup_delete_eq|].
  destruct (decide (l = l')) as [->|]; [apply lookup_delete_eq|by rewrite lookup_delete_ne].
Qed.

(** What the request points to is freed, each block once; the structure stays. *)
Lemma release_run h0 r q req s h :
  owns h0 r q req h ->
  lcapnet_req_release (Some r) (mkMs s h) = Ok (tt, mkMs s (<[r := BReq q]> h0)).
Proof.
  intros Ho. pose proof (fun l => own_alive _ _ _ _ _ l Ho) as Ha.
  pose proof (own_distinct _ _ _ _ _ Ho) as Hnd.
  pose proof (own_new _ _ _ _ _ Ho) as Hnew. pose proof (own_rest _ _ _ _ _ Ho) as Hrest.
  unfold ptrs in *. apply NoDup_cons in Hnd as [Hr Hd].
  apply NoDup_app in Hd as (_ & Hd1 & Hd). apply NoDup_app in Hd as (_ & Hd2 & _).
  setoid_rewrite elem_of_cons in Ha. setoid_rewrite elem_of_cons in Hnew.
  setoid_rewrite not_elem_of_cons in Hrest.
  setoid_rewrite elem_of_app in Ha. setoid_rewrite elem_of_app in Ha.
  setoid_rewrite elem_of_app in Hnew. setoid_rewrite elem_of_app in Hnew.
  setoid_rewrite elem_of_app in Hrest. setoid_rewrite elem_of_app in Hrest.
  setoid_rewrite elem_of_app in Hd1. rewrite !elem_of_app in Hr.
  assert (Hopt : forall p (l : positive), p = Some l -> l ∈ opt_list p) by (intros ? ? ->; by left).
  unfold lcapnet_req_release, mbind, M_bind.
  rewrite (load_req_run _ _ _ _ (own_req _ _ _ _ _ Ho)).
  rewrite free_opt by (intros l ?%Hopt; apply Ha; tauto).
  rewrite free_opt.
  2: { intros l ?%Hopt. rewrite lookup_delete_opt; [apply Ha; tauto|]. intros ?. by eapply Hd1; eauto. }
  rewrite free_opt.
  2: { intros l ?%Hopt. rewrite !lookup_delete_opt; [apply Ha; tauto| |].
       - intros ?. by eapply Hd1; eauto.
       - intros ?. by eapply Hd2; eauto. }
  do 3 f_equal. apply map_eq. intros x.
  destruct (decide (x = r)) as [->|Hx].
  - rewrite lookup_insert_eq, !lookup_delete_opt by tauto. apply (own_req _ _ _ _ _ Ho).
  - rewrite lookup_insert_ne by done.
    destruct (decide (x ∈ opt_list (rq_remote q) \/ x ∈ opt_list (rq_forward q) \/
                      x ∈ opt_list (rq_body q))) as [Hin|Hni].
    + rewrite Hnew by tauto. apply delete_opt_None.
      destruct Hin as [?|[?|?]]; [|right; apply delete_opt_None; by left|by left].
      right. apply delete_opt_None. right. apply delete_opt_None. by left.
    + rewrite !lookup_delete_opt by tauto. apply Hrest. tauto.
Qed.

(** ** One message *)

Lemma read_conn_run h p c s :
  conn_at h p c -> read_conn p (mkMs s h) = Ok (c, mkMs s h).
Proof.
  destruct p as [l|], c as [b|]; try done. cbn. intros Hl. unfold mbind, M_bind.
  rewrite (load_run _ _ _ _ Hl). cbn. by rewrite read_area_written.
Qed.

(** The callback reads the request that was put together. *)
Lemma read_req_run h0 r q req h s :
  owns h0 r q req h -> rq_body_len q = lr_body_len req -> 0 < rq_body_len q ->
  read_req r (mkMs s h) = Ok (req, mkMs s h).
Proof.
  intros [Hr Hf Hre Hfo Hb _ _ _] Hlen Hpos. unfold read_req, mbind, M_bind.
  rewrite (load_req_run _ _ _ _ Hr), (read_conn_run _ _ _ _ Hre), (read_conn_run _ _ _ _ Hfo).
  destruct (rq_body q) as [l|]; cbn in Hb.
  2: { rewrite Hlen in Hpos. unfold lr_body_len in Hpos. rewrite Hb in Hpos. done. }
  cbn. rewrite (load_body_run _ _ _ _ Hb), Hlen. unfold lr_body_len.
  rewrite read_area_written. rewrite Hf. by destruct req.
Qed.

(** What a receive leaves allocated: its request, if there was memory for one,
    and the body, if the memory ran out later. *)
Definition leaves (rc : Z) (h h' : heap) : Prop :=
  h' = h /\ rc = - ENOMEM \/
  exists r q h1, h !! r = None /\ h1 !! r = None /\ h' = <[r := BReq q]> h1 /\ lost rc h h1.

Lemma owns_start h r flags :
  h !! r = None ->
  owns h r (mkReq flags None None None 0)
    {| lr_flags := flags; lr_remote := None; lr_forward := None; lr_body := [] |}
    (<[r := BReq (mkReq flags None None None 0)]> h).
Proof.
  intros Hr. constructor; try done; unfold ptrs; cbn.
  - apply lookup_insert_eq.
  - apply NoDup_singleton.
  - by intros l ->%list_elem_of_singleton.
  - intros l Hl. apply lookup_insert_ne. intros ->. apply Hl. by left.
Qed.

Lemma zoom_refines {A} (m : M St A) s h :
  refines m (zoom ms_st (fun st m => mkMs st (ms_heap m)) m) (fun a b h' => b = a /\ h' = h) s h.
Proof. unfold refines, zoom. cbn. destruct (m s) as [[a s']|x]; [|done]. by eexists _, _. Qed.

(** From the request on: the frames, the callback and the release. *)
Lemma receive_refines fuel flags (cb : lcap_rpc_hdl St) r q req s h :
  owns h r q req (<[r := BReq q]> h) -> rq_body_len q = lr_body_len req ->
  refines
    (ru ← recv_frames fuel flags req;
     if (0 <=? fst ru) && (0 <? lr_body_len (snd ru)) then cb (snd ru) else mret (fst ru))
    (rc ← recv_frames_mem fuel flags r;
     q ← load_req r;
     rc ← (if (0 <=? rc) && (0 <? rq_body_len q) then
             req ← read_req r; zoom ms_st (fun st m => mkMs st (ms_heap m)) (cb req)
           else mret rc) : M (mstate St) Z;
     lcapnet_req_release (Some r);;
     mret rc)
    (fun z rc h' => rc = z /\ leaves rc h h') s (<[r := BReq q]> h).
Proof.
  intros Ho Hlen. eapply refines_bind; [by eapply recv_frames_refines|cbn beta].
  intros [z req1] rc s1 h1 (-> & h0 & q1 & Ho1 & Hlost & Hlen1). cbn [fst snd] in *.
  eapply refines_mem; [by apply load_req_run, (own_req _ _ _ _ _ Ho1)|].
  assert (Hr : h !! r = None) by (apply (own_new _ _ _ _ _ Ho); by left).
  assert (Hr0 : h0 !! r = None) by (apply (own_new _ _ _ _ _ Ho1); by left).
  assert (Hend : forall z' s' , (z < 0 -> z' = z) ->
    refines (mret z') (lcapnet_req_release (Some r);; mret z')
            (fun z rc h' => rc = z /\ leaves rc h h') s' h1).
  { intros z' s' Hz. eapply refines_mem; [by eapply release_run|]. apply refines_ret. split; [done|].
    right. exists r, q1, h0. split_and!; [done..|].
    destruct Hlost as [->|[Hneg Hl]]; [by left|right]. rewrite Hz by done. by split. }
  destruct (Z.leb_spec 0 z) as [Hz|Hz]; cbn [andb].
  - rewrite <- Hlen1 by done. destruct (Z.ltb_spec 0 (rq_body_len q1)).
    + apply refines_assoc. eapply refines_mem; [by eapply read_req_run; auto|].
      eapply refines_bind_r; [apply zoom_refines|cbn beta]. intros z' ? s' ? [-> ->].
      apply Hend. lia.
    + eapply refines_mem; [done|]. by apply Hend.
  - eapply refines_mem; [done|]. by apply Hend.
Qed.

Lemma lcap_rpc_recv_once_refines fuel flags (cb : lcap_rpc_hdl St) s h :
  refines (lcap_rpc_recv_once fuel flags cb) (lcap_rpc_recv_once_mem fuel flags cb)
          (fun z rc h' => rc = z /\ leaves rc h h') s h.
Proof.
  unfold lcap_rpc_recv_once, lcap_rpc_recv_once_mem, lcapnet_req_init, lcapnet_req_init_mem, malloc.
  apply refines_assoc, refines_assoc_l.
  eapply refines_bind; [apply refines_alloc|cbn beta]. intros ok ? s1 ? [-> ->].
  destruct ok.
  2: { apply refines_ret. split; [done|]. by left. }
  destruct (place_run (BReq (mkReq 0 None None None 0)) s1 h) as (r & Hr & Hp).
  apply refines_assoc. eapply refines_mem; [exact Hp|]. eapply refines_mem; [done|]. cbn beta.
  destruct (Z.land flags LCAP_RECV_NO_ENVELOPE =? 0).
  - eapply refines_mem; [done|]. by apply receive_refines; [apply owns_start|].
  - apply refines_assoc. eapply refines_mem; [apply load_req_run, lookup_insert_eq|].
    eapply refines_mem; [eapply store_run, lookup_insert_eq|]. rewrite insert_insert_eq.
    by apply receive_refines; [apply owns_start|].
Qed.

(** ** The loop *)

Definition is_req (b : block) : bool := if b is BReq _ then true else false.

(** The number of request structures, and of other blocks, that are allocated. *)
Definition structs (h : heap) : nat := size (filter (fun kv => is_req kv.2 = true) h).
Definition others (h : heap) : nat := size (filter (fun kv => is_req kv.2 <> true) h).

Lemma structs_insert h l b :
  h !! l = None -> structs (<[l := b]> h) = ((if is_req b then 1 else 0) + structs h)%nat.
Proof.
  intros Hl. unfold structs. rewrite map_filter_insert. cbn.
  destruct (is_req b); [rewrite decide_True by done|rewrite decide_False by done].
  - apply map_size_insert_None. apply map_lookup_filter_None. by left.
  - by rewrite delete_id.
Qed.

Lemma others_insert h l b :
  h !! l = None -> others (<[l := b]> h) = ((if is_req b then 0 else 1) + others h)%nat.
Proof.
  intros Hl. unfold others. rewrite map_filter_insert. cbn.
  destruct (is_req b); [rewrite decide_False by auto|rewrite decide_True by done].
  - by rewrite delete_id.
  - apply map_size_insert_None. apply map_lookup_filter_None. by left.
Qed.

(** [leaked lo hi k h h']: nothing of [h] is lost, and [h'] has between [lo]
    and [hi] more request structures, and at most [k] more other blocks. *)
Definition leaked (lo hi k : nat) (h h' : heap) : Prop :=
  h ⊆ h' /\ (lo + structs h <= structs h' <= hi + structs h)%nat /\
  (others h <= others h' <= k + others h)%nat.

Lemma leaked_trans lo1 hi1 k1 lo2 hi2 k2 h h1 h2 :
  leaked lo1 hi1 k1 h h1 -> leaked lo2 hi2 k2 h1 h2 ->
  leaked (lo1 + lo2) (hi1 + hi2) (k1 + k2) h h2.
Proof.
  intros (Hs1 & ? & ?) (Hs2 & ? & ?). split; [by etrans|]. lia.
Qed.

Lemma leaves_leaked rc h h' :
  leaves rc h h' -> if rc <? 0 then leaked 0 1 1 h h' else leaked 1 1 0 h h'.
Proof.
  intros [[-> ->]|(r & q & h1 & Hr & Hr1 & -> & Hlost)].
  { change (- ENOMEM <? 0) with true. split; [done|]. lia. }
  unfold leaked. rewrite structs_insert, others_insert by done. cbn [is_req].
  destruct Hlost as [->|(Hneg & l & d & Hl & ->)].
  - assert (h ⊆ <[r := BReq q]> h) by by apply insert_subseteq.
    destruct (rc <? 0); (split; [done|lia]).
  - rewrite (proj2 (Z.ltb_lt _ _) Hneg). rewrite structs_insert, others_insert by done. cbn [is_req].
    split; [|lia]. trans (<[l := BBody d]> h); by apply insert_subseteq.
Qed.

(** C14: On the memory, receiving does what LcapNet says: for every sequence of
    frames and whatever fails, no block is used after it was freed, freed
    twice, read before it was written or accessed out of bounds, and the
    callback reads the request that was put together. But each message that
    is processed leaks its request structure; the call that ends the loop
    may leak one more, and one body that could not grow. *)
Theorem receive_leaks_requests n fuel flags (cb : lcap_rpc_hdl St) s h :
  refines (lcap_rpc_recv n fuel flags cb 0) (lcap_rpc_recv_mem n fuel flags cb 0)
          (fun k k' h' => k' = k /\ 0 <= k /\ leaked (Z.to_nat k) (S (Z.to_nat k)) 1 h h') s h.
Proof.
  enough (Hgen : forall p, 0 <= p ->
    refines (lcap_rpc_recv n fuel flags cb p) (lcap_rpc_recv_mem n fuel flags cb p)
      (fun k k' h' => k' = k /\ p <= k /\
        leaked (Z.to_nat (k - p)) (S (Z.to_nat (k - p))) 1 h h') s h).
  { eapply refines_mono; [by apply Hgen|]. cbn beta. intros k ? h'. by rewrite Z.sub_0_r. }
  revert s h. induction n as [|n IH]; intros s h p Hp; cbn [lcap_rpc_recv lcap_rpc_recv_mem]; [done|].
  eapply refines_bind; [apply lcap_rpc_recv_once_refines|cbn beta].
  intros rc ? s1 h1 [-> Hl%leaves_leaked]. destruct (rc <? 0).
  - apply refines_ret. rewrite Z.sub_diag. split_and!; [done|done|exact Hl].
  - eapply refines_mono; [apply IH; lia|]. cbn beta. intros k ? h' (-> & Hk & Hl').
    split_and!; [done|lia|]. pose proof (leaked_trans _ _ _ _ _ _ _ _ _ Hl Hl') as Ht.
    replace (Z.to_nat (k - p)) with (1 + Z.to_nat (k - (p + 1)))%nat by lia. exact Ht.
Qed.

End receive.

(** ** On a concrete message *)

(** One message is processed, the next receive fails: two structures leak. *)
Lemma receive_leaks_requests_witness :
  match @lcap_rpc_recv_mem one_frame_world trace _ 2 1 1 (fun _ => mret 0) 0 (mkMs [] ∅) with
  | Ok (k, s) => k = 1 /\ structs (ms_heap s) = 2%nat
  | Fault _ => False
  end /\
  @refines trace _ _ (@lcap_rpc_recv one_frame_world trace _ 2 1 1 (fun _ => mret 0) 0)
    (@lcap_rpc_recv_mem one_frame_world trace _ 2 1 1 (fun _ => mret 0) 0)
    (fun k k' h' => k' = k /\ 0 <= k /\ leaked (Z.to_nat k) (S (Z.to_nat k)) 1 ∅ h') [] ∅.
Proof.
  split; [vm_compute; by split|].
  exact (@receive_leaks_requests one_frame_world trace _ _ 2 1 1 (fun _ => mret 0) [] ∅).
Defined.
