(* ===== verification/RpcUtils.v ===== *)
(** * Sending RPCs ([src/lcapd/rpc_utils.c], [src/lcapd/lcapd_internal.h]) *)
From S2P Require Import Prelude World Idl LcapNet.
Local Open Scope Z_scope.

(** [cid_compare], whose [bool] result is 0 (false) for equal identities:
    [memcmp] runs only on identities of the same length. *)
Definition cid_compare (cid0 cid1 : conn_id) : bool :=
  if ci_length cid1 <? ci_length cid0 then true
  else if ci_length cid0 <? ci_length cid1 then true
  else negb (bool_decide (cid0 = cid1)).

Lemma cid_compare_false cid0 cid1 : cid_compare cid0 cid1 = false <-> cid0 = cid1.
Proof.
  unfold cid_compare, ci_length. split.
  - destruct (_ <? _); [done|]. destruct (_ <? _); [done|].
    by intros ?%negb_false_iff%bool_decide_eq_true.
  - intros ->. rewrite Z.ltb_irrefl. by rewrite bool_decide_eq_true_2.
Qed.

Section rpc.
Context `{World, HasTrace St}.

(** One [zmq_send] with its [goto err_out]: [k] goes on after a success. *)
Definition send_part (frame : bytes) (more : bool) (k : M St Z) : M St Z :=
  rc ← ext (ZmqSend frame more);
  if rc <? 0 then mret rc else k.

Definition peer_rpc_send (src_id dst_id : option conn_id) (msg : bytes) : M St Z :=
  let tail :=
    dst ← unwrap NullDeref dst_id;
    send_part dst true (send_part [] true (send_part msg false (mret 0))) in
  match src_id with
  | Some src => send_part src true (send_part [] true tail)
  | None => tail
  end.

Definition ack_message (ret : Z) : px_rpc_ack :=
  {| ack_hdr := {| op_type := op_code RPC_OP_ACK; reserved := 0 |};
     ack_retcode_field := ret |}.

Definition ack_retcode (src_id dst_id : option conn_id) (ret : Z) : M St Z :=
  rc ← peer_rpc_send src_id dst_id (enc_ack (ack_message ret));
  if rc <? 0 then mret rc else mret 0.
End rpc.

(** The frames of a message: the address of the next hop, if any, that of the
    peer, each with its delimiter, and the RPC. *)
Definition envelope (src : option conn_id) (dst : conn_id) (msg : bytes)
    : list (bytes * bool) :=
  match src with Some s => [(s, true); ([], true)] | None => [] end
  ++ [(dst, true); ([], true); (msg, false)].

(** The outcome of sending [fs]: all of it, or an error after a proper prefix. *)
Definition sent `{World} (fs : list (bytes * bool)) (rc : Z) (t : trace) : Prop :=
  (rc = 0 /\ frames_of t = fs) \/
  (rc < 0 /\ send_refused /\ exists k, (k < length fs)%nat /\ frames_of t = take k fs).

Section sending.
Context `{World, HasTraceLaws St}.
Implicit Types (s : St) (t : trace).

Lemma wp_send_part f more (k : M St Z) fs s :
  (forall s, wp k (fun rc s' => exists t, extends s t s' /\ clears_of t = []
                     /\ sent fs rc t) safe s) ->
  wp (send_part f more k) (fun rc s' => exists t, extends s t s' /\ clears_of t = []
                     /\ sent ((f, more) :: fs) rc t) safe s.
Proof.
  intros Hk. unfold send_part. wp_steps. rewrite wp_ext.
  set (rc := w_rc _ _). set (s1 := logged _ _).
  assert (H1 : extends s [(ZmqSend f more, rc)] s1) by apply extends_logged.
  destruct (Z.ltb_spec rc 0) as [Hrc|Hrc]; wp_steps.
  - eexists. split; [exact H1|]. split; [done|]. right. split; [done|].
    split; [by exists (s_trace s), f, more|].
    exists 0%nat. split; [simpl; lia|]. simpl. by rewrite (proj2 (Z.leb_gt 0 rc)).
  - wp_apply (Hk s1). intros rc' s' (t & H2 & Hc & Hs).
    exists ([(ZmqSend f more, rc)] ++ t). split; [by eapply extends_trans|].
    split; [done|]. unfold sent. rewrite frames_of_app. simpl.
    rewrite (proj2 (Z.leb_le 0 rc)) by done. simpl.
    destruct Hs as [[-> ->]|(? & ? & k' & ? & ->)]; [by left|].
    right. split; [done|]. split; [done|]. exists (S k'). split; [lia|done].
Qed.

Lemma peer_rpc_send_spec src dst msg s :
  wp (peer_rpc_send src (Some dst) msg) (fun rc s' => exists t, extends s t s'
       /\ clears_of t = [] /\ sent (envelope src dst msg) rc t) safe s.
Proof.
  unfold peer_rpc_send, envelope.
  assert (Hret : forall s, wp (mret 0 : M St Z) (fun rc s' => exists t,
    extends s t s' /\ clears_of t = [] /\ sent [] rc t) safe s).
  { intros s'. wp_steps. exists []. split; [apply extends_refl|]. split; [done|by left]. }
  destruct src as [sid|]; simpl; repeat (apply wp_send_part; intros); try (wp_steps);
    repeat (apply wp_send_part; intros); apply Hret.
Qed.

Lemma ack_retcode_spec src dst ret s :
  wp (ack_retcode src (Some dst) ret) (fun rc s' => exists t, extends s t s'
       /\ clears_of t = [] /\ sent (envelope src dst (enc_ack (ack_message ret))) rc t) safe s.
Proof.
  unfold ack_retcode. wp_steps. wp_apply (peer_rpc_send_spec src dst).
  intros rc s' (t & Ht & Hc & Hs).
  destruct Hs as [[-> Hf]|[Hrc Hf]].
  - simpl. wp_steps. exists t. split; [done|]. split; [done|]. by left.
  - rewrite (proj2 (Z.ltb_lt rc 0)) by done. wp_steps. exists t.
    split; [done|]. split; [done|]. by right.
Qed.

(** The error code that a client reads back from the ACK. *)
Lemma ack_message_retcode ret :
  in_s 32 ret -> get_retcode (enc_ack (ack_message ret)) = ret.
Proof. apply (get_retcode_ack (ack_message ret)). Qed.
End sending.
