(* ===== verification/Effects.v ===== *)
(** * Which calls a piece of code makes

    [emits P m]: whenever [m] ends, the calls it has made satisfy [P]. The rules
    follow the structure of the code; [emit] applies them. A loop needs an
    induction, whose result is a hint of the database [emits]. *)
From S2P Require Import Prelude World LcapNet RpcUtils.
Local Open Scope Z_scope.

Section emits.
Context `{World, HasTraceLaws St}.
Implicit Types (P : extcall -> Prop).

Definition emits P {A} (m : M St A) : Prop :=
  forall s a s', m s = Ok (a, s') ->
    exists t, s_trace s' = s_trace s ++ t /\ Forall (fun e => P e.1) t.

(** The state may change, the trace does not. *)
Lemma emits_none P {A} (m : M St A) :
  (forall s a s', m s = Ok (a, s') -> s_trace s' = s_trace s) -> emits P m.
Proof. intros Hm s a s' Hs. exists []. rewrite (Hm _ _ _ Hs), app_nil_r. by split. Qed.

Lemma emits_ret P {A} (a : A) : emits P (mret a).
Proof. apply emits_none. by intros s a' s' [= _ <-]. Qed.

Lemma emits_fail P {A} f : emits P (fail f : M St A).
Proof. by intros s a s'. Qed.

Lemma emits_gets P {A} (g : St -> A) : emits P (gets g).
Proof. apply emits_none. by intros s a s' [= _ <-]. Qed.

Lemma emits_modify P (g : St -> St) :
  (forall s, s_trace (g s) = s_trace s) -> emits P (modify g).
Proof. intros Hg. apply emits_none. by intros s [] s' [= <-]. Qed.

Lemma emits_unwrap P {A} f (o : option A) : emits P (unwrap f o : M St A).
Proof. destruct o; [apply emits_ret|apply emits_fail]. Qed.

Lemma emits_assert P b : emits P (assert b : M St unit).
Proof. destruct b; [apply emits_ret|apply emits_fail]. Qed.

Lemma emits_ext P c : P c -> emits P (ext c : M St Z).
Proof.
  intros Hc s a s' [= _ <-]. eexists. rewrite s_trace_put. split; [done|].
  by apply Forall_singleton.
Qed.

Lemma emits_bind P {A B} (m : M St A) (k : A -> M St B) :
  emits P m -> (forall a, emits P (k a)) -> emits P (m ≫= k).
Proof.
  intros Hm Hk s b s'. unfold mbind, M_bind. destruct (m s) as [[a s1]|f] eqn:E; [|done].
  intros Hs. apply Hm in E as (t1 & Ht1 & Hp1). apply Hk in Hs as (t2 & -> & Hp2).
  exists (t1 ++ t2). rewrite Ht1, app_assoc. split; [done|by apply Forall_app].
Qed.

Lemma emits_zoom P {T A} (g : St -> T) (p : T -> St -> St) (m : M T A) :
  (forall t s, s_trace (p t s) = s_trace s) -> emits P (zoom g p m).
Proof.
  intros Hp. apply emits_none. unfold zoom. intros s a s'.
  destruct (m (g s)) as [[b t]|f]; [|done]. intros [= _ <-]. apply Hp.
Qed.

Lemma emits_alloc P sz : P (Alloc sz) -> emits P (alloc sz : M St bool).
Proof. intros. apply emits_bind; [by apply emits_ext|intros; apply emits_ret]. Qed.

Lemma emits_mono P P' {A} (m : M St A) : (forall c, P c -> P' c) -> emits P m -> emits P' m.
Proof.
  intros HP Hm s a s' Hs. apply Hm in Hs as (t & Ht & Hp). exists t. split; [done|].
  eapply Forall_impl; [exact Hp|]. intros e. apply HP.
Qed.

Lemma emits_wp P {A} (m : M St A) (Q : A -> St -> Prop) E s :
  emits P m -> wp m Q E s ->
  wp m (fun a s' => Q a s' /\ exists t, s_trace s' = s_trace s ++ t /\
                                         Forall (fun e => P e.1) t) E s.
Proof.
  intros Hm. unfold wp. destruct (m s) as [[a s']|f] eqn:E1; [|done]. eauto.
Qed.
End emits.

Create HintDb emits discriminated.
#[export] Hint Resolve emits_ret emits_fail emits_gets emits_unwrap emits_assert : emits.

(** The rule for the head of the code; side conditions on calls and assignments
    are closed by computation. *)
Ltac emit :=
  lazymatch goal with
  | |- forall _, _ => intro; emit
  | |- emits _ (_ ≫= _) => apply emits_bind; [emit|intro; emit]
  | |- emits _ (ext _) => apply emits_ext; try done
  | |- emits _ (alloc _) => apply emits_alloc; try done
  | |- emits _ (modify _) => apply emits_modify; try (intros []; done)
  | |- emits _ (zoom _ _ _) => apply emits_zoom; try (intros ? []; done)
  | |- emits _ (match ?x with _ => _ end) => destruct x; emit
  | |- emits _ (let _ := _ in _) => cbv zeta; emit
  | |- _ => first [solve [eauto with emits] | idtac]
  end.

Section net.
Context `{World, HasTraceLaws St}.

(** The calls that receive a message, and the one that sends a frame. *)
Definition receives (c : extcall) : Prop :=
  match c with Alloc _ | ZmqMsgInit | ZmqMsgRecv _ => True | _ => False end.
Definition sends (c : extcall) : Prop :=
  match c with ZmqSend _ _ => True | _ => False end.

Lemma emits_send_part P frame more (k : M St Z) :
  P (ZmqSend frame more) -> emits P k -> emits P (send_part frame more k).
Proof. intros. unfold send_part. by emit. Qed.

Lemma emits_peer_rpc_send P src dst msg :
  (forall f more, P (ZmqSend f more)) -> emits P (peer_rpc_send src dst msg : M St Z).
Proof.
  intros HP. unfold peer_rpc_send. cbv zeta.
  destruct src; repeat apply emits_send_part; try done; (apply emits_bind; [emit|intros d]);
    repeat apply emits_send_part; try done; emit.
Qed.

Lemma emits_ack_retcode P src dst ret :
  (forall f more, P (ZmqSend f more)) -> emits P (ack_retcode src dst ret : M St Z).
Proof. intros HP. unfold ack_retcode. apply emits_bind; [by apply emits_peer_rpc_send|emit]. Qed.

Lemma emits_recv_frames P fuel flags req :
  (forall c, receives c -> P c) -> emits P (recv_frames fuel flags req : M St _).
Proof.
  intros HP. revert req. induction fuel as [|fuel IH]; intros req; cbn [recv_frames]; emit;
    try (by apply HP).
  unfold lcapnet_req_update, connection_id_new. emit; by apply HP.
Qed.

Lemma emits_lcap_rpc_recv P n fuel flags cb p :
  (forall c, receives c -> P c) -> (forall req, emits P (cb req)) ->
  emits P (lcap_rpc_recv n fuel flags cb p : M St Z).
Proof.
  intros HP Hcb. revert p. induction n as [|n IH]; intros p; cbn [lcap_rpc_recv]; emit.
  unfold lcap_rpc_recv_once, lcapnet_req_init. emit; try (by apply HP).
  by apply emits_recv_frames.
Qed.
End net.

#[export] Hint Resolve emits_ack_retcode emits_peer_rpc_send emits_lcap_rpc_recv : emits.
