(* ===== verification/Config.v ===== *)
(** * The configuration ([src/lcapd/config.c], [src/lcapd/lcapd_internal.h])

    The configuration file is read line by line; each line is a statement of a
    directive and an argument. The functions of libc that the source parses
    with ([strncasecmp], [isspace], [sscanf], [atoi], [fgets]) are written out
    for the "C" locale. *)
From S2P Require Import Prelude World.
Local Open Scope Z_scope.

Definition MAX_MDT := 128.
Definition DEFAULT_CFG_FILE : bytes := of_str "/etc/lcap.cfg".
Definition DEFAULT_REC_BATCH := 64.
Definition DEFAULT_MAX_BUCKETS := 256.

(** [ccf_mdt] is an array of [MAX_MDT] pointers. *)
Record lcap_cfg := {
  ccf_mdt : list (option bytes);
  ccf_clreader : option bytes;
  ccf_mdtcount : Z;
  ccf_file : option bytes;
  ccf_loggername : option bytes;
  ccf_oneshot : bool;
  ccf_verbosity : Z;
  ccf_max_bkt : Z;
  ccf_rec_batch_count : Z;
  ccf_worker_count : Z;
}.

(** The structure after [memset]. *)
Definition cfg_zero : lcap_cfg := {|
  ccf_mdt := replicate (Z.to_nat MAX_MDT) None; ccf_clreader := None; ccf_mdtcount := 0;
  ccf_file := None; ccf_loggername := None; ccf_oneshot := false; ccf_verbosity := 0;
  ccf_max_bkt := 0; ccf_rec_batch_count := 0; ccf_worker_count := 0;
|}.

(** Assignments to fields. *)
Definition set_mdts (mdt : list (option bytes)) (n : Z) (c : lcap_cfg) : lcap_cfg :=
  Build_lcap_cfg mdt (ccf_clreader c) n (ccf_file c) (ccf_loggername c) (ccf_oneshot c)
    (ccf_verbosity c) (ccf_max_bkt c) (ccf_rec_batch_count c) (ccf_worker_count c).
Definition set_clreader (r : option bytes) (c : lcap_cfg) : lcap_cfg :=
  Build_lcap_cfg (ccf_mdt c) r (ccf_mdtcount c) (ccf_file c) (ccf_loggername c) (ccf_oneshot c)
    (ccf_verbosity c) (ccf_max_bkt c) (ccf_rec_batch_count c) (ccf_worker_count c).
Definition set_names (file logger : option bytes) (c : lcap_cfg) : lcap_cfg :=
  Build_lcap_cfg (ccf_mdt c) (ccf_clreader c) (ccf_mdtcount c) file logger (ccf_oneshot c)
    (ccf_verbosity c) (ccf_max_bkt c) (ccf_rec_batch_count c) (ccf_worker_count c).
Definition set_switches (oneshot : bool) (verbosity : Z) (c : lcap_cfg) : lcap_cfg :=
  Build_lcap_cfg (ccf_mdt c) (ccf_clreader c) (ccf_mdtcount c) (ccf_file c) (ccf_loggername c)
    oneshot verbosity (ccf_max_bkt c) (ccf_rec_batch_count c) (ccf_worker_count c).
Definition set_sizes (max_bkt batch workers : Z) (c : lcap_cfg) : lcap_cfg :=
  Build_lcap_cfg (ccf_mdt c) (ccf_clreader c) (ccf_mdtcount c) (ccf_file c) (ccf_loggername c)
    (ccf_oneshot c) (ccf_verbosity c) max_bkt batch workers.

(** The structure that is being filled. *)
Record cfg_state := mkCfgSt {
  cs_cfg : lcap_cfg;
  cs_trace : trace;
}.

#[export] Instance cfg_has_trace : HasTrace cfg_state := {
  s_trace := cs_trace;
  s_put t s := mkCfgSt (cs_cfg s) t;
}.
#[export] Instance cfg_has_trace_laws : HasTraceLaws cfg_state.
Proof. constructor; by intros; destruct s. Qed.

Definition mod_cfg (f : lcap_cfg -> lcap_cfg) : M cfg_state unit :=
  modify (fun s => mkCfgSt (f (cs_cfg s)) (cs_trace s)).

(** ** libc, on C strings without their NUL *)

Definition isspace (b : byte) : bool :=
  let z := Z_of_byte b in (z =? 32) || ((9 <=? z) && (z <=? 13)).

Definition tolower (b : byte) : Z :=
  let z := Z_of_byte b in if (65 <=? z) && (z <=? 90) then z + 32 else z.

(** [strncasecmp(haystack, needle, strlen(needle)) == 0]. *)
Fixpoint startswith (haystack needle : bytes) {struct needle} : bool :=
  match needle, haystack with
  | [], _ => true
  | _, [] => false
  | n :: needle, h :: haystack => (tolower h =? tolower n) && startswith haystack needle
  end.

Fixpoint skip_space (s : bytes) : bytes :=
  match s with
  | b :: s' => if isspace b then skip_space s' else s
  | [] => []
  end.

(** The first word of [s], of at most [width] bytes, and what follows it. *)
Fixpoint scan_word (width : nat) (s : bytes) : bytes * bytes :=
  match width, s with
  | S width, b :: s' =>
      if isspace b then ([], s)
      else let (w, rest) := scan_word width s' in (b :: w, rest)
  | _, _ => ([], s)
  end.

(** What [sscanf(line, "%*s %254s", arg)] stores; [None] when the line ends
    before the second word. *)
Definition scan_arg (line : bytes) : option bytes :=
  let (w, rest) := scan_word (length line) (skip_space line) in
  let (arg, _) := scan_word 254 (skip_space rest) in
  if bool_decide (w = []) || bool_decide (arg = []) then None else Some arg.

Definition digit (b : byte) : option Z :=
  let z := Z_of_byte b in if (48 <=? z) && (z <=? 57) then Some (z - 48) else None.

Fixpoint digits (acc : Z) (s : bytes) : Z :=
  match s with
  | b :: s' => match digit b with Some d => digits (10 * acc + d) s' | None => acc end
  | [] => acc
  end.

(** [atoi]. *)
Definition atoi (s : bytes) : Z :=
  match skip_space s with
  | b :: s' =>
      if Z_of_byte b =? 45 then - digits 0 s'
      else if Z_of_byte b =? 43 then digits 0 s'
      else digits 0 (b :: s')
  | [] => 0
  end.

(** [fgets] into [room + 1] bytes: the line, with its newline, and the rest. *)
Fixpoint fgets (room : nat) (content : bytes) : bytes * bytes :=
  match room, content with
  | S room, b :: content =>
      if Z_of_byte b =? 10 then ([b], content)
      else let (l, rest) := fgets room content in (b :: l, rest)
  | _, _ => ([], content)
  end.

(** ** The statements *)

Section config.
Context `{World}.

(** When [sscanf] stores nothing it returns 0, and the function NULL; or it
    returns [EOF] (as the one of glibc does, which assigned nothing before the
    end of the line), and [arg] is copied without having been written. *)
Definition cfg_get_arg (line : bytes) : M cfg_state (option bytes) :=
  match scan_arg line with
  | Some arg =>
      ok ← alloc (Z.of_nat (length arg) + 1);
      mret (if ok : bool then Some arg else None)
  | None =>
      rc ← ext (Sscanf line);
      if rc =? 0 then mret None else fail UninitRead
  end.

(** [atoi] of a number that is not an [int] is undefined. *)
Definition cfg_atoi (count : bytes) : M cfg_state Z :=
  if decide (in_s 32 (atoi count)) then mret (atoi count) else fail IntOverflow.

Definition handle_cfg_batch_records_line (line : bytes) : M cfg_state Z :=
  count ← cfg_get_arg line;
  match count with
  | None => mret (- EINVAL)
  | Some count =>
      n ← cfg_atoi count;
      mod_cfg (fun c => set_sizes (ccf_max_bkt c) n (ccf_worker_count c) c);;
      mret 0
  end.

Definition handle_cfg_max_buckets_line (line : bytes) : M cfg_state Z :=
  count ← cfg_get_arg line;
  match count with
  | None => mret (- EINVAL)
  | Some count =>
      n ← cfg_atoi count;
      mod_cfg (fun c => set_sizes n (ccf_rec_batch_count c) (ccf_worker_count c) c);;
      mret 0
  end.

Definition handle_cfg_logtype_line (line : bytes) : M cfg_state Z :=
  old ← gets (ccf_loggername ∘ cs_cfg);
  if bool_decide (old <> None) then mret (- EALREADY)
  else
    name ← cfg_get_arg line;
    mod_cfg (fun c => set_names (ccf_file c) name c);;
    mret (if name is None then - EINVAL else 0).

Definition handle_cfg_workers_line (line : bytes) : M cfg_state Z :=
  old ← gets (ccf_worker_count ∘ cs_cfg);
  if negb (old =? 0) then mret (- EALREADY)
  else
    count ← cfg_get_arg line;
    match count with
    | None => mret (- EINVAL)
    | Some count =>
        n ← cfg_atoi count;
        mod_cfg (fun c => set_sizes (ccf_max_bkt c) (ccf_rec_batch_count c) n c);;
        mret 0
    end.

Definition handle_cfg_mdtdevice_line (line : bytes) : M cfg_state Z :=
  n ← gets (ccf_mdtcount ∘ cs_cfg);
  if MAX_MDT <=? n then mret (- EALREADY)
  else
    mdtdev ← cfg_get_arg line;
    match mdtdev with
    | None => mret (- EINVAL)
    | Some dev =>
        slot ← gets (lookup (Z.to_nat n) ∘ ccf_mdt ∘ cs_cfg);
        if n <? 0 then fail OutOfBounds
        else
          unwrap OutOfBounds slot;;
          mod_cfg (fun c => set_mdts (<[Z.to_nat n := Some dev]> (ccf_mdt c)) (n + 1) c);;
          mret 0
    end.

Definition handle_cfg_clreader_line (line : bytes) : M cfg_state Z :=
  old ← gets (ccf_clreader ∘ cs_cfg);
  if bool_decide (old <> None) then mret (- EALREADY)
  else
    clreader ← cfg_get_arg line;
    match clreader with
    | None => mret (- EINVAL)
    | Some r => mod_cfg (set_clreader (Some r));; mret 0
    end.

Definition directives : list (bytes * (bytes -> M cfg_state Z)) := [
  (of_str "batch_records", handle_cfg_batch_records_line);
  (of_str "max_buckets", handle_cfg_max_buckets_line);
  (of_str "logtype", handle_cfg_logtype_line);
  (of_str "workers", handle_cfg_workers_line);
  (of_str "mdtdevice", handle_cfg_mdtdevice_line);
  (of_str "clreader", handle_cfg_clreader_line)
].

Fixpoint find_directive (ds : list (bytes * (bytes -> M cfg_state Z))) (line : bytes)
    : M cfg_state Z :=
  match ds with
  | [] => mret (- EINVAL)
  | (name, handler) :: ds =>
      if startswith line name then handler line else find_directive ds line
  end.

(** Blanks are skipped to find empty lines and comments; the directive is
    looked for at the start of the line. *)
Definition parse_config_line (line : bytes) : M cfg_state Z :=
  match skip_space line with
  | [] => mret 0
  | b :: _ => if Z_of_byte b =? 35 then mret 0 else find_directive directives line
  end.

(** The loop over the lines of the file. [fuel] is the number of lines. *)
Fixpoint parse_lines (fuel : nat) (content : bytes) : M cfg_state Z :=
  match fuel with
  | O => fail OutOfFuel
  | S fuel =>
      match content with
      | [] => errno ← ext Errno; mret (- errno)
      | _ =>
          let (raw, rest) := fgets 127 content in
          rc ← parse_config_line (default raw (cstr raw));
          if negb (rc =? 0) then mret rc else parse_lines fuel rest
      end
  end.

(** [content] is what the file holds that [fopen] opens. *)
Definition lcap_parse_config_file (content : bytes) : M cfg_state Z :=
  file ← gets (ccf_file ∘ cs_cfg);
  fd ← ext (Fopen (default DEFAULT_CFG_FILE file));
  if fd <? 0 then mret (- ENOENT) else parse_lines (S (length content)) content.

(** What [getopt] answers, one call after the other. *)
Inductive getopt_answer :=
| opt_c (optarg : bytes)
| opt_o
| opt_v
| opt_h
| opt_invalid.

(** [None] is [exit(0)]. *)
Fixpoint lcap_parse_args (opts : list getopt_answer) : M cfg_state (option Z) :=
  match opts with
  | [] => mret (Some 0)
  | opt_c optarg :: opts =>
      ok ← alloc (Z.of_nat (length optarg) + 1);
      mod_cfg (fun c => set_names (if ok : bool then Some optarg else None) (ccf_loggername c) c);;
      lcap_parse_args opts
  | opt_o :: opts =>
      mod_cfg (fun c => set_switches true (ccf_verbosity c) c);; lcap_parse_args opts
  | opt_v :: opts =>
      mod_cfg (fun c => set_switches (ccf_oneshot c) (ccf_verbosity c + 1) c);; lcap_parse_args opts
  | opt_h :: _ => mret None
  | opt_invalid :: _ => mret (Some (- EINVAL))
  end.

Definition config_set_defaults : M cfg_state unit :=
  mod_cfg (fun c => set_sizes DEFAULT_MAX_BUCKETS DEFAULT_REC_BATCH (ccf_worker_count c) c).

Definition lcap_cfg_init (opts : list getopt_answer) (content : bytes) : M cfg_state (option Z) :=
  mod_cfg (fun _ => cfg_zero);;
  config_set_defaults;;
  rc ← lcap_parse_args opts;
  match rc with
  | Some 0 => rc ← lcap_parse_config_file content; mret (Some rc)
  | _ => mret rc
  end.

(** The loop of [lcap_cfg_release]: the slot is read before [i] is compared. *)
Fixpoint release_mdts (n i : nat) : M cfg_state unit :=
  match n with
  | O => fail OutOfFuel
  | S n =>
      slot ← gets (lookup i ∘ ccf_mdt ∘ cs_cfg);
      mdt ← unwrap OutOfBounds slot;
      match mdt with
      | Some _ => if Z.of_nat i <? MAX_MDT then release_mdts n (S i) else mret tt
      | None => mret tt
      end
  end.

Definition lcap_cfg_release : M cfg_state Z :=
  release_mdts (S (Z.to_nat MAX_MDT)) 0;;
  mod_cfg (fun _ => cfg_zero);;
  mret 0.
End config.
