(* ===== verification/ConfigProps.v ===== *)
(** * The properties of the configuration

    A configuration that was read is well formed whatever the file holds, and a
    file of valid statements has the meaning of its statements, one by one. *)
From S2P Require Import Prelude World Idl Config.
Local Open Scope Z_scope.

(** The devices come first, with names that fit the SIGNAL RPC. *)
Record cfg_wf (c : lcap_cfg) : Prop := {
  cw_slots : Z.of_nat (length (ccf_mdt c)) = MAX_MDT;
  cw_count : 0 <= ccf_mdtcount c <= MAX_MDT;
  cw_named : forall i, Z.of_nat i < ccf_mdtcount c -> exists dev,
    ccf_mdt c !! i = Some (Some dev) /\ no_nul dev /\ dev <> [] /\
    Z.of_nat (length dev) < sizeof_mdtname;
  cw_free : forall i, ccf_mdtcount c <= Z.of_nat i < MAX_MDT -> ccf_mdt c !! i = Some None;
}.

(** A missing argument and a number that is not an [int] are undefined. *)
Definition bad_line (f : fault) : Prop := f = UninitRead \/ f = IntOverflow.

Lemma cfg_zero_wf : cfg_wf cfg_zero.
Proof.
  split; [done|done| |].
  - intros i Hi. cbn in Hi. lia.
  - intros i Hi. apply lookup_replicate. split; [done|]. unfold MAX_MDT in *. lia.
Qed.

(** A field other than the devices does not matter. *)
Lemma cfg_wf_other c c' :
  ccf_mdt c' = ccf_mdt c -> ccf_mdtcount c' = ccf_mdtcount c -> cfg_wf c -> cfg_wf c'.
Proof. intros Hm Hc [H1 H2 H3 H4]. split; rewrite ?Hm, ?Hc; done. Qed.

(** One more device. *)
Lemma cfg_wf_device c dev :
  cfg_wf c -> ccf_mdtcount c < MAX_MDT -> no_nul dev -> dev <> [] ->
  Z.of_nat (length dev) < sizeof_mdtname ->
  cfg_wf (set_mdts (<[Z.to_nat (ccf_mdtcount c) := Some dev]> (ccf_mdt c)) (ccf_mdtcount c + 1) c).
Proof.
  intros [Hs Hc Hn Hf] Hlt Hnul Hne Hl. split; cbn.
  - by rewrite length_insert.
  - lia.
  - intros i Hi. destruct (decide (i = Z.to_nat (ccf_mdtcount c))) as [->|Hne'].
    + exists dev. rewrite list_lookup_insert_eq by (unfold MAX_MDT in *; lia). done.
    + rewrite list_lookup_insert_ne by done. apply Hn. lia.
  - intros i Hi. rewrite list_lookup_insert_ne by lia. apply Hf. lia.
Qed.

(** ** Words *)

Lemma scan_word_app width s w rest :
  scan_word width s = (w, rest) -> s = w ++ rest /\ (length w <= width)%nat.
Proof.
  revert width w. induction s as [|b s IH]; intros [|width] w; cbn [scan_word];
    try (intros [= <- <-]; split; [done|cbn; lia]).
  destruct (isspace b); [intros [= <- <-]; split; [done|cbn; lia]|].
  destruct (scan_word width s) as [w' rest'] eqn:Hs. intros [= <- <-].
  destruct (IH _ _ Hs) as [-> Hl]. split; [done|cbn; lia].
Qed.

Lemma skip_space_suffix s : exists pre, s = pre ++ skip_space s.
Proof.
  induction s as [|b s [pre Hs]]; [by exists []|]. cbn [skip_space].
  destruct (isspace b); [|by exists []]. exists (b :: pre). cbn. by rewrite <- Hs.
Qed.

(** The argument is a piece of the line. *)
Lemma scan_arg_piece line arg :
  scan_arg line = Some arg -> arg <> [] /\ exists pre post, line = pre ++ arg ++ post.
Proof.
  unfold scan_arg. destruct (scan_word (length line) (skip_space line)) as [w rest] eqn:Hw.
  destruct (scan_word 254 (skip_space rest)) as [a post] eqn:Ha.
  destruct (bool_decide_reflect (w = [])); [done|]. destruct (bool_decide_reflect (a = [])); [done|].
  intros [= <-]. split; [done|].
  apply scan_word_app in Hw as [Hw _], Ha as [Ha _].
  destruct (skip_space_suffix line) as [p1 H1]. destruct (skip_space_suffix rest) as [p2 H2].
  exists (p1 ++ w ++ p2), post. rewrite H1, Hw, H2, Ha. by rewrite <- !app_assoc.
Qed.

Lemma scan_arg_ok line arg :
  scan_arg line = Some arg -> no_nul line -> Z.of_nat (length line) < sizeof_mdtname ->
  no_nul arg /\ arg <> [] /\ Z.of_nat (length arg) < sizeof_mdtname.
Proof.
  intros (Hne & pre & post & ->)%scan_arg_piece Hnul Hl. rewrite !length_app in Hl.
  unfold no_nul in *. rewrite !elem_of_app in Hnul. split; [tauto|]. split; [done|lia].
Qed.

(** ** Every line keeps the configuration well formed *)

Section lines.
Context `{World}.
Implicit Types (s : cfg_state) (line : bytes).

Definition good s : Prop := cfg_wf (cs_cfg s).

(** Rule for the argument of a directive. *)
Lemma wp_cfg_get_arg line (Q : option bytes -> cfg_state -> Prop) (E : fault -> Prop) s :
  E UninitRead ->
  (forall arg s', scan_arg line = Some arg -> cs_cfg s' = cs_cfg s -> Q (Some arg) s') ->
  (forall s', cs_cfg s' = cs_cfg s -> Q None s') ->
  wp (cfg_get_arg line) Q E s.
Proof.
  intros HE Hsome Hnone. unfold cfg_get_arg. destruct (scan_arg line) as [arg|]; wp_steps.
  2: { rewrite wp_ext. destruct (_ =? 0); wp_steps; [by apply Hnone|done]. } rewrite wp_alloc. wp_steps. destruct (0 <=? _); [by apply Hsome|by apply Hnone].
Qed.

(** Rule for the directives that set a number. *)
Lemma wp_number line (f : Z -> lcap_cfg -> lcap_cfg) s :
  (forall n c, ccf_mdt (f n c) = ccf_mdt c /\ ccf_mdtcount (f n c) = ccf_mdtcount c) -> good s ->
  wp (count ← cfg_get_arg line;
      match count with
      | None => mret (- EINVAL)
      | Some count => n ← cfg_atoi count; mod_cfg (f n);; mret 0
      end) (fun _ => good) bad_line s.
Proof.
  intros Hf Hs. wp_steps. apply wp_cfg_get_arg; [by left| |].
  - intros arg s' _ Hc. unfold cfg_atoi. wp_steps. destruct (decide _); [|by right].
    unfold mod_cfg. wp_steps. unfold good. cbn. rewrite Hc. by eapply cfg_wf_other; [apply Hf..|].
  - intros s' Hc. wp_steps. unfold good. by rewrite Hc.
Qed.

Lemma handlers_good name handler line s :
  (name, handler) ∈ directives -> no_nul line -> Z.of_nat (length line) < sizeof_mdtname ->
  good s -> wp (handler line) (fun _ => good) bad_line s.
Proof.
  intros Hin Hnul Hl Hs. unfold directives in Hin. rewrite !elem_of_cons, elem_of_nil in Hin.
  destruct Hin as [[= _ ->]|[[= _ ->]|[[= _ ->]|[[= _ ->]|[[= _ ->]|[[= _ ->]|[]]]]]]].
  - by apply (wp_number line (fun n c => set_sizes (ccf_max_bkt c) n (ccf_worker_count c) c)).
  - by apply (wp_number line (fun n c => set_sizes n (ccf_rec_batch_count c) (ccf_worker_count c) c)).
  - unfold handle_cfg_logtype_line. wp_steps. destruct (bool_decide _); wp_steps; [done|].
    apply wp_cfg_get_arg; [by left| |]; intros; unfold mod_cfg; wp_steps; unfold good; cbn;
      (eapply cfg_wf_other; [| |exact Hs]; cbn; by f_equal).
  - unfold handle_cfg_workers_line. wp_steps. destruct (negb _); [by wp_steps|].
    by apply (wp_number line (fun n c => set_sizes (ccf_max_bkt c) (ccf_rec_batch_count c) n c)).
  - unfold handle_cfg_mdtdevice_line. wp_steps. cbn [compose].
    destruct (Z.leb_spec MAX_MDT (ccf_mdtcount (cs_cfg s))); wp_steps; [done|].
    apply wp_cfg_get_arg; [by left| |].
    + intros arg s' Harg Hc. unfold mod_cfg. wp_steps. cbn [compose]. pose proof (cw_count _ Hs).
      rewrite (proj2 (Z.ltb_ge _ _)) by lia. wp_steps. rewrite Hc.
      rewrite (cw_free _ Hs) by lia. wp_steps. unfold good. cbn. rewrite Hc.
      destruct (scan_arg_ok _ _ Harg Hnul Hl) as (? & ? & ?). by apply cfg_wf_device.
    + intros s' Hc. wp_steps. unfold good. by rewrite Hc.
  - unfold handle_cfg_clreader_line. wp_steps. destruct (bool_decide _); wp_steps; [done|].
    apply wp_cfg_get_arg; [by left| |]; intros; unfold mod_cfg; wp_steps; unfold good; cbn;
      (eapply cfg_wf_other; [| |exact Hs]; cbn; by f_equal).
Qed.

Lemma find_directive_good ds line s :
  (forall d, d ∈ ds -> d ∈ directives) -> no_nul line -> Z.of_nat (length line) < sizeof_mdtname ->
  good s -> wp (find_directive ds line) (fun _ => good) bad_line s.
Proof.
  intros Hsub Hnul Hl Hs. induction ds as [|[name h] ds IH]; cbn [find_directive]; [by wp_steps|].
  destruct (startswith line name).
  - eapply handlers_good; [apply Hsub; by left|done..].
  - apply IH. intros d Hd. apply Hsub. by right.
Qed.

Lemma parse_config_line_good line s :
  no_nul line -> Z.of_nat (length line) < sizeof_mdtname -> good s ->
  wp (parse_config_line line) (fun _ => good) bad_line s.
Proof.
  intros Hnul Hl Hs. unfold parse_config_line. destruct (skip_space line) as [|b ?]; [by wp_steps|].
  destruct (_ =? 35); [by wp_steps|]. by apply find_directive_good.
Qed.

(** ** Lines *)

Lemma fgets_app room content l rest :
  fgets room content = (l, rest) -> content = l ++ rest /\ (length l <= room)%nat.
Proof.
  revert room l. induction content as [|b c IH]; intros [|room] l; cbn [fgets];
    try (intros [= <- <-]; split; [done|cbn; lia]).
  destruct (_ =? 10); [intros [= <- <-]; split; [done|cbn; lia]|].
  destruct (fgets room c) as [l' rest'] eqn:Hf. intros [= <- <-].
  destruct (IH _ _ Hf) as [-> Hl]. split; [done|cbn; lia].
Qed.

Lemma fgets_progress room b content l rest :
  fgets (S room) (b :: content) = (l, rest) -> (length rest < length (b :: content))%nat.
Proof.
  intros Hf. assert (l <> []).
  { cbn [fgets] in Hf. destruct (_ =? 10); [by simplify_eq|]. by destruct (fgets room content); simplify_eq. }
  apply fgets_app in Hf as [-> _]. rewrite length_app. destruct l; [done|]. cbn. lia.
Qed.

(** The C string in a line buffer. *)
Lemma line_string raw :
  no_nul (default raw (cstr raw)) /\ (length (default raw (cstr raw)) <= length raw)%nat.
Proof.
  destruct (cstr raw) as [l|] eqn:Hc; cbn.
  - apply cstr_Some in Hc as [Hn [rest ->]]. split; [done|]. rewrite length_app. lia.
  - split; [|done]. induction raw as [|b raw IH]; [apply not_elem_of_nil|]. cbn in Hc.
    destruct (decide (b = NUL)); [done|]. destruct (cstr raw); [done|].
    apply not_elem_of_cons. split; [done|by apply IH].
Qed.

Lemma parse_lines_good fuel content s :
  (length content < fuel)%nat -> good s ->
  wp (parse_lines fuel content) (fun _ => good) bad_line s.
Proof.
  revert content s. induction fuel as [|fuel IH]; intros content s Hl Hs; [lia|]. cbn [parse_lines].
  destruct content as [|b content]; wp_steps; [by rewrite wp_ext; wp_steps|].
  destruct (fgets 127 (b :: content)) as [raw rest] eqn:Hf.
  pose proof (fgets_progress _ _ _ _ _ Hf) as Hp. apply fgets_app in Hf as [_ Hraw].
  destruct (line_string raw) as [Hn Hlen]. wp_steps.
  eapply wp_mono; [apply parse_config_line_good; [done| |done]|cbn beta|done].
  { unfold sizeof_mdtname. lia. }
  intros rc s1 Hs1. destruct (negb _); [by wp_steps|]. apply IH; [lia|done].
Qed.

Lemma lcap_parse_args_good opts s :
  good s -> wp (lcap_parse_args opts) (fun _ => good) safe s.
Proof.
  revert s. induction opts as [|o opts IH]; intros s Hs; cbn [lcap_parse_args]; [by wp_steps|].
  destruct o; unfold mod_cfg; wp_steps; rewrite ?wp_alloc; wp_steps; try done;
    apply IH; (eapply cfg_wf_other; [| |exact Hs]; done).
Qed.
End lines.

(** ** What a file means *)

Inductive directive := batch_records | max_buckets | logtype | workers | mdtdevice | clreader.

Definition directive_name (d : directive) : bytes :=
  of_str (match d with
          | batch_records => "batch_records"
          | max_buckets => "max_buckets"
          | logtype => "logtype"
          | workers => "workers"
          | mdtdevice => "mdtdevice"
          | clreader => "clreader"
          end).

(** The lines of a file: blanks, comments and statements. *)
Inductive item :=
| blank (ws : bytes)
| comment (ws text : bytes)
| statement (d : directive) (arg : bytes).

Definition newline : byte := x0a.

Definition render (i : item) : bytes :=
  match i with
  | blank ws => ws
  | comment ws text => ws ++ x23 :: text
  | statement d arg => directive_name d ++ x20 :: arg
  end.

Definition render_file (items : list item) : bytes :=
  concat ((fun i => render i ++ [newline]) <$> items).

Definition is_number (d : directive) : bool :=
  match d with batch_records | max_buckets | workers => true | _ => false end.

Definition item_ok (i : item) : Prop :=
  no_nul (render i) /\ (newline ∉ render i) /\ (Z.of_nat (length (render i)) < 127) /\
  match i with
  | blank ws | comment ws _ => Forall (fun b => isspace b = true) ws
  | statement d arg => arg <> [] /\ Forall (fun b => isspace b = false) arg /\
      (is_number d = true -> in_s 32 (atoi arg))
  end.

(** A statement: its code and the configuration after it. *)
Definition apply_statement (d : directive) (arg : bytes) (c : lcap_cfg) : Z * lcap_cfg :=
  match d with
  | batch_records => (0, set_sizes (ccf_max_bkt c) (atoi arg) (ccf_worker_count c) c)
  | max_buckets => (0, set_sizes (atoi arg) (ccf_rec_batch_count c) (ccf_worker_count c) c)
  | logtype =>
      match ccf_loggername c with
      | Some _ => (- EALREADY, c)
      | None => (0, set_names (ccf_file c) (Some arg) c)
      end
  | workers =>
      if ccf_worker_count c =? 0
      then (0, set_sizes (ccf_max_bkt c) (ccf_rec_batch_count c) (atoi arg) c)
      else (- EALREADY, c)
  | mdtdevice =>
      if ccf_mdtcount c <? MAX_MDT
      then (0, set_mdts (<[Z.to_nat (ccf_mdtcount c) := Some arg]> (ccf_mdt c)) (ccf_mdtcount c + 1) c)
      else (- EALREADY, c)
  | clreader =>
      match ccf_clreader c with
      | Some _ => (- EALREADY, c)
      | None => (0, set_clreader (Some arg) c)
      end
  end.

Definition apply_item (i : item) (c : lcap_cfg) : Z * lcap_cfg :=
  match i with
  | blank _ | comment _ _ => (0, c)
  | statement d arg => apply_statement d arg c
  end.

(** The first statement that fails ends the reading. *)
Fixpoint apply_items (items : list item) (c : lcap_cfg) : Z * lcap_cfg :=
  match items with
  | [] => (0, c)
  | i :: items =>
      let (rc, c) := apply_item i c in
      if rc =? 0 then apply_items items c else (rc, c)
  end.

Section meaning.
Context `{World}.
Hypothesis allocs : forall t sz, 0 <= w_rc t (Alloc sz).
Implicit Types (s : cfg_state).

Lemma scan_word_word width w b rest :
  Forall (fun x => isspace x = false) w -> isspace b = true -> (length w <= width)%nat ->
  scan_word width (w ++ b :: rest) = (w, b :: rest).
Proof.
  intros Hw Hb. revert width. induction Hw as [|x w Hx _ IH]; intros [|width] Hl; cbn in *;
    [done|by rewrite Hb|lia|]. rewrite Hx, IH by lia. done.
Qed.

Lemma scan_arg_statement d arg :
  arg <> [] -> Forall (fun x => isspace x = false) arg -> (length arg < 127)%nat ->
  scan_arg (directive_name d ++ x20 :: arg ++ [newline]) = Some arg.
Proof.
  intros Hne Harg Hl. unfold scan_arg.
  assert (skip_space (directive_name d ++ x20 :: arg ++ [newline]) =
          directive_name d ++ x20 :: arg ++ [newline]) as -> by by destruct d.
  rewrite scan_word_word; [|by destruct d; repeat constructor|done|rewrite length_app; lia].
  cbn [skip_space]. assert (skip_space (arg ++ [newline]) = arg ++ [newline]) as Hsk.
  { destruct Harg as [|b arg Hb]; [done|]. cbn. by rewrite Hb. }
  change (isspace x20) with true. cbn iota. rewrite Hsk, scan_word_word by (done || lia).
  rewrite bool_decide_eq_false_2 by by destruct d. by rewrite bool_decide_eq_false_2.
Qed.

Lemma cfg_get_arg_statement d arg (Q : option bytes -> cfg_state -> Prop) s :
  arg <> [] -> Forall (fun x => isspace x = false) arg -> (length arg < 127)%nat ->
  (forall s', cs_cfg s' = cs_cfg s -> Q (Some arg) s') ->
  wp (cfg_get_arg (directive_name d ++ x20 :: arg ++ [newline])) Q safe s.
Proof.
  intros Hne Harg Hl HQ. unfold cfg_get_arg. rewrite scan_arg_statement by done. wp_steps.
  rewrite wp_alloc, (proj2 (Z.leb_le _ _)) by apply allocs. wp_steps. by apply HQ.
Qed.

(** The handler of a directive, and its search. *)
Definition handler_of (d : directive) : bytes -> M cfg_state Z :=
  match d with
  | batch_records => handle_cfg_batch_records_line
  | max_buckets => handle_cfg_max_buckets_line
  | logtype => handle_cfg_logtype_line
  | workers => handle_cfg_workers_line
  | mdtdevice => handle_cfg_mdtdevice_line
  | clreader => handle_cfg_clreader_line
  end.

Lemma startswith_name d e rest :
  startswith (directive_name d ++ rest) (directive_name e) =
    match d, e with
    | batch_records, batch_records | max_buckets, max_buckets | logtype, logtype
    | workers, workers | mdtdevice, mdtdevice | clreader, clreader => true
    | _, _ => false
    end.
Proof. by destruct d, e. Qed.

Lemma skip_space_name d rest :
  exists b tl, skip_space (directive_name d ++ rest) = b :: tl /\ Z_of_byte b <> 35.
Proof. destruct d; (do 2 eexists; split; [reflexivity|done]). Qed.

Lemma parse_directive d rest :
  parse_config_line (directive_name d ++ rest) = handler_of d (directive_name d ++ rest).
Proof.
  unfold parse_config_line. destruct (skip_space_name d rest) as (b & tl & -> & Hb).
  rewrite (proj2 (Z.eqb_neq _ _)) by done.
  change directives with ((fun d => (directive_name d, handler_of d)) <$>
    [batch_records; max_buckets; logtype; workers; mdtdevice; clreader]).
  cbn [find_directive fmap list_fmap]. rewrite !startswith_name. by destruct d.
Qed.

(** The conversion of a number that fits. *)
Lemma wp_cfg_atoi arg (f : Z -> lcap_cfg -> lcap_cfg) (Q : Z -> cfg_state -> Prop) s :
  in_s 32 (atoi arg) -> Q 0 (mkCfgSt (f (atoi arg) (cs_cfg s)) (cs_trace s)) ->
  wp (n ← cfg_atoi arg; mod_cfg (f n);; mret 0) Q safe s.
Proof. intros Hn HQ. unfold cfg_atoi. wp_steps. by rewrite decide_True. Qed.

(** The statement of a line is found and does what it means. *)
Lemma parse_statement d arg s :
  cfg_wf (cs_cfg s) -> item_ok (statement d arg) ->
  wp (parse_config_line (render (statement d arg) ++ [newline]))
     (fun rc s' => (rc, cs_cfg s') = apply_statement d arg (cs_cfg s)) safe s.
Proof.
  intros Hs (_ & _ & Hl & Hne & Harg & Hnum). cbn [render] in *. rewrite length_app in Hl.
  cbn [length] in Hl.
  assert (Hlen : (length arg < 127)%nat) by lia. rewrite <- app_assoc, <- app_comm_cons.
  rewrite parse_directive.
  assert (Hget : forall (Q : option bytes -> cfg_state -> Prop),
    (forall s', cs_cfg s' = cs_cfg s -> Q (Some arg) s') ->
    wp (cfg_get_arg (directive_name d ++ x20 :: arg ++ [newline])) Q safe s).
  { intros. by apply cfg_get_arg_statement. }
  set (line := directive_name d ++ _) in *.
  destruct d; cbn [handler_of apply_statement is_number] in *.
  - unfold handle_cfg_batch_records_line. wp_steps. apply Hget. intros s' Hc. 
    apply (wp_cfg_atoi _ (fun n c => set_sizes (ccf_max_bkt c) n (ccf_worker_count c) c)); [by apply Hnum|].
    cbn. by rewrite Hc.
  - unfold handle_cfg_max_buckets_line. wp_steps. apply Hget. intros s' Hc.
    apply (wp_cfg_atoi _ (fun n c => set_sizes n (ccf_rec_batch_count c) (ccf_worker_count c) c)); [by apply Hnum|].
    cbn. by rewrite Hc.
  - unfold handle_cfg_logtype_line. wp_steps. cbn [compose].
    destruct (ccf_loggername (cs_cfg s)) eqn:Hlog.
    { rewrite bool_decide_eq_true_2 by done. by wp_steps. }
    rewrite bool_decide_eq_false_2 by (by intros []). wp_steps. apply Hget. intros s' Hc.
    unfold mod_cfg. wp_steps. cbn. by rewrite Hc.
  - unfold handle_cfg_workers_line. wp_steps. cbn [compose]. destruct (_ =? 0); [|by wp_steps].
    cbn [negb]. wp_steps. apply Hget. intros s' Hc.
    apply (wp_cfg_atoi _ (fun n c => set_sizes (ccf_max_bkt c) (ccf_rec_batch_count c) n c)); [by apply Hnum|].
    cbn. by rewrite Hc.
  - unfold handle_cfg_mdtdevice_line. wp_steps. cbn [compose]. pose proof (cw_count _ Hs).
    destruct (Z.leb_spec MAX_MDT (ccf_mdtcount (cs_cfg s))).
    { rewrite (proj2 (Z.ltb_ge _ _)) by done. by wp_steps. }
    rewrite (proj2 (Z.ltb_lt (ccf_mdtcount (cs_cfg s)) MAX_MDT)) by done. wp_steps. apply Hget. intros s' Hc. wp_steps. cbn [compose].
    rewrite (proj2 (Z.ltb_ge _ 0)) by lia. rewrite Hc, (cw_free _ Hs) by lia. unfold mod_cfg. wp_steps. cbn.
    by rewrite Hc.
  - unfold handle_cfg_clreader_line. wp_steps. cbn [compose].
    destruct (ccf_clreader (cs_cfg s)) eqn:Hlog.
    { rewrite bool_decide_eq_true_2 by done. by wp_steps. }
    rewrite bool_decide_eq_false_2 by (by intros []). wp_steps. apply Hget. intros s' Hc.
    unfold mod_cfg. wp_steps. cbn. by rewrite Hc.
Qed.

(** Other lines do nothing. *)
Lemma skip_space_blanks ws rest :
  Forall (fun b => isspace b = true) ws -> skip_space (ws ++ rest) = skip_space rest.
Proof. induction 1 as [|b ws Hb _ IH]; [done|]. cbn [skip_space app]. by rewrite Hb. Qed.

Lemma parse_item i s :
  cfg_wf (cs_cfg s) -> item_ok i ->
  wp (parse_config_line (render i ++ [newline]))
     (fun rc s' => (rc, cs_cfg s') = apply_item i (cs_cfg s)) safe s.
Proof.
  intros Hs Hok. destruct i as [ws|ws text|d arg]; [| |by apply parse_statement];
    destruct Hok as (_ & _ & _ & Hws); cbn [render apply_item]; unfold parse_config_line;
    rewrite <- ?app_assoc, skip_space_blanks by done; by wp_steps.
Qed.

(** The line that [fgets] finds is the one that was written. *)
Lemma fgets_line l rest room :
  newline ∉ l -> (length l < room)%nat ->
  fgets room (l ++ newline :: rest) = (l ++ [newline], rest).
Proof.
  revert room. induction l as [|b l IH]; intros [|room] Hn Hl; cbn in Hl; try lia; [done|].
  apply not_elem_of_cons in Hn as [Hb Hn]. cbn [app fgets].
  destruct (Z.eqb_spec (Z_of_byte b) 10) as [He|_].
  - destruct Hb. symmetry. rewrite <- (byte_of_Z_of_byte b), He. done.
  - rewrite IH by (done || lia). done.
Qed.

Lemma cstr_none raw : no_nul raw -> cstr raw = None.
Proof.
  induction raw as [|b raw IH]; [done|]. intros [Hb Hr]%not_elem_of_cons. cbn.
  destruct (decide (b = NUL)); [congruence|]. by rewrite IH.
Qed.

Lemma apply_item_wf i c : cfg_wf c -> item_ok i -> cfg_wf (snd (apply_item i c)).
Proof.
  intros Hc (Hnul & _ & Hl & Hi). destruct i as [| |d arg]; [done|done|].
  cbn [render] in *. destruct Hi as (Hne & _). unfold no_nul in Hnul.
  rewrite elem_of_app, elem_of_cons in Hnul. rewrite length_app in Hl. cbn [length] in Hl.
  destruct d; cbn [apply_item apply_statement]; repeat case_match; cbn [snd];
    try (eapply cfg_wf_other; [| |exact Hc]; done); try done.
  apply cfg_wf_device; [done|lia|unfold no_nul; tauto|done|]. unfold sizeof_mdtname. lia.
Qed.

Lemma parse_lines_meaning items fuel s :
  cfg_wf (cs_cfg s) -> Forall item_ok items -> (length (render_file items) < fuel)%nat ->
  wp (parse_lines fuel (render_file items)) (fun rc s' =>
       cs_cfg s' = snd (apply_items items (cs_cfg s)) /\
       (fst (apply_items items (cs_cfg s)) <> 0 -> rc = fst (apply_items items (cs_cfg s))) /\
       (fst (apply_items items (cs_cfg s)) = 0 -> exists t, rc = - w_rc t Errno)) safe s.
Proof.
  intros Hs Hok. revert fuel s Hs. induction Hok as [|i items Hi Hok IH]; intros fuel s Hs Hl;
    (destruct fuel as [|fuel]; [lia|]).
  { cbn [render_file parse_lines apply_items]. cbn. wp_steps. rewrite wp_ext.
    split_and!; [done|done|]. intros _. by eexists. }
  assert (Heq : render_file (i :: items) = render i ++ newline :: render_file items).
  { unfold render_file. rewrite fmap_cons. cbn [concat]. by rewrite <- app_assoc. }
  rewrite Heq in *. cbn [parse_lines]. pose proof Hi as (Hnul & Hnl & Hlen & _).
  destruct (render i ++ newline :: render_file items) as [|b0 c0] eqn:Hc0; [by destruct (render i)|].
  rewrite <- Hc0 in *. rewrite fgets_line by (done || lia).
  rewrite cstr_none by (unfold no_nul; rewrite elem_of_app, list_elem_of_singleton; by intros [?|?]).
  cbn [default]. wp_steps. eapply wp_mono; [by apply parse_item|cbn beta|done].
  intros rc s1 Hrc. cbn [apply_items]. pose proof (apply_item_wf _ _ Hs Hi) as Hwf.
  rewrite <- Hrc in *. cbn [snd] in Hwf. destruct (Z.eqb_spec rc 0) as [->|Hne]; cbn [negb].
  - apply IH; [done|]. rewrite length_app in Hl. cbn in Hl. lia.
  - wp_steps. cbn. by split_and!.
Qed.
End meaning.

(** ** The properties *)

Section theorems.
Context `{World}.
Implicit Types (s : cfg_state).

(** [exit(0)] is the answer to the option for help. *)
Lemma lcap_parse_args_exit opts s :
  wp (lcap_parse_args opts) (fun rc _ => rc = None -> opt_h ∈ opts) safe s.
Proof.
  revert s. induction opts as [|o opts IH]; intros s; cbn [lcap_parse_args]; [by wp_steps|].
  unfold mod_cfg. destruct o; wp_steps; rewrite ?wp_alloc; wp_steps; try done;
    try (by intros _; left);
    (eapply wp_mono; [apply IH|cbn beta|done]; intros rc _ Hrc Hn; right; by apply Hrc).
Qed.

Lemma lcap_cfg_init_exit opts content s s' :
  lcap_cfg_init opts content s = Ok (None, s') -> opt_h ∈ opts.
Proof.
  unfold lcap_cfg_init, config_set_defaults, mod_cfg, modify, mbind, M_bind.
  cbn beta iota. match goal with |- context [lcap_parse_args opts ?s0] =>
    pose proof (lcap_parse_args_exit opts s0) as Hp; unfold wp in Hp;
    destruct (lcap_parse_args opts s0) as [[[[| |]|] s1]|]; intros Hrun; try done end.
  - by destruct (lcap_parse_config_file content s1) as [[]|].
  - by apply Hp.
Qed.

Lemma lcap_cfg_init_good opts content s :
  wp (lcap_cfg_init opts content) (fun _ s' => cfg_wf (cs_cfg s')) bad_line s.
Proof.
  unfold lcap_cfg_init, config_set_defaults, mod_cfg. wp_steps.
  eapply wp_mono; [apply lcap_parse_args_good|cbn beta|done].
  { eapply cfg_wf_other; [| |exact cfg_zero_wf]; done. }
  intros rc s1 Hs1. destruct rc as [[| |]|]; wp_steps; try done.
  unfold lcap_parse_config_file. wp_steps. rewrite wp_ext.
  destruct (_ <? 0); wp_steps; [done|]. apply parse_lines_good; [lia|done].
Qed.

(** C30: Whatever the command line and the file hold, the configuration that is
    read is well formed - the devices fill the first slots of the table,
    each with a name that fits the SIGNAL RPC - and reading ends; the only
    faults are a missing argument and a number that is not an int. *)
Theorem config_always_wf opts content s :
  wp (lcap_cfg_init opts content) (fun _ s' => cfg_wf (cs_cfg s')) bad_line s.
Proof. apply lcap_cfg_init_good. Qed.

(** C29: A file of blank lines, comments and valid statements, once written out,
    is read back as the statements applied one after the other, up to the
    first that fails, if the file can be opened and memory does not run out. *)
Theorem config_file_meaning items s :
  (forall t sz, 0 <= w_rc t (Alloc sz)) -> (forall t name, 0 <= w_rc t (Fopen name)) ->
  cfg_wf (cs_cfg s) -> Forall item_ok items ->
  wp (lcap_parse_config_file (render_file items)) (fun rc s' =>
       cs_cfg s' = snd (apply_items items (cs_cfg s)) /\
       (fst (apply_items items (cs_cfg s)) <> 0 -> rc = fst (apply_items items (cs_cfg s))) /\
       (fst (apply_items items (cs_cfg s)) = 0 -> exists t, rc = - w_rc t Errno)) safe s.
Proof.
  intros Ha Hf Hs Hok. unfold lcap_parse_config_file. wp_steps. rewrite wp_ext.
  rewrite (proj2 (Z.ltb_ge _ _)) by apply Hf.
  set (s1 := logged _ s). change (cs_cfg s) with (cs_cfg s1) in *.
  apply (parse_lines_meaning Ha items _ s1); [done|done|lia].
Qed.

Lemma startswith_blank b rest d :
  isspace b = true -> startswith (b :: rest) (directive_name d) = false.
Proof.
  intros Hb. destruct b; try discriminate Hb; by destruct d.
Qed.

(** A statement that is preceded by a blank is rejected as unknown,
    although blanks are skipped to recognise empty lines and comments. *)
Theorem indented_statement_rejected b line c rest s :
  isspace b = true -> skip_space line = c :: rest -> Z_of_byte c <> 35 ->
  parse_config_line (b :: line) s = Ok (- EINVAL, s).
Proof.
  intros Hb Hl Hc. unfold parse_config_line. cbn [skip_space]. rewrite Hb, Hl.
  rewrite (proj2 (Z.eqb_neq _ _)) by done.
  change directives with ((fun d => (directive_name d, handler_of d)) <$>
    [batch_records; max_buckets; logtype; workers; mdtdevice; clreader]).
  cbn [find_directive fmap list_fmap]. by rewrite !startswith_blank.
Qed.

(** A directive without an argument makes the parser copy an argument that
    was never written, if sscanf answers EOF and not 0. *)
Theorem missing_argument_undefined d ws s :
  (forall t line, w_rc t (Sscanf line) <> 0) ->
  Forall (fun b => isspace b = true) ws ->
  ccf_loggername (cs_cfg s) = None -> ccf_clreader (cs_cfg s) = None ->
  ccf_worker_count (cs_cfg s) = 0 -> ccf_mdtcount (cs_cfg s) < MAX_MDT ->
  parse_config_line (directive_name d ++ ws) s = Fault UninitRead.
Proof.
  intros Heof Hws Hlog Hcl Hw Hm. rewrite parse_directive. apply wp_fault.
  assert (Hnone : scan_arg (directive_name d ++ ws) = None).
  { unfold scan_arg. assert (Hnow : skip_space ws = []).
    { rewrite <- (app_nil_r ws). by rewrite skip_space_blanks. }
    assert (skip_space (directive_name d ++ ws) = directive_name d ++ ws) as -> by by destruct d.
    assert (Hword : exists rest, scan_word (length (directive_name d ++ ws)) (directive_name d ++ ws)
      = (directive_name d, rest) /\ skip_space rest = []).
    { destruct Hws as [|b ws Hb Hws].
      - exists []. rewrite app_nil_r. by destruct d.
      - exists (b :: ws). split; [|done].
        apply scan_word_word; [by destruct d; repeat constructor|done|rewrite length_app; lia]. }
    destruct Hword as (rest & -> & ->). cbn. by rewrite orb_true_r. }
  assert (Hget : forall (Q : option bytes -> cfg_state -> Prop),
    wp (cfg_get_arg (directive_name d ++ ws)) Q (eq UninitRead) s).
  { intros Q. unfold cfg_get_arg. rewrite Hnone. wp_steps. rewrite wp_ext.
    rewrite (proj2 (Z.eqb_neq _ 0)) by apply Heof. by wp_steps. }
  set (line := directive_name d ++ ws) in *.
  destruct d; cbn [handler_of].
  - unfold handle_cfg_batch_records_line. wp_steps. apply Hget.
  - unfold handle_cfg_max_buckets_line. wp_steps. apply Hget.
  - unfold handle_cfg_logtype_line. wp_steps. cbn [compose].
    rewrite Hlog, bool_decide_eq_false_2 by (by intros []). wp_steps. apply Hget.
  - unfold handle_cfg_workers_line. wp_steps. cbn [compose]. rewrite Hw. cbn. wp_steps. apply Hget.
  - unfold handle_cfg_mdtdevice_line. wp_steps. cbn [compose].
    rewrite (proj2 (Z.leb_gt MAX_MDT _)) by done. wp_steps. apply Hget.
  - unfold handle_cfg_clreader_line. wp_steps. cbn [compose].
    rewrite Hcl, bool_decide_eq_false_2 by (by intros []). wp_steps. apply Hget.
Qed.

Lemma release_mdts_spec n i s :
  cfg_wf (cs_cfg s) -> Z.of_nat i <= ccf_mdtcount (cs_cfg s) -> (Z.to_nat MAX_MDT < i + n)%nat ->
  release_mdts n i s =
    if ccf_mdtcount (cs_cfg s) <? MAX_MDT then Ok (tt, s) else Fault OutOfBounds.
Proof.
  intros Hs. revert i. induction n as [|n IH]; intros i Hi Hn.
  { pose proof (cw_count _ Hs). unfold MAX_MDT in *. lia. }
  pose proof (cw_count _ Hs) as Hc. pose proof (cw_slots _ Hs) as Hsl.
  cbn [release_mdts]. unfold mbind, M_bind, gets. cbn [compose].
  destruct (decide (Z.of_nat i < ccf_mdtcount (cs_cfg s))) as [Hlt|Hge].
  - destruct (cw_named _ Hs i Hlt) as (dev & -> & _). cbn [unwrap]. unfold mret, M_ret.
    rewrite (proj2 (Z.ltb_lt (Z.of_nat i) _)) by lia. apply IH; lia.
  - destruct (Z.ltb_spec (ccf_mdtcount (cs_cfg s)) MAX_MDT).
    + rewrite (cw_free _ Hs) by lia. done.
    + rewrite lookup_ge_None_2 by lia. done.
Qed.

Lemma lcap_cfg_release_spec s :
  cfg_wf (cs_cfg s) ->
  lcap_cfg_release s = if ccf_mdtcount (cs_cfg s) <? MAX_MDT
                       then Ok (0, mkCfgSt cfg_zero (cs_trace s)) else Fault OutOfBounds.
Proof.
  intros Hs. unfold lcap_cfg_release, mbind, M_bind. pose proof (cw_count _ Hs).
  rewrite release_mdts_spec by (done || lia). by destruct (_ <? _).
Qed.

(** Releasing a well-formed configuration clears it, unless all slots of
    the table of devices are used: then the slot after the last is read. *)
Theorem config_release s :
  cfg_wf (cs_cfg s) ->
  lcap_cfg_release s = if ccf_mdtcount (cs_cfg s) <? MAX_MDT
                       then Ok (0, mkCfgSt cfg_zero (cs_trace s)) else Fault OutOfBounds.
Proof. apply lcap_cfg_release_spec. Qed.
End theorems.

(** ** A concrete file *)

Definition example_items : list item := [
  comment [] (of_str " LCAP configuration");
  statement mdtdevice (of_str "lustre-MDT0000");
  blank (of_str "  ");
  statement batch_records (of_str "32");
  statement clreader (of_str "cl1")
].

Definition empty_cfg : cfg_state := mkCfgSt cfg_zero [].

Lemma example_items_ok : Forall item_ok example_items.
Proof.
  repeat (apply Forall_cons; split; [|]); [| | | | |by apply Forall_nil_2];
    (split; [|split; [|split]]); try (by apply (bool_decide_unpack _)); try done; cbn;
    try (by repeat constructor); split_and!; try done; try (by repeat constructor);
    intros _; by apply (bool_decide_unpack _).
Qed.

Lemma config_file_meaning_witness :
  @wp _ _ (@lcap_parse_config_file (quiet_world 0) (render_file example_items)) (fun rc s' =>
       cs_cfg s' = snd (apply_items example_items cfg_zero) /\
       (fst (apply_items example_items cfg_zero) <> 0 -> rc = fst (apply_items example_items cfg_zero)) /\
       (fst (apply_items example_items cfg_zero) = 0 ->
          exists t, rc = - @w_rc (quiet_world 0) t Errno)) safe empty_cfg /\
  ccf_rec_batch_count (snd (apply_items example_items cfg_zero)) = 32.
Proof.
  split; [|vm_compute; reflexivity].
  apply (@config_file_meaning (quiet_world 0) example_items empty_cfg);
    [intros; apply Z.le_refl|intros; apply Z.le_refl|exact cfg_zero_wf|exact example_items_ok].
Defined.

Lemma indented_statement_rejected_witness :
  @parse_config_line (quiet_world 0) (x20 :: of_str "clreader cl1") empty_cfg = Ok (- EINVAL, empty_cfg).
Proof.
  apply (@indented_statement_rejected (quiet_world 0) x20 (of_str "clreader cl1") x63 (of_str "lreader cl1"));
    [reflexivity|reflexivity|discriminate].
Defined.

Definition eof_world : World :=
  {| w_rc := fun _ c => match c with Sscanf _ => -1 | _ => 0 end; w_clock := fun _ => (0, 0);
     w_rec := fun _ => []; w_frame := fun _ => ([], false);
     w_revents := fun _ => 0 |}.

Lemma missing_argument_undefined_witness :
  @parse_config_line eof_world (of_str "mdtdevice" ++ [newline]) empty_cfg = Fault UninitRead.
Proof.
  apply (@missing_argument_undefined eof_world mdtdevice [newline] empty_cfg);
    [discriminate|repeat constructor|reflexivity|reflexivity|reflexivity|reflexivity].
Defined.

Lemma config_release_witness :
  @lcap_cfg_release empty_cfg = Ok (0, empty_cfg).
Proof. apply (config_release empty_cfg). exact cfg_zero_wf. Defined.
