(* ===== verification/Log.v ===== *)
(** * Logging ([src/common/lcap_log.c], [src/include/lcap_log.h])

    The level and the logger of the process, the two facilities, and the lines
    that a message becomes. What [vasprintf] makes of a format is an argument. *)
From stdpp Require Import pretty.
From S2P Require Import Prelude World Config.
Local Open Scope Z_scope.

Definition LCAPLOG_DBG := 1.
Definition LCAPLOG_VRB := 2.
Definition LCAPLOG_NFO := 3.
Definition LCAPLOG_ERR := 4.
Definition LCAPLOG_OFF := 5.

(** [syslog.h]. *)
Definition LOG_ALERT := 1.
Definition LOG_ERR := 3.
Definition LOG_NOTICE := 5.
Definition LOG_DEBUG := 7.
Definition LOG_PID := 1.
Definition LOG_USER := 8.

Definition lcaplevel2syslog (level : Z) : Z :=
  if level =? LCAPLOG_ERR then LOG_ERR
  else if (level =? LCAPLOG_NFO) || (level =? LCAPLOG_VRB) then LOG_NOTICE
  else if level =? LCAPLOG_DBG then LOG_DEBUG
  else LOG_ALERT.

Definition loglevel2str (level : Z) : bytes :=
  if level =? LCAPLOG_DBG then of_str "DEBUG"
  else if level =? LCAPLOG_VRB then of_str "VERBOSE"
  else if level =? LCAPLOG_NFO then of_str "INFO"
  else if level =? LCAPLOG_ERR then of_str "ERROR"
  else of_str "???".

Record lcap_log_rec := mkLogRec {
  clr_time : Z * Z;
  clr_level : Z;
  clr_file : bytes;
  clr_line : Z;
  clr_func : bytes;
  clr_pid : Z;
  clr_tid : Z;
  clr_msg : bytes;
}.

(** What a facility does to the outside. *)
Inductive log_effect :=
| to_stderr (text : bytes)
| flush_stderr
| openlog (ident : bytes) (option facility : Z)
| to_syslog (priority : Z) (text : bytes)
| closelog.

(** [%u] of an [unsigned int]. *)
Definition dec_u32 (z : Z) : bytes := of_str (pretty (Z.to_N (u32 z))).

(** ["lcap[%u/%u] %s %s(): %s\n"], the format of both facilities. *)
Definition log_line (rec : lcap_log_rec) : bytes :=
  of_str "lcap[" ++ dec_u32 (clr_pid rec) ++ of_str "/" ++ dec_u32 (clr_tid rec) ++
  of_str "] " ++ loglevel2str (clr_level rec) ++ of_str " " ++ clr_func rec ++
  of_str "(): " ++ clr_msg rec ++ [x0a].

(** The operations: the effects and, but for [lfo_log], the code. *)
Record log_facility_operations := mkLogOps {
  lfo_open : list log_effect * Z;
  lfo_log : lcap_log_rec -> list log_effect;
  lfo_close : list log_effect * Z;
}.

Definition stderr_open : list log_effect * Z := ([], 0).
Definition stderr_log (rec : lcap_log_rec) : list log_effect := [to_stderr (log_line rec)].
Definition stderr_close : list log_effect * Z := ([flush_stderr], 0).

Definition syslog_open : list log_effect * Z := ([openlog (of_str "LCAPD") LOG_PID LOG_USER], 0).
Definition syslog_log (rec : lcap_log_rec) : list log_effect :=
  let priority := lcaplevel2syslog (clr_level rec) in [to_syslog priority (log_line rec)].
Definition syslog_close : list log_effect * Z := ([closelog], 0).

Definition StderrLogOps := mkLogOps stderr_open stderr_log stderr_close.
Definition SyslogOps := mkLogOps syslog_open syslog_log syslog_close.

Inductive log_facility := StderrLogger | SyslogLogger.

Definition lf_name (f : log_facility) : bytes :=
  of_str (match f with StderrLogger => "stderr" | SyslogLogger => "syslog" end).

Definition lf_ops (f : log_facility) : log_facility_operations :=
  match f with StderrLogger => StderrLogOps | SyslogLogger => SyslogOps end.

(** The two variables of the process, and what the facilities did so far. *)
Record log_state := mkLog {
  CurrentLogLevel : Z;
  CurrentLogger : option log_facility;
  log_out : list log_effect;
}.

Definition emit (es : list log_effect) (l : log_state) : log_state :=
  mkLog (CurrentLogLevel l) (CurrentLogger l) (log_out l ++ es).

Definition lcap_log_open (l : log_state) : Z * log_state :=
  match CurrentLogger l with
  | None => (- ENODEV, l)
  | Some f => let r := lfo_open (lf_ops f) in (snd r, emit (fst r) l)
  end.

Definition lcap_log_close (l : log_state) : Z * log_state :=
  match CurrentLogger l with
  | None => (- ENODEV, l)
  | Some f => let r := lfo_close (lf_ops f) in (snd r, emit (fst r) l)
  end.

(** What the system tells about a message: process, thread, time, and the text
    that [vasprintf] makes, if it does. *)
Record log_env := mkLogEnv {
  le_pid : Z;
  le_tid : Z;
  le_time : Z * Z;
  le_msg : option bytes;
}.

Definition lcap_log_internal (env : log_env) (loglevel : Z) (file : bytes) (line : Z)
    (func : bytes) (l : log_state) : log_state :=
  match CurrentLogger l with
  | None => l
  | Some f =>
      match le_msg env with
      | Some msg =>
          emit (lfo_log (lf_ops f)
                  (mkLogRec (le_time env) loglevel file line func (le_pid env) (le_tid env) msg)) l
      | None => l
      end
  end.

(** [__LCAP_LOG_WRAP]. *)
Definition lcap_log_wrap (env : log_env) (lvl : Z) (file : bytes) (line : Z) (func : bytes)
    (l : log_state) : log_state :=
  if CurrentLogLevel l <=? lvl then lcap_log_internal env lvl file line func l else l.

(** The level that a verbosity chooses. *)
Definition level_of (verbosity : Z) : Z :=
  if verbosity =? 0 then LCAPLOG_ERR
  else if verbosity =? 1 then LCAPLOG_NFO
  else if verbosity =? 2 then LCAPLOG_VRB
  else LCAPLOG_DBG.

Definition lcap_set_loglevel (verbosity : Z) (l : log_state) : log_state :=
  mkLog (level_of verbosity) (CurrentLogger l) (log_out l).

(** The messages of the debug level are made: the daemon sets the level from
    its configuration before it starts its threads. *)
Definition debugging (cfg : lcap_cfg) : bool := level_of (ccf_verbosity cfg) <=? LCAPLOG_DBG.

(** [lcap_debug("Received %s RPC ...", rpc_optype2str(hdr->op_type), ...)], of
    the broker and of the readers: the operation code is read from the body
    even if that was too short for it. *)
Definition lcap_debug_op_type {St} (cfg : lcap_cfg) (body : bytes) : M St unit :=
  if debugging cfg && (Z.of_nat (length body) <? 4) then fail OutOfBounds else mret tt.

Lemma debug_op_type_long {St} cfg body (s : St) :
  4 <= Z.of_nat (length body) -> lcap_debug_op_type cfg body s = Ok (tt, s).
Proof.
  intros Hl. unfold lcap_debug_op_type. by rewrite (proj2 (Z.ltb_ge _ _) Hl), andb_false_r.
Qed.

Lemma wp_debug_op_type {St} cfg body (Q : unit -> St -> Prop) (E : fault -> Prop) s :
  (debugging cfg = true -> Z.of_nat (length body) < 4 -> E OutOfBounds) -> Q tt s ->
  wp (lcap_debug_op_type cfg body) Q E s.
Proof.
  intros HE HQ. unfold lcap_debug_op_type. destruct (debugging cfg); cbn [andb]; [|by wp_steps].
  destruct (Z.ltb_spec (Z.of_nat (length body)) 4); wp_steps; auto.
Qed.

Lemma debug_op_type_short {St} cfg body (s : St) :
  debugging cfg = true -> Z.of_nat (length body) < 4 ->
  lcap_debug_op_type cfg body s = Fault OutOfBounds.
Proof.
  intros Hd Hl. unfold lcap_debug_op_type. by rewrite Hd, (proj2 (Z.ltb_lt _ _) Hl).
Qed.

Definition lcap_get_loglevel (l : log_state) : Z := CurrentLogLevel l.

Definition AvailableLoggers : list log_facility := [StderrLogger; SyslogLogger].

(** [strcasecmp(a, b) == 0]. *)
Definition strcaseeq (a b : bytes) : bool := bool_decide (tolower <$> a = tolower <$> b).

Fixpoint find_logger (loggers : list log_facility) (name : bytes) : option log_facility :=
  match loggers with
  | [] => None
  | f :: loggers => if strcaseeq (lf_name f) name then Some f else find_logger loggers name
  end.

Definition lcap_set_logger (logger_name : option bytes) (l : log_state) : Z * log_state :=
  match find_logger AvailableLoggers (default (lf_name StderrLogger) logger_name) with
  | Some f => (0, mkLog (CurrentLogLevel l) (Some f) (log_out l))
  | None => (- EINVAL, l)
  end.

(** ** Properties *)

Lemma strcaseeq_true a b : strcaseeq a b = true <-> tolower <$> a = tolower <$> b.
Proof. apply bool_decide_eq_true. Qed.

(** Exactly the two names are accepted, in any case. *)
Lemma lcap_set_logger_spec name l rc l' :
  lcap_set_logger name l = (rc, l') ->
  CurrentLogLevel l' = CurrentLogLevel l /\
  ((rc = 0 /\ exists f, CurrentLogger l' = Some f /\
     match name with
     | None => f = StderrLogger
     | Some n => tolower <$> lf_name f = tolower <$> n
     end) \/
   (rc = - EINVAL /\ l' = l /\ exists n, name = Some n /\
     forall f, tolower <$> lf_name f <> tolower <$> n)).
Proof.
  unfold lcap_set_logger, AvailableLoggers. cbn [find_logger].
  destruct name as [n|].
  - change (default _ (Some n)) with n. destruct (strcaseeq (lf_name StderrLogger) n) eqn:H1.
    { intros [= <- <-]. split; [done|]. left. split; [done|]. exists StderrLogger.
      split; [done|]. by apply strcaseeq_true. }
    destruct (strcaseeq (lf_name SyslogLogger) n) eqn:H2; intros [= <- <-]; (split; [done|]).
    + left. split; [done|]. exists SyslogLogger. split; [done|]. by apply strcaseeq_true.
    + right. split_and!; [done|done|]. exists n. split; [done|].
      intros f Hf%strcaseeq_true. destruct f; congruence.
  - change (default _ None) with (lf_name StderrLogger).
    rewrite (proj2 (strcaseeq_true _ _)) by done. intros [= <- <-]. split; [done|]. left.
    split; [done|]. by exists StderrLogger.
Qed.


(** The line of a message on a facility. *)
Definition line_on (f : log_facility) (rec : lcap_log_rec) : log_effect :=
  match f with
  | StderrLogger => to_stderr (log_line rec)
  | SyslogLogger => to_syslog (lcaplevel2syslog (clr_level rec)) (log_line rec)
  end.

(** Whether a verbosity lets a level through: errors always, and one more level
    at each step, down to debug messages from 3 on. *)
Definition passes (verbosity level : Z) : bool :=
  (LCAPLOG_ERR <=? level) || ((1 <=? verbosity) && (LCAPLOG_ERR - level <=? verbosity)).

Lemma passes_level verbosity level l :
  0 <= verbosity -> LCAPLOG_DBG <= level <= LCAPLOG_ERR ->
  (CurrentLogLevel (lcap_set_loglevel verbosity l) <=? level) = passes verbosity level.
Proof.
  intros Hv Hl. unfold passes, lcap_set_loglevel, level_of. cbn [CurrentLogLevel].
  unfold LCAPLOG_ERR, LCAPLOG_NFO, LCAPLOG_VRB, LCAPLOG_DBG in *. apply eq_true_iff_eq.
  repeat (case_match; rewrite ?orb_true_iff, ?andb_true_iff, ?Z.leb_le, ?Z.eqb_eq, ?Z.eqb_neq in *);
    try lia.
Qed.

(** C39: With a logger that the configuration accepts, a message becomes exactly
    one line of that logger if the verbosity lets its level through, and
    nothing otherwise. *)
Theorem log_by_verbosity verbosity name l0 l env level file line func msg :
  0 <= verbosity -> LCAPLOG_DBG <= level <= LCAPLOG_ERR -> le_msg env = Some msg ->
  lcap_set_logger name (lcap_set_loglevel verbosity l0) = (0, l) ->
  exists f, CurrentLogger l = Some f /\
    match name with
    | None => f = StderrLogger
    | Some n => tolower <$> lf_name f = tolower <$> n
    end /\
    log_out (lcap_log_wrap env level file line func l) = log_out l0 ++
      if passes verbosity level
      then [line_on f (mkLogRec (le_time env) level file line func (le_pid env) (le_tid env) msg)]
      else [].
Proof.
  intros Hv Hl Hm Hset. pose proof (lcap_set_logger_spec _ _ _ _ Hset) as (Hlev & Hcase).
  destruct Hcase as [(_ & f & Hf & Hn)|[? _]]; [|done]. exists f. split_and!; [done|done|].
  assert (Ho : log_out l = log_out l0).
  { revert Hset. unfold lcap_set_logger. destruct (find_logger _ _); intros [= <-]; done. }
  unfold lcap_log_wrap. rewrite Hlev, (passes_level verbosity level l0 Hv Hl).
  destruct (passes verbosity level); [|by rewrite app_nil_r].
  unfold lcap_log_internal. rewrite Hf, Hm. cbn [log_out emit]. rewrite Ho. by destruct f.
Qed.

Definition demo_log_env : log_env := mkLogEnv 42 43 (0, 0) (Some (of_str "ready")).

Lemma log_by_verbosity_witness :
  log_out (lcap_log_wrap demo_log_env LCAPLOG_VRB (of_str "lcapd.c") 142 (of_str "main")
    (mkLog LCAPLOG_VRB (Some SyslogLogger) [])) =
  [to_syslog LOG_NOTICE (of_str "lcap[42/43] VERBOSE main(): ready" ++ [x0a])].
Proof.
  destruct (log_by_verbosity 2 (Some (of_str "SysLog")) (mkLog 0 None [])
    (mkLog LCAPLOG_VRB (Some SyslogLogger) []) demo_log_env LCAPLOG_VRB (of_str "lcapd.c") 142
    (of_str "main") (of_str "ready")) as (f & Hf & _ & ->); try (by vm_compute).
  injection Hf as <-. vm_compute. reflexivity.
Defined.
