(* ===== verification/Broker.v ===== *)
(** * The broker ([src/lcapd/broker.c])

    The broker owns the ROUTER socket that clients and readers connect to. It
    forwards what clients send to the reader they name, what readers send to the
    client they name, and keeps the table of the identities of the readers. *)
From S2P Require Import Prelude World Idl LcapNet RpcUtils Config Log.
Local Open Scope Z_scope.

(** The array that [cc_rdr_info] points to: the [si_running] of the readers. *)
Inductive rdr_mem :=
| rdr_null
| rdr_live (si_running : list bool)
| rdr_freed.

Record lcap_ctx := mkCtx {
  cc_config : lcap_cfg;
  cc_zctx : bool;
  cc_sock : bool;
  cc_rcid : list (option conn_id);  (** [MAX_MDT] slots *)
  cc_rdr_info : rdr_mem;
  cc_trace : trace;
}.

(** Assignments to fields. *)
Definition set_socks (zctx sock : bool) (s : lcap_ctx) : lcap_ctx :=
  mkCtx (cc_config s) zctx sock (cc_rcid s) (cc_rdr_info s) (cc_trace s).
Definition set_rdr_info (r : rdr_mem) (s : lcap_ctx) : lcap_ctx :=
  mkCtx (cc_config s) (cc_zctx s) (cc_sock s) (cc_rcid s) r (cc_trace s).

#[export] Instance ctx_has_trace : HasTrace lcap_ctx := {
  s_trace := cc_trace;
  s_put t s := mkCtx (cc_config s) (cc_zctx s) (cc_sock s) (cc_rcid s) (cc_rdr_info s) t;
}.
#[export] Instance ctx_has_trace_laws : HasTraceLaws lcap_ctx.
Proof. constructor; by intros; destruct s. Qed.

Definition set_rcid (f : list (option conn_id) -> list (option conn_id)) (s : lcap_ctx)
    : lcap_ctx :=
  mkCtx (cc_config s) (cc_zctx s) (cc_sock s) (f (cc_rcid s)) (cc_rdr_info s) (cc_trace s).

(** [strcmp(mem, s) == 0], reading [mem] up to the first difference or its NUL;
    [None]: it reads past the end of [mem]. *)
Fixpoint strcmp_eq (mem s : bytes) : option bool :=
  match mem with
  | [] => None
  | c :: mem' =>
      match s with
      | [] => Some (bool_decide (c = NUL))
      | b :: s' => if decide (c = b) then strcmp_eq mem' s' else Some false
      end
  end.

Section broker.
Context `{World}.
Implicit Types (req : lcapnet_request).

(** [cc_rcid[i]], an array of [MAX_MDT] pointers. *)
Definition load_rcid (i : nat) : M lcap_ctx (option conn_id) :=
  r ← gets (lookup i ∘ cc_rcid); unwrap OutOfBounds r.
Definition store_rcid (i : nat) (p : option conn_id) : M lcap_ctx unit :=
  load_rcid i;; modify (set_rcid (insert i p)).

(** The loop of [changelog_reader_register] from index [i], [n] turns left;
    [None]: it ends without a return. *)
Fixpoint register_from (n i : nat) (mdt : bytes) (cid : option conn_id)
    : M lcap_ctx (option Z) :=
  match n with
  | O => mret None
  | S n =>
      slot ← gets (lookup i ∘ ccf_mdt ∘ cc_config);
      name ← unwrap OutOfBounds slot;
      dev ← unwrap NullDeref name;
      same ← unwrap OutOfBounds (strcmp_eq mdt dev);
      if same : bool then
        id ← unwrap NullDeref cid;
        ok ← alloc (sizeof_conn_id + ci_length id);
        if negb ok then mret (Some (- ENOMEM))
        else store_rcid i (Some id);; mret (Some 0)
      else register_from n (S i) mdt cid
  end.

(** The message about a device that is not there prints [mdt] with [%s], at the
    level that is never turned off: it is read up to its NUL. *)
Definition changelog_reader_register (mdt : bytes) (cid : option conn_id) : M lcap_ctx Z :=
  cnt ← gets (ccf_mdtcount ∘ cc_config);
  r ← register_from (Z.to_nat cnt) 0 mdt cid;
  match r with
  | Some rc => mret rc
  | None => unwrap OutOfBounds (cstr mdt);; mret (- EINVAL)
  end.

(** The loop of [changelog_reader_deregister]. *)
Fixpoint deregister_from (n i : nat) (cid : option conn_id) : M lcap_ctx Z :=
  match n with
  | O => mret 0
  | S n =>
      r ← load_rcid i;
      match r with
      | None => deregister_from n (S i) cid
      | Some id =>
          cid' ← unwrap NullDeref cid;
          if negb (cid_compare id cid') then store_rcid i None;; mret 0
          else deregister_from n (S i) cid
      end
  end.

Definition changelog_reader_deregister (cid : option conn_id) : M lcap_ctx Z :=
  cnt ← gets (ccf_mdtcount ∘ cc_config);
  deregister_from (Z.to_nat cnt) 0 cid.

Definition broker_reader_send req : M lcap_ctx Z :=
  if lr_body_len req <? rpc_expected_length (get_op_type (lr_body req)) then mret (- EINVAL)
  else peer_rpc_send (lr_forward req) (lr_remote req) (lr_body req).

Definition broker_client_send req : M lcap_ctx Z :=
  peer_rpc_send None (lr_forward req) (lr_body req).

Definition broker_handle_signal req : M lcap_ctx Z :=
  if lr_body_len req <? sizeof_signal then mret (- EINVAL)
  else if get_sig_ret (lr_body req) =? 0 then
    changelog_reader_register (get_sig_mdtname (lr_body req)) (lr_remote req)
  else
    changelog_reader_deregister (lr_remote req);;
    if s32 (get_sig_ret (lr_body req)) =? - 2 ^ 31 then fail IntOverflow else mret 0.

Definition broker_rpc_handle (op : rpc_op_type) : lcapnet_request -> M lcap_ctx Z :=
  match op with
  | RPC_OP_START => broker_reader_send
  | RPC_OP_DEQUEUE => broker_reader_send
  | RPC_OP_CLEAR => broker_reader_send
  | RPC_OP_FINI => broker_reader_send
  | RPC_OP_ENQUEUE => broker_client_send
  | RPC_OP_ACK => broker_client_send
  | RPC_OP_SIGNAL => broker_handle_signal
  end.

Definition broker_handle_one (op_type : Z) req : M lcap_ctx Z :=
  op ← unwrap OutOfBounds (op_of_code op_type);
  broker_rpc_handle op req.

Definition lcapd_process_request req : M lcap_ctx Z :=
  rc ← (if lr_body_len req <? sizeof_hdr then mret (- EPROTO)
        else
          let op := get_op_type (lr_body req) in
          if (op <? RPC_OP_FIRST) || (RPC_OP_LAST <? op) then mret (- EINVAL)
          else broker_handle_one op req);
  cfg ← gets cc_config;
  lcap_debug_op_type cfg (lr_body req);;
  if rc <? 0 then ack_retcode None (lr_remote req) rc else mret rc.
End broker.

(** ** What the broker promises *)

(** The broker's table: one slot per device, and every configured device has a
    name that fits the SIGNAL RPC. *)
Record ctx_ok (s : lcap_ctx) : Prop := {
  ck_count : 0 <= ccf_mdtcount (cc_config s) <= MAX_MDT;
  ck_slots : Z.of_nat (length (cc_rcid s)) = MAX_MDT;
  ck_names : forall i, Z.of_nat i < ccf_mdtcount (cc_config s) ->
    exists dev, ccf_mdt (cc_config s) !! i = Some (Some dev) /\ no_nul dev /\
      Z.of_nat (length dev) < sizeof_mdtname;
}.

(** The first device of a name, among [n] from [i] on. *)
Fixpoint index_of (n i : nat) (mdts : list (option bytes)) (mdt : bytes) : option nat :=
  match n with
  | O => None
  | S n =>
      match mdts !! i with
      | Some (Some dev) =>
          if bool_decide (strcmp_eq mdt dev = Some true) then Some i else index_of n (S i) mdts mdt
      | _ => None
      end
  end.

(** The first slot that holds an identity. *)
Fixpoint slot_of (n i : nat) (rcid : list (option conn_id)) (cid : conn_id) : option nat :=
  match n with
  | O => None
  | S n => if bool_decide (rcid !! i = Some (Some cid)) then Some i else slot_of n (S i) rcid cid
  end.

(** The outcome of a request, as the table and the frames of the reply. *)
Inductive brokered `{World} (cfg : lcap_cfg) (rcid : list (option conn_id)) (remote forward : conn_id)
    (body : bytes) : rpc_op_type -> Z -> list (option conn_id) -> trace -> Prop :=
| to_reader op rc t :
    op = RPC_OP_START \/ op = RPC_OP_DEQUEUE \/ op = RPC_OP_CLEAR \/ op = RPC_OP_FINI ->
    rpc_expected_length (op_code op) <= Z.of_nat (length body) ->
    sent (envelope (Some forward) remote body) rc t ->
    brokered cfg rcid remote forward body op rc rcid t
| too_short op :
    op = RPC_OP_START \/ op = RPC_OP_DEQUEUE \/ op = RPC_OP_CLEAR \/ op = RPC_OP_FINI \/
      op = RPC_OP_SIGNAL ->
    Z.of_nat (length body) < rpc_expected_length (op_code op) ->
    brokered cfg rcid remote forward body op (- EINVAL) rcid []
| to_client op rc t :
    op = RPC_OP_ENQUEUE \/ op = RPC_OP_ACK ->
    sent (envelope None forward body) rc t ->
    brokered cfg rcid remote forward body op rc rcid t
| reader_up i t :
    sizeof_signal <= Z.of_nat (length body) -> get_sig_ret body = 0 ->
    index_of (Z.to_nat (ccf_mdtcount cfg)) 0 (ccf_mdt cfg) (get_sig_mdtname body) = Some i ->
    frames_of t = [] ->
    brokered cfg rcid remote forward body RPC_OP_SIGNAL 0 (<[i := Some remote]> rcid) t
| reader_nomem i t :
    sizeof_signal <= Z.of_nat (length body) -> get_sig_ret body = 0 ->
    index_of (Z.to_nat (ccf_mdtcount cfg)) 0 (ccf_mdt cfg) (get_sig_mdtname body) = Some i ->
    out_of_memory -> frames_of t = [] ->
    brokered cfg rcid remote forward body RPC_OP_SIGNAL (- ENOMEM) rcid t
| reader_unknown :
    sizeof_signal <= Z.of_nat (length body) -> get_sig_ret body = 0 ->
    index_of (Z.to_nat (ccf_mdtcount cfg)) 0 (ccf_mdt cfg) (get_sig_mdtname body) = None ->
    brokered cfg rcid remote forward body RPC_OP_SIGNAL (- EINVAL) rcid []
| reader_down :
    sizeof_signal <= Z.of_nat (length body) -> get_sig_ret body <> 0 ->
    brokered cfg rcid remote forward body RPC_OP_SIGNAL 0
      (match slot_of (Z.to_nat (ccf_mdtcount cfg)) 0 rcid remote with
       | Some i => <[i := None]> rcid
       | None => rcid
       end) [].

(** The dispatcher, before the reply to the sender. *)
Inductive broker_dispatched `{World} (cfg : lcap_cfg) (rcid : list (option conn_id))
    (remote forward : conn_id) (body : bytes)
    : Z -> list (option conn_id) -> trace -> Prop :=
| msg_truncated :
    Z.of_nat (length body) < sizeof_hdr ->
    broker_dispatched cfg rcid remote forward body (- EPROTO) rcid []
| msg_bad_op :
    sizeof_hdr <= Z.of_nat (length body) -> op_of_code (get_op_type body) = None ->
    broker_dispatched cfg rcid remote forward body (- EINVAL) rcid []
| msg_handled op rc rcid' t :
    sizeof_hdr <= Z.of_nat (length body) -> op_of_code (get_op_type body) = Some op ->
    brokered cfg rcid remote forward body op rc rcid' t ->
    broker_dispatched cfg rcid remote forward body rc rcid' t.

(** ** The handlers keep the promise *)

Lemma strcmp_eq_total mem s :
  (length s < length mem)%nat -> is_Some (strcmp_eq mem s).
Proof.
  revert s. induction mem as [|c mem IH]; intros s Hl; [cbn in Hl; lia|].
  destruct s as [|b s]; cbn; [by eexists|]. destruct (decide (c = b)); [|by eexists].
  apply IH. cbn in Hl. lia.
Qed.

Lemma strcmp_eq_cstr mem s :
  no_nul s -> strcmp_eq mem s = Some true <-> cstr mem = Some s.
Proof.
  revert s. induction mem as [|c mem IH]; intros s Hs; [done|].
  destruct s as [|b s]; cbn.
  - rewrite (inj_iff Some), bool_decide_eq_true. destruct (decide (c = NUL)) as [->|Hc]; [done|].
    split; [done|]. by destruct (cstr mem).
  - apply not_elem_of_cons in Hs as [Hb Hs]. destruct (decide (c = b)) as [->|Hcb].
    + rewrite IH by done. destruct (decide (b = NUL)); [congruence|].
      destruct (cstr mem) as [x|]; cbn; split; congruence.
    + split; [done|]. destruct (decide (c = NUL)); [done|]. destruct (cstr mem); cbn; congruence.
Qed.

Section proofs.
Context `{World}.
Implicit Types (s : lcap_ctx) (req : lcapnet_request).

Lemma ctx_ok_extends s t s' : extends s t s' -> ctx_ok s -> ctx_ok s'.
Proof. intros ->. by intros []; constructor. Qed.

(** How a handler changes the table and what it calls. *)
Definition ctx_step s (rcid : list (option conn_id)) (t : trace) (s' : lcap_ctx) : Prop :=
  s' = mkCtx (cc_config s) (cc_zctx s) (cc_sock s) rcid (cc_rdr_info s) (cc_trace s ++ t).

Lemma ctx_step_refl s : ctx_step s (cc_rcid s) [] s.
Proof. unfold ctx_step. rewrite app_nil_r. by destruct s. Qed.

Lemma ctx_step_extends s t s' : extends s t s' -> ctx_step s (cc_rcid s) t s'.
Proof. by intros ->. Qed.

Lemma register_from_spec n i s mdt cid :
  ctx_ok s -> sizeof_mdtname <= Z.of_nat (length mdt) ->
  Z.of_nat (i + n) <= ccf_mdtcount (cc_config s) ->
  wp (register_from n i mdt (Some cid)) (fun rc s' => exists t, frames_of t = [] /\
    match index_of n i (ccf_mdt (cc_config s)) mdt with
    | None => rc = None /\ t = [] /\ s' = s
    | Some j => rc = Some 0 /\ ctx_step s (<[j := Some cid]> (cc_rcid s)) t s' \/
                rc = Some (- ENOMEM) /\ out_of_memory /\ ctx_step s (cc_rcid s) t s'
    end) safe s.
Proof.
  intros Hok Hmdt. revert i. induction n as [|n IH]; intros i Hi; cbn [register_from index_of].
  { wp_steps. by exists []. }
  destruct (ck_names _ Hok i ltac:(lia)) as (dev & Hdev & _ & Hlen).
  wp_steps. cbn [compose]. rewrite Hdev. wp_steps.
  destruct (strcmp_eq_total mdt dev ltac:(lia)) as [b Hb]. rewrite Hb. wp_steps.
  destruct b.
  - rewrite bool_decide_eq_true_2 by done. wp_steps. rewrite wp_alloc.

    set (a := Alloc _). set (z := w_rc _ _).
    destruct (0 <=? z) eqn:Hz; cbn [negb]; wp_steps.
    + unfold store_rcid, load_rcid. wp_steps. cbn [compose].
      destruct (lookup_lt_is_Some_2 (cc_rcid s) i) as [r Hr].
      { pose proof (ck_count _ Hok). pose proof (ck_slots _ Hok). lia. }
      change (cc_rcid (logged a s)) with (cc_rcid s). rewrite Hr. wp_steps.
      exists [(a, z)]. split; [done|]. left. by split.
    + exists [(a, z)]. split; [done|]. right. split_and!; [done|by eapply alloc_failed|done].
  - rewrite bool_decide_eq_false_2 by done. apply IH. lia.
Qed.

Lemma deregister_from_spec n i s cid :
  ctx_ok s -> Z.of_nat (i + n) <= ccf_mdtcount (cc_config s) ->
  wp (deregister_from n i (Some cid)) (fun rc s' => rc = 0 /\
    ctx_step s (match slot_of n i (cc_rcid s) cid with
                | Some j => <[j := None]> (cc_rcid s)
                | None => cc_rcid s
                end) [] s') safe s.
Proof.
  intros Hok. revert i. induction n as [|n IH]; intros i Hi; cbn [deregister_from slot_of].
  { wp_steps. split; [done|apply ctx_step_refl]. }
  destruct (lookup_lt_is_Some_2 (cc_rcid s) i) as [r Hr].
  { pose proof (ck_count _ Hok). pose proof (ck_slots _ Hok). lia. }
  unfold load_rcid at 1. wp_steps. cbn [compose]. rewrite Hr. wp_steps. destruct r as [id|].
  - wp_steps. destruct (cid_compare id cid) eqn:Hc; cbn [negb].
    + rewrite bool_decide_eq_false_2; [apply IH; lia|]. intros [= ->].
      by rewrite (proj2 (cid_compare_false cid cid) eq_refl) in Hc.
    + apply cid_compare_false in Hc as ->. rewrite bool_decide_eq_true_2 by done.
      unfold store_rcid, load_rcid. wp_steps. cbn [compose]. rewrite Hr. wp_steps.
      split; [done|]. unfold ctx_step. by rewrite app_nil_r.
  - rewrite bool_decide_eq_false_2 by done. apply IH. lia.
Qed.

(** A SIGNAL of a reader that came up, for a device that is not configured, with
    a name that has no end. *)
Definition stray_signal (cfg : lcap_cfg) (body : bytes) : Prop :=
  sizeof_signal <= Z.of_nat (length body) /\ get_sig_ret body = 0 /\
  index_of (Z.to_nat (ccf_mdtcount cfg)) 0 (ccf_mdt cfg) (get_sig_mdtname body) = None /\
  cstr (get_sig_mdtname body) = None.

(** The requests whose messages in the log read out of bounds: a stray SIGNAL,
    and a body that is too short for an operation code, in a daemon that logs
    at the debug level. *)
Definition misread (cfg : lcap_cfg) (body : bytes) : Prop :=
  get_op_type body = op_code RPC_OP_SIGNAL /\ stray_signal cfg body \/
  debugging cfg = true /\ Z.of_nat (length body) < 4.

(** A SIGNAL of a reader that failed with the one code that has no opposite: the
    message about it negates the code. *)
Definition no_opposite (body : bytes) : Prop :=
  sizeof_signal <= Z.of_nat (length body) /\ s32 (get_sig_ret body) = - 2 ^ 31.

(** The faults of a request, all of them in messages of the log. *)
Definition request_fault (cfg : lcap_cfg) (body : bytes) (f : fault) : Prop :=
  f = OutOfBounds /\ misread cfg body \/
  f = IntOverflow /\ get_op_type body = op_code RPC_OP_SIGNAL /\ no_opposite body.

Lemma no_request_fault cfg body f :
  4 <= Z.of_nat (length body) ->
  get_op_type body <> op_code RPC_OP_SIGNAL \/
    is_Some (cstr (get_sig_mdtname body)) /\ s32 (get_sig_ret body) <> - 2 ^ 31 ->
  ~ request_fault cfg body f.
Proof.
  intros Hl Hop [[_ [(Hs & _ & _ & _ & Hc)|[_ ?]]]|(_ & ? & _ & ?)]; [|lia|];
    destruct Hop as [?|[[name Hn] ?]]; congruence.
Qed.

(** What a handler of [op] does from [s]. *)
Definition broker_handled (remote forward : conn_id) (body : bytes) (op : rpc_op_type) s
    (rc : Z) (s' : lcap_ctx) : Prop :=
  exists rcid t, ctx_step s rcid t s' /\
    brokered (cc_config s) (cc_rcid s) remote forward body op rc rcid t.

Lemma broker_signal_spec s req remote forward :
  ctx_ok s -> lr_remote req = Some remote ->
  wp (broker_handle_signal req) (broker_handled remote forward (lr_body req) RPC_OP_SIGNAL s)
     (fun f => f = OutOfBounds /\ stray_signal (cc_config s) (lr_body req) \/
               f = IntOverflow /\ no_opposite (lr_body req)) s.
Proof.
  intros Hok Hr. unfold broker_handle_signal, lr_body_len. rewrite Hr.
  destruct (Z.ltb_spec (Z.of_nat (length (lr_body req))) sizeof_signal) as [Hl|Hl].
  { wp_steps. exists (cc_rcid s), []. split; [apply ctx_step_refl|].
    by apply too_short; [tauto|]. }
  assert (Hcnt : Z.of_nat (0 + Z.to_nat (ccf_mdtcount (cc_config s))) <= ccf_mdtcount (cc_config s)).
  { pose proof (ck_count _ Hok). lia. }
  destruct (Z.eqb_spec (get_sig_ret (lr_body req)) 0) as [H0|H0].
  - unfold changelog_reader_register. wp_steps. cbn [compose].
    eapply wp_mono; [apply (register_from_spec _ 0 s _ remote Hok); [|exact Hcnt]| |done].
    { unfold get_sig_mdtname. rewrite length_drop. unfold sizeof_signal, sizeof_mdtname in *. lia. }
    intros rc s' (t & Hf & Hcase).
    destruct (index_of _ _ _ _) as [j|] eqn:Hj.
    + destruct Hcase as [[-> Hs]|(-> & Hoom & Hs)]; do 2 eexists; (split; [exact Hs|]).
      * by apply reader_up.
      * by eapply reader_nomem.
    + destruct Hcase as (-> & -> & ->). destruct (cstr _) eqn:Hstr; wp_steps; [|by left].
      do 2 eexists. split; [apply ctx_step_refl|]. by apply reader_unknown.
  - unfold changelog_reader_deregister. wp_steps. cbn [compose].
    eapply wp_mono; [apply (deregister_from_spec _ 0 s remote Hok Hcnt)| |done].
    intros rc s' [_ Hs]. wp_steps. destruct (Z.eqb_spec (s32 (get_sig_ret (lr_body req))) (- 2 ^ 31));
      wp_steps; [by right|]. do 2 eexists. split; [exact Hs|]. by apply reader_down.
Qed.

Lemma broker_handle_one_spec s req remote forward op :
  ctx_ok s -> lr_remote req = Some remote -> lr_forward req = Some forward ->
  op_of_code (get_op_type (lr_body req)) = Some op ->
  wp (broker_handle_one (get_op_type (lr_body req)) req)
     (broker_handled remote forward (lr_body req) op s) (request_fault (cc_config s) (lr_body req)) s.
Proof.
  intros Hok Hr Hf Hop. unfold broker_handle_one. rewrite Hop. wp_steps.
  assert (Hcode : get_op_type (lr_body req) = op_code op) by by apply op_of_code_Some.
  assert (Hsend : op = RPC_OP_START \/ op = RPC_OP_DEQUEUE \/ op = RPC_OP_CLEAR \/ op = RPC_OP_FINI ->
    wp (broker_reader_send req) (broker_handled remote forward (lr_body req) op s)
      (request_fault (cc_config s) (lr_body req)) s).
  { intros Ho. unfold broker_reader_send, lr_body_len. rewrite Hcode.
    destruct (Z.ltb_spec (Z.of_nat (length (lr_body req))) (rpc_expected_length (op_code op))).
    - wp_steps. do 2 eexists. split; [apply ctx_step_refl|]. apply too_short; [tauto|done].
    - rewrite Hr, Hf. eapply wp_mono; [apply (peer_rpc_send_spec (Some forward) remote)| |done].
      intros rc s' (t & Ht & _ & Hs). do 2 eexists. split; [by apply ctx_step_extends|].
      by apply to_reader. }
  assert (Hcli : op = RPC_OP_ENQUEUE \/ op = RPC_OP_ACK ->
    wp (broker_client_send req) (broker_handled remote forward (lr_body req) op s)
      (request_fault (cc_config s) (lr_body req)) s).
  { intros Ho. unfold broker_client_send. rewrite Hf.
    eapply wp_mono; [apply (peer_rpc_send_spec None forward)| |done].
    intros rc s' (t & Ht & _ & Hs). do 2 eexists. split; [by apply ctx_step_extends|].
    by apply to_client. }
  destruct op; cbn [broker_rpc_handle]; try (apply Hsend; tauto); try (apply Hcli; tauto).
  eapply wp_mono; [by apply broker_signal_spec|done|]. 
  intros f [[-> Hst]|[-> Hno]]; [left; split; [done|by left]|by right].
Qed.

(** What [lcapd_process_request] does: the dispatcher, and the code of an error
    to the sender. *)
Definition processed (remote forward : conn_id) (body : bytes) s (rc : Z) (s' : lcap_ctx) : Prop :=
  exists rc0 rcid t0 t, ctx_step s rcid (t0 ++ t) s' /\
    broker_dispatched (cc_config s) (cc_rcid s) remote forward body rc0 rcid t0 /\
    (rc0 < 0 /\ sent (envelope None remote (enc_ack (ack_message rc0))) rc t \/
     0 <= rc0 /\ rc = rc0 /\ t = []).

Lemma lcapd_process_request_spec s req remote forward :
  ctx_ok s -> lr_remote req = Some remote -> lr_forward req = Some forward ->
  wp (lcapd_process_request req) (processed remote forward (lr_body req) s)
     (request_fault (cc_config s) (lr_body req)) s.
Proof.
  intros Hok Hr Hf. unfold lcapd_process_request, lr_body_len. rewrite wp_bind.
  assert (Hend : forall rc0 rcid t0 s1, ctx_step s rcid t0 s1 ->
    broker_dispatched (cc_config s) (cc_rcid s) remote forward (lr_body req) rc0 rcid t0 ->
    wp (cfg ← gets cc_config; lcap_debug_op_type cfg (lr_body req);;
        if rc0 <? 0 then ack_retcode None (lr_remote req) rc0 else mret rc0)
       (processed remote forward (lr_body req) s) (request_fault (cc_config s) (lr_body req)) s1).
  { intros rc0 rcid t0 s1 -> Hd. wp_steps. apply wp_debug_op_type; [by left; split; [|right]|].
    destruct (Z.ltb_spec rc0 0).
    - rewrite Hr. eapply wp_mono; [apply (ack_retcode_spec None remote rc0)| |done].
      intros rc s' (t & -> & _ & Hs). exists rc0, rcid, t0, t.
      split_and!; [by unfold ctx_step; cbn; rewrite app_assoc|done|by left].
    - wp_steps. exists rc0, rcid, t0, []. rewrite app_nil_r. split_and!; [done|done|by right]. }
  destruct (Z.ltb_spec (Z.of_nat (length (lr_body req))) sizeof_hdr) as [Hl|Hl].
  { rewrite wp_ret. eapply Hend; [apply ctx_step_refl|by apply msg_truncated]. }
  cbn zeta. destruct (op_of_code (get_op_type (lr_body req))) as [op|] eqn:Hop.
  - destruct (_ || _) eqn:Hbad; [by apply op_of_code_valid in Hbad; rewrite Hop in Hbad|].
    eapply wp_mono; [by apply broker_handle_one_spec| |done].
    intros rc0 s1 (rcid & t0 & Hs & Hb). eapply Hend; [exact Hs|]. by eapply msg_handled.
  - pose proof Hop as Hbad. apply op_of_code_valid in Hbad. rewrite Hbad, wp_ret.
    eapply Hend; [apply ctx_step_refl|by apply msg_bad_op].
Qed.

(** A stray SIGNAL is read past its end. *)
Lemma stray_signal_overread s req remote :
  ctx_ok s -> lr_remote req = Some remote ->
  get_op_type (lr_body req) = op_code RPC_OP_SIGNAL -> stray_signal (cc_config s) (lr_body req) ->
  lcapd_process_request req s = Fault OutOfBounds.
Proof.
  intros Hok Hr Hop (Hl & Hret & Hidx & Hstr). unfold lcapd_process_request, lr_body_len.
  rewrite (proj2 (Z.ltb_ge _ _)) by (unfold sizeof_hdr, sizeof_signal in *; lia). rewrite Hop.
  cbn [op_code Z.ltb Z.compare orb RPC_OP_FIRST RPC_OP_LAST].
  assert (Hcnt : Z.of_nat (0 + Z.to_nat (ccf_mdtcount (cc_config s))) <= ccf_mdtcount (cc_config s)).
  { pose proof (ck_count _ Hok). lia. }
  assert (Hlen : sizeof_mdtname <= Z.of_nat (length (get_sig_mdtname (lr_body req)))).
  { unfold get_sig_mdtname. rewrite length_drop. unfold sizeof_signal, sizeof_mdtname in *. lia. }
  pose proof (register_from_spec _ 0 s _ remote Hok Hlen Hcnt) as Hreg. rewrite Hidx in Hreg.
  assert (Hrun : register_from (Z.to_nat (ccf_mdtcount (cc_config s))) 0
    (get_sig_mdtname (lr_body req)) (Some remote) s = Ok (None, s)).
  { unfold wp in Hreg. destruct (register_from _ _ _ _ _) as [[rc s']|]; [|done].
    by destruct Hreg as (t & _ & -> & _ & ->). }
  unfold broker_handle_one. change (op_of_code 6) with (Some RPC_OP_SIGNAL).
  unfold mbind, M_bind, gets, unwrap, mret, M_ret in *. cbn [broker_rpc_handle].
  unfold broker_handle_signal, lr_body_len. rewrite Hret, Hr. cbn [Z.eqb]. unfold changelog_reader_register, mbind, M_bind, gets.
  rewrite (proj2 (Z.ltb_ge _ sizeof_signal) Hl). change (6 <? 6) with false.
  cbn beta iota delta [compose]. by rewrite Hrun, Hstr.
Qed.

Lemma brokered_table cfg rcid remote forward body op rc rcid' t :
  brokered cfg rcid remote forward body op rc rcid' t -> length rcid' = length rcid.
Proof.
  intros [ | | | | | |]; try done; [by rewrite length_insert|].
  destruct (slot_of _ _ _ _); [by rewrite length_insert|done].
Qed.

(** The table stays well formed, and the rest of the context the same. *)
Lemma processed_ok remote forward body s rc s' :
  ctx_ok s -> processed remote forward body s rc s' ->
  ctx_ok s' /\ set_rcid (fun _ => cc_rcid s) (s_put (cc_trace s) s') = s.
Proof.
  intros [Hc Hs Hn] (rc0 & rcid & t0 & t & -> & Hd & _). split; [|by destruct s].
  constructor; cbn; [done| |done]. rewrite <- Hs. f_equal.
  destruct Hd as [| |op rc1 rcid' t1 _ _ Hb]; [done|done|]. by eapply brokered_table.
Qed.
End proofs.
