(* ===== verification/Lcapd.v ===== *)
(** * The daemon ([src/lcapd/lcapd.c])

    The start of the daemon, the loop of the broker and the end. The reader
    threads run [Reader]. Here main is alone; Signals interleaves it with the
    thread of the signal handlers. *)
From S2P Require Import Prelude World Idl LcapNet RpcUtils Config ConfigProps Log Broker.
Local Open Scope Z_scope.

Definition BROKER_BIND_URL : bytes := of_str "tcp://*:8189".

(** The context and the variables of the logging. *)
Record lcapd := mkLcapd {
  l_ctx : lcap_ctx;
  l_log : log_state;
}.

#[export] Instance lcapd_has_trace : HasTrace lcapd := {
  s_trace s := cc_trace (l_ctx s);
  s_put t s := mkLcapd (s_put t (l_ctx s)) (l_log s);
}.
#[export] Instance lcapd_has_trace_laws : HasTraceLaws lcapd.
Proof. constructor; intros; by destruct s as [[]]. Qed.

Definition mod_ctx (f : lcap_ctx -> lcap_ctx) : M lcapd unit :=
  modify (fun s => mkLcapd (f (l_ctx s)) (l_log s)).
Definition mod_log (f : log_state -> log_state) : M lcapd unit :=
  modify (fun s => mkLcapd (l_ctx s) (f (l_log s))).

(** Code on the context, and on the configuration it points to. *)
Definition in_ctx {A} (m : M lcap_ctx A) : M lcapd A :=
  zoom l_ctx (fun c s => mkLcapd c (l_log s)) m.
Definition in_cfg {A} (m : M cfg_state A) : M lcapd A :=
  in_ctx (zoom (fun c => mkCfgSt (cc_config c) (cc_trace c))
            (fun f c => mkCtx (cs_cfg f) (cc_zctx c) (cc_sock c) (cc_rcid c) (cc_rdr_info c)
                          (cs_trace f)) m).

(** The context after [memset], with its configuration. *)
Definition ctx_zero (c : lcap_ctx) : lcap_ctx :=
  mkCtx (cc_config c) false false (replicate (Z.to_nat MAX_MDT) None) rdr_null (cc_trace c).

Section lcapd.
Context `{World}.

(** The calls of [pthread] return an error number. *)
Definition lcap_subtask (idx : nat) : M lcap_ctx Z :=
  rc ← ext PthreadAttrInit;
  if negb (rc =? 0) then mret (- rc)
  else
    rc ← ext PthreadAttrSetdetachstate;
    if negb (rc =? 0) then mret (- rc)
    else
      ok ← alloc 16;
      if negb ok then mret (- ENOMEM)
      else
        rc ← ext (PthreadCreate (Z.of_nat idx));
        if negb (rc =? 0) then mret (- rc) else mret 0.

(** [ctx->cc_rdr_info[i].si_running = b]. *)
Definition set_running (i : nat) (b : bool) : M lcap_ctx unit :=
  info ← gets cc_rdr_info;
  match info with
  | rdr_null => fail NullDeref
  | rdr_freed => fail UseAfterFree
  | rdr_live rdr =>
      unwrap OutOfBounds (rdr !! i);;
      modify (set_rdr_info (rdr_live (<[i := b]> rdr)))
  end.

(** The loop of [lcap_readers_start] from [i], [n] turns left. *)
Fixpoint start_from (n i : nat) : M lcap_ctx Z :=
  match n with
  | O => mret 0
  | S n =>
      rc ← lcap_subtask i;
      if negb (rc =? 0) then mret rc
      else set_running i true;; start_from n (S i)
  end.

Definition lcap_readers_start : M lcap_ctx Z :=
  count ← gets (ccf_mdtcount ∘ cc_config);
  ok ← alloc (u64 (count * 16));
  if negb ok then modify (set_rdr_info rdr_null);; mret (- ENOMEM)
  else
    modify (set_rdr_info (rdr_live (replicate (Z.to_nat count) false)));;
    start_from (Z.to_nat count) 0.

Definition lcap_bind_server : M lcap_ctx Z :=
  rc ← ext ZmqCtxNew;
  modify (fun s => set_socks (0 <=? rc) (cc_sock s) s);;
  if rc <? 0 then mret (- ENOMEM)
  else
    rc ← ext ZmqSocket;
    modify (fun s => set_socks (cc_zctx s) (0 <=? rc) s);;
    if rc <? 0 then mret rc
    else
      rc ← ext (ZmqBind BROKER_BIND_URL);
      if rc <? 0 then mret rc else mret 0.

(** The part of [lcap_ctx_init] that opens the log and the socket. *)
Definition lcap_ctx_open : M lcapd Z :=
  cfg ← gets (cc_config ∘ l_ctx);
  mod_log (lcap_set_loglevel (ccf_verbosity cfg));;
  rl ← gets (lcap_set_logger (ccf_loggername cfg) ∘ l_log);
  mod_log (fun _ => snd rl);;
  if negb (fst rl =? 0) then mret (fst rl)
  else
    mod_log (snd ∘ lcap_log_open);;
    in_ctx lcap_bind_server.

Definition lcap_ctx_init : M lcapd Z :=
  mod_ctx ctx_zero;;
  rc ← lcap_ctx_open;
  if negb (rc =? 0) then mret rc else in_ctx lcap_readers_start.

Definition lcap_ctx_release : M lcapd Z :=
  in_ctx (s ← gets id;
          (if cc_sock s then ext ZmqClose;; mret tt else mret tt);;
          (if cc_zctx s then ext ZmqCtxDestroy;; mret tt else mret tt);;
          match cc_rdr_info s with
          | rdr_null => mret tt
          | rdr_live _ => modify (set_rdr_info rdr_freed)
          | rdr_freed => fail UseAfterFree
          end);;
  mod_log (snd ∘ lcap_log_close);;
  mret 0.

(** One turn of the loop of [lcapd_serve]: [n] bounds the messages that wait
    and [frames] the frames of a message. [zmq_poll] fails with -1. *)
Definition lcapd_serve_turn (n frames : nat) : M lcap_ctx Z :=
  rc ← ext (ZmqPoll (-1));
  if rc <? 0 then mret (-1)
  else
    revents ← gets (fun s => w_revents (s_trace s));
    if negb (Z.land revents ZMQ_POLLIN =? 0) then
      lcap_rpc_recv n frames LCAP_RECV_NONBLOCK lcapd_process_request 0
    else mret rc.

(** [turns] bounds the turns of the loop. *)
Fixpoint lcapd_serve (turns n frames : nat) : M lcap_ctx Z :=
  match turns with
  | O => fail OutOfFuel
  | S turns =>
      rc ← lcapd_serve_turn n frames;
      if 0 <=? rc then lcapd_serve turns n frames else mret rc
  end.

(** The loops of [lcap_readers_terminate]. *)
Fixpoint stop_from (n i : nat) : M lcap_ctx unit :=
  match n with
  | O => mret tt
  | S n => set_running i false;; stop_from n (S i)
  end.
(** The threads were created detached: an implementation that does not refuse to
    join them may do anything. *)
Fixpoint join_from (n i : nat) : M lcap_ctx unit :=
  match n with
  | O => mret tt
  | S n =>
      rc ← ext (PthreadJoin (Z.of_nat i));
      if rc =? EINVAL then join_from n (S i) else fail UndefinedCall
  end.

Definition lcap_readers_terminate : M lcap_ctx Z :=
  count ← gets (ccf_mdtcount ∘ cc_config);
  stop_from (Z.to_nat count) 0;;
  join_from (Z.to_nat count) 0;;
  mret 0.

(** The thread of the signal handlers is that of [Signals]. *)
Definition setup_sigthread : M lcapd Z :=
  rc ← ext (PthreadCreate (-1));
  if negb (rc =? 0) then mret (- rc) else mret 0.

(** The part of [main] that follows, with the other thread idle. *)
Definition main_alone (turns n frames : nat) : M lcapd Z :=
  rc ← lcap_ctx_init;
  if negb (rc =? 0) then mret rc
  else
    rc ← in_ctx (lcapd_serve turns n frames);
    ext (Sleep 1);;
    lcap_ctx_release;;
    in_cfg lcap_cfg_release;;
    mret rc.

(** [main] with [ac] arguments. [None] is [exit(0)]. *)
Definition lcapd_main (ac : Z) (opts : list getopt_answer) (content : bytes)
    (turns n frames : nat) : M lcapd (option Z) :=
  if ac <? 2 then mret (Some 1)
  else
    rc ← in_cfg (lcap_cfg_init opts content);
    match rc with
    | None => mret None
    | Some rc =>
        if negb (rc =? 0) then mret (Some rc)
        else
          rc ← setup_sigthread;
          if negb (rc =? 0) then mret (Some rc)
          else
            rc ← main_alone turns n frames;
            mret (Some rc)
    end.
End lcapd.

(** ** From the configuration to the end *)

Section proofs.
Context `{World}.

(** The context as [main] leaves it: the table and the readers' flags fit the
    configuration. *)
Definition ctx_serving (c : lcap_ctx) : Prop :=
  cfg_wf (cc_config c) /\ ctx_ok c.

(** A table of the right size is all that a read configuration needs. *)
Lemma ctx_ok_config c :
  cfg_wf (cc_config c) -> Z.of_nat (length (cc_rcid c)) = MAX_MDT -> ctx_ok c.
Proof.
  intros Hc Hl. split; [apply Hc|done|]. intros i Hi.
  destruct (cw_named _ Hc i Hi) as (dev & ? & ? & _ & ?). by exists dev.
Qed.

Lemma ctx_serving_extends c t c' : extends c t c' -> ctx_serving c -> ctx_serving c'.
Proof. intros -> [Hc Hk]. split; [exact Hc|by eapply ctx_ok_extends]. Qed.

(** What serving does not touch. *)
Definition keeps (c c' : lcap_ctx) : Prop :=
  cc_config c' = cc_config c /\ cc_rdr_info c' = cc_rdr_info c.

Lemma keeps_trans c1 c2 c3 : keeps c1 c2 -> keeps c2 c3 -> keeps c1 c3.
Proof. intros [] []. split; congruence. Qed.

(** The faults of the serving loop of a daemon of [cfg]: its bounds, and a request
    whose messages in the log read out of bounds. *)
Definition serve_fault (cfg : lcap_cfg) (f : fault) : Prop :=
  f = OutOfFuel \/
  exists req, receivable false req /\ request_fault cfg (lr_body req) f.

Lemma ctx_serving_request req c :
  ctx_serving c -> receivable false req -> is_Some (lr_remote req) -> is_Some (lr_forward req) ->
  wp (lcapd_process_request req) (fun _ c' => ctx_serving c' /\ keeps c c')
     (serve_fault (cc_config c)) c.
Proof.
  intros [Hc Hk] Hreq [remote Hr] [forward Hf].
  eapply wp_mono; [by apply (lcapd_process_request_spec c req remote forward)|cbn beta|].
  2: { intros f Hf'. right. by exists req. }
  intros rc c' Hp. destruct (processed_ok _ _ _ _ _ _ Hk Hp) as [Hk' Heq].
  assert (Hcfg : keeps c c').
  { split; [apply (f_equal cc_config) in Heq|apply (f_equal cc_rdr_info) in Heq]; exact Heq. }
  split; [|done]. split; [by rewrite (proj1 Hcfg)|done].
Qed.

(** A turn keeps the context, whatever it returns. *)
Lemma lcapd_serve_turn_spec n frames c :
  ctx_serving c ->
  wp (lcapd_serve_turn n frames) (fun _ c' => ctx_serving c' /\ keeps c c')
     (serve_fault (cc_config c)) c.
Proof.
  intros Hc. unfold lcapd_serve_turn. wp_steps. rewrite wp_ext. set (c1 := logged _ c).
  assert (Hc1 : ctx_serving c1) by by eapply ctx_serving_extends.
  destruct (_ <? 0); wp_steps; [done|]. destruct (negb _); wp_steps; [|done].
  eapply wp_mono; [apply (wp_lcap_rpc_recv n frames LCAP_RECV_NONBLOCK lcapd_process_request 0
    (fun c2 => ctx_serving c2 /\ keeps c c2) (serve_fault (cc_config c))); [by left| | |done]|cbn beta|done].
  - intros t c2 c3 -> _ [Hc2 He]. split; [by eapply ctx_serving_extends|exact He].
  - intros req c2 [Hc2 He] Hreq Hf Hr. rewrite <- (proj1 He).
    eapply wp_mono; [apply ctx_serving_request; auto|cbn beta|done].
    intros rc c3 [Hc3 He3]. split; [done|by eapply keeps_trans].
  - by intros rc c2 [_ Hc2].
Qed.

(** The loop ends only when [zmq_poll] or the reception fails. *)
Lemma lcapd_serve_spec turns n frames c :
  ctx_serving c ->
  wp (lcapd_serve turns n frames) (fun rc c' => rc < 0 /\ ctx_serving c' /\ keeps c c')
     (serve_fault (cc_config c)) c.
Proof.
  revert c. induction turns as [|turns IH]; intros c Hc; cbn [lcapd_serve]; [by wp_steps; left|].
  wp_steps. eapply wp_mono; [by apply lcapd_serve_turn_spec|cbn beta|done].
  intros rc c1 [Hc1 He]. destruct (Z.leb_spec 0 rc); [|by wp_steps].
  eapply wp_mono; [by apply IH|cbn beta|by rewrite (proj1 He)]. intros rc' c' (? & ? & ?).
  split_and!; [done|done|by eapply keeps_trans].
Qed.

(** ** The start *)

Definition readers_ok (c : lcap_ctx) : Prop :=
  exists rdr, cc_rdr_info c = rdr_live rdr /\ Z.of_nat (length rdr) = ccf_mdtcount (cc_config c).

Lemma set_running_spec i b (Q : unit -> lcap_ctx -> Prop) c :
  readers_ok c -> Z.of_nat i < ccf_mdtcount (cc_config c) ->
  (forall r, readers_ok (set_rdr_info r c) -> Q tt (set_rdr_info r c)) ->
  wp (set_running i b) Q safe c.
Proof.
  intros (rdr & Hr & Hl) Hi HQ. unfold set_running. wp_steps. rewrite Hr. wp_steps.
  destruct (lookup_lt_is_Some_2 rdr i) as [x ->]; [lia|]. wp_steps. apply HQ.
  eexists. split; [done|]. by rewrite length_insert.
Qed.

Lemma lcap_subtask_spec i c :
  wp (lcap_subtask i) (fun rc c' => exists t, extends c t c') safe c.
Proof.
  unfold lcap_subtask. wp_steps. rewrite wp_ext.
  assert (Hend : forall t c' (rc : Z), extends c t c' -> exists t, extends c t c') by eauto.
  destruct (negb _); wp_steps; [eauto|]. rewrite wp_ext.
  destruct (negb _); wp_steps; [eexists; eapply extends_trans; apply extends_logged|].
  rewrite wp_alloc. destruct (negb _); wp_steps;
    [eexists; eapply extends_trans; [|apply extends_logged]; eapply extends_trans; apply extends_logged|].
  rewrite wp_ext. destruct (negb _); wp_steps; eexists;
    (eapply extends_trans; [|apply extends_logged]; eapply extends_trans; [|apply extends_logged];
     eapply extends_trans; apply extends_logged).
Qed.

(** What the start of the readers keeps. *)
Definition started (c0 c : lcap_ctx) : Prop :=
  cc_config c = cc_config c0 /\ cc_rcid c = cc_rcid c0.

Lemma start_from_spec n i c :
  readers_ok c -> Z.of_nat (i + n) <= ccf_mdtcount (cc_config c) ->
  wp (start_from n i) (fun _ c' => started c c' /\ readers_ok c') safe c.
Proof.
  revert i c. induction n as [|n IH]; intros i c Hr Hi; cbn [start_from]; [by wp_steps|].
  wp_steps. eapply wp_mono; [apply lcap_subtask_spec|cbn beta|done]. intros rc c1 [t ->].
  destruct (negb _); wp_steps; [done|]. apply set_running_spec; [exact Hr|cbn; lia|].
  intros r Hr'. eapply wp_mono; [apply IH; [exact Hr'|cbn; lia]|done|done].
Qed.

Lemma readers_ok_live c : readers_ok c -> cc_rdr_info c <> rdr_freed.
Proof. by intros (rdr & -> & _). Qed.

Lemma lcap_readers_start_spec c :
  0 <= ccf_mdtcount (cc_config c) ->
  wp lcap_readers_start (fun rc c' => started c c' /\ cc_rdr_info c' <> rdr_freed /\
       (rc = 0 -> readers_ok c')) safe c.
Proof.
  intros Hc. unfold lcap_readers_start. wp_steps. rewrite wp_alloc.
  destruct (0 <=? _); cbn [negb]; wp_steps; [|by unfold ENOMEM; split_and!].
  eapply wp_mono; [apply start_from_spec|cbn beta|done].
  - eexists. split; [done|]. rewrite length_replicate. cbn [set_rdr_info cc_config compose logged s_put ctx_has_trace]. lia.
  - cbn [set_rdr_info cc_config compose logged s_put ctx_has_trace]. lia.
  - intros rc c' [Hs Hr]. split_and!; [exact Hs|by apply readers_ok_live|done].
Qed.

Lemma lcap_bind_server_spec c :
  wp lcap_bind_server (fun _ c' => started c c' /\ cc_rdr_info c' = cc_rdr_info c) safe c.
Proof.
  unfold lcap_bind_server. wp_steps. rewrite wp_ext. wp_steps.
  destruct (_ <? 0); wp_steps; [done|]. rewrite wp_ext. wp_steps.
  destruct (_ <? 0); wp_steps; [done|]. rewrite wp_ext. by destruct (_ <? 0); wp_steps.
Qed.

Lemma lcap_ctx_open_spec s :
  wp lcap_ctx_open (fun _ s' => started (l_ctx s) (l_ctx s') /\
       cc_rdr_info (l_ctx s') = cc_rdr_info (l_ctx s)) safe s.
Proof.
  unfold lcap_ctx_open, mod_log, in_ctx. wp_steps. destruct (negb _); wp_steps; [done|].
  by apply lcap_bind_server_spec.
Qed.

(** The zeroed context of a configuration that was read can serve. *)
Lemma ctx_zero_serving c c' :
  cfg_wf (cc_config c) -> started (ctx_zero c) c' -> ctx_serving c'.
Proof.
  intros Hc [Hcfg Hr]. cbn in Hcfg, Hr. split; [by rewrite Hcfg|].
  apply ctx_ok_config; rewrite ?Hcfg, ?Hr; done.
Qed.

(** A daemon that starts with a configuration that was read has a context that
    can serve. *)
Lemma lcap_ctx_init_spec s :
  cfg_wf (cc_config (l_ctx s)) ->
  wp lcap_ctx_init (fun rc s' => ctx_serving (l_ctx s') /\
       cc_config (l_ctx s') = cc_config (l_ctx s) /\ cc_rdr_info (l_ctx s') <> rdr_freed /\
       (rc = 0 -> readers_ok (l_ctx s'))) safe s.
Proof.
  intros Hc. unfold lcap_ctx_init, mod_ctx. wp_steps.
  eapply wp_mono; [apply lcap_ctx_open_spec|cbn beta|done]. cbn [l_ctx].
  intros rc s1 [Hs1 Hr1]. destruct (Z.eqb_spec rc 0); cbn [negb]; wp_steps.
  2: { split_and!; [by eapply ctx_zero_serving|apply Hs1|by rewrite Hr1|done]. }
  unfold in_ctx. wp_steps. eapply wp_mono; [apply lcap_readers_start_spec|cbn beta|done].
  { rewrite (proj1 Hs1). apply Hc. }
  intros rc2 c2 ([Hc2 Hr2] & Hf & Ho). cbn [l_ctx].
  assert (Hs2 : started (ctx_zero (l_ctx s)) c2).
  { destruct Hs1. split; congruence. }
  split_and!; [by eapply ctx_zero_serving|apply Hs2|done|done].
Qed.

Lemma wp_in_ctx {A} (m : M lcap_ctx A) (Q : A -> lcapd -> Prop) (E : fault -> Prop) s :
  wp (in_ctx m) Q E s <-> wp m (fun a c => Q a (mkLcapd c (l_log s))) E (l_ctx s).
Proof. exact (wp_zoom l_ctx (fun c s => mkLcapd c (l_log s)) m Q E s). Qed.

(** The configuration as [main] reads it. *)
Lemma in_cfg_spec {A} (m : M cfg_state A) (Q : A -> cfg_state -> Prop) (E : fault -> Prop) s :
  (forall c, wp m Q E c) ->
  wp (in_cfg m) (fun a s' => Q a (mkCfgSt (cc_config (l_ctx s')) (cc_trace (l_ctx s')))) E s.
Proof.
  intros Hm. unfold in_cfg, in_ctx. wp_steps. eapply wp_mono; [apply Hm| |done].
  by intros a [c t].
Qed.

(** The faults of [main] once the configuration [cfg] is read: those of the
    serving loop, and the read past the table when all its slots are used. *)
Definition alone_fault (cfg : lcap_cfg) (f : fault) : Prop :=
  serve_fault cfg f \/ f = OutOfBounds /\ ccf_mdtcount cfg = MAX_MDT.

(** The faults of [main]: an undefined line of the file, and those with the
    configuration that it reads from [s]. *)
Definition main_fault opts content s (f : fault) : Prop :=
  bad_line f \/ exists s1, in_cfg (lcap_cfg_init opts content) s = Ok (Some 0, s1) /\
    alone_fault (cc_config (l_ctx s1)) f.

Lemma lcap_cfg_init_wf opts content c :
  wp (lcap_cfg_init opts content) (fun _ c' => cfg_wf (cs_cfg c')) bad_line c.
Proof. apply lcap_cfg_init_good. Qed.

Lemma in_cfg_release_spec s :
  cfg_wf (cc_config (l_ctx s)) ->
  wp (in_cfg lcap_cfg_release) (fun rc _ => rc = 0) (fun f => f = OutOfBounds /\
    ccf_mdtcount (cc_config (l_ctx s)) = MAX_MDT) s.
Proof.
  intros Hc. unfold in_cfg, in_ctx. wp_steps. unfold wp.
  rewrite (lcap_cfg_release_spec (mkCfgSt _ _) Hc). cbn [cs_cfg].
  destruct (Z.ltb_spec (ccf_mdtcount (cc_config (l_ctx s))) MAX_MDT); [done|].
  split; [done|]. pose proof (cw_count _ Hc). lia.
Qed.

Lemma lcap_ctx_release_spec s :
  cc_rdr_info (l_ctx s) <> rdr_freed ->
  wp lcap_ctx_release (fun rc s' => rc = 0 /\ cc_config (l_ctx s') = cc_config (l_ctx s) /\
    (forall rdr, cc_rdr_info (l_ctx s) = rdr_live rdr -> cc_rdr_info (l_ctx s') = rdr_freed)) safe s.
Proof.
  intros Hlive. unfold lcap_ctx_release, in_ctx, mod_log. wp_steps.
  destruct (cc_sock _), (cc_zctx _); wp_steps; rewrite ?wp_ext; wp_steps; rewrite ?wp_ext; wp_steps;
    destruct (cc_rdr_info _); wp_steps; done.
Qed.

Lemma main_alone_spec turns n frames s :
  cfg_wf (cc_config (l_ctx s)) ->
  wp (main_alone turns n frames) (fun rc _ => rc <> 0) (alone_fault (cc_config (l_ctx s))) s.
Proof.
  intros Hcfg. unfold main_alone. wp_steps.
  eapply wp_mono; [by apply lcap_ctx_init_spec|cbn beta|done].
  intros rc2 s2 (Hs2 & Hc2 & Hl2 & _). destruct (Z.eqb_spec rc2 0) as [->|]; cbn [negb]; wp_steps; [|done].
  rewrite wp_in_ctx. eapply wp_mono; [by apply lcapd_serve_spec|cbn beta|cbn [l_ctx]; rewrite Hc2; by left].
  intros rc3 c3 (Hneg & [Hc3 _] & [He3 Hr3]). wp_steps. rewrite wp_ext. wp_steps.
  eapply wp_mono; [apply lcap_ctx_release_spec|cbn beta|done]. { cbn. by rewrite Hr3. }
  intros _ s4 (_ & Hc4 & _). cbn in Hc4. wp_steps.
  eapply wp_mono; [apply in_cfg_release_spec; by rewrite Hc4|cbn beta|].
  { intros rc5 s5 _. wp_steps. lia. }
  intros f [-> Hf]. right. split; [done|]. congruence.
Qed.

End proofs.
