(* ===== verification/Signals.v ===== *)
(** * The threads of the daemon and its signals
      ([src/lcapd/lcapd.c], from [lcap_sigterm])

    The process has the thread of [main], which starts the daemon and serves,
    and the thread of [setup_sighandlers], which installs the handlers and then
    looks at their flags once a second. A signal runs its handler between any
    two steps of them. A schedule says who moves; [run] executes it. *)
From S2P Require Import Prelude World Idl LcapNet RpcUtils Config ConfigProps Log Broker Lcapd.
Local Open Scope Z_scope.

Definition SIGSLEEP_DELAY := 1.

(** The flags that the handlers set. *)
Record sig_flags := mkFlags {
  TerminateSig : Z;
  ReloadSig : Z;
  DumpStatsSig : Z;
}.

Definition set_TerminateSig (v : Z) (f : sig_flags) : sig_flags :=
  mkFlags v (ReloadSig f) (DumpStatsSig f).
Definition set_ReloadSig (v : Z) (f : sig_flags) : sig_flags :=
  mkFlags (TerminateSig f) v (DumpStatsSig f).
Definition set_DumpStatsSig (v : Z) (f : sig_flags) : sig_flags :=
  mkFlags (TerminateSig f) (ReloadSig f) v.

Definition lcap_sigterm (signo : Z) (f : sig_flags) : sig_flags := set_TerminateSig 1 f.
Definition lcap_sigreload (signo : Z) (f : sig_flags) : sig_flags := set_ReloadSig 1 f.
Definition lcap_sigdumpstats (signo : Z) (f : sig_flags) : sig_flags := set_DumpStatsSig 1 f.

(** The signals of the table, with their numbers ([signal.h]). *)
Inductive signal := SIGTERM | SIGINT | SIGHUP | SIGUSR1.

#[export] Instance signal_eq_dec : EqDecision signal.
Proof. solve_decision. Defined.

Definition signum (sg : signal) : Z :=
  match sg with SIGHUP => 1 | SIGINT => 2 | SIGUSR1 => 10 | SIGTERM => 15 end.

Record sigmap := mkSigmap {
  signo : Z;
  signame : bytes;
  handler : option (Z -> sig_flags -> sig_flags);
}.

Definition handlers : list sigmap := [
  mkSigmap (signum SIGTERM) (of_str "SIGTERM") (Some lcap_sigterm);
  mkSigmap (signum SIGINT) (of_str "SIGINT") (Some lcap_sigterm);
  mkSigmap (signum SIGHUP) (of_str "SIGHUP") (Some lcap_sigreload);
  mkSigmap (signum SIGUSR1) (of_str "SIGUSR1") (Some lcap_sigdumpstats);
  mkSigmap (-1) [] None
].

(** Where [main] is, from the creation of the second thread on. [main_zeroed]:
    after [memset], before [ctx->cc_config] is set. *)
Inductive main_at :=
| main_before_init
| main_zeroed
| main_opening
| main_starting
| main_serving
| main_stopping (rc : Z)
| main_released (rc : Z).

(** The statement that [setup_sighandlers] executes next. *)
Inductive sig_at :=
| sig_reset_terminate
| sig_reset_reload
| sig_reset_dump
| sig_install (i : nat)
| sig_first_sleep
| sig_test_terminate
| sig_terminate
| sig_test_reload
| sig_clear_reload
| sig_test_dump
| sig_clear_dump
| sig_sleep.

#[export] Instance sig_at_eq_dec : EqDecision sig_at.
Proof. solve_decision. Defined.

(** The end of the process: [main] returns, the thread calls [exit], or a signal
    without handler kills it. *)
Inductive exit_cause :=
| main_returned (rc : Z)
| thread_exit (code : Z)
| killed (sg : signal).

Record process := mkProc {
  pr_lcapd : lcapd;
  pr_main : main_at;
  pr_sig : sig_at;
  pr_flags : sig_flags;
  pr_installed : gmap Z (Z -> sig_flags -> sig_flags);
  pr_exit : option exit_cause;
}.

#[export] Instance process_has_trace : HasTrace process := {
  s_trace p := s_trace (pr_lcapd p);
  s_put t p := mkProc (s_put t (pr_lcapd p)) (pr_main p) (pr_sig p) (pr_flags p)
                 (pr_installed p) (pr_exit p);
}.
#[export] Instance process_has_trace_laws : HasTraceLaws process.
Proof. constructor; intros; by destruct s as [[[]]]. Qed.

Definition set_lcapd (l : lcapd) (p : process) : process :=
  mkProc l (pr_main p) (pr_sig p) (pr_flags p) (pr_installed p) (pr_exit p).
Definition goto_main (m : main_at) : M process unit :=
  modify (fun p => mkProc (pr_lcapd p) m (pr_sig p) (pr_flags p) (pr_installed p) (pr_exit p)).
Definition goto_sig (g : sig_at) : M process unit :=
  modify (fun p => mkProc (pr_lcapd p) (pr_main p) g (pr_flags p) (pr_installed p) (pr_exit p)).
Definition mod_flags (f : sig_flags -> sig_flags) : M process unit :=
  modify (fun p => mkProc (pr_lcapd p) (pr_main p) (pr_sig p) (f (pr_flags p))
                     (pr_installed p) (pr_exit p)).
Definition install (m : sigmap) : M process unit :=
  modify (fun p => mkProc (pr_lcapd p) (pr_main p) (pr_sig p) (pr_flags p)
                     (match handler m with
                      | Some h => <[signo m := h]> (pr_installed p)
                      | None => pr_installed p
                      end) (pr_exit p)).
Definition exit_process (x : exit_cause) : M process unit :=
  modify (fun p => mkProc (pr_lcapd p) (pr_main p) (pr_sig p) (pr_flags p)
                     (pr_installed p) (Some x)).

Definition in_lcapd {A} (m : M lcapd A) : M process A := zoom pr_lcapd set_lcapd m.

Section threads.
Context `{World}.

(** [n] and [frames] bound the messages of a turn and the frames of each. *)
Definition main_step (n frames : nat) : M process unit :=
  at_ ← gets pr_main;
  match at_ with
  | main_before_init => in_lcapd (mod_ctx ctx_zero);; goto_main main_zeroed
  | main_zeroed => goto_main main_opening
  | main_opening =>
      rc ← in_lcapd lcap_ctx_open;
      if negb (rc =? 0) then exit_process (main_returned rc) else goto_main main_starting
  | main_starting =>
      rc ← in_lcapd (in_ctx lcap_readers_start);
      if negb (rc =? 0) then exit_process (main_returned rc) else goto_main main_serving
  | main_serving =>
      rc ← in_lcapd (in_ctx (lcapd_serve_turn n frames));
      if 0 <=? rc then mret tt else goto_main (main_stopping rc)
  | main_stopping rc =>
      ext (Sleep 1);; in_lcapd lcap_ctx_release;; goto_main (main_released rc)
  | main_released rc =>
      in_lcapd (in_cfg lcap_cfg_release);; exit_process (main_returned rc)
  end.

(** Code of the second thread on the context of [main], which is on its stack:
    [cc_config] is not set before [main_opening]. *)
Definition sig_ctx {A} (m : M lcap_ctx A) : M process A :=
  at_ ← gets pr_main;
  match at_ with
  | main_before_init => fail UninitRead
  | main_zeroed => fail NullDeref
  | _ => in_lcapd (in_ctx m)
  end.

(** One statement of [setup_sighandlers]. *)
Definition setup_sighandlers : M process unit :=
  at_ ← gets pr_sig;
  match at_ with
  | sig_reset_terminate => mod_flags (set_TerminateSig 0);; goto_sig sig_reset_reload
  | sig_reset_reload => mod_flags (set_ReloadSig 0);; goto_sig sig_reset_dump
  | sig_reset_dump => mod_flags (set_DumpStatsSig 0);; goto_sig (sig_install 0)
  | sig_install i =>
      m ← unwrap OutOfBounds (handlers !! i);
      if signo m =? -1 then goto_sig sig_first_sleep
      else
        rc ← ext (Sigaction (signo m));
        if negb (rc =? 0) then exit_process (thread_exit 1)
        else install m;; goto_sig (sig_install (S i))
  | sig_first_sleep => ext (Sleep 1);; goto_sig sig_test_terminate
  | sig_test_terminate =>
      f ← gets pr_flags;
      goto_sig (if negb (TerminateSig f =? 0) then sig_terminate else sig_test_reload)
  | sig_terminate => sig_ctx lcap_readers_terminate;; exit_process (thread_exit 1)
  | sig_test_reload =>
      f ← gets pr_flags;
      goto_sig (if negb (ReloadSig f =? 0) then sig_clear_reload else sig_test_dump)
  | sig_clear_reload => mod_flags (set_ReloadSig 0);; goto_sig sig_sleep
  | sig_test_dump =>
      f ← gets pr_flags;
      goto_sig (if negb (DumpStatsSig f =? 0) then sig_clear_dump else sig_sleep)
  | sig_clear_dump => mod_flags (set_DumpStatsSig 0);; goto_sig sig_sleep
  | sig_sleep => ext (Sleep SIGSLEEP_DELAY);; goto_sig sig_test_terminate
  end.

(** A signal arrives. Without a handler all four kill the process. *)
Definition deliver (sg : signal) : M process unit :=
  installed ← gets pr_installed;
  match installed !! signum sg with
  | Some h => mod_flags (h (signum sg))
  | None => exit_process (killed sg)
  end.

Inductive sched_event :=
| MainStep
| SigStep
| Deliver (sg : signal).

#[export] Instance sched_event_eq_dec : EqDecision sched_event.
Proof. solve_decision. Defined.

Definition exec (n frames : nat) (e : sched_event) : M process unit :=
  x ← gets pr_exit;
  match x with
  | Some _ => mret tt
  | None =>
      match e with
      | MainStep => main_step n frames
      | SigStep => setup_sighandlers
      | Deliver sg => deliver sg
      end
  end.

Fixpoint run (n frames : nat) (evs : list sched_event) : M process unit :=
  match evs with
  | [] => mret tt
  | e :: evs => exec n frames e;; run n frames evs
  end.

(** Where [setup_sigthread] leaves the process. *)
Definition process_start (l : lcapd) : process :=
  mkProc l main_before_init sig_reset_terminate (mkFlags 0 0 0) ∅ None.
End threads.
