(* ===== verification/SignalProps.v ===== *)
(** * The properties of the daemon's threads and signals *)
From S2P Require Import Prelude World Idl LcapNet RpcUtils Config ConfigProps Log Broker Lcapd Signals.
Local Open Scope Z_scope.

(** ** Stopping the readers *)

Section terminate.
Context `{World}.

Definition joins_of (n i : nat) : list extcall := (PthreadJoin ∘ Z.of_nat) <$> seq i n.

Lemma stop_from_spec n i c done_ rest :
  cc_rdr_info c = rdr_live (done_ ++ rest) -> length done_ = i -> length rest = n ->
  wp (stop_from n i)
    (fun _ c' => c' = set_rdr_info (rdr_live (done_ ++ replicate n false)) c) safe c.
Proof.
  revert i c done_ rest. induction n as [|n IH]; intros i c ds rest Hc Hi Hn; cbn [stop_from].
  - wp_steps. apply nil_length_inv in Hn as ->. cbn [replicate]. rewrite app_nil_r in *.
    rewrite <- Hc. by destruct c.
  - destruct rest as [|b rest]; [done|]. wp_steps. unfold set_running. wp_steps. rewrite Hc. wp_steps.
    rewrite lookup_app_r, Hi, Nat.sub_diag by lia. cbn [lookup list_lookup]. wp_steps.
    set (c1 := set_rdr_info (rdr_live (insert _ _ _)) c).
    eapply wp_mono; [apply (IH (S i) c1 (ds ++ [false]) rest)|cbn beta|done].
    + cbn. f_equal. rewrite insert_app_r_alt, Hi, Nat.sub_diag by lia. cbn. by rewrite <- app_assoc.
    + rewrite length_app. cbn. lia.
    + by injection Hn.
    + intros _ c' ->. cbn [replicate]. by rewrite <- app_assoc.
Qed.

(** The fault of joining [n] detached threads. *)
Definition join_fault (n : nat) (f : fault) : Prop :=
  f = UndefinedCall /\ ~ joins_detected /\ (0 < n)%nat.

Lemma join_from_spec n i c :
  wp (join_from n i) (fun _ c' => exists t, extends c t c' /\ t.*1 = joins_of n i) (join_fault n) c.
Proof.
  revert i c. induction n as [|n IH]; intros i c; cbn [join_from]; wp_steps.
  { exists []. split; [apply extends_refl|done]. }
  rewrite wp_ext. destruct (Z.eqb_spec (w_rc (s_trace c) (PthreadJoin (Z.of_nat i))) EINVAL) as [Hd|Hd];
    wp_steps.
  2: { split_and!; [done| |lia]. intros Hall. by apply Hd, Hall. }
  eapply wp_mono; [apply IH|cbn beta|intros f (-> & ? & _); split_and!; [done|done|lia]].
  intros _ c' (t & Ht & Hj).
  eexists. split; [eapply extends_trans; [apply extends_logged|exact Ht]|].
  cbn [fmap list_fmap app fst]. rewrite Hj. done.
Qed.

Lemma lcap_readers_terminate_spec c :
  readers_ok c ->
  wp lcap_readers_terminate (fun rc c' => rc = 0 /\ exists t,
    let n := Z.to_nat (ccf_mdtcount (cc_config c)) in
    extends (set_rdr_info (rdr_live (replicate n false)) c) t c' /\ t.*1 = joins_of n 0)
    (join_fault (Z.to_nat (ccf_mdtcount (cc_config c)))) c.
Proof.
  intros (rdr & Hr & Hl). unfold lcap_readers_terminate. wp_steps. cbn [compose].
  eapply wp_mono; [apply (stop_from_spec _ 0 c [] rdr); [done|done|lia]|cbn beta|done].
  intros _ c1 ->. cbn [app]. wp_steps.
  eapply wp_mono; [apply join_from_spec|cbn beta|done]. intros _ c2 (t & Ht & Hj). wp_steps.
  split; [done|]. by exists t.
Qed.

(** Without the array the first store of the loop faults, if there is one. *)
Lemma lcap_readers_terminate_early c f :
  f = NullDeref /\ cc_rdr_info c = rdr_null \/ f = UseAfterFree /\ cc_rdr_info c = rdr_freed ->
  wp lcap_readers_terminate (fun _ _ => True)
    (fun f' => f' = f /\ 0 < ccf_mdtcount (cc_config c)) c.
Proof.
  intros Hf. unfold lcap_readers_terminate. wp_steps. cbn [compose].
  destruct (Z.to_nat _) as [|n] eqn:Hn; cbn [stop_from join_from]; wp_steps; [done|].
  unfold set_running. wp_steps. destruct Hf as [[-> ->]|[-> ->]]; wp_steps; (split; [done|lia]).
Qed.
End terminate.

(** ** The invariant of the process *)

Section process.
Context `{World}.
Implicit Types (p : process) (l : lcapd).

Definition ctx_of p : lcap_ctx := l_ctx (pr_lcapd p).

(** What [main] has made of the context when it gets to [m]. *)
Definition main_ok (m : main_at) (c : lcap_ctx) : Prop :=
  match m with
  | main_before_init => True
  | main_zeroed | main_opening | main_starting => ctx_serving c /\ cc_rdr_info c = rdr_null
  | main_serving => ctx_serving c /\ readers_ok c
  | main_stopping rc => rc < 0 /\ ctx_serving c /\ readers_ok c
  | main_released rc => rc < 0 /\ cc_rdr_info c = rdr_freed
  end.

Definition handler_of (sg : signal) : Z -> sig_flags -> sig_flags :=
  match sg with
  | SIGTERM | SIGINT => lcap_sigterm
  | SIGHUP => lcap_sigreload
  | SIGUSR1 => lcap_sigdumpstats
  end.

Record process_inv p : Prop := {
  pi_cfg : cfg_wf (cc_config (ctx_of p));
  pi_main : main_ok (pr_main p) (ctx_of p);
  pi_handlers : forall sg h, pr_installed p !! signum sg = Some h -> h = handler_of sg;
  pi_index : forall i, pr_sig p = sig_install i -> (i < length handlers)%nat;
  pi_reset : pr_sig p = sig_reset_terminate -> pr_installed p = ∅;
}.

(** A process that goes on. *)
Definition running_ok p : Prop := pr_exit p = None -> process_inv p.

(** The faults that a step can meet. *)
Inductive fault_cause (e : sched_event) p : fault -> Prop :=
| cause_serving f :
    e = MainStep -> pr_main p = main_serving -> serve_fault (cc_config (ctx_of p)) f ->
    fault_cause e p f
| cause_full_table rc :
    e = MainStep -> pr_main p = main_released rc ->
    ccf_mdtcount (cc_config (ctx_of p)) = MAX_MDT -> fault_cause e p OutOfBounds
| cause_no_context :
    e = SigStep -> pr_sig p = sig_terminate -> pr_main p = main_before_init ->
    fault_cause e p UninitRead
| cause_no_config :
    e = SigStep -> pr_sig p = sig_terminate -> pr_main p = main_zeroed ->
    fault_cause e p NullDeref
| cause_no_readers :
    e = SigStep -> pr_sig p = sig_terminate -> pr_main p = main_opening \/ pr_main p = main_starting ->
    0 < ccf_mdtcount (cc_config (ctx_of p)) -> fault_cause e p NullDeref
| cause_detached :
    e = SigStep -> pr_sig p = sig_terminate ->
    pr_main p = main_serving \/ (exists rc, pr_main p = main_stopping rc) ->
    0 < ccf_mdtcount (cc_config (ctx_of p)) -> ~ joins_detected -> fault_cause e p UndefinedCall
| cause_released rc :
    e = SigStep -> pr_sig p = sig_terminate -> pr_main p = main_released rc ->
    0 < ccf_mdtcount (cc_config (ctx_of p)) -> fault_cause e p UseAfterFree.

Lemma wp_in_lcapd {A} (m : M lcapd A) (Q : A -> process -> Prop) (E : fault -> Prop) p :
  wp (in_lcapd m) Q E p <-> wp m (fun a l => Q a (set_lcapd l p)) E (pr_lcapd p).
Proof. exact (wp_zoom pr_lcapd set_lcapd m Q E p). Qed.

(** The invariant after a step of [main] that led to [m] with the context [c]. *)
Lemma process_inv_main p p' :
  process_inv p -> pr_installed p' = pr_installed p -> pr_sig p' = pr_sig p ->
  cc_config (ctx_of p') = cc_config (ctx_of p) -> main_ok (pr_main p') (ctx_of p') ->
  running_ok p'.
Proof. intros [] Hi Hs Hc Hm _. split; [by rewrite Hc|done|by rewrite Hi|by rewrite Hs|by rewrite Hs, Hi]. Qed.

Lemma readers_ok_keeps c c' : keeps c c' -> readers_ok c -> readers_ok c'.
Proof. intros [Hc Hr] (rdr & ? & ?). exists rdr. by rewrite Hc, Hr. Qed.

Lemma serving_started c c' : ctx_serving c -> started c c' -> ctx_serving c'.
Proof.
  intros [Hc Hk] [Hc1 Hc2]. rewrite <- Hc1 in Hc. split; [done|]. apply ctx_ok_config; [done|].
  rewrite Hc2. apply Hk.
Qed.

Lemma main_step_ok n frames p :
  process_inv p -> pr_exit p = None ->
  wp (main_step n frames) (fun _ p' => running_ok p' /\ pr_sig p' = pr_sig p /\
       pr_flags p' = pr_flags p /\
       (forall x, pr_exit p' = Some x -> exists rc, x = main_returned rc /\ rc <> 0))
     (fault_cause MainStep p) p.
Proof.
  intros Hp Hx. pose proof (pi_main _ Hp) as Hm. unfold main_step, goto_main, exit_process. wp_steps.
  pose proof (process_inv_main p) as Hnext.
  destruct (pr_main p) as [| | | | |rc|rc] eqn:Hat; cbn [main_ok] in Hm; wp_steps.
  - rewrite wp_in_lcapd. unfold mod_ctx. wp_steps. cbn. rewrite Hx. split_and!; try done.
    apply Hnext; try done. cbn. split; [|done].
    by apply (ctx_zero_serving (ctx_of p)); [apply Hp|].
  - cbn. rewrite Hx. split_and!; try done. by apply Hnext.
  - rewrite wp_in_lcapd. eapply wp_mono; [apply lcap_ctx_open_spec|cbn beta|done].
    intros rc l' [Hs Hr]. destruct (Z.eqb_spec rc 0); cbn [negb]; wp_steps; cbn.
    2: { split_and!; try done. intros x [= <-]. by exists rc. }
    rewrite Hx. split_and!; try done. apply Hnext; try done; [apply Hs|]. cbn.
    destruct Hm as [Hc Hnull]. split; [by eapply serving_started|exact (eq_trans Hr Hnull)].
  - rewrite wp_in_lcapd, wp_in_ctx. eapply wp_mono; [apply lcap_readers_start_spec; apply Hp|cbn beta|done].
    intros rc c' (Hs & _ & Hr). destruct (Z.eqb_spec rc 0); cbn [negb]; wp_steps; cbn.
    2: { split_and!; try done. intros x [= <-]. by exists rc. }
    rewrite Hx. split_and!; try done. apply Hnext; try done; [apply Hs|]. cbn.
    destruct Hm as [Hc Hnull]. split; [by eapply serving_started|by apply Hr].
  - rewrite wp_in_lcapd, wp_in_ctx. destruct Hm as [Hs Hr].
    eapply wp_mono; [by apply lcapd_serve_turn_spec|cbn beta|intros f; by apply cause_serving].
    intros rc c' (Hs' & Hk). apply (readers_ok_keeps _ _ Hk) in Hr. destruct Hk as [Hc _].
    destruct (Z.leb_spec 0 rc); wp_steps; cbn; rewrite Hx; (split_and!; try done); apply Hnext; try done; cbn.
    by rewrite Hat.
  - rewrite wp_ext, wp_bind, wp_in_lcapd. destruct Hm as (Hrc & Hs & Hr).
    eapply wp_mono; [apply lcap_ctx_release_spec; by apply readers_ok_live|cbn beta|done].
    intros _ l' (_ & Hc & Hf). wp_steps. cbn. rewrite Hx. split_and!; try done.
    destruct Hr as (rdr & Hr & _). apply Hnext; try done. cbn. split; [done|by eapply Hf].
  - rewrite wp_in_lcapd. eapply wp_mono; [apply in_cfg_release_spec; apply Hp|cbn beta|].
    + intros _ l' _. wp_steps. split_and!; try done. intros x [= <-]. exists rc. split; [done|]. cbn in Hm. lia.
    + intros f [-> Hfull]. by eapply cause_full_table.
Qed.

(** How far the second thread is from the stop of the readers, once the flag is
    set. *)
Definition dist (g : sig_at) : nat :=
  match g with
  | sig_terminate => 1
  | sig_test_terminate => 2
  | sig_sleep | sig_first_sleep => 3
  | sig_clear_reload | sig_clear_dump => 4
  | sig_test_dump => 5
  | sig_test_reload => 6
  | sig_install i => 8 - i
  | sig_reset_dump => 9
  | sig_reset_reload => 10
  | sig_reset_terminate => 11
  end.

Definition terminating p : Prop :=
  TerminateSig (pr_flags p) <> 0 /\ pr_sig p <> sig_reset_terminate.

Definition sigaction_failed p : Prop :=
  exists s z, (Sigaction s, z) ∈ s_trace p /\ z <> 0.

(** What a statement of the second thread does to the flag and to its way. *)
Record sig_moved p p' : Prop := {
  sm_main : pr_main p' = pr_main p;
  sm_flag : TerminateSig (pr_flags p') <> 0 -> TerminateSig (pr_flags p) <> 0;
  sm_stop : pr_sig p' = sig_terminate -> pr_sig p <> sig_terminate -> TerminateSig (pr_flags p) <> 0;
  sm_exit : forall x, pr_exit p' = Some x ->
    x = thread_exit 1 /\ (pr_sig p = sig_terminate \/ sigaction_failed p');
  sm_dist : terminating p -> pr_exit p' = None ->
    terminating p' /\ (dist (pr_sig p') < dist (pr_sig p))%nat;
}.

(** A step that neither installs a handler nor touches the context. *)
Lemma process_inv_sig p p' :
  process_inv p -> pr_installed p' = pr_installed p -> pr_main p' = pr_main p ->
  (exists t, extends (ctx_of p) t (ctx_of p')) ->
  (forall i, pr_sig p' = sig_install i -> (i < length handlers)%nat) ->
  (pr_sig p' = sig_reset_terminate -> pr_sig p = sig_reset_terminate) -> running_ok p'.
Proof.
  intros [Hc Hm Hh _ He] Hi Ha (t & Ht) Hn Hs0 _.
  assert (Hcfg : cc_config (ctx_of p') = cc_config (ctx_of p)) by by rewrite Ht.
  split; [by rewrite Hcfg| |by rewrite Hi|done|rewrite Hi; auto]. rewrite Ha.
  assert (Hs : ctx_serving (ctx_of p) -> ctx_serving (ctx_of p')) by by apply ctx_serving_extends with t.
  assert (Hr : cc_rdr_info (ctx_of p') = cc_rdr_info (ctx_of p)) by by rewrite Ht.
  assert (Hk : readers_ok (ctx_of p) -> readers_ok (ctx_of p')) by by apply readers_ok_keeps.
  destruct (pr_main p); cbn in *; rewrite ?Hr; tauto.
Qed.

Lemma sig_ctx_terminate_ok p :
  process_inv p -> pr_sig p = sig_terminate ->
  wp (sig_ctx lcap_readers_terminate) (fun _ p' => pr_main p' = pr_main p /\
       pr_flags p' = pr_flags p) (fault_cause SigStep p) p.
Proof.
  intros Hp Hat. pose proof (pi_main _ Hp) as Hm. unfold sig_ctx. wp_steps.
  assert (Hgo : forall Q E c, wp lcap_readers_terminate Q E (ctx_of p) ->
    (forall f, E f -> fault_cause SigStep p f) -> c = pr_lcapd p ->
    wp (in_lcapd (in_ctx lcap_readers_terminate)) (fun _ p' => pr_main p' = pr_main p /\
      pr_flags p' = pr_flags p) (fault_cause SigStep p) p).
  { intros Q E c Hwp HE _. rewrite wp_in_lcapd, wp_in_ctx. by eapply wp_mono; [exact Hwp| |]. }
  destruct (pr_main p) as [| | | | |rc|rc] eqn:Hmain; cbn [main_ok] in Hm; wp_steps.
  - by apply cause_no_context.
  - by apply cause_no_config.
  - eapply Hgo; [apply (lcap_readers_terminate_early _ NullDeref); left; split; [done|apply Hm]| |done].
    intros f [-> ?]. apply cause_no_readers; auto.
  - eapply Hgo; [apply (lcap_readers_terminate_early _ NullDeref); left; split; [done|apply Hm]| |done].
    intros f [-> ?]. apply cause_no_readers; auto.
  - eapply Hgo; [apply lcap_readers_terminate_spec, Hm| |done].
    intros f (-> & Hj & Hn). apply cause_detached; [done|done|by left|lia|done].
  - eapply Hgo; [apply lcap_readers_terminate_spec, Hm| |done].
    intros f (-> & Hj & Hn). apply cause_detached; [done|done|right; by eexists|lia|done].
  - eapply Hgo; [apply (lcap_readers_terminate_early _ UseAfterFree); right; split; [done|apply Hm]| |done].
    intros f [-> ?]. by eapply cause_released.
Qed.

Lemma installed_handlers i m p :
  handlers !! i = Some m -> signo m <> -1 -> process_inv p ->
  forall sg h, match handler m with
               | Some h => <[signo m := h]> (pr_installed p)
               | None => pr_installed p
               end !! signum sg = Some h -> h = handler_of sg.
Proof.
  intros Hi Hm Hp sg h. destruct i as [|[|[|[|[|i]]]]]; try done; injection Hi as <-; try done;
    cbn [handler signo]; rewrite lookup_insert; (case_decide; [|apply (pi_handlers _ Hp)]);
    intros [= <-]; by destruct sg.
Qed.

Lemma sig_moved_next p p' :
  pr_main p' = pr_main p -> pr_exit p' = None -> pr_sig p <> sig_terminate ->
  (TerminateSig (pr_flags p') <> 0 -> TerminateSig (pr_flags p) <> 0) ->
  (pr_sig p' = sig_terminate -> TerminateSig (pr_flags p) <> 0) ->
  (terminating p -> terminating p' /\ (dist (pr_sig p') < dist (pr_sig p))%nat) ->
  sig_moved p p'.
Proof. intros Hm Hx Hs Hf Ht Hd. split; auto. by rewrite Hx. Qed.

(** A statement that only goes on to the next. *)
Ltac sig_next Hat := apply sig_moved_next; cbn; rewrite ?Hat; try done;
  unfold terminating; cbn; rewrite ?Hat; cbn; intros [? ?]; split; [done|lia].

Lemma setup_sighandlers_ok p :
  process_inv p -> pr_exit p = None ->
  wp setup_sighandlers (fun _ p' => running_ok p' /\ sig_moved p p') (fault_cause SigStep p) p.
Proof.
  intros Hp Hx. unfold setup_sighandlers, mod_flags, goto_sig, exit_process. wp_steps.
  pose proof (process_inv_sig p) as Hnext.
  assert (Hrefl : exists t, extends (ctx_of p) t (ctx_of p)) by (exists []; apply extends_refl).
  assert (Hlog : forall c, exists t, extends (ctx_of p) t (logged c (ctx_of p))).
  { intros c. eexists. apply extends_logged. }
  destruct (pr_sig p) as [| | |i| | | | | | | |] eqn:Hat; wp_steps.
  - split; [by apply Hnext|]. apply sig_moved_next; cbn; rewrite ?Hat; try done. by intros [_ ?].
  - split; [by apply Hnext|]. sig_next Hat.
  - split; [|sig_next Hat]. apply Hnext; try done. intros i [= <-]. cbn. lia.
  - pose proof (pi_index _ Hp i Hat) as Hi. destruct (lookup_lt_is_Some_2 handlers i Hi) as [m Hm].
    rewrite Hm. cbn in Hi. wp_steps. destruct (Z.eqb_spec (signo m) (-1)) as [Hend|Hgo]; wp_steps.
    { split; [by apply Hnext|]. sig_next Hat. }
    rewrite wp_ext. set (z := w_rc _ _). destruct (Z.eqb_spec z 0) as [Hz|Hz]; cbn [negb]; wp_steps.
    + unfold install. wp_steps. split; [|sig_next Hat]. intros _.
      assert (Hi' : (S i < length handlers)%nat).
      { do 5 (destruct i as [|i]; [cbn in *; try lia|]); [by simplify_eq|lia]. }
      assert (Hl : process_inv (logged (Sigaction (signo m)) p)).
      { apply (process_inv_sig p); try done; [apply Hlog|apply (pi_index _ Hp)]. }
      destruct Hl as [Hc Hmain _ _ _]. split; [exact Hc|exact Hmain| | |done].
      * exact (installed_handlers i m p Hm Hgo Hp).
      * by intros j [= <-].
    + split; [by intros [=]|]. split; cbn; try done; try (by rewrite Hat). intros x [= <-].
      split; [done|]. right. exists (signo m), z. split; [|done]. cbn. apply elem_of_app. right. by left.
  - rewrite wp_ext. wp_steps. split; [by apply Hnext; try apply Hlog|]. sig_next Hat.
  - split; [by apply Hnext; destruct (TerminateSig (pr_flags p) =? 0)|].
    destruct (Z.eqb_spec (TerminateSig (pr_flags p)) 0) as [Hz|Hz]; cbn [negb].
    + apply sig_moved_next; cbn; rewrite ?Hat; try done. by intros [? _].
    + sig_next Hat.
  - eapply wp_mono; [by apply sig_ctx_terminate_ok|cbn beta|done]. intros _ p' [Hm Hf]. wp_steps.
    split; [by intros [=]|]. split; cbn; try done; try (by rewrite Hf).
    intros x [= <-]. split; [done|]. by left.
  - split; [by apply Hnext; destruct (ReloadSig (pr_flags p) =? 0)|].
    destruct (ReloadSig (pr_flags p) =? 0); cbn [negb]; sig_next Hat.
  - split; [by apply Hnext|]. sig_next Hat.
  - split; [by apply Hnext; destruct (DumpStatsSig (pr_flags p) =? 0)|].
    destruct (DumpStatsSig (pr_flags p) =? 0); cbn [negb]; sig_next Hat.
  - split; [by apply Hnext|]. sig_next Hat.
  - rewrite wp_ext. wp_steps. split; [by apply Hnext; try apply Hlog|]. sig_next Hat.
Qed.

Lemma deliver_ok sg p :
  process_inv p -> pr_exit p = None ->
  wp (deliver sg) (fun _ p' => running_ok p' /\ pr_sig p' = pr_sig p /\
       (pr_exit p' = Some (killed sg) /\ pr_flags p' = pr_flags p /\
          pr_installed p' = pr_installed p /\ pr_installed p !! signum sg = None \/
        pr_exit p' = None /\ pr_flags p' = handler_of sg (signum sg) (pr_flags p))) safe p.
Proof.
  intros Hp Hx. unfold deliver, mod_flags, exit_process. wp_steps.
  destruct (pr_installed p !! signum sg) as [h|] eqn:Hh; wp_steps; [|split_and!; [by intros [=]|done|by left]].
  split_and!; [|done|right; by rewrite (pi_handlers _ Hp sg h Hh)].
  apply (process_inv_sig p); try done; [exists []; apply extends_refl|apply (pi_index _ Hp)].
Qed.

(** Every step keeps the invariant, and faults only for the listed causes. *)
Lemma exec_ok n frames e p :
  running_ok p -> wp (exec n frames e) (fun _ => running_ok) (fault_cause e p) p.
Proof.
  intros Hp. unfold exec. wp_steps. destruct (pr_exit p) eqn:Hx; wp_steps; [done|].
  specialize (Hp Hx). destruct e as [| |sg].
  - eapply wp_mono; [by apply main_step_ok| |done]. by intros _ p' [? _].
  - eapply wp_mono; [by apply setup_sighandlers_ok| |done]. by intros _ p' [? _].
  - eapply wp_mono; [by apply deliver_ok| |done]. by intros _ p' [? _].
Qed.

Lemma run_app n frames evs1 evs2 p :
  run n frames (evs1 ++ evs2) p = (run n frames evs1;; run n frames evs2) p.
Proof.
  revert p. induction evs1 as [|e evs1 IH]; intros p; [done|]. cbn [app run].
  unfold mbind, M_bind. destruct (exec n frames e p) as [[[] p1]|f]; [apply IH|done].
Qed.

Lemma process_start_inv l : cfg_wf (cc_config (l_ctx l)) -> running_ok (process_start l).
Proof. intros Hc _. split; [done|done| |done|done]. intros sg h. cbn. by rewrite lookup_empty. Qed.

Lemma run_ok n frames evs p p' :
  running_ok p -> run n frames evs p = Ok (tt, p') -> running_ok p'.
Proof.
  revert p. induction evs as [|e evs IH]; intros p Hp Hrun; [by injection Hrun as <-|].
  cbn [run] in Hrun. unfold mbind, M_bind in Hrun.
  destruct (exec n frames e p) as [[[] p1]|f] eqn:He; [|done].
  apply (IH p1); [|done]. by apply (wp_Ok _ _ _ _ _ _ (exec_ok n frames e p Hp)) in He.
Qed.

(** Once the process has ended nothing happens. *)
Lemma run_exit n frames evs p p' :
  run n frames evs p = Ok (tt, p') -> pr_exit p' = None -> pr_exit p = None.
Proof.
  revert p. induction evs as [|e evs IH]; intros p Hrun Hx; [by injection Hrun as <-|].
  cbn [run] in Hrun. unfold mbind, M_bind in Hrun.
  destruct (exec n frames e p) as [[[] p1]|f] eqn:He; [|done].
  unfold exec, mbind, M_bind, gets in He. destruct (pr_exit p) eqn:Hp; [|done].
  injection He as <-. rewrite <- Hp. by apply IH.
Qed.

(** ** The theorems *)

(** C19: Whatever the schedule of the two threads and of the signals, and
    whatever the libraries answer, a step of the daemon faults only for one
    of these causes: while main serves, the bound of the model on the
    messages that wait, or one of the three messages of the log that
    broker_refines names; at the end of main, a table of devices that is
    full; and a termination signal that is handled before main has set up
    its context, after it has released it, or in between, where it joins
    threads that were created detached, which is undefined unless the
    implementation detects it and answers EINVAL. While main serves or
    stops, no other fault is possible. *)
Theorem daemon_threads_safe n frames evs l p e :
  cfg_wf (cc_config (l_ctx l)) -> run n frames evs (process_start l) = Ok (tt, p) ->
  wp (exec n frames e) (fun _ _ => True) (fault_cause e p) p /\
  (forall rc, pr_main p = main_serving \/ pr_main p = main_stopping rc ->
     forall f, fault_cause e p f -> serve_fault (cc_config (ctx_of p)) f \/
       f = UndefinedCall /\ pr_sig p = sig_terminate /\ ~ joins_detected).
Proof.
  intros Hl Hrun. split.
  - eapply wp_mono; [apply exec_ok|done|done]. eapply run_ok; [by apply process_start_inv|exact Hrun].
  - intros rc Hm f Hf. destruct Hf as [f _ _ Hs| | | |? ? []|? ? _ _ Hj|]; [by left|..];
      try (destruct Hm; congruence). by right.
Qed.

(** Progress of the second thread under a schedule. *)
Definition sig_steps (evs : list sched_event) : nat :=
  length (filter (eq SigStep) evs).

Lemma sig_steps_cons e evs : sig_steps (e :: evs) = (sig_steps [e] + sig_steps evs)%nat.
Proof. unfold sig_steps. rewrite !filter_cons. by case_decide. Qed.

Lemma exec_terminating n frames e p p' :
  running_ok p -> terminating p -> exec n frames e p = Ok (tt, p') -> pr_exit p' = None ->
  pr_exit p = None /\ terminating p' /\ (dist (pr_sig p') + sig_steps [e] <= dist (pr_sig p))%nat.
Proof.
  intros Hp Ht He Hx'. unfold exec, mbind, M_bind, gets in He.
  destruct (pr_exit p) eqn:Hx; [injection He as <-; congruence|]. specialize (Hp Hx).
  destruct e as [| |sg]; [change (sig_steps [MainStep]) with 0%nat|change (sig_steps [SigStep]) with 1%nat
    |change (sig_steps [Deliver sg]) with 0%nat].
  - apply (wp_Ok _ _ _ _ _ _ (main_step_ok n frames p Hp Hx)) in He as (_ & Hs & Hf & _).
    destruct Ht. unfold terminating. rewrite Hs, Hf. split_and!; [done|done|done|lia].
  - apply (wp_Ok _ _ _ _ _ _ (setup_sighandlers_ok p Hp Hx)) in He as (_ & Hm).
    destruct (sm_dist _ _ Hm Ht Hx') as [? ?]. split_and!; [done|done|lia].
  - apply (wp_Ok _ _ _ _ _ _ (deliver_ok sg p Hp Hx)) in He as (_ & Hs & [[? _]|(_ & Hf)]);
      [congruence|].
    destruct Ht. unfold terminating. rewrite Hs, Hf. split_and!; [done| |done|lia]. by destruct sg.
Qed.

Lemma exec_cons n frames e evs p p' :
  run n frames (e :: evs) p = Ok (tt, p') ->
  exists p1, exec n frames e p = Ok (tt, p1) /\ run n frames evs p1 = Ok (tt, p').
Proof.
  cbn [run]. unfold mbind, M_bind. destruct (exec n frames e p) as [[[] p1]|f]; [|done]. by exists p1.
Qed.

Lemma run_terminating n frames evs p p' :
  running_ok p -> terminating p -> (dist (pr_sig p) <= sig_steps evs)%nat ->
  run n frames evs p = Ok (tt, p') -> pr_exit p' <> None.
Proof.
  intros Hp Ht Hd Hrun Hx'. revert p Hp Ht Hd Hrun. induction evs as [|e evs IH]; intros p Hp Ht Hd Hrun.
  { injection Hrun as <-. pose proof (pi_index _ (Hp Hx')) as Hi. unfold sig_steps in Hd. cbn in Hd.
    destruct (pr_sig p); cbn in Hd; try lia. pose proof (Hi _ eq_refl) as Hlt. cbn in Hlt. lia. }
  apply exec_cons in Hrun as (p1 & He & Hrun).
  pose proof (wp_Ok _ _ _ _ _ _ (exec_ok n frames e p Hp) He) as Hp1.
  assert (Hx1 : pr_exit p1 = None) by by eapply run_exit.
  destruct (exec_terminating _ _ _ _ _ Hp Ht He Hx1) as (_ & Ht1 & Hd1).
  apply (IH p1); try done. rewrite sig_steps_cons in Hd. lia.
Qed.

(** C20: Termination is not lost: once the handlers are installed, a SIGTERM or
    SIGINT ends the process in every schedule that gives the second thread
    ten steps more (if no fault of daemon_threads_safe does), whatever other
    signals arrive. *)
Theorem termination_not_lost n frames evs1 sg evs2 l p p' :
  cfg_wf (cc_config (l_ctx l)) -> run n frames evs1 (process_start l) = Ok (tt, p) ->
  sg = SIGTERM \/ sg = SIGINT -> is_Some (pr_installed p !! signum sg) ->
  run n frames (Deliver sg :: evs2) p = Ok (tt, p') -> (10 <= sig_steps evs2)%nat ->
  pr_exit p' <> None.
Proof.
  intros Hl Hrun1 Hsg [h Hh] Hrun2 Hn.
  pose proof (run_ok _ _ _ _ _ (process_start_inv l Hl) Hrun1) as Hp.
  destruct (pr_exit p) as [x|] eqn:Hx.
  { intros Hx'. apply (run_exit _ _ _ _ _ Hrun2) in Hx'. congruence. }
  apply exec_cons in Hrun2 as (p1 & He & Hrun).
  pose proof (wp_Ok _ _ _ _ _ _ (exec_ok n frames (Deliver sg) p Hp) He) as Hp1.
  unfold exec, mbind, M_bind, gets in He. rewrite Hx in He. specialize (Hp Hx).
  assert (Hs : pr_sig p <> sig_reset_terminate).
  { intros Hs. by rewrite (pi_reset _ Hp Hs), lookup_empty in Hh. }
  apply (wp_Ok _ _ _ _ _ _ (deliver_ok sg p Hp Hx)) in He as (_ & Hs1 & [(_ & _ & _ & Hno)|(_ & Hf)]);
    [congruence|].
  apply (run_terminating n frames evs2 p1); [done| | |done].
  - split; [|by rewrite Hs1]. rewrite Hf. by destruct Hsg as [->| ->].
  - rewrite Hs1. destruct (pr_sig p); cbn; done || lia.
Qed.

(** ** Why the process ends *)

Definition told_to_stop (evs : list sched_event) : Prop :=
  Deliver SIGTERM ∈ evs \/ Deliver SIGINT ∈ evs.

(** The cause of an end, and of a set flag. *)
Record justified (evs : list sched_event) p : Prop := {
  ju_flag : TerminateSig (pr_flags p) <> 0 -> told_to_stop evs;
  ju_stop : pr_sig p = sig_terminate -> told_to_stop evs;
  ju_exit : forall x, pr_exit p = Some x ->
    match x with
    | main_returned rc => rc <> 0
    | thread_exit code => code = 1 /\ (told_to_stop evs \/ sigaction_failed p)
    | killed sg => Deliver sg ∈ evs /\ pr_installed p !! signum sg = None
    end;
}.

Lemma told_app evs e : told_to_stop evs -> told_to_stop (evs ++ [e]).
Proof. intros [?|?]; [left|right]; by apply elem_of_app; left. Qed.

Lemma justified_exec n frames evs e p p' :
  running_ok p -> justified evs p -> exec n frames e p = Ok (tt, p') -> justified (evs ++ [e]) p'.
Proof.
  intros Hp [Hf Hs Hj] He. pose proof (told_app evs e) as Hmore. unfold exec, mbind, M_bind, gets in He.
  destruct (pr_exit p) as [x|] eqn:Hx.
  { injection He as <-. split; [auto|auto|]. rewrite Hx. intros y Hy. specialize (Hj y Hy).
    destruct y; [done| |]; destruct Hj as [H1 H2].
    - split; [done|]. destruct H2; auto.
    - split; [by apply elem_of_app; left|done]. }
  specialize (Hp Hx). destruct e as [| |sg].
  - apply (wp_Ok _ _ _ _ _ _ (main_step_ok n frames p Hp Hx)) in He as (_ & Hs1 & Hf1 & Hx1).
    split; [rewrite Hf1; auto|rewrite Hs1; auto|]. intros x Hy. by destruct (Hx1 x Hy) as (rc & -> & ?).
  - apply (wp_Ok _ _ _ _ _ _ (setup_sighandlers_ok p Hp Hx)) in He as (_ & Hm).
    split; [intros ?%(sm_flag _ _ Hm); auto| |].
    + intros Ht. destruct (decide (pr_sig p = sig_terminate)) as [|Hne]; [auto|].
      apply Hmore, Hf, (sm_stop _ _ Hm Ht Hne).
    + intros x Hy. destruct (sm_exit _ _ Hm x Hy) as (-> & [Ht|Ha]); auto.
  - assert (Hin : Deliver sg ∈ evs ++ [Deliver sg]) by (apply elem_of_app; right; by left).
    apply (wp_Ok _ _ _ _ _ _ (deliver_ok sg p Hp Hx)) in He as (_ & Hs1 & [(Hk & Hf1 & Hi1 & Hno)|(Hx1 & Hf1)]).
    + split; [rewrite Hf1; auto|rewrite Hs1; auto|]. rewrite Hk. intros x [= <-].
      split; [done|congruence].
    + split; [|rewrite Hs1; auto|by rewrite Hx1]. rewrite Hf1. destruct sg; cbn; auto.
      * intros _. by left.
      * intros _. by right.
Qed.

Lemma run_justified n frames evs l p :
  cfg_wf (cc_config (l_ctx l)) -> run n frames evs (process_start l) = Ok (tt, p) -> justified evs p.
Proof.
  intros Hl. revert p. induction evs as [|e evs IH] using rev_ind; intros p Hrun.
  { injection Hrun as <-. by split. }
  rewrite run_app in Hrun. unfold mbind, M_bind in Hrun.
  destruct (run n frames evs (process_start l)) as [[[] p1]|f] eqn:Hrun1; [|done].
  apply exec_cons in Hrun as (p2 & He & Hp2). injection Hp2 as <-.
  eapply justified_exec; [|by apply IH|exact He].
  eapply run_ok; [by apply process_start_inv|exact Hrun1].
Qed.

(** C31: The daemon ends only for a reason, and never with success: main returns
    an error, a signal arrives before its handler is installed, or the
    second thread exits with 1 because a SIGTERM or SIGINT arrived or a
    handler could not be installed. *)
Theorem daemon_end_justified n frames evs l p x :
  cfg_wf (cc_config (l_ctx l)) -> run n frames evs (process_start l) = Ok (tt, p) ->
  pr_exit p = Some x ->
  match x with
  | main_returned rc => rc <> 0
  | thread_exit code => code = 1 /\ (told_to_stop evs \/ sigaction_failed p)
  | killed sg => Deliver sg ∈ evs /\ pr_installed p !! signum sg = None
  end.
Proof. intros Hl Hrun Hx. exact (ju_exit _ _ (run_justified _ _ _ _ _ Hl Hrun) x Hx). Qed.

(** ** Three schedules *)

Lemma run_step n frames e evs p p1 :
  exec n frames e p = Ok (tt, p1) -> run n frames (e :: evs) p = run n frames evs p1.
Proof. intros He. cbn [run]. unfold mbind, M_bind. by rewrite He. Qed.

Lemma exec_install n frames i m h l at_ f hs :
  handlers !! i = Some m -> signo m <> -1 -> handler m = Some h ->
  w_rc (s_trace l) (Sigaction (signo m)) = 0 ->
  exec n frames SigStep (mkProc l at_ (sig_install i) f hs None) =
    Ok (tt, mkProc (logged (Sigaction (signo m)) l) at_ (sig_install (S i)) f
              (<[signo m := h]> hs) None).
Proof.
  intros Hm Hs Hh Hz. apply wp_eq. unfold exec, setup_sighandlers. wp_steps. cbn [pr_exit pr_sig]. wp_steps.
  cbn [pr_sig]. rewrite Hm. wp_steps. rewrite (proj2 (Z.eqb_neq _ _) Hs). wp_steps. rewrite wp_ext.
  change (s_trace (mkProc _ _ _ _ _ _)) with (s_trace l). rewrite Hz. cbn [Z.eqb negb].
  unfold install, goto_sig. wp_steps. by rewrite Hh.
Qed.

(** The statements without a case. *)
Definition plain_next (l : lcapd) (at_ : main_at) (g : sig_at) (f : sig_flags)
    (hs : gmap Z (Z -> sig_flags -> sig_flags)) : option process :=
  match g with
  | sig_reset_terminate => Some (mkProc l at_ sig_reset_reload (set_TerminateSig 0 f) hs None)
  | sig_reset_reload => Some (mkProc l at_ sig_reset_dump (set_ReloadSig 0 f) hs None)
  | sig_reset_dump => Some (mkProc l at_ (sig_install 0) (set_DumpStatsSig 0 f) hs None)
  | sig_install 4 => Some (mkProc l at_ sig_first_sleep f hs None)
  | sig_first_sleep => Some (mkProc (logged (Sleep 1) l) at_ sig_test_terminate f hs None)
  | _ => None
  end.

Lemma exec_plain n frames l at_ g f hs p :
  plain_next l at_ g f hs = Some p ->
  exec n frames SigStep (mkProc l at_ g f hs None) = Ok (tt, p).
Proof. destruct g as [| | |[|[|[|[|[|i]]]]]| | | | | | | |]; intros [= <-]; reflexivity. Qed.

Lemma exec_deliver n frames sg h l at_ g f hs :
  hs !! signum sg = Some h ->
  exec n frames (Deliver sg) (mkProc l at_ g f hs None) =
    Ok (tt, mkProc l at_ g (h (signum sg) f) hs None).
Proof.
  intros Hh. apply wp_eq. unfold exec, deliver, mod_flags. wp_steps. cbn [pr_exit]. wp_steps.
  cbn [pr_installed]. rewrite Hh. by wp_steps.
Qed.

(** A termination signal that arrives before [main] has set up its context makes
    the second thread read it uninitialised: only the pauses of the threads
    stand against it. *)
Theorem early_termination_faults n frames l :
  (forall t s, w_rc t (Sigaction s) = 0) ->
  run n frames (replicate 9 SigStep ++ [Deliver SIGTERM; SigStep; SigStep]) (process_start l)
    = Fault UninitRead.
Proof.
  intros Hs. cbn [replicate app]. unfold process_start.
  do 3 (erewrite run_step by (apply exec_plain; reflexivity)).
  do 4 (erewrite run_step by (apply exec_install; [reflexivity|done|reflexivity|apply Hs])).
  do 2 (erewrite run_step by (apply exec_plain; reflexivity)).
  erewrite run_step by (apply (exec_deliver _ _ SIGTERM lcap_sigterm); cbn [signo signum]; by simplify_map_eq).
  reflexivity.
Qed.

Lemma wp_exec_main n frames (Q : unit -> process -> Prop) E p :
  pr_exit p = None -> wp (main_step n frames) Q E p -> wp (exec n frames MainStep) Q E p.
Proof. intros Hx Hm. unfold exec. wp_steps. by rewrite Hx. Qed.

(** A signal that interrupts zmq_poll ends the daemon, even if it only
    asked for the configuration to be reloaded. *)
Theorem interrupted_poll_ends n frames p :
  process_inv p -> pr_exit p = None -> pr_main p = main_serving ->
  ccf_mdtcount (cc_config (ctx_of p)) < MAX_MDT ->
  w_rc (s_trace p) (ZmqPoll (-1)) = - EINTR ->
  wp (run n frames [MainStep; MainStep; MainStep])
     (fun _ p' => pr_exit p' = Some (main_returned (-1))) safe p.
Proof.
  intros Hp Hx Hat Hc Hpoll. cbn [run].
  rewrite wp_bind. apply wp_exec_main; [done|]. unfold main_step at 1, goto_main. wp_steps. rewrite Hat.
  wp_steps. rewrite wp_in_lcapd, wp_in_ctx. unfold lcapd_serve_turn. wp_steps. rewrite wp_ext.
  change (w_rc (s_trace (l_ctx (pr_lcapd p))) (ZmqPoll (-1))) with (w_rc (s_trace p) (ZmqPoll (-1))).
  rewrite Hpoll. change (- EINTR <? 0) with true. wp_steps. change (0 <=? -1) with false. wp_steps.
  match goal with |- wp _ _ _ ?p => set (p1 := p) end.
  assert (Hmain : main_ok (main_stopping (-1)) (ctx_of p1)).
  { pose proof (pi_main _ Hp) as Hm. rewrite Hat in Hm. destruct Hm as [Hm Hr].
    split; [lia|]. split; [by eapply ctx_serving_extends|exact Hr]. }
  apply wp_exec_main; [done|]. unfold main_step at 1, goto_main. wp_steps. cbn [pr_main p1]. wp_steps.
  rewrite wp_ext, wp_bind, wp_in_lcapd. destruct Hmain as (_ & Hs & Hr).
  eapply wp_mono; [apply lcap_ctx_release_spec; by apply (readers_ok_live (ctx_of p1))|cbn beta|done].
  intros _ l' (_ & Hc' & _). wp_steps. apply wp_exec_main; [done|].
  unfold main_step, exit_process. wp_steps. cbn [pr_main]. wp_steps. rewrite wp_in_lcapd.
  cbn [pr_lcapd set_lcapd].
  eapply wp_mono; [apply in_cfg_release_spec; rewrite Hc'; apply (pi_cfg _ Hp)|cbn beta|].
  - intros _ l2 _. by wp_steps.
  - intros f [_ Hfull]. rewrite Hc' in Hfull. unfold ctx_of in Hc. cbn in Hfull. lia.
Qed.

(** ** [main] without signals *)

(** [p'] is reached by steps of [main] only. *)
Definition mains (n frames : nat) p p' : Prop :=
  exists k, run n frames (replicate k MainStep) p = Ok (tt, p').

Lemma mains_refl n frames p : mains n frames p p.
Proof. by exists 0%nat. Qed.

Lemma mains_step n frames p p1 p' :
  pr_exit p = None -> main_step n frames p = Ok (tt, p1) -> mains n frames p1 p' -> mains n frames p p'.
Proof.
  intros Hx Hm [k Hk]. exists (S k). cbn [replicate]. rewrite (run_step _ _ _ _ _ p1); [done|].
  unfold exec, mbind, M_bind, gets. by rewrite Hx.
Qed.

Lemma mains_trans n frames p p1 p' : mains n frames p p1 -> mains n frames p1 p' -> mains n frames p p'.
Proof.
  intros [k Hk] [j Hj]. exists (k + j)%nat. rewrite replicate_add, run_app. unfold mbind, M_bind.
  by rewrite Hk.
Qed.

(** A process that [main] alone moves. *)
Definition only_main (l : lcapd) (m : main_at) (x : option exit_cause) : process :=
  mkProc l m sig_reset_terminate (mkFlags 0 0 0) ∅ x.

Lemma main_step_code n frames l m (code : M lcapd Z) (next : Z -> M process unit) rc l1 :
  (forall p, pr_main p = m -> main_step n frames p = (in_lcapd code ≫= next) p) ->
  code l = Ok (rc, l1) ->
  main_step n frames (only_main l m None) = next rc (only_main l1 m None).
Proof. intros Hm Hc. rewrite Hm by done. unfold mbind, M_bind, in_lcapd, zoom. cbn. by rewrite Hc. Qed.

(** The code of [main] at [m] ran to [l1] with [rc]: one step. *)
Lemma mains_code n frames l m (code : M lcapd Z) (next : Z -> M process unit) rc l1 p1 p' :
  (forall p, pr_main p = m -> main_step n frames p = (in_lcapd code ≫= next) p) ->
  code l = Ok (rc, l1) -> next rc (only_main l1 m None) = Ok (tt, p1) ->
  mains n frames p1 p' -> mains n frames (only_main l m None) p'.
Proof. intros Hm Hc Hn. apply mains_step; [done|]. by rewrite (main_step_code _ _ _ _ _ _ _ _ Hm Hc). Qed.

Ltac at_step := intros ? Hat; unfold main_step, gets, mbind, M_bind; by rewrite Hat.

Lemma serve_mains turns n frames l rc c :
  lcapd_serve turns n frames (l_ctx l) = Ok (rc, c) ->
  mains n frames (only_main l main_serving None)
    (only_main (mkLcapd c (l_log l)) (main_stopping rc) None).
Proof.
  revert l. induction turns as [|turns IH]; intros l Hrun; [done|]. cbn [lcapd_serve] in Hrun.
  unfold mbind, M_bind in Hrun.
  destruct (lcapd_serve_turn n frames (l_ctx l)) as [[rc1 c1]|] eqn:Hturn; [|done].
  assert (Hin : in_ctx (lcapd_serve_turn n frames) l = Ok (rc1, mkLcapd c1 (l_log l))).
  { unfold in_ctx, zoom. by rewrite Hturn. }
  destruct (Z.leb_spec 0 rc1) as [Hrc|Hrc].
  - eapply (mains_code n frames l main_serving (in_ctx (lcapd_serve_turn n frames)));
      [at_step|exact Hin|cbn beta; by rewrite (proj2 (Z.leb_le _ _) Hrc)|].
    by apply (IH (mkLcapd c1 (l_log l))).
  - injection Hrun as -> ->.
    eapply (mains_code n frames l main_serving (in_ctx (lcapd_serve_turn n frames)));
      [at_step|exact Hin|cbn beta; by rewrite (proj2 (Z.leb_gt _ _) Hrc)|apply mains_refl].
Qed.

Lemma stop_mains n frames l rc l1 l2 l3 (rc1 rc2 rc3 : Z) :
  ext (Sleep 1) l = Ok (rc1, l1) -> lcap_ctx_release l1 = Ok (rc2, l2) ->
  in_cfg lcap_cfg_release l2 = Ok (rc3, l3) ->
  exists m, mains n frames (only_main l (main_stopping rc) None)
              (only_main l3 m (Some (main_returned rc))).
Proof.
  intros H1 H2 H3. exists (main_released rc).
  eapply (mains_code n frames l (main_stopping rc) (ext (Sleep 1);; lcap_ctx_release)
    (fun _ => goto_main (main_released rc)) rc2 l2).
  - intros p Hp. unfold main_step, gets. unfold mbind at 1, M_bind at 1. rewrite Hp.
    unfold in_lcapd, zoom, mbind, M_bind. cbn. by destruct (lcap_ctx_release _) as [[]|].
  - unfold mbind, M_bind. by rewrite H1.
  - reflexivity.
  - eapply (mains_code n frames l2 (main_released rc) (in_cfg lcap_cfg_release)
      (fun _ => exit_process (main_returned rc))); [at_step|exact H3|reflexivity|apply mains_refl].
Qed.

(** From the start of the second thread on, what main does step by step,
    when the other thread does not run, is what main_alone does at once:
    same code, same state of the daemon. *)
Theorem main_steps_alone turns n frames l rc l' :
  main_alone turns n frames l = Ok (rc, l') ->
  exists k p, run n frames (replicate k MainStep) (process_start l) = Ok (tt, p) /\
    pr_exit p = Some (main_returned rc) /\ pr_lcapd p = l'.
Proof.
  intros Hrun.
  enough (exists m, mains n frames (process_start l) (only_main l' m (Some (main_returned rc))))
    as (m & k & Hk) by (by exists k, (only_main l' m (Some (main_returned rc)))).
  set (l0 := mkLcapd (ctx_zero (l_ctx l)) (l_log l)).
  enough (exists m, mains n frames (only_main l0 main_opening None)
    (only_main l' m (Some (main_returned rc)))) as [m Hm].
  { exists m. do 2 (eapply mains_step; [done|reflexivity|]). exact Hm. }
  unfold main_alone, lcap_ctx_init, mod_ctx, modify, mbind, M_bind in Hrun.
  cbn beta iota in Hrun. fold l0 in Hrun. revert Hrun.
  destruct (lcap_ctx_open l0) as [[rc1 l1]|] eqn:Hopen; [|done].
  destruct (Z.eqb_spec rc1 0) as [->|Hne]; cbn [negb].
  2: { unfold mret, M_ret. rewrite (proj2 (Z.eqb_neq _ _) Hne). intros [= -> ->]. exists main_opening.
       eapply (mains_code n frames l0 main_opening lcap_ctx_open);
         [at_step|exact Hopen|cbn beta; by rewrite (proj2 (Z.eqb_neq _ _) Hne)|apply mains_refl]. }
  intros Hrun. enough (exists m, mains n frames (only_main l1 main_starting None)
    (only_main l' m (Some (main_returned rc)))) as [m Hm].
  { exists m. by eapply (mains_code n frames l0 main_opening lcap_ctx_open); [at_step| | |]. }
  revert Hrun. destruct (in_ctx lcap_readers_start l1) as [[rc2 l2]|] eqn:Hstart; [|done].
  destruct (Z.eqb_spec rc2 0) as [->|Hne]; cbn [negb].
  2: { intros [= -> ->]. exists main_starting.
       eapply (mains_code n frames l1 main_starting (in_ctx lcap_readers_start));
         [at_step|exact Hstart|cbn beta; by rewrite (proj2 (Z.eqb_neq _ _) Hne)|apply mains_refl]. }
  intros Hrun. enough (exists m, mains n frames (only_main l2 main_serving None)
    (only_main l' m (Some (main_returned rc)))) as [m Hm].
  { exists m. by eapply (mains_code n frames l1 main_starting (in_ctx lcap_readers_start)); [at_step| | |]. }
  destruct (in_ctx (lcapd_serve turns n frames) l2) as [[rc3 l3]|] eqn:Hserve; [|done].
  assert (Hs : exists c, lcapd_serve turns n frames (l_ctx l2) = Ok (rc3, c) /\ l3 = mkLcapd c (l_log l2)).
  { unfold in_ctx, zoom in Hserve. destruct (lcapd_serve turns n frames (l_ctx l2)) as [[? c]|]; [|done].
    injection Hserve as <- <-. by exists c. }
  destruct Hs as (c & Hs & ->). set (l3 := mkLcapd c (l_log l2)) in *.
  destruct (ext (Sleep 1) l3) as [[z l4]|] eqn:Hsleep; [|done].
  destruct (lcap_ctx_release l4) as [[z2 l5]|] eqn:Hrel; [|done].
  destruct (in_cfg lcap_cfg_release l5) as [[z3 l6]|] eqn:Hcfg; [|done].
  injection Hrun as -> ->.
  destruct (stop_mains n frames l3 rc l4 l5 l' z z2 z3 Hsleep Hrel Hcfg) as [m Hm].
  exists m. eapply mains_trans; [by eapply serve_mains|exact Hm].
Qed.

(** The end that a termination signal asks for, if the joins of detached threads
    are refused: every reader is marked as stopped and joined, in order, and the
    process exits with 1. *)
Theorem terminate_stops_readers p :
  joins_detected ->
  process_inv p -> pr_exit p = None -> pr_sig p = sig_terminate ->
  pr_main p = main_serving ->
  wp (setup_sighandlers) (fun _ p' => exists t,
       let n := Z.to_nat (ccf_mdtcount (cc_config (ctx_of p))) in
       s_trace p' = s_trace p ++ t /\ t.*1 = joins_of n 0 /\
       cc_rdr_info (ctx_of p') = rdr_live (replicate n false) /\
       pr_exit p' = Some (thread_exit 1)) safe p.
Proof.
  intros Hj Hp Hx Hat Hm. pose proof (pi_main _ Hp) as Hmain. rewrite Hm in Hmain.
  unfold setup_sighandlers, sig_ctx, exit_process. wp_steps. rewrite Hat. wp_steps. rewrite Hm.
  rewrite wp_in_lcapd, wp_in_ctx.
  eapply wp_mono; [apply lcap_readers_terminate_spec, Hmain|cbn beta|by intros f (_ & ? & _)].
  intros _ c (_ & t & Ht & Hjs). wp_steps. exists t. cbn. by rewrite Ht.
Qed.
End process.

(** ** The theorems at a daemon with one device *)

Definition one_device : lcap_cfg :=
  set_mdts (<[0%nat := Some (of_str "mdt0")]> (ccf_mdt cfg_zero)) 1 cfg_zero.

Lemma one_device_wf : cfg_wf one_device.
Proof. apply (cfg_wf_device cfg_zero); [apply cfg_zero_wf|done| |done|done]. by apply (bool_decide_unpack _). Qed.

Definition demo_lcapd : lcapd :=
  mkLcapd (mkCtx one_device false false [] rdr_null []) (mkLog 0 None []).

(** [zmq_poll] is interrupted, everything else succeeds. *)
Definition interrupted_world : World := {|
  w_rc _ c := match c with ZmqPoll _ => - EINTR | PthreadJoin _ => EINVAL | _ => 0 end;
  w_clock _ := (0, 0);
  w_rec _ := [];
  w_frame _ := ([], false);
  w_revents _ := ZMQ_POLLIN;
|}.

(** The start of both threads, up to the second loop and to the serving. *)
Definition startup : list sched_event := replicate 9 SigStep ++ replicate 4 MainStep.

Definition demo_serving : process :=
  match @run interrupted_world 1 1 startup (process_start demo_lcapd) with
  | Ok (_, p) => p
  | Fault _ => process_start demo_lcapd
  end.

Lemma demo_startup :
  @run interrupted_world 1 1 startup (process_start demo_lcapd) = Ok (tt, demo_serving).
Proof. vm_compute. reflexivity. Qed.

Lemma daemon_threads_safe_witness :
  pr_main demo_serving = main_serving /\
  @wp process unit (@exec interrupted_world 1 1 SigStep) (fun _ _ => True)
    (@fault_cause interrupted_world SigStep demo_serving) demo_serving.
Proof.
  split; [vm_compute; reflexivity|].
  exact (proj1 (@daemon_threads_safe interrupted_world 1 1 startup demo_lcapd demo_serving SigStep
    one_device_wf demo_startup)).
Defined.

Lemma termination_not_lost_witness :
  exists p', @run interrupted_world 1 1 (Deliver SIGINT :: replicate 10 SigStep) demo_serving = Ok (tt, p') /\
    pr_exit p' <> None.
Proof.
  eexists. split; [vm_compute; reflexivity|].
  eapply (@termination_not_lost interrupted_world 1 1 startup SIGINT (replicate 10 SigStep) demo_lcapd
    demo_serving); [exact one_device_wf|exact demo_startup|by right| |vm_compute; reflexivity|].
  - vm_compute. by eexists.
  - apply (bool_decide_unpack _). vm_compute. exact I.
Defined.

Lemma daemon_end_justified_witness :
  exists p', @run interrupted_world 1 1 (startup ++ [Deliver SIGTERM; SigStep; SigStep])
      (process_start demo_lcapd) = Ok (tt, p') /\
    (1 = 1 /\ (told_to_stop (startup ++ [Deliver SIGTERM; SigStep; SigStep]) \/ sigaction_failed p')).
Proof.
  eexists. split; [vm_compute; reflexivity|].
  eapply (@daemon_end_justified interrupted_world 1 1 _ demo_lcapd _ (thread_exit 1));
    [exact one_device_wf|vm_compute; reflexivity|reflexivity].
Defined.

Lemma early_termination_faults_witness :
  @run (quiet_world 0) 1 1 (replicate 9 SigStep ++ [Deliver SIGTERM; SigStep; SigStep])
    (process_start demo_lcapd) = Fault UninitRead.
Proof. apply (@early_termination_faults (quiet_world 0)). reflexivity. Defined.

Lemma demo_serving_inv : process_inv demo_serving.
Proof.
  apply (@run_ok interrupted_world 1 1 startup (process_start demo_lcapd));
    [apply process_start_inv, one_device_wf|exact demo_startup|vm_compute; reflexivity].
Qed.

Lemma interrupted_poll_ends_witness :
  @wp process unit (@run interrupted_world 1 1 [MainStep; MainStep; MainStep])
     (fun _ p' => pr_exit p' = Some (main_returned (-1))) safe demo_serving.
Proof.
  apply (@interrupted_poll_ends interrupted_world 1 1 demo_serving);
    [exact demo_serving_inv|vm_compute; reflexivity..].
Defined.

Lemma terminate_stops_readers_witness :
  exists p, @run interrupted_world 1 1 [Deliver SIGTERM; SigStep] demo_serving = Ok (tt, p) /\
  @wp process unit (@setup_sighandlers interrupted_world) (fun _ p' => exists t,
       s_trace p' = s_trace p ++ t /\ t.*1 = [PthreadJoin 0] /\
       cc_rdr_info (ctx_of p') = rdr_live [false] /\ pr_exit p' = Some (thread_exit 1)) safe p.
Proof.
  eexists. split; [vm_compute; reflexivity|].
  apply (@terminate_stops_readers interrupted_world); [done| |reflexivity..].
  apply (@run_ok interrupted_world 1 1 [Deliver SIGTERM; SigStep] demo_serving);
    [intros _; exact demo_serving_inv|vm_compute; reflexivity|reflexivity].
Defined.

Lemma main_steps_alone_witness :
  exists l' k p, @main_alone interrupted_world 1 1 1 demo_lcapd = Ok (-1, l') /\
    @run interrupted_world 1 1 (replicate k MainStep) (process_start demo_lcapd) = Ok (tt, p) /\
    pr_exit p = Some (main_returned (-1)) /\ pr_lcapd p = l'.
Proof.
  assert (Hrun : exists l', @main_alone interrupted_world 1 1 1 demo_lcapd = Ok (-1, l')).
  { vm_compute. eexists. reflexivity. }
  destruct Hrun as [l' Hrun]. exists l'.
  destruct (@main_steps_alone interrupted_world 1 1 1 demo_lcapd (-1) l' Hrun) as (k & p & H1 & H2 & H3).
  exists k, p. split; [exact Hrun|]. split; [exact H1|]. split; [exact H2|exact H3].
Defined.
