(* ===== verification/Modules.v ===== *)
(** * Processing modules ([src/lcapd/modules.c], [src/lcapd/modules.h])

    A module is a shared object whose seven operations are looked up by name.
    The loader is not part of the build: the fields of the context that it uses
    are those of an earlier [struct lcap_ctx], here a record of their own. A
    symbol is an address, and an operation a call to it. *)
From S2P Require Import Prelude World.
Local Open Scope Z_scope.

(** The operations ([cpm_ops]); [None] is [NULL]. *)
Record proc_module_operations := mkModOps {
  cpo_name : option Z;
  cpo_init : option Z;
  cpo_destroy : option Z;
  cpo_rec_enqueue : option Z;
  cpo_rec_dequeue : option Z;
  cpo_set_ack : option Z;
  cpo_get_ack : option Z;
}.

(** [struct lcap_proc_module]. *)
Record lcap_proc_module := mkModule {
  module_name : option bytes;  (** [cpm_name] *)
  cpm_dlh : option Z;
  cpm_ops : proc_module_operations;
}.

Definition ops_zero : proc_module_operations := mkModOps None None None None None None None.
Definition module_zero : lcap_proc_module := mkModule None None ops_zero.

(** What the loader uses of the context. *)
Record module_ctx := mkModCtx {
  ccf_module : bytes;
  cc_module : lcap_proc_module;
  cc_loaded : bool;
  mc_trace : trace;
}.

#[export] Instance module_ctx_has_trace : HasTrace module_ctx := {
  s_trace := mc_trace;
  s_put t c := mkModCtx (ccf_module c) (cc_module c) (cc_loaded c) t;
}.
#[export] Instance module_ctx_has_trace_laws : HasTraceLaws module_ctx.
Proof. constructor; by intros; destruct s. Qed.

Definition mod_module (f : lcap_proc_module -> lcap_proc_module) : M module_ctx unit :=
  modify (fun c => mkModCtx (ccf_module c) (f (cc_module c)) (cc_loaded c) (mc_trace c)).
Definition set_loaded (b : bool) : M module_ctx unit :=
  modify (fun c => mkModCtx (ccf_module c) (cc_module c) b (mc_trace c)).

(** The operations in the order of their lookup: the symbol, and the store. *)
Inductive module_op :=
| op_name | op_init | op_destroy | op_rec_enqueue | op_rec_dequeue | op_set_ack | op_get_ack.

Definition symbol_of (o : module_op) : bytes :=
  of_str (match o with
          | op_name => "lcap_module_name"
          | op_init => "lcap_module_init"
          | op_destroy => "lcap_module_destroy"
          | op_rec_enqueue => "lcap_module_rec_enqueue"
          | op_rec_dequeue => "lcap_module_rec_dequeue"
          | op_set_ack => "lcap_module_set_ack"
          | op_get_ack => "lcap_module_get_ack"
          end).

Definition get_op (o : module_op) (ops : proc_module_operations) : option Z :=
  match o with
  | op_name => cpo_name ops
  | op_init => cpo_init ops
  | op_destroy => cpo_destroy ops
  | op_rec_enqueue => cpo_rec_enqueue ops
  | op_rec_dequeue => cpo_rec_dequeue ops
  | op_set_ack => cpo_set_ack ops
  | op_get_ack => cpo_get_ack ops
  end.

Definition set_op (o : module_op) (sym : option Z) (ops : proc_module_operations)
    : proc_module_operations :=
  let keep o' := get_op o' ops in
  match o with
  | op_name => mkModOps sym (keep op_init) (keep op_destroy) (keep op_rec_enqueue)
                 (keep op_rec_dequeue) (keep op_set_ack) (keep op_get_ack)
  | op_init => mkModOps (keep op_name) sym (keep op_destroy) (keep op_rec_enqueue)
                 (keep op_rec_dequeue) (keep op_set_ack) (keep op_get_ack)
  | op_destroy => mkModOps (keep op_name) (keep op_init) sym (keep op_rec_enqueue)
                    (keep op_rec_dequeue) (keep op_set_ack) (keep op_get_ack)
  | op_rec_enqueue => mkModOps (keep op_name) (keep op_init) (keep op_destroy) sym
                        (keep op_rec_dequeue) (keep op_set_ack) (keep op_get_ack)
  | op_rec_dequeue => mkModOps (keep op_name) (keep op_init) (keep op_destroy)
                        (keep op_rec_enqueue) sym (keep op_set_ack) (keep op_get_ack)
  | op_set_ack => mkModOps (keep op_name) (keep op_init) (keep op_destroy) (keep op_rec_enqueue)
                    (keep op_rec_dequeue) sym (keep op_get_ack)
  | op_get_ack => mkModOps (keep op_name) (keep op_init) (keep op_destroy) (keep op_rec_enqueue)
                    (keep op_rec_dequeue) (keep op_set_ack) sym
  end.

Definition set_module_op (o : module_op) (sym : option Z) (m : lcap_proc_module) : lcap_proc_module :=
  mkModule (module_name m) (cpm_dlh m) (set_op o sym (cpm_ops m)).

Section modules.
Context `{World}.

(** A pointer that a library returns: [NULL], or an address. *)
Definition pointer (z : Z) : option Z := if z =? 0 then None else Some z.

(** [__mod_symbol]. [dlerror] answers 0 for [NULL]: no error. *)
Definition mod_symbol (dlhandle : Z) (o : module_op) : M module_ctx Z :=
  sym ← ext (Dlsym dlhandle (symbol_of o));
  mod_module (set_module_op o (pointer sym));;
  errstr ← ext Dlerror;
  if negb (errstr =? 0) then mod_module (set_module_op o None);; mret (- EINVAL)
  else mret 0.

(** The chain of lookups of [__module_load]; the first that fails ends it. *)
Fixpoint load_symbols (dlhandle : Z) (os : list module_op) : M module_ctx Z :=
  match os with
  | [] => set_loaded true;; mret 0
  | o :: os =>
      rc ← mod_symbol dlhandle o;
      if negb (rc =? 0) then mret rc else load_symbols dlhandle os
  end.

Definition module_ops : list module_op :=
  [op_name; op_init; op_destroy; op_rec_enqueue; op_rec_dequeue; op_set_ack; op_get_ack].

(** [__module_load]. *)
Definition module_load (dlhandle : Z) (modname : bytes) : M module_ctx Z :=
  ok ← alloc (Z.of_nat (length modname) + 1);
  mod_module (fun m => mkModule (if ok : bool then Some modname else None) (Some dlhandle) (cpm_ops m));;
  load_symbols dlhandle module_ops.

Definition lcap_module_load_external : M module_ctx Z :=
  modname ← gets ccf_module;
  loaded ← gets cc_loaded;
  if loaded : bool then mret (- EALREADY)
  else
    h ← ext (Dlopen modname);
    match pointer h with
    | None => ext Dlerror;; mret (- EINVAL)
    | Some dlhandle =>
        rc ← module_load dlhandle modname;
        if negb (rc =? 0) then ext (Dlclose dlhandle);; mret rc
        else set_loaded true;; mret 0
    end.

(** [dlclose] of a [NULL] handle is undefined. *)
Definition lcap_module_unload_external : M module_ctx Z :=
  loaded ← gets cc_loaded;
  if negb loaded then mret 0
  else
    m ← gets cc_module;
    h ← unwrap NullDeref (cpm_dlh m);
    ext (Dlclose h);;
    mod_module (fun _ => module_zero);;
    set_loaded false;;
    mret 0.

(** The wrappers of [modules.h]: an indirect call. *)
Definition call_op (o : module_op) : M module_ctx Z :=
  m ← gets cc_module;
  f ← unwrap NullDeref (get_op o (cpm_ops m));
  ext (CallSymbol f).

Definition cpm_name : M module_ctx Z := call_op op_name.
Definition cpm_init : M module_ctx Z := call_op op_init.
Definition cpm_destroy : M module_ctx Z := call_op op_destroy.
Definition cpm_rec_enqueue : M module_ctx Z := call_op op_rec_enqueue.
Definition cpm_rec_dequeue : M module_ctx Z := call_op op_rec_dequeue.
Definition cpm_set_ack : M module_ctx Z := call_op op_set_ack.
Definition cpm_get_ack : M module_ctx Z := call_op op_get_ack.
End modules.

(** ** Properties *)

Section props.
Context `{World}.
Implicit Types (c : module_ctx) (t : trace).

(** The handles that [dlopen] gave and that [dlclose] took back. *)
Definition opened t : list Z :=
  omap (fun e => match e with (Dlopen _, z) => pointer z | _ => None end) t.
Definition closed t : list Z :=
  omap (fun e => match e with (Dlclose h, _) => Some h | _ => None end) t.

Lemma opened_app t1 t2 : opened (t1 ++ t2) = opened t1 ++ opened t2.
Proof. apply omap_app. Qed.
Lemma closed_app t1 t2 : closed (t1 ++ t2) = closed t1 ++ closed t2.
Proof. apply omap_app. Qed.

#[export] Instance module_op_eq_dec : EqDecision module_op.
Proof. solve_decision. Defined.

Lemma get_set_op o o' sym ops :
  get_op o (set_op o' sym ops) = if decide (o = o') then sym else get_op o ops.
Proof. by destruct o, o'. Qed.

(** The parts of a module that the lookups leave alone. *)
Definition same_module c c' : Prop :=
  ccf_module c' = ccf_module c /\ module_name (cc_module c') = module_name (cc_module c) /\
  cpm_dlh (cc_module c') = cpm_dlh (cc_module c).

Lemma same_module_trans c1 c2 c3 : same_module c1 c2 -> same_module c2 c3 -> same_module c1 c3.
Proof. intros (?&?&?) (?&?&?). split_and!; congruence. Qed.

(** An operation is what [dlsym] answered for its symbol. *)
Definition resolved (h : Z) (o : module_op) t c : Prop :=
  exists z, (Dlsym h (symbol_of o), z) ∈ t /\ get_op o (cpm_ops (cc_module c)) = pointer z.

Lemma mod_symbol_spec h o c :
  wp (mod_symbol h o) (fun rc c' => exists t, mc_trace c' = mc_trace c ++ t /\
       opened t = [] /\ closed t = [] /\ same_module c c' /\ cc_loaded c' = cc_loaded c /\
       (forall o', o' <> o -> get_op o' (cpm_ops (cc_module c')) = get_op o' (cpm_ops (cc_module c))) /\
       (rc = 0 /\ resolved h o t c' \/
        rc = - EINVAL /\ get_op o (cpm_ops (cc_module c')) = None)) safe c.
Proof.
  unfold mod_symbol, mod_module. wp_steps. rewrite wp_ext. wp_steps. rewrite wp_ext.
  set (z := w_rc _ (Dlsym _ _)). set (e := w_rc _ Dlerror).
  destruct (Z.eqb_spec e 0); cbn [negb]; wp_steps; (eexists [(_, z); (_, e)]); cbn; rewrite <- app_assoc;
    (split_and!; try done).
  - intros o' Ho. by rewrite get_set_op, decide_False.
  - left. split; [done|]. exists z. cbn. split; [by left|]. by rewrite get_set_op, decide_True.
  - intros o' Ho. by rewrite !get_set_op, !decide_False.
  - right. by rewrite get_set_op, decide_True.
Qed.

Lemma load_symbols_spec h os c :
  NoDup os ->
  wp (load_symbols h os) (fun rc c' => exists t, mc_trace c' = mc_trace c ++ t /\
       opened t = [] /\ closed t = [] /\ same_module c c' /\
       (forall o, o ∉ os -> get_op o (cpm_ops (cc_module c')) = get_op o (cpm_ops (cc_module c))) /\
       (rc = 0 /\ cc_loaded c' = true /\ (forall o, o ∈ os -> resolved h o t c') \/
        rc = - EINVAL /\ cc_loaded c' = cc_loaded c)) safe c.
Proof.
  revert c. induction os as [|o os IH]; intros c Hnd; cbn [load_symbols].
  { unfold set_loaded. wp_steps. exists []. cbn. rewrite app_nil_r. split_and!; try done.
    left. split_and!; [done|done|]. by intros o ?%elem_of_nil. }
  apply NoDup_cons in Hnd as [Hni Hnd]. wp_steps.
  eapply wp_mono; [apply mod_symbol_spec|cbn beta|done].
  intros rc c1 (t1 & Ht1 & Ho1 & Hc1 & Hs1 & Hl1 & Hk1 & Hcase).
  destruct (Z.eqb_spec rc 0) as [->|Hne]; cbn [negb]; wp_steps.
  - destruct Hcase as [[_ (z & Hz & Hg)]|[? _]]; [|done].
    eapply wp_mono; [by apply IH|cbn beta|done].
    intros rc c2 (t2 & Ht2 & Ho2 & Hc2 & Hs2 & Hk2 & Hcase). exists (t1 ++ t2).
    rewrite opened_app, closed_app, Ho1, Hc1, Ho2, Hc2, Ht2, Ht1, app_assoc.
    split_and!; try done; [by eapply same_module_trans| |].
    { intros o' [Hne Hn]%not_elem_of_cons. rewrite Hk2 by done. by apply Hk1. }
    destruct Hcase as [(-> & Hl2 & Hr)|[-> Hl2]]; [left|right; split; [done|congruence]].
    split_and!; [done|done|]. intros o' [->|Hin]%elem_of_cons.
    + exists z. split; [by apply elem_of_app; left|]. by rewrite Hk2.
    + destruct (Hr o' Hin) as (z' & ? & ?). exists z'. split; [by apply elem_of_app; right|done].
  - destruct Hcase as [[-> _]|[-> _]]; [done|]. exists t1. split_and!; try done.
    + intros o' [Hn _]%not_elem_of_cons. by apply Hk1.
    + by right.
Qed.

Lemma module_ops_nodup : NoDup module_ops.
Proof. by apply (bool_decide_unpack _). Qed.

Lemma module_ops_all o : o ∈ module_ops.
Proof. by destruct o; apply (bool_decide_unpack _). Qed.

(** A load of a module, when none is loaded. *)
Definition load_result c (rc : Z) c' : Prop :=
  exists t, mc_trace c' = mc_trace c ++ t /\ ccf_module c' = ccf_module c /\
    ((rc = 0 /\ cc_loaded c' = true /\ closed t = [] /\ exists h, opened t = [h] /\
        cpm_dlh (cc_module c') = Some h /\ (forall o, resolved h o t c')) \/
     rc = - EINVAL /\ cc_loaded c' = false /\ opened t = closed t).

Lemma load_external_spec c :
  cc_loaded c = false -> wp lcap_module_load_external (load_result c) safe c.
Proof.
  intros Hl. unfold lcap_module_load_external. wp_steps. rewrite Hl, wp_bind, wp_ext.
  set (z := w_rc _ (Dlopen _)). destruct (pointer z) as [h|] eqn:Hz; wp_steps.
  2: { rewrite wp_ext. wp_steps.
       exists [(Dlopen (ccf_module c), z);
               (Dlerror, w_rc (s_trace (logged (Dlopen (ccf_module c)) c)) Dlerror)].
       split_and!; [cbn; by rewrite <- app_assoc|done|]. right. split_and!; [done|exact Hl|].
       cbn. by rewrite Hz. }
  unfold module_load. wp_steps. rewrite wp_alloc.
  match goal with |- context [w_rc ?t (Alloc ?n)] => set (a := w_rc t (Alloc n)) end. unfold mod_module. wp_steps.
  match goal with |- wp _ _ _ ?s => set (c1 := s) end.
  set (t0 := [(Dlopen (ccf_module c), z); (Alloc (Z.of_nat (length (ccf_module c)) + 1), a)]).
  assert (Ht0 : mc_trace c1 = mc_trace c ++ t0) by (cbn; by rewrite <- app_assoc).
  assert (Hot : opened t0 = [h] /\ closed t0 = []) by (cbn; by rewrite Hz).
  eapply wp_mono; [apply load_symbols_spec, module_ops_nodup|cbn beta|done].
  intros rc c2 (t & Ht & Ho & Hc & (Hs & _ & Hd) & _ & Hcase).
  destruct Hcase as [(-> & Hl2 & Hr)|[-> Hl2]].
  - cbn [Z.eqb negb]. unfold set_loaded. wp_steps. exists (t0 ++ t). cbn [mc_trace].
    rewrite opened_app, closed_app, (proj1 Hot), (proj2 Hot), Ho, Hc, Ht, Ht0, <- app_assoc.
    split_and!; [done|exact Hs|]. left. split_and!; try done. exists h. split_and!; [done|exact Hd|].
    intros o. destruct (Hr o (module_ops_all o)) as (z' & ? & ?).
    exists z'. split; [by apply elem_of_app; right|done].
  - change (negb (- EINVAL =? 0)) with true. cbv iota. wp_steps. rewrite wp_ext. wp_steps.
    exists (t0 ++ t ++ [(Dlclose h, w_rc (mc_trace c2) (Dlclose h))]). cbn [mc_trace logged s_put].
    rewrite !opened_app, !closed_app, (proj1 Hot), (proj2 Hot), Ho, Hc.
    split_and!; [|exact Hs|].
    + cbn. by rewrite Ht, Ht0, <- !app_assoc.
    + right. split_and!; [done|rewrite <- Hl; exact Hl2|done].
Qed.

(** A second load and an unload without a module change nothing. *)
Lemma load_again c : cc_loaded c = true -> lcap_module_load_external c = Ok (- EALREADY, c).
Proof. intros Hl. apply wp_eq. unfold lcap_module_load_external. wp_steps. rewrite Hl. by wp_steps. Qed.

Lemma unload_nothing c : cc_loaded c = false -> lcap_module_unload_external c = Ok (0, c).
Proof. intros Hl. apply wp_eq. unfold lcap_module_unload_external. wp_steps. rewrite Hl. by wp_steps. Qed.

(** An unload of the module with handle [h]. *)
Definition unload_result (h : Z) c (rc : Z) c' : Prop :=
  rc = 0 /\ cc_loaded c' = false /\ cc_module c' = module_zero /\ ccf_module c' = ccf_module c /\
  exists z, mc_trace c' = mc_trace c ++ [(Dlclose h, z)].

Lemma unload_external_spec c h :
  cc_loaded c = true -> cpm_dlh (cc_module c) = Some h ->
  wp lcap_module_unload_external (unload_result h c) safe c.
Proof.
  intros Hl Hd. unfold lcap_module_unload_external. wp_steps. rewrite Hl. cbn [negb]. wp_steps.
  rewrite Hd. wp_steps. rewrite wp_ext. unfold mod_module, set_loaded. wp_steps.
  split_and!; try done. by eexists.
Qed.

(** ** Sequences of loads and unloads *)

Inductive module_call := call_load | call_unload.

Definition run_call (k : module_call) : M module_ctx Z :=
  match k with
  | call_load => lcap_module_load_external
  | call_unload => lcap_module_unload_external
  end.

Fixpoint run_calls (ks : list module_call) : M module_ctx (list Z) :=
  match ks with
  | [] => mret []
  | k :: ks => rc ← run_call k; rcs ← run_calls ks; mret (rc :: rcs)
  end.

(** The handle of the loaded module. *)
Definition held c : list Z :=
  if cc_loaded c then option_list (cpm_dlh (cc_module c)) else [].
Definition module_wf c : Prop := cc_loaded c = true -> is_Some (cpm_dlh (cc_module c)).

(** What each call answers, and the state that it leaves. *)
Inductive module_step c : module_call -> Z -> module_ctx -> Prop :=
| step_load_refused : cc_loaded c = true -> module_step c call_load (- EALREADY) c
| step_load rc c' : cc_loaded c = false -> load_result c rc c' -> module_step c call_load rc c'
| step_unload_none : cc_loaded c = false -> module_step c call_unload 0 c
| step_unload h rc c' :
    cc_loaded c = true -> held c = [h] -> unload_result h c rc c' -> module_step c call_unload rc c'.

Inductive module_steps : module_ctx -> list module_call -> list Z -> module_ctx -> Prop :=
| steps_none c : module_steps c [] [] c
| steps_next c k ks rc rcs c1 c' :
    module_step c k rc c1 -> module_steps c1 ks rcs c' -> module_steps c (k :: ks) (rc :: rcs) c'.

(** No handle is lost: what was held or opened was closed, or is held. *)
Definition handles_kept c c' : Prop :=
  exists t, mc_trace c' = mc_trace c ++ t /\ held c ++ opened t = closed t ++ held c'.

Lemma run_call_spec k c :
  module_wf c ->
  wp (run_call k) (fun rc c' => module_step c k rc c' /\ module_wf c' /\ handles_kept c c') safe c.
Proof.
  intros Hwf. destruct (cc_loaded c) eqn:Hl.
  - destruct (Hwf Hl) as [h Hd]. assert (Hh : held c = [h]) by (unfold held; by rewrite Hl, Hd).
    destruct k; cbn [run_call].
    + unfold wp. rewrite (load_again _ Hl). split; [by constructor|]. split; [done|].
      exists []. cbn. by rewrite !app_nil_r.
    + eapply wp_mono; [by apply (unload_external_spec c h)|cbn beta|done].
      intros rc c' Hr. pose proof Hr as (_ & Hl' & _ & _ & z & Ht).
      split; [by eapply step_unload|]. split; [by intros ?; congruence|].
      exists [(Dlclose h, z)]. split; [done|]. unfold held at 2. by rewrite Hl', Hh.
  - assert (Hh : held c = []) by (unfold held; by rewrite Hl). destruct k; cbn [run_call].
    + eapply wp_mono; [by apply load_external_spec|cbn beta|done].
      intros rc c' Hr. split; [by apply step_load|].
      destruct Hr as (t & Ht & _ & [(_ & Hl' & Hc & h & Ho & Hd & _)|(_ & Hl' & Hoc)]).
      * split; [by intros _; rewrite Hd; eexists|]. exists t. split; [done|].
        unfold held at 2. by rewrite Hl', Hd, Hh, Ho, Hc.
      * split; [by intros ?; congruence|]. exists t. split; [done|].
        unfold held at 2. by rewrite Hl', Hh, Hoc, app_nil_r.
    + unfold wp. rewrite (unload_nothing _ Hl). split; [by constructor|]. split; [done|].
      exists []. cbn. by rewrite !app_nil_r.
Qed.

End props.

(** A loader that knows one symbol: the load fails, the handle is closed, and
    the operation that was found still points into the closed object. *)
Definition poor_loader : World := {|
  w_rc t c := match c with
              | Dlopen _ => 7
              | Dlsym _ s => if bool_decide (s = symbol_of op_name) then 100 else 0
              | Dlerror => match last t with
                           | Some (Dlsym _ _, 100) => 0
                           | _ => 1
                           end
              | _ => 0
              end;
  w_clock _ := (0, 0);
  w_rec _ := [];
  w_frame _ := ([], false);
  w_revents _ := 0;
|}.

Definition no_module : module_ctx := mkModCtx (of_str "mod.so") module_zero false [].

Lemma failed_load_leaves_symbol :
  exists c', @lcap_module_load_external poor_loader no_module = Ok (- EINVAL, c') /\
    closed (mc_trace c') = [7] /\ @cpm_name poor_loader c' =
      Ok (0, mkModCtx (ccf_module c') (cc_module c') false (mc_trace c' ++ [(CallSymbol 100, 0)])).
Proof. eexists. split; [vm_compute; reflexivity|]. split; vm_compute; reflexivity. Qed.

(** A loader that knows every symbol. *)
Definition good_loader : World := {|
  w_rc t c := match c with Dlopen _ => 7 | Dlsym _ _ => 100 | _ => 0 end;
  w_clock _ := (0, 0);
  w_rec _ := [];
  w_frame _ := ([], false);
  w_revents _ := 0;
|}.

(** The second load is refused, the first unload closes the module. *)
Example load_load_unload_unload :
  exists c', @run_calls good_loader [call_load; call_load; call_unload; call_unload] no_module =
      Ok ([0; - EALREADY; 0; 0], c') /\ opened (mc_trace c') = [7] /\ closed (mc_trace c') = [7].
Proof. eexists. split; [vm_compute; reflexivity|]. split; vm_compute; reflexivity. Qed.

