(* ===== verification/PxClient.v ===== *)
(** * The proxy client ([src/client/px_client.c])

    A client keeps one connection and the records of the last ENQUEUE packet.
    The buffers of received packets live in a heap; a record that is handed to
    the application is a pointer into its buffer, so that the use of a record
    after its buffer was freed can be told. *)
From S2P Require Import Prelude World Idl LcapNet RpcUtils.
Local Open Scope Z_scope.

Definition DEFAULT_CACHE_SIZE := 256.
Definition RECV_BUFFER_LENGTH := 8 * 1024 * 1024.

(** A pointer into a received packet. *)
Record rec_ptr := mkRec { rp_buf : positive; rp_off : Z }.

(** [struct px_zmq_data]. The cache [records] has as many slots as were
    allocated; [None] is [NULL]. *)
Record px_zmq_data := mkPzd {
  zmq_ctx : bool;
  zmq_srv : bool;
  rec_buff : option positive;
  records : option (list (option rec_ptr));
  rec_nxt : Z;
  rec_cnt : Z;
  rec_mdt : bytes;  (** of length [rec_mdt_len] *)
}.

(** The client context ([ccc_ptr]) and the memory of the received packets. *)
Record client := mkCl {
  ccc_ptr : option px_zmq_data;
  cl_bufs : gmap positive bytes;
  cl_next : positive;
  cl_trace : trace;
}.

#[export] Instance client_has_trace : HasTrace client := {
  s_trace := cl_trace;
  s_put t s := mkCl (ccc_ptr s) (cl_bufs s) (cl_next s) t;
}.
#[export] Instance client_has_trace_laws : HasTraceLaws client.
Proof. constructor; by intros; destruct s. Qed.

Definition set_ptr (p : option px_zmq_data) (s : client) : client :=
  mkCl p (cl_bufs s) (cl_next s) (cl_trace s).
Definition set_bufs (f : gmap positive bytes -> gmap positive bytes) (s : client) : client :=
  mkCl (ccc_ptr s) (f (cl_bufs s)) (cl_next s) (cl_trace s).

(** Assignments to fields of the [struct px_zmq_data]. *)
Definition set_zmq_handles (ctx srv : bool) (p : px_zmq_data) : px_zmq_data :=
  mkPzd ctx srv (rec_buff p) (records p) (rec_nxt p) (rec_cnt p) (rec_mdt p).
Definition set_buff (b : option positive) (p : px_zmq_data) : px_zmq_data :=
  mkPzd (zmq_ctx p) (zmq_srv p) b (records p) (rec_nxt p) (rec_cnt p) (rec_mdt p).
Definition set_records (r : option (list (option rec_ptr))) (p : px_zmq_data) : px_zmq_data :=
  mkPzd (zmq_ctx p) (zmq_srv p) (rec_buff p) r (rec_nxt p) (rec_cnt p) (rec_mdt p).
Definition set_window (nxt cnt : Z) (p : px_zmq_data) : px_zmq_data :=
  mkPzd (zmq_ctx p) (zmq_srv p) (rec_buff p) (records p) nxt cnt (rec_mdt p).
Definition set_mdt (mdt : bytes) (p : px_zmq_data) : px_zmq_data :=
  mkPzd (zmq_ctx p) (zmq_srv p) (rec_buff p) (records p) (rec_nxt p) (rec_cnt p) mdt.

(** [calloc] and [memset] of the structure. *)
Definition pzd_zero : px_zmq_data := mkPzd false false None None 0 0 [].
Definition sizeof_pzd := 184.

Definition load_pzd : M client px_zmq_data :=
  p ← gets ccc_ptr; unwrap NullDeref p.
Definition store_pzd (p : px_zmq_data) : M client unit := modify (set_ptr (Some p)).

(** [free] of a packet buffer, [NULL] included. *)
Definition free_buf (b : option positive) : M client unit :=
  match b with
  | None => mret tt
  | Some b =>
      m ← gets (lookup b ∘ cl_bufs);
      unwrap UseAfterFree m;;
      modify (set_bufs (delete b))
  end.

Section client.
Context `{World, ChangelogRec}.

(** The structure is handled by value: the caller stores what is returned. *)
Definition pzd_destroy (p : px_zmq_data) : M client px_zmq_data :=
  (if zmq_srv p then ext ZmqClose;; mret tt else mret tt);;
  (if zmq_ctx p then ext ZmqCtxDestroy;; mret tt else mret tt);;
  free_buf (rec_buff p);;
  mret pzd_zero.

(** [realloc]: the first slots keep their contents, new ones have none. *)
Definition pzd_cache_grow (p : px_zmq_data) (newsize : Z) : M client (Z * px_zmq_data) :=
  let old := default [] (records p) in
  let n := Z.to_nat newsize in
  ok ← alloc (u64 (newsize * 8));
  if ok : bool then
    mret (0, set_records (Some (take n old ++ replicate (n - length old) None)) p)
  else mret (- ENOMEM, set_records None p).

(** [strcpy] into the 128 bytes of [rec_mdt] needs room for the NUL; the guard
    before it is the source's. *)
Definition pzd_fill (p : px_zmq_data) (mdtname : bytes) : M client (Z * px_zmq_data) :=
  let p := set_buff None (set_records None (set_window 0 0 p)) in
  if 128 <? Z.of_nat (length mdtname) then mret (- EINVAL, p)
  else if 128 <? Z.of_nat (length mdtname) + 1 then fail OutOfBounds
  else pzd_cache_grow (set_mdt mdtname p) DEFAULT_CACHE_SIZE.

Definition pzd_init (p : px_zmq_data) (mdtname : bytes) : M client (Z * px_zmq_data) :=
  rp ← (rc ← ext ZmqCtxNew;
        if rc <? 0 then mret (rc, set_zmq_handles false (zmq_srv p) p)
        else
          rc ← ext ZmqSocket;
          if rc <? 0 then mret (rc, set_zmq_handles true false p)
          else pzd_fill (set_zmq_handles true true p) mdtname) : M client (Z * px_zmq_data);
  if negb (fst rp =? 0) then p ← pzd_destroy (snd rp); mret (fst rp, p)
  else mret rp.

Definition px_rec_uri : bytes := of_str "tcp://localhost:8189".

Definition client_hdr (op : rpc_op_type) : px_rpc_hdr := {| op_type := op_code op; reserved := 0 |}.

(** [strncpy] pads with NULs up to the 128 bytes and does not end a name of 128. *)
Definition cl_start_pack (flags : Z) (mdtname : bytes) (startrec : Z) : px_rpc_register :=
  {| reg_hdr := client_hdr RPC_OP_START; reg_flags := u32 flags; reg_padding := 0;
     reg_start := u64 startrec;
     reg_mdtname := take 128 (mdtname ++ replicate 128 NUL) |}.

Definition cl_dequeue_pack : px_rpc_dequeue := {| deq_hdr := client_hdr RPC_OP_DEQUEUE |}.

(** The two strings go into the tail that [calloc] filled with NULs. *)
Definition cl_clear_pack (mdtname id : bytes) (endrec : Z) : px_rpc_clear :=
  {| clear_hdr := client_hdr RPC_OP_CLEAR; clear_index := s64 endrec;
     clear_id_len := s32 (Z.of_nat (length id) + Z.of_nat (length mdtname) + 2);
     clear_id := id ++ NUL :: mdtname ++ [NUL] |}.

Definition px_rpc_send (p : px_zmq_data) (rpc : bytes) : M client Z :=
  send_part (rec_mdt p) true (send_part rpc false (mret 0)).

(** The loop of [cl_rep_recv]: [data] is what the buffer of [bufflen] bytes
    holds. [frames] bounds the frames of the reply. *)
Fixpoint cl_rep_recv (frames : nat) (bufflen : Z) (data : bytes) : M client (Z * bytes) :=
  match frames with
  | O => fail OutOfFuel
  | S frames =>
      let room := bufflen - Z.of_nat (length data) in
      rc ← ext (ZmqRecv room);
      if rc <? 0 then mret (rc, data)
      else
        fm ← gets (fun s => w_frame (s_trace s));
        if room <? Z.of_nat (length (fst fm)) then mret (- EOVERFLOW, data)
        else
          let data := data ++ fst fm in
          rc ← ext ZmqGetRcvMore;
          if rc <? 0 then mret (rc, data)
          else if snd fm : bool then cl_rep_recv frames bufflen data
          else mret (Z.of_nat (length data), data)
  end.

Definition cl_ack_retcode (frames : nat) : M client Z :=
  r ← cl_rep_recv frames sizeof_ack [];
  if fst r <? 0 then mret (fst r)
  else if fst r <? sizeof_ack then mret (- EINVAL)
  else mret (get_retcode (snd r)).

(** The part of [px_changelog_start] that may jump to [out_initialized]: its
    code, and whether it does. *)
Definition px_register (p : px_zmq_data) (flags : Z) (mdtname : bytes) (startrec : Z)
    : M client (Z * bool) :=
  rc ← ext (ZmqConnect px_rec_uri);
  if rc <? 0 then mret (rc, true)
  else
    rc ← px_rpc_send p (enc_register (cl_start_pack flags mdtname startrec));
    if rc <? 0 then mret (rc, true)
    else
      rc ← ext (ZmqRecv sizeof_ack);
      if rc <? 0 then mret (rc, true)
      else
        fm ← gets (fun s => w_frame (s_trace s));
        if Z.of_nat (length (fst fm)) <? sizeof_ack then mret (- EINVAL, true)
        else mret (get_retcode (fst fm), false).

Definition px_changelog_start (flags : Z) (mdtname : bytes) (startrec : Z) : M client Z :=
  ok ← alloc sizeof_pzd;
  if negb ok then modify (set_ptr None);; mret (- ENOMEM)
  else
    rp ← pzd_init pzd_zero mdtname;
    if negb (fst rp =? 0) then modify (set_ptr None);; mret (fst rp)
    else
      store_pzd (snd rp);;
      re ← px_register (snd rp) flags mdtname startrec;
      if snd re : bool then
        pzd_destroy (snd rp);;
        modify (set_ptr None);;
        mret (fst re)
      else mret (fst re).

(** The test [ctx == NULL] comes after the dereference: the context of the
    model always exists. *)
Definition px_changelog_fini (frames : nat) : M client Z :=
  p ← load_pzd;
  rc ← px_rpc_send p (enc_fini {| fini_hdr := client_hdr RPC_OP_FINI |});
  if rc <? 0 then mret rc
  else
    rc ← cl_ack_retcode frames;
    if rc <? 0 then mret rc
    else
      p ← pzd_destroy p;
      store_pzd p;;
      mret rc.

(** The record at [off] in a packet: its header is read, so it must be there. *)
Definition rec_at (packet : bytes) (off : Z) : M client bytes :=
  if (off <? 0) || (Z.of_nat (length packet) <? off + sizeof_changelog_rec) then fail OutOfBounds
  else mret (drop (Z.to_nat off) packet).

Definition changelog_rec_next (packet : bytes) (off : Z) : M client Z :=
  r ← rec_at packet off;
  mret (off + changelog_rec_name r + cr_namelen r).

(** The loop over the records of a packet: [n] are left, [i] are in the cache. *)
Fixpoint cache_records (n i : nat) (buf : positive) (packet : bytes) (off : Z)
    (cache : option (list (option rec_ptr))) : M client (option (list (option rec_ptr))) :=
  match n with
  | O => mret cache
  | S n =>
      slots ← unwrap NullDeref cache;
      if Z.of_nat (length slots) <=? Z.of_nat i then fail OutOfBounds
      else
        next ← changelog_rec_next packet off;
        cache_records n (S i) buf packet next (Some (<[i := Some (mkRec buf off)]> slots))
  end.

(** [case RPC_OP_ENQUEUE]. The counts are compared as [long long]. *)
Definition px_enqueue_reply (p : px_zmq_data) (buf : positive) (data : bytes)
    : M client (Z * px_zmq_data) :=
  if Z.of_nat (length data) <? sizeof_enqueue + sizeof_changelog_rec then mret (- EINVAL, p)
  else
    let count := get_count data in
    rp ← (if rec_cnt p <? count then pzd_cache_grow p count else mret (0, p));
    if fst rp <? 0 then mret rp
    else
      let p := snd rp in
      cache ← cache_records (Z.to_nat count) 0 buf data sizeof_enqueue (records p);
      mret (0, set_buff (Some buf) (set_window 0 count (set_records cache p))).

(** The [switch] on the operation of the reply. *)
Definition px_reply (p : px_zmq_data) (buf : positive) (data : bytes)
    : M client (Z * px_zmq_data) :=
  if Z.of_nat (length data) <? sizeof_hdr then mret (- EINVAL, p)
  else
    match op_of_code (get_op_type data) with
    | Some RPC_OP_ACK =>
        if Z.of_nat (length data) <? sizeof_ack then mret (- EINVAL, p)
        else mret (get_retcode data, p)
    | Some RPC_OP_ENQUEUE => px_enqueue_reply p buf data
    | _ => mret (- EPROTO, p)
    end.

(** The receive buffer is a location; it holds the packet once it is received. *)
Definition px_dequeue_records (frames : nat) : M client Z :=
  p ← load_pzd;
  rc ← px_rpc_send p (enc_dequeue cl_dequeue_pack);
  if rc <? 0 then mret rc
  else
    ok ← alloc RECV_BUFFER_LENGTH;
    if negb ok then mret (- ENOMEM)
    else
      buf ← gets cl_next;
      r ← cl_rep_recv frames RECV_BUFFER_LENGTH [];
      modify (fun s => mkCl (ccc_ptr s) (<[buf := snd r]> (cl_bufs s)) (Pos.succ buf) (cl_trace s));;
      rp ← (if fst r <? 0 then mret (fst r, p) else px_reply p buf (snd r));
      store_pzd (snd rp);;
      (if negb (fst rp =? 0) then free_buf (Some buf) else mret tt);;
      mret (fst rp).

(** The code and the record, which is set when the code is 0. *)
Definition px_changelog_recv (frames : nat) : M client (Z * option rec_ptr) :=
  p ← load_pzd;
  rc ← (if rec_nxt p =? rec_cnt p then px_dequeue_records frames else mret 0);
  if negb (rc =? 0) then mret (rc, None)
  else
    p ← load_pzd;
    slots ← unwrap NullDeref (records p);
    if rec_nxt p <? 0 then fail OutOfBounds
    else
      slot ← unwrap OutOfBounds (slots !! Z.to_nat (rec_nxt p));
      r ← unwrap UninitRead slot;
      store_pzd (set_window (rec_nxt p + 1) (rec_cnt p) p);;
      mret (0, Some r).

Definition px_changelog_free : M client Z :=
  p ← load_pzd;
  (if rec_nxt p =? rec_cnt p then
     free_buf (rec_buff p);;
     store_pzd (set_buff None p)
   else mret tt);;
  mret 0.

Definition px_changelog_clear (frames : nat) (mdtname id : bytes) (endrec : Z) : M client Z :=
  p ← load_pzd;
  if rec_nxt p <? rec_cnt p then mret 0
  else
    ok ← alloc (sizeof_clear + Z.of_nat (length id) + Z.of_nat (length mdtname) + 2);
    if negb ok then mret (- ENOMEM)
    else
      rc ← px_rpc_send p (enc_clear (cl_clear_pack mdtname id endrec));
      if rc <? 0 then mret rc else cl_ack_retcode frames.

(** The application reads a record that it was given. *)
Definition read_record (r : rec_ptr) : M client bytes :=
  m ← gets (lookup (rp_buf r) ∘ cl_bufs);
  packet ← unwrap UseAfterFree m;
  rec_at packet (rp_off r).
End client.
