(* ===== verification/Client.v ===== *)
(** * The client library ([src/client/client.c], [src/client/lu_client.c],
      [src/include/lcap_client.h])

    The user of the library gets a context with an operation vector: that of the
    proxy client (PxClient), or that of the direct client, which calls the
    Lustre API. *)
From S2P Require Import Prelude World Idl LcapNet RpcUtils PxClient.
Local Open Scope Z_scope.

Definition LCAP_CL_FOLLOW := 1.
Definition LCAP_CL_BLOCK := 2.
Definition LCAP_CL_DIRECT := 4.
Definition LCAP_CL_JOBID := 8.

(** The two values of [ccc_ops]. *)
Inductive lcap_cl_operations := cl_ops_null | cl_ops_proxy.

(** The context of the user, [None] being [NULL], and what [ccc_ptr] of the
    proxy points to. The [ccc_ptr] of the direct client is a handle of the
    Lustre API. *)
Record user := mkUser {
  us_ctx : option lcap_cl_operations;
  us_cl : client;
}.

#[export] Instance user_has_trace : HasTrace user := {
  s_trace s := cl_trace (us_cl s);
  s_put t s := mkUser (us_ctx s) (s_put t (us_cl s));
}.
#[export] Instance user_has_trace_laws : HasTraceLaws user.
Proof. constructor; intros; by destruct s as [? []]. Qed.

(** A record that was received: in a packet, or a record of the Lustre API. *)
Inductive received_rec :=
| in_packet (r : rec_ptr)
| from_lustre (r : bytes).

Definition in_client {A} (m : M client A) : M user A :=
  zoom us_cl (fun c s => mkUser (us_ctx s) c) m.
Definition set_ctx (ctx : option lcap_cl_operations) : M user unit :=
  modify (fun s => mkUser ctx (us_cl s)).

Section client_library.
Context `{World, ChangelogRec}.

Definition flags_translate (lcap_flags : Z) : Z :=
  let lu := 0 in
  let lu := if Z.land lcap_flags LCAP_CL_FOLLOW =? 0 then lu else Z.lor lu CHANGELOG_FLAG_FOLLOW in
  let lu := if Z.land lcap_flags LCAP_CL_BLOCK =? 0 then lu else Z.lor lu CHANGELOG_FLAG_BLOCK in
  if Z.land lcap_flags LCAP_CL_JOBID =? 0 then lu else Z.lor lu CHANGELOG_FLAG_JOBID.

Definition lu_changelog_start (flags : Z) (mdtname : bytes) (startrec : Z) : M user Z :=
  ext (LlapiChangelogStart (flags_translate flags) mdtname startrec).
Definition lu_changelog_fini : M user Z := ext LlapiChangelogFini.
Definition lu_changelog_recv : M user (Z * option received_rec) :=
  rc ← ext LlapiChangelogRecv;
  rec ← gets (fun s => w_rec (s_trace s));
  mret (rc, if rc =? 0 then Some (from_lustre rec) else None).
Definition lu_changelog_free : M user Z := ext LlapiChangelogFree.
Definition lu_changelog_clear (mdtname id : bytes) (endrec : Z) : M user Z :=
  ext (LlapiChangelogClear mdtname id endrec).

(** The two operation vectors. [frames] bounds the frames of a reply. *)
Definition cco_start (ops : lcap_cl_operations) : Z -> bytes -> Z -> M user Z :=
  match ops with
  | cl_ops_null => lu_changelog_start
  | cl_ops_proxy => fun flags mdt start => in_client (px_changelog_start flags mdt start)
  end.
Definition cco_fini (ops : lcap_cl_operations) (frames : nat) : M user Z :=
  match ops with
  | cl_ops_null => lu_changelog_fini
  | cl_ops_proxy => in_client (px_changelog_fini frames)
  end.
Definition cco_recv (ops : lcap_cl_operations) (frames : nat) : M user (Z * option received_rec) :=
  match ops with
  | cl_ops_null => lu_changelog_recv
  | cl_ops_proxy =>
      o ← in_client (px_changelog_recv frames); mret (fst o, in_packet <$> snd o)
  end.
Definition cco_free (ops : lcap_cl_operations) : M user Z :=
  match ops with
  | cl_ops_null => lu_changelog_free
  | cl_ops_proxy => in_client px_changelog_free
  end.
Definition cco_clear (ops : lcap_cl_operations) (frames : nat) (mdtname id : bytes) (endrec : Z)
    : M user Z :=
  match ops with
  | cl_ops_null => lu_changelog_clear mdtname id endrec
  | cl_ops_proxy => in_client (px_changelog_clear frames mdtname id endrec)
  end.

(** The context is zero before the operation runs; on an error it is freed,
    with nothing of what it points to. *)
Definition lcap_changelog_start (flags : Z) (mdtname : bytes) (startrec : Z) : M user Z :=
  ok ← alloc 16;
  if negb ok then mret (- ENOMEM)
  else
    in_client (modify (set_ptr None));;
    let ops := if Z.land flags LCAP_CL_DIRECT =? 0 then cl_ops_proxy else cl_ops_null in
    rc ← cco_start ops flags mdtname startrec;
    set_ctx (if rc <? 0 then None else Some ops);;
    mret rc.

(** [assert(ctx)]; the operations are never NULL. *)
Definition ctx_ops : M user lcap_cl_operations :=
  ctx ← gets us_ctx; unwrap AssertFail ctx.

Definition lcap_changelog_fini (frames : nat) : M user Z :=
  ops ← ctx_ops; cco_fini ops frames.
Definition lcap_changelog_recv (frames : nat) : M user (Z * option received_rec) :=
  ops ← ctx_ops; cco_recv ops frames.
Definition lcap_changelog_free : M user Z :=
  ops ← ctx_ops; cco_free ops.
Definition lcap_changelog_clear (frames : nat) (mdtname id : bytes) (endrec : Z) : M user Z :=
  ops ← ctx_ops; cco_clear ops frames mdtname id endrec.
End client_library.
