(* ===== verification/Tool.v ===== *)
(** * The command line client ([src/tools/lcap.c])

    A user of the client library that prints the records of a device and
    acknowledges them. What it prints is not modelled. *)
From S2P Require Import Prelude World Idl LcapNet RpcUtils PxClient Client.
Local Open Scope Z_scope.

(** The reader that the tool acknowledges for. *)
Definition tool_reader : bytes := of_str "cl1".

Section tool.
Context `{World, ChangelogRec}.

(** [rec->cr_index], as the [long long] that is passed on. *)
Definition record_index (rec : received_rec) : M user Z :=
  match rec with
  | in_packet x => data ← in_client (read_record x); mret (s64 (cr_index data))
  | from_lustre r => mret (s64 (cr_index r))
  end.

(** The body of the loop on a record: the exit code of the tool, if it exits. *)
Definition tool_record (frames : nat) (mdtname : bytes) (rec : received_rec) : M user (option Z) :=
  idx ← record_index rec;
  rc ← lcap_changelog_clear frames mdtname tool_reader idx;
  if rc <? 0 then mret (Some 1)
  else
    rc ← lcap_changelog_free;
    if rc <? 0 then mret (Some 1) else mret None.

(** One turn of the [while]: [inl] is the code that ended the loop. *)
Definition tool_turn (frames : nat) (mdtname : bytes) : M user (Z + option Z) :=
  o ← lcap_changelog_recv frames;
  if negb (fst o =? 0) then mret (inl (fst o))
  else
    rec ← unwrap UninitRead (snd o);
    r ← tool_record frames mdtname rec;
    mret (inr r).

Fixpoint tool_loop (turns frames : nat) (mdtname : bytes) : M user (Z + Z) :=
  match turns with
  | O => fail OutOfFuel
  | S turns =>
      r ← tool_turn frames mdtname;
      match r with
      | inl rc => mret (inl rc)
      | inr (Some code) => mret (inr code)
      | inr None => tool_loop turns frames mdtname
      end
  end.

(** [main] from [lcap_changelog_start] on. *)
Definition tool_session (turns frames : nat) (flags : Z) (mdtname : bytes) : M user Z :=
  rc ← lcap_changelog_start flags mdtname 0;
  if rc <? 0 then mret 1
  else
    r ← tool_loop turns frames mdtname;
    match r with
    | inr code => mret code
    | inl rc =>
        if negb (rc =? 0) && negb (rc =? 1) then mret 1
        else
          rc ← lcap_changelog_fini frames;
          mret (if negb (rc =? 0) then 1 else 0)
    end.

(** What [getopt] answers. *)
Inductive tool_option := option_d | option_unknown.

#[export] Instance tool_option_eq_dec : EqDecision tool_option.
Proof. solve_decision. Defined.

(** The loop over the options. For an unknown one the message prints the [int]
    [optopt] with [%s]: its value is read as an address. *)
Fixpoint tool_options (opts : list tool_option) (flags : Z) : M user Z :=
  match opts with
  | [] => mret flags
  | option_d :: opts => tool_options opts (Z.lor flags LCAP_CL_DIRECT)
  | option_unknown :: _ => fail OutOfBounds
  end.

(** [main] with [ac] arguments, of which [args] remain after the options. *)
Definition tool_main (turns frames : nat) (ac : Z) (opts : list tool_option) (args : list bytes)
    : M user Z :=
  if ac <? 2 then mret 1
  else
    flags ← tool_options opts (Z.lor LCAP_CL_BLOCK LCAP_CL_JOBID);
    match args with
    | [] => mret 1
    | mdtname :: _ => tool_session turns frames flags mdtname
    end.
End tool.
