(* ===== verification/Reader.v ===== *)
(** * The changelog reader: state and bucket operations
      ([src/lcapd/reader.c], up to [changelog_reader_rec_store])

    The reader's objects (buckets and client states) live in heaps indexed by
    their location; their embedded list nodes live in the node heap of [Queue]
    at the same location. Freed objects leave the heaps and locations are not
    reused, so an access through a dangling pointer is the fault
    [UseAfterFree]. *)
From S2P Require Import Prelude World Queue Idl LcapNet RpcUtils Config.
Local Open Scope Z_scope.


Definition EOF_RETRY_DELAY := 1.
Definition ACK_TIMEOUT_MSEC := 10000.

Record timespec := { tv_sec : Z; tv_nsec : Z }.

Record lcap_rec_bucket := mkBucket {
  lrb_index : Z;
  lrb_expiry : timespec;
  lrb_ready : bool;
  lrb_size : Z;
  lrb_rec_count : Z;
  lrb_records : list (option bytes);
}.

Definition sizeof_bucket := 64.
Definition sizeof_ptr := 8.
Definition sizeof_client_state := 40.

Record reader_stats := mkStats {
  rs_start_time : Z * Z;  (** seconds and microseconds *)
  rs_rec_read : Z;
  rs_rec_sent : Z;
}.

Record client_state := mkClient {
  cs_start : Z;
  cs_bucket : ptr;
  cs_ident : conn_id;
}.

Record reader_env := mkEnv {
  re_cfg : lcap_cfg;
  re_clpriv : bool;  (** whether the LLAPI handle is open *)
  re_zctx : bool;
  re_sock : bool;
  re_ident : option conn_id;
  re_stats : reader_stats;
  re_index : Z;
  re_srec : Z;
  re_bkt_idx : Z;
  re_rec_cnt : Z;
  re_current_open : ptr;
  re_deliver_next : ptr;
  re_cleanup_next : ptr;
  re_buckets : list_hd;
  re_peers : list_hd;
}.

(** The reader's environment and the memory of its objects. *)
Record rstate := mkSt {
  r_env : reader_env;
  r_nodes : nheap;
  r_bkts : gmap loc lcap_rec_bucket;
  r_clis : gmap loc client_state;
  r_next : loc;  (** the next location to hand out *)
  r_trace : trace;
}.

#[export] Instance rstate_has_trace : HasTrace rstate := {
  s_trace := r_trace;
  s_put t s := mkSt (r_env s) (r_nodes s) (r_bkts s) (r_clis s) (r_next s) t;
}.
#[export] Instance rstate_has_trace_laws : HasTraceLaws rstate.
Proof. constructor; by intros; destruct s. Qed.

(** ** Assignments *)

Definition set_env (f : reader_env -> reader_env) (s : rstate) : rstate :=
  mkSt (f (r_env s)) (r_nodes s) (r_bkts s) (r_clis s) (r_next s) (r_trace s).
Definition set_nodes (f : nheap -> nheap) (s : rstate) : rstate :=
  mkSt (r_env s) (f (r_nodes s)) (r_bkts s) (r_clis s) (r_next s) (r_trace s).
Definition set_bkts (f : gmap loc lcap_rec_bucket -> gmap loc lcap_rec_bucket)
    (s : rstate) : rstate :=
  mkSt (r_env s) (r_nodes s) (f (r_bkts s)) (r_clis s) (r_next s) (r_trace s).
Definition set_clis (f : gmap loc client_state -> gmap loc client_state)
    (s : rstate) : rstate :=
  mkSt (r_env s) (r_nodes s) (r_bkts s) (f (r_clis s)) (r_next s) (r_trace s).

Definition set_clpriv (v : bool) (e : reader_env) : reader_env :=
  mkEnv (re_cfg e) v (re_zctx e) (re_sock e) (re_ident e) (re_stats e) (re_index e)
    (re_srec e) (re_bkt_idx e) (re_rec_cnt e) (re_current_open e) (re_deliver_next e)
    (re_cleanup_next e) (re_buckets e) (re_peers e).
Definition set_zmq (zctx sock : bool) (id : option conn_id) (e : reader_env) : reader_env :=
  mkEnv (re_cfg e) (re_clpriv e) zctx sock id (re_stats e) (re_index e)
    (re_srec e) (re_bkt_idx e) (re_rec_cnt e) (re_current_open e) (re_deliver_next e)
    (re_cleanup_next e) (re_buckets e) (re_peers e).
(** The counters of a stored record: next start index, records read, records held. *)
Definition set_counters (srec read cnt : Z) (e : reader_env) : reader_env :=
  mkEnv (re_cfg e) (re_clpriv e) (re_zctx e) (re_sock e) (re_ident e)
    (mkStats (rs_start_time (re_stats e)) read (rs_rec_sent (re_stats e))) (re_index e)
    srec (re_bkt_idx e) cnt (re_current_open e) (re_deliver_next e)
    (re_cleanup_next e) (re_buckets e) (re_peers e).
Definition set_start_time (t : Z * Z) (e : reader_env) : reader_env :=
  mkEnv (re_cfg e) (re_clpriv e) (re_zctx e) (re_sock e) (re_ident e)
    (mkStats t (rs_rec_read (re_stats e)) (rs_rec_sent (re_stats e))) (re_index e)
    (re_srec e) (re_bkt_idx e) (re_rec_cnt e) (re_current_open e) (re_deliver_next e)
    (re_cleanup_next e) (re_buckets e) (re_peers e).
Definition set_bkt_idx (v : Z) (e : reader_env) : reader_env :=
  mkEnv (re_cfg e) (re_clpriv e) (re_zctx e) (re_sock e) (re_ident e) (re_stats e)
    (re_index e) (re_srec e) v (re_rec_cnt e) (re_current_open e) (re_deliver_next e)
    (re_cleanup_next e) (re_buckets e) (re_peers e).
Definition set_cursors (open deliver cleanup : ptr) (e : reader_env) : reader_env :=
  mkEnv (re_cfg e) (re_clpriv e) (re_zctx e) (re_sock e) (re_ident e) (re_stats e)
    (re_index e) (re_srec e) (re_bkt_idx e) (re_rec_cnt e) open deliver cleanup
    (re_buckets e) (re_peers e).
Definition set_lists (buckets peers : list_hd) (e : reader_env) : reader_env :=
  mkEnv (re_cfg e) (re_clpriv e) (re_zctx e) (re_sock e) (re_ident e) (re_stats e)
    (re_index e) (re_srec e) (re_bkt_idx e) (re_rec_cnt e) (re_current_open e)
    (re_deliver_next e) (re_cleanup_next e) buckets peers.

Definition set_current_open (p : ptr) (e : reader_env) : reader_env :=
  set_cursors p (re_deliver_next e) (re_cleanup_next e) e.
Definition set_deliver_next (p : ptr) (e : reader_env) : reader_env :=
  set_cursors (re_current_open e) p (re_cleanup_next e) e.
Definition set_cleanup_next (p : ptr) (e : reader_env) : reader_env :=
  set_cursors (re_current_open e) (re_deliver_next e) p e.

Definition mod_env (f : reader_env -> reader_env) : M rstate unit := modify (set_env f).

(** The list operations on the two lists of the reader. *)
Definition on_buckets {A} (m : M qst A) : M rstate A :=
  zoom (fun s => mkQ (re_buckets (r_env s)) (r_nodes s))
       (fun q s => set_env (fun e => set_lists (q_list q) (re_peers e) e)
                     (set_nodes (fun _ => q_heap q) s)) m.
Definition on_peers {A} (m : M qst A) : M rstate A :=
  zoom (fun s => mkQ (re_peers (r_env s)) (r_nodes s))
       (fun q s => set_env (fun e => set_lists (re_buckets e) (q_list q) e)
                     (set_nodes (fun _ => q_heap q) s)) m.

(** ** Memory accesses *)

Definition load_bkt (b : loc) : M rstate lcap_rec_bucket := fun s =>
  match r_bkts s !! b with Some bk => Ok (bk, s) | None => Fault UseAfterFree end.
Definition store_bkt (b : loc) (bk : lcap_rec_bucket) : M rstate unit :=
  load_bkt b;; modify (set_bkts (insert b bk)).
Definition load_cli (c : loc) : M rstate client_state := fun s =>
  match r_clis s !! c with Some cs => Ok (cs, s) | None => Fault UseAfterFree end.
Definition store_cli (c : loc) (cs : client_state) : M rstate unit :=
  load_cli c;; modify (set_clis (insert c cs)).
(** [pos->member.ln_next] *)
Definition load_next (l : loc) : M rstate ptr := fun s =>
  match r_nodes s !! l with
  | Some nd => Ok (ln_next nd, s)
  | None => Fault UseAfterFree
  end.

(** A fresh location, with a zeroed list node. *)
Definition new_loc : M rstate loc := fun s =>
  Ok (r_next s,
      mkSt (r_env s) (<[r_next s := mkNode None None]> (r_nodes s)) (r_bkts s) (r_clis s)
        (Pos.succ (r_next s)) (r_trace s)).

(** Walks along a list visit each node once. *)
Definition walk_fuel (s : rstate) : nat := S (size (r_nodes s)).

Definition set_ready (v : bool) (bk : lcap_rec_bucket) : lcap_rec_bucket :=
  mkBucket (lrb_index bk) (lrb_expiry bk) v (lrb_size bk) (lrb_rec_count bk) (lrb_records bk).
Definition set_expiry (t : timespec) (bk : lcap_rec_bucket) : lcap_rec_bucket :=
  mkBucket (lrb_index bk) t (lrb_ready bk) (lrb_size bk) (lrb_rec_count bk) (lrb_records bk).
Definition set_cs_bucket (p : ptr) (cs : client_state) : client_state :=
  mkClient (cs_start cs) p (cs_ident cs).

Definition cfg_of (s : rstate) : lcap_cfg := re_cfg (r_env s).
Definition batch_of (s : rstate) : Z := ccf_rec_batch_count (cfg_of s).

(** ** The operations *)

Section reader.
Context `{World, ChangelogRec}.

Definition rec_bucket_add : M rstate Z :=
  slot_cnt ← gets batch_of;
  let bkt_sz := u64 (sizeof_bucket + slot_cnt * sizeof_ptr) in
  ok ← alloc bkt_sz;
  if negb ok then mret (- ENOMEM)
  else if bkt_sz <? sizeof_bucket then fail OutOfBounds
  else
    let slots := Z.to_nat ((bkt_sz - sizeof_bucket) / sizeof_ptr) in
    idx ← gets (re_bkt_idx ∘ r_env);
    b ← new_loc;
    modify (set_bkts (insert b (mkBucket idx {| tv_sec := 0; tv_nsec := 0 |} false 0 0
                                  (replicate slots None))));;
    mod_env (set_bkt_idx (idx + 1));;
    on_buckets (list_append b);;
    mod_env (set_current_open (Some b));;
    mret 0.

Definition conn_id_dup (cid : conn_id) : M rstate (option conn_id) :=
  ok ← alloc (sizeof_conn_id + ci_length cid);
  mret (if ok : bool then Some cid else None).

(** [env->re_rec_cnt >= cfg->ccf_rec_batch_count * cfg->ccf_max_bkt], the
    product being of type [int]. *)
Definition changelog_reader_full : M rstate bool :=
  cfg ← gets cfg_of;
  let p := ccf_rec_batch_count cfg * ccf_max_bkt cfg in
  if bool_decide (in_s 32 p) then gets (fun s => p <=? re_rec_cnt (r_env s))
  else fail IntOverflow.

Definition reader_device (e : reader_env) : option bytes :=
  mjoin (ccf_mdt (re_cfg e) !! Z.to_nat (re_index e)).

Definition build_reader_identity : M rstate Z :=
  odev ← gets (reader_device ∘ r_env);
  dev ← unwrap NullDeref odev;
  ok ← alloc (sizeof_conn_id + Z.of_nat (length dev));
  if negb ok then mret (- ENOMEM)
  else mod_env (fun e => set_zmq (re_zctx e) (re_sock e) (Some dev) e);; mret 0.

Definition changelog_reader_set_identity : M rstate Z :=
  rc ← build_reader_identity;
  if rc <? 0 then mret rc
  else
    oid ← gets (re_ident ∘ r_env);
    id ← unwrap NullDeref oid;
    rc ← ext (ZmqSetIdentity id);
    if rc <? 0 then mret rc else mret 0.

Definition BROKER_CONN_URL : bytes := of_str "tcp://localhost:8189".

(** [memset(env, 0, sizeof( *env))] and the two assignments after it. *)
Definition zero_env (cfg : lcap_cfg) (idx : Z) : reader_env :=
  mkEnv cfg false false false None (mkStats (0, 0) 0 0) idx
    0 0 0 None None None EMPTY_LIST_INITIALIZER EMPTY_LIST_INITIALIZER.

Definition gettimeofday : M rstate (Z * Z) :=
  ext GetTimeOfDay;; gets (fun s => w_clock (s_trace s)).

(** When the identity cannot be set, the message about it prints [ci_data] with
    [%s]: [re_ident] is followed and the identity read up to a NUL. *)
Definition changelog_reader_init (cfg : lcap_cfg) (idx : Z) : M rstate Z :=
  mod_env (fun _ => zero_env cfg idx);;
  now ← gettimeofday;
  mod_env (set_start_time now);;
  rc ← rec_bucket_add;
  if negb (rc =? 0) then mret rc
  else
    mod_env (fun e => let p := l_first (re_buckets e) in set_cursors p p p e);;
    rc ← ext ZmqCtxNew;
    if rc <? 0 then mret rc
    else
      mod_env (fun e => set_zmq true (re_sock e) (re_ident e) e);;
      rc ← ext ZmqSocket;
      if rc <? 0 then mret rc
      else
        mod_env (fun e => set_zmq (re_zctx e) true (re_ident e) e);;
        rc ← changelog_reader_set_identity;
        if rc <? 0 then
          oid ← gets (re_ident ∘ r_env);
          id ← unwrap NullDeref oid;
          unwrap OutOfBounds (cstr id);;
          mret rc
        else
          rc ← ext (ZmqConnect BROKER_CONN_URL);
          if rc <? 0 then mret rc else mret 0.

Definition signal_message (errcode : Z) (dev : bytes) : px_rpc_signal :=
  {| sig_hdr := {| op_type := op_code RPC_OP_SIGNAL; reserved := 0 |};
     sig_ret := u64 errcode;
     sig_mdtname := dev ++ replicate (128 - length dev) NUL |}.

(** [strcpy] into the 128 bytes of [pr_mdtname] needs room for the NUL. *)
Definition changelog_reader_signal (errcode : Z) : M rstate Z :=
  odev ← gets (reader_device ∘ r_env);
  dev ← unwrap NullDeref odev;
  if sizeof_mdtname <=? Z.of_nat (length dev) then fail OutOfBounds
  else
    send_part [] true
      (send_part dev true
         (send_part (enc_signal (signal_message errcode dev)) false (mret 0))).

(** The [duration], in milliseconds: the difference of the seconds is made an
    [int] and multiplied as one; [None] is the overflow of the product. *)
Definition stats_duration (start now : Z * Z) : option Z :=
  let d := s32 (fst now - fst start) * 1000 in
  if bool_decide (in_s 32 d) then Some (s32 (d + (Z.quot (snd now) 1000 - Z.quot (snd start) 1000)))
  else None.

(** What it prints, the rate included, is not modelled. *)
Definition changelog_reader_print_stats : M rstate Z :=
  now ← gettimeofday;
  start ← gets (rs_start_time ∘ re_stats ∘ r_env);
  unwrap IntOverflow (stats_duration start now);;
  mret 0.

Definition changelog_reader_release : M rstate Z :=
  sock ← gets (re_sock ∘ r_env);
  (if sock : bool then
     ext ZmqClose;; mod_env (fun e => set_zmq (re_zctx e) false (re_ident e) e)
   else mret tt);;
  zctx ← gets (re_zctx ∘ r_env);
  (if zctx : bool then
     ext ZmqCtxDestroy;; mod_env (fun e => set_zmq false (re_sock e) (re_ident e) e)
   else mret tt);;
  rc ← changelog_reader_print_stats;
  if rc <? 0 then mret rc else mret 0.

Definition bucket_next (bkt : ptr) : M rstate ptr :=
  match bkt with
  | None => mret None
  | Some b => load_next b
  end.

(** The loop of [rec_bucket_get]: from [tmp] to [re_deliver_next]. *)
Fixpoint mark_non_ready (fuel : nat) (tmp : ptr) : M rstate unit :=
  match fuel with
  | O => fail OutOfFuel
  | S fuel =>
      match tmp with
      | None => mret tt
      | Some t =>
          deliver ← gets (re_deliver_next ∘ r_env);
          if bool_decide (tmp = deliver) then mret tt
          else
            bk ← load_bkt t;
            store_bkt t (set_ready false bk);;
            next ← load_next t;
            mark_non_ready fuel next
      end
  end.

Definition rec_bucket_get : M rstate ptr :=
  cleanup ← gets (re_cleanup_next ∘ r_env);
  match cleanup with
  | None => fail AssertFail
  | Some b =>
      ext ClockGettime;;
      now ← gets (fun s => w_clock (s_trace s));
      bk ← load_bkt b;
      if tv_sec (lrb_expiry bk) <? fst now then
        fuel ← gets walk_fuel;
        mark_non_ready fuel (Some b);;
        mod_env (set_deliver_next (Some b));;
        next ← bucket_next (Some b);
        mod_env (set_deliver_next next);;
        mret (Some b)
      else
        deliver ← gets (re_deliver_next ∘ r_env);
        match deliver with
        | None => mret None
        | Some d =>
            next ← bucket_next (Some d);
            mod_env (set_deliver_next next);;
            mret (Some d)
        end
  end.

(** The [llapi_changelog_free] calls of [rec_bucket_destroy]. *)
Fixpoint free_records (n : nat) : M rstate unit :=
  match n with
  | O => mret tt
  | S n => ext LlapiChangelogFree;; free_records n
  end.

Definition rec_bucket_destroy (b : loc) : M rstate unit :=
  bk ← load_bkt b;
  free_records (Z.to_nat (lrb_rec_count bk));;
  modify (set_bkts (delete b));;
  modify (set_nodes (delete b)).

Definition rec_bucket_max_index (bk : lcap_rec_bucket) : M rstate Z :=
  if lrb_rec_count bk =? 0 then mret (-1)
  else
    r ← unwrap OutOfBounds (lrb_records bk !! Z.to_nat (lrb_rec_count bk - 1));
    r ← unwrap NullDeref r;
    mret (s64 (cr_index r)).

(** The end of [changelog_reader_rec_store], on the open bucket. *)
Definition rec_store_open (rec : bytes) : M rstate Z :=
  current ← gets (re_current_open ∘ r_env);
  c ← unwrap AssertFail current;
  batch_size ← gets batch_of;
  bk ← load_bkt c;
  assert (lrb_rec_count bk <? batch_size);;
  let idx := lrb_rec_count bk in
  if (idx <? 0) || (Z.of_nat (length (lrb_records bk)) <=? idx) then fail OutOfBounds
  else
    store_bkt c (mkBucket (lrb_index bk) (lrb_expiry bk) (lrb_ready bk)
                   (u64 (lrb_size bk + rec_len rec)) (idx + 1)
                   (<[Z.to_nat idx := Some rec]> (lrb_records bk)));;
    mret 0.

Definition changelog_reader_rec_store (rec : bytes) : M rstate Z :=
  current ← gets (re_current_open ∘ r_env);
  batch_size ← gets batch_of;
  full ← match current with
         | None => mret true
         | Some c => bk ← load_bkt c; mret (lrb_rec_count bk =? batch_size)
         end;
  if full : bool then
    rc ← rec_bucket_add;
    if negb (rc =? 0) then mret rc else rec_store_open rec
  else rec_store_open rec.
End reader.
