(* ===== verification/ReaderRep.v ===== *)
(** * The reader's memory as lists

    [rep s bks cls]: the heaps of [s] hold the buckets [bks] and the client
    states [cls], in the order of the reader's two linked lists. Every access
    and every operation of [Reader] is described by what it does to these two
    lists; the theorems about the reader are then about lists. *)
From S2P Require Import Prelude World Queue Idl LcapNet RpcUtils Config Reader.
From stdpp Require Import sorting.
Local Open Scope Z_scope.

Abbreviation bkt_list := (list (loc * lcap_rec_bucket)).
Abbreviation cli_list := (list (loc * client_state)).

Record rep (s : rstate) (bks : bkt_list) (cls : cli_list) : Prop := {
  rep_buckets : is_list (mkQ (re_buckets (r_env s)) (r_nodes s)) bks.*1;
  rep_peers : is_list (mkQ (re_peers (r_env s)) (r_nodes s)) cls.*1;
  rep_disj : forall l, l ∈ bks.*1 -> l ∉ cls.*1;
  rep_bmem : forall b bk, (b, bk) ∈ bks -> r_bkts s !! b = Some bk;
  rep_cmem : forall c cs, (c, cs) ∈ cls -> r_clis s !! c = Some cs;
  rep_fresh : forall l, is_Some (r_nodes s !! l) -> (l < r_next s)%positive;
}.

Lemma in_fst {A} (l : list (loc * A)) b x : (b, x) ∈ l -> b ∈ l.*1.
Proof. intros Hin. by apply (list_elem_of_fmap_2 fst) in Hin. Qed.

Lemma fst_in {A} (l : list (loc * A)) b : b ∈ l.*1 -> exists x, (b, x) ∈ l.
Proof. intros ([b' x] & -> & Hin)%list_elem_of_fmap_1. eauto. Qed.

(** The split of a list at a key, the form in which the rules take it. *)
Lemma fst_split {A} (l : list (loc * A)) b :
  b ∈ l.*1 -> exists x l1 l2, l = l1 ++ (b, x) :: l2.
Proof.
  intros (x & Hin)%fst_in. apply list_elem_of_split in Hin as (l1 & l2 & ->). eauto.
Qed.

Lemma fst_app_cons {A} (l1 l2 : list (loc * A)) b x :
  (l1 ++ (b, x) :: l2).*1 = l1.*1 ++ b :: l2.*1.
Proof. by rewrite fmap_app. Qed.

Lemma last_fst {A} (l : list (loc * A)) b x : last (l ++ [(b, x)]).*1 = Some b.
Proof. rewrite fst_app_cons. apply last_snoc. Qed.

Lemma nodup_key {A} (l1 l2 : list (loc * A)) b x b' x' :
  NoDup (l1 ++ (b, x) :: l2).*1 -> (b', x') ∈ l1 ++ l2 -> b' <> b.
Proof.
  rewrite fst_app_cons, <- Permutation_middle. intros [Hb _]%NoDup_cons Hin ->.
  apply Hb. rewrite <- fmap_app. by eapply in_fst.
Qed.

Section rep.
Implicit Types (s : rstate) (bks : bkt_list) (cls : cli_list).

Lemma rep_put t s bks cls : rep s bks cls -> rep (s_put t s) bks cls.
Proof. by intros []. Qed.

Lemma rep_extends s t s' bks cls : extends s t s' -> rep s bks cls -> rep s' bks cls.
Proof. intros ->. apply rep_put. Qed.

Lemma rep_env f s bks cls :
  (forall e, re_buckets (f e) = re_buckets e) -> (forall e, re_peers (f e) = re_peers e) ->
  rep s bks cls -> rep (set_env f s) bks cls.
Proof.
  intros Hb Hp [H1 H2 H3 H4 H5 H6].
  constructor; simpl; rewrite ?Hb, ?Hp; try done.
Qed.

Lemma rep_store_bkt s l1 b bk bk' l2 cls :
  rep s (l1 ++ (b, bk) :: l2) cls ->
  rep (set_bkts (insert b bk') s) (l1 ++ (b, bk') :: l2) cls.
Proof.
  intros [H1 H2 H3 H4 H5 H6]. pose proof (il_nodup _ _ H1) as Hnd.
  rewrite fst_app_cons in *. constructor; simpl; rewrite ?fst_app_cons; try done.
  intros b' x Hin. apply elem_of_app in Hin as Hin'. rewrite elem_of_cons in Hin'.
  assert ((b', x) ∈ l1 ++ l2 \/ (b', x) = (b, bk')) as [Hl|[= -> ->]].
  { rewrite elem_of_app. tauto. }
  - rewrite lookup_insert_ne.
    + apply H4. rewrite elem_of_app, elem_of_cons. rewrite elem_of_app in Hl. tauto.
    + intros ->. rewrite <- (fst_app_cons l1 l2 b' bk) in Hnd.
      by apply (nodup_key _ _ _ _ _ _ Hnd Hl).
  - by rewrite lookup_insert_eq.
Qed.

Lemma rep_store_cli s bks l1 c cs cs' l2 :
  rep s bks (l1 ++ (c, cs) :: l2) ->
  rep (set_clis (insert c cs') s) bks (l1 ++ (c, cs') :: l2).
Proof.
  intros [H1 H2 H3 H4 H5 H6]. pose proof (il_nodup _ _ H2) as Hnd.
  rewrite fst_app_cons in *. constructor; simpl; rewrite ?fst_app_cons; try done.
  intros b' x Hin. apply elem_of_app in Hin as Hin'. rewrite elem_of_cons in Hin'.
  assert ((b', x) ∈ l1 ++ l2 \/ (b', x) = (c, cs')) as [Hl|[= -> ->]].
  { rewrite elem_of_app. tauto. }
  - rewrite lookup_insert_ne.
    + apply H5. rewrite elem_of_app, elem_of_cons. rewrite elem_of_app in Hl. tauto.
    + intros ->. rewrite <- (fst_app_cons l1 l2 b' cs) in Hnd.
      by apply (nodup_key _ _ _ _ _ _ Hnd Hl).
  - by rewrite lookup_insert_eq.
Qed.

(** A new object is none of the old ones. *)
Lemma rep_fresh_bkt s bks cls : rep s bks cls -> r_next s ∉ bks.*1.
Proof.
  intros Hr Hin. destruct (is_list_in _ _ _ (rep_buckets _ _ _ Hr) Hin) as [nd Hnd].
  apply (Pos.lt_irrefl (r_next s)), (rep_fresh _ _ _ Hr). by exists nd.
Qed.
Lemma rep_fresh_cli s bks cls : rep s bks cls -> r_next s ∉ cls.*1.
Proof.
  intros Hr Hin. destruct (is_list_in _ _ _ (rep_peers _ _ _ Hr) Hin) as [nd Hnd].
  apply (Pos.lt_irrefl (r_next s)), (rep_fresh _ _ _ Hr). by exists nd.
Qed.

Context {E : fault -> Prop}.

Lemma wp_load_bkt s bks cls b bk Q :
  rep s bks cls -> (b, bk) ∈ bks -> Q bk s -> wp (load_bkt b) Q E s.
Proof.
  intros Hr Hin HQ. unfold wp, load_bkt. by rewrite (rep_bmem _ _ _ Hr b bk Hin).
Qed.

Lemma wp_store_bkt s l1 b bk bk' l2 cls Q :
  rep s (l1 ++ (b, bk) :: l2) cls -> Q tt (set_bkts (insert b bk') s) ->
  wp (store_bkt b bk') Q E s.
Proof.
  intros Hr HQ. unfold store_bkt. wp_steps. eapply wp_load_bkt; [done|..|done].
  apply elem_of_app. right. by left.
Qed.

Lemma wp_load_cli s bks cls c cs Q :
  rep s bks cls -> (c, cs) ∈ cls -> Q cs s -> wp (load_cli c) Q E s.
Proof.
  intros Hr Hin HQ. unfold wp, load_cli. by rewrite (rep_cmem _ _ _ Hr c cs Hin).
Qed.

Lemma wp_store_cli s bks l1 c cs cs' l2 Q :
  rep s bks (l1 ++ (c, cs) :: l2) -> Q tt (set_clis (insert c cs') s) ->
  wp (store_cli c cs') Q E s.
Proof.
  intros Hr HQ. unfold store_cli. wp_steps. eapply wp_load_cli; [done|..|done].
  apply elem_of_app. right. by left.
Qed.

Lemma wp_load_next_bkt s l1 b bk l2 cls Q :
  rep s (l1 ++ (b, bk) :: l2) cls -> Q (head l2.*1) s -> wp (load_next b) Q E s.
Proof.
  intros Hr HQ. pose proof (rep_buckets _ _ _ Hr) as Hl. rewrite fst_app_cons in Hl.
  apply is_list_mid in Hl. simpl in Hl. unfold wp, load_next. by rewrite Hl.
Qed.

Lemma wp_load_next_cli s bks l1 c cs l2 Q :
  rep s bks (l1 ++ (c, cs) :: l2) -> Q (head l2.*1) s -> wp (load_next c) Q E s.
Proof.
  intros Hr HQ. pose proof (rep_peers _ _ _ Hr) as Hl. rewrite fst_app_cons in Hl.
  apply is_list_mid in Hl. simpl in Hl. unfold wp, load_next. by rewrite Hl.
Qed.

(** [walk_fuel] is enough for a walk over the buckets or over the clients. *)
Lemma walk_fuel_list s q xs : is_list (mkQ q (r_nodes s)) xs -> (length xs < walk_fuel s)%nat.
Proof.
  intros Hl. unfold walk_fuel. apply Nat.lt_succ_r.
  rewrite <- (size_list_to_set (C := gset loc) xs) by apply (il_nodup _ _ Hl).
  rewrite <- size_dom. apply subseteq_size. intros x Hx%elem_of_list_to_set.
  apply elem_of_dom. by apply (is_list_in _ _ _ Hl).
Qed.
End rep.

(** ** Growing and shrinking the lists *)

Section updates.
Implicit Types (s : rstate) (bks : bkt_list) (cls : cli_list).

(** What a new client at the end of the list does to the memory. *)
Lemma rep_append_cli s bks cls cs :
  rep s bks cls ->
  let c := r_next s in
  let s1 := set_clis (insert c cs)
              (mkSt (r_env s) (<[c := mkNode None None]> (r_nodes s)) (r_bkts s) (r_clis s)
                 (Pos.succ c) (r_trace s)) in
  wp (on_peers (list_append c)) (fun _ s' => rep s' bks (cls ++ [(c, cs)]) /\
    exists hd nodes, s' = set_env (fun e => set_lists (re_buckets e) hd e)
                            (set_nodes (fun _ => nodes) s1)) safe s1.
Proof.
  intros Hr c s1. unfold on_peers. rewrite wp_zoom.
  pose proof (rep_fresh_bkt _ _ _ Hr) as Hb. pose proof (rep_fresh_cli _ _ _ Hr) as Hc.
  destruct Hr as [H1 H2 H3 H4 H5 H6]. subst s1. simpl.
  eapply wp_mono; [eapply (list_append_spec _ cls.*1 c)| |done].
  - eapply is_list_same; [|exact H2]. intros x Hx. simpl.
    rewrite lookup_insert_ne; [done|]. by intros <-.
  - done.
  - simpl. rewrite lookup_insert_eq. eauto.
  - intros _ [hd nodes] [Hl Hout]. simpl in Hout. split; [|by exists hd, nodes].
    constructor; simpl; rewrite ?fmap_app; simpl.
    + eapply is_list_same; [|exact H1]. intros x Hx. rewrite Hout.
      * rewrite lookup_insert_ne; [done|]. by intros <-.
      * intros [-> |Hin]%elem_of_cons; [done|]. by apply (H3 x).
    + exact Hl.
    + intros l Hl1 [Hl2|Hl2%list_elem_of_singleton]%elem_of_app; [by apply (H3 l)|by subst].
    + done.
    + intros c' cs' [Hin|Hin%list_elem_of_singleton]%elem_of_app.
      * rewrite lookup_insert_ne; [by apply H5|]. intros <-. by apply Hc, (in_fst _ _ cs').
      * simplify_eq. by rewrite lookup_insert_eq.
    + intros l Hsome. assert (l = c \/ is_Some (r_nodes s !! l)) as [-> |Hold].
      { destruct (decide (l = c)); [by left|right].
        destruct (decide (l ∈ cls.*1)) as [Hin|Hnin].
        - by apply (is_list_in _ _ _ H2).
        - rewrite Hout in Hsome by (by intros [?|?]%elem_of_cons).
          by rewrite lookup_insert_ne in Hsome by done. }
      * lia.
      * specialize (H6 _ Hold). subst c. lia.
Qed.

(** Objects that are in neither list may be freed. *)
Lemma rep_free_cli s bks cls c :
  rep s bks cls -> c ∉ bks.*1 -> c ∉ cls.*1 ->
  rep (set_nodes (delete c) (set_clis (delete c) s)) bks cls.
Proof.
  intros [H1 H2 H3 H4 H5 H6] Hb Hc. constructor; simpl; try done.
  - eapply is_list_same; [|exact H1]. intros x Hx. rewrite lookup_delete_ne; congruence.
  - eapply is_list_same; [|exact H2]. intros x Hx. rewrite lookup_delete_ne; congruence.
  - intros c' cs' Hin. rewrite lookup_delete_ne; [by apply H5|].
    intros ->. by apply Hc, (in_fst _ _ cs').
  - intros l [nd Hnd]. apply lookup_delete_Some in Hnd as [_ Hnd]. apply H6. by exists nd.
Qed.

Lemma rep_free_bkt s bks cls b :
  rep s bks cls -> b ∉ bks.*1 -> b ∉ cls.*1 ->
  rep (set_nodes (delete b) (set_bkts (delete b) s)) bks cls.
Proof.
  intros [H1 H2 H3 H4 H5 H6] Hb Hc. constructor; simpl; try done.
  - eapply is_list_same; [|exact H1]. intros x Hx. rewrite lookup_delete_ne; congruence.
  - eapply is_list_same; [|exact H2]. intros x Hx. rewrite lookup_delete_ne; congruence.
  - intros b' bk' Hin. rewrite lookup_delete_ne; [by apply H4|].
    intros ->. by apply Hb, (in_fst _ _ bk').
  - intros l [nd Hnd]. apply lookup_delete_Some in Hnd as [_ Hnd]. apply H6. by exists nd.
Qed.

(** A list operation that leaves the other list and the rest alone. *)
Lemma list_remove_nodes q nodes xs n ys (Q : unit -> qst -> Prop) :
  is_list (mkQ q nodes) (xs ++ n :: ys) ->
  (forall q' nodes', is_list (mkQ q' nodes') (xs ++ ys) ->
     same_outside (xs ++ n :: ys) nodes nodes' ->
     (forall l, is_Some (nodes' !! l) -> is_Some (nodes !! l)) ->
     Q tt (mkQ q' nodes')) ->
  wp (list_remove n) Q safe (mkQ q nodes).
Proof.
  intros Hl HQ. wp_apply (list_remove_spec _ _ _ _ Hl).
  intros [] [q' nodes'] (Hl' & Hn & Hout). apply HQ; [done|done|].
  intros l Hsome. destruct (decide (l ∈ xs ++ n :: ys)) as [Hin|Hnin].
  - by apply (is_list_in _ _ _ Hl).
  - simpl in Hout. by rewrite Hout in Hsome.
Qed.

Lemma rep_remove_cli s bks k1 c cs k2 :
  rep s bks (k1 ++ (c, cs) :: k2) ->
  wp (on_peers (list_remove c)) (fun _ s' => rep s' bks (k1 ++ k2) /\
    exists hd nodes, s' = set_env (fun e => set_lists (re_buckets e) hd e)
                            (set_nodes (fun _ => nodes) s)) safe s.
Proof.
  intros [H1 H2 H3 H4 H5 H6]. unfold on_peers. rewrite wp_zoom.
  rewrite fst_app_cons in *. eapply list_remove_nodes; [exact H2|].
  intros q' nodes' Hl Hout Hsub. split; [|eauto].
  constructor; simpl; try done.
  - eapply is_list_same; [|exact H1]. intros x Hx. apply Hout. by apply H3.
  - by rewrite fmap_app.
  - intros l Hl1 Hl2. apply (H3 l Hl1). rewrite fmap_app, elem_of_app in Hl2.
    rewrite elem_of_app, elem_of_cons. tauto.
  - intros c' cs' Hin. apply H5. rewrite elem_of_app in Hin.
    rewrite elem_of_app, elem_of_cons. tauto.
  - intros l Hl'. by apply H6, Hsub.
Qed.

Lemma rep_remove_bkt s l1 b bk l2 cls :
  rep s (l1 ++ (b, bk) :: l2) cls ->
  wp (on_buckets (list_remove b)) (fun _ s' => rep s' (l1 ++ l2) cls /\
    exists hd nodes, s' = set_env (fun e => set_lists hd (re_peers e) e)
                            (set_nodes (fun _ => nodes) s)) safe s.
Proof.
  intros [H1 H2 H3 H4 H5 H6]. unfold on_buckets. rewrite wp_zoom.
  rewrite fst_app_cons in *. eapply list_remove_nodes; [exact H1|].
  intros q' nodes' Hl Hout Hsub. split; [|eauto].
  constructor; simpl; try done.
  - by rewrite fmap_app.
  - eapply is_list_same; [|exact H2]. intros x Hx. apply Hout. intros Hin. by apply (H3 x).
  - intros l Hl1 Hl2. apply (H3 l); [|done]. rewrite fmap_app, elem_of_app in Hl1.
    rewrite elem_of_app, elem_of_cons. tauto.
  - intros b' bk' Hin. apply H4. rewrite elem_of_app in Hin.
    rewrite elem_of_app, elem_of_cons. tauto.
  - intros l Hl'. by apply H6, Hsub.
Qed.

(** An element of one list is nowhere else. *)
Lemma rep_unique_cli s bks k1 c cs k2 :
  rep s bks (k1 ++ (c, cs) :: k2) -> (c ∉ bks.*1) /\ (c ∉ (k1 ++ k2).*1).
Proof.
  intros Hr. pose proof (il_nodup _ _ (rep_peers _ _ _ Hr)) as Hnd.
  rewrite fst_app_cons in Hnd. apply nodup_cut in Hnd as [Hn _]. rewrite <- fmap_app in Hn.
  split; [|done]. intros Hin. apply (rep_disj _ _ _ Hr c Hin).
  rewrite fst_app_cons, elem_of_app, elem_of_cons. tauto.
Qed.

Lemma rep_unique_bkt s l1 b bk l2 cls :
  rep s (l1 ++ (b, bk) :: l2) cls -> (b ∉ (l1 ++ l2).*1) /\ (b ∉ cls.*1).
Proof.
  intros Hr. pose proof (il_nodup _ _ (rep_buckets _ _ _ Hr)) as Hnd.
  rewrite fst_app_cons in Hnd. apply nodup_cut in Hnd as [Hn _]. rewrite <- fmap_app in Hn.
  split; [done|]. apply (rep_disj _ _ _ Hr).
  rewrite fst_app_cons, elem_of_app, elem_of_cons. tauto.
Qed.
End updates.
