(* ===== verification/ReaderInv.v ===== *)
(** * The reader's invariant and its bucket operations

    [env_inv] says how the cursors and counters of the reader describe its
    buckets and clients; each operation of [Reader] is shown to do what it is
    meant to do to the lists, and to keep the invariant. *)
From S2P Require Import Prelude World Queue Idl LcapNet RpcUtils Config Reader ReaderRep.
From stdpp Require Import sorting.
Local Open Scope Z_scope.

Section defs.
Context `{ChangelogRec}.

(** The records of a bucket. *)
Definition bk_recs (bk : lcap_rec_bucket) : list bytes :=
  omap id (take (Z.to_nat (lrb_rec_count bk)) (lrb_records bk)).

(** The memory of a record holds what is copied from it, far less than 4 GB. *)
Definition rec_ok (r : bytes) : Prop :=
  0 <= rec_len r <= Z.of_nat (length r) /\ rec_len r < 2 ^ 32.

Definition sizes (rs : list bytes) : Z := foldr Z.add 0 (rec_len <$> rs).

Record bucket_ok (batch : Z) (bk : lcap_rec_bucket) : Prop := {
  bo_count : 0 <= lrb_rec_count bk <= batch;
  bo_slots : Z.of_nat (length (lrb_records bk)) = batch;
  bo_live : take (Z.to_nat (lrb_rec_count bk)) (lrb_records bk) = Some <$> bk_recs bk;
  bo_recs : Forall rec_ok (bk_recs bk);
  bo_size : lrb_size bk = sizes (bk_recs bk);
}.

(** The records that the reader holds, oldest first. *)
Definition stream (bks : bkt_list) : list bytes := concat ((bk_recs ∘ snd) <$> bks).

Definition capacity (cfg : lcap_cfg) : Z := ccf_rec_batch_count cfg * ccf_max_bkt cfg.

(** A configuration with positive sizes whose product is an [int], a device
    for the reader [idx] and a changelog reader identifier. *)
Definition cfg_ok (cfg : lcap_cfg) (idx : Z) : Prop :=
  (0 < ccf_rec_batch_count cfg /\ 0 < ccf_max_bkt cfg /\ capacity cfg < 2 ^ 31) /\
  is_Some (mjoin (ccf_mdt cfg !! Z.to_nat idx)) /\ is_Some (ccf_clreader cfg).

Record env_inv (e : reader_env) (bks : bkt_list) (cls : cli_list) : Prop := {
  ei_cfg : cfg_ok (re_cfg e) (re_index e);
  ei_bounds : Forall (fun x => bucket_ok (ccf_rec_batch_count (re_cfg e)) (snd x)) bks;
  ei_ne : bks <> [];
  ei_open : re_current_open e = last bks.*1;
  ei_cleanup : re_cleanup_next e = head bks.*1;
  ei_deliver : forall d, re_deliver_next e = Some d -> d ∈ bks.*1;
  ei_cnt : re_rec_cnt e = Z.of_nat (length (stream bks));
  ei_cap : re_rec_cnt e <= capacity (re_cfg e);
  ei_owner : forall c cs b, (c, cs) ∈ cls -> cs_bucket cs = Some b -> b ∈ bks.*1;
  ei_idents : NoDup ((cs_ident ∘ snd) <$> cls);
  ei_sorted : StronglySorted Z.lt (cr_index <$> stream bks);
  ei_srec : 0 <= re_srec e < 2 ^ 63;
  ei_below : Forall (fun r => 0 <= cr_index r < re_srec e) (stream bks);
}.

Definition reader_inv (s : rstate) (bks : bkt_list) (cls : cli_list) : Prop :=
  rep s bks cls /\ env_inv (r_env s) bks cls.

Definition new_bucket (idx batch : Z) : lcap_rec_bucket :=
  mkBucket idx {| tv_sec := 0; tv_nsec := 0 |} false 0 0
    (replicate (Z.to_nat batch) None).
End defs.

Section lemmas.
Context `{World, ChangelogRec}.
Implicit Types (s : rstate) (bks : bkt_list) (cls : cli_list).

Lemma stream_app bks1 bks2 : stream (bks1 ++ bks2) = stream bks1 ++ stream bks2.
Proof. unfold stream. by rewrite fmap_app, concat_app. Qed.

Lemma stream_one b bk : stream [(b, bk)] = bk_recs bk.
Proof. unfold stream. simpl. apply app_nil_r. Qed.

Lemma sizes_app rs1 rs2 : sizes (rs1 ++ rs2) = sizes rs1 + sizes rs2.
Proof.
  unfold sizes. rewrite fmap_app. induction (rec_len <$> rs1) as [|z zs IH]; simpl; lia.
Qed.

Lemma sizes_nonneg rs : Forall rec_ok rs -> 0 <= sizes rs.
Proof.
  unfold sizes. induction 1 as [|r rs [[Hr _] _] _ IH]; [done|].
  rewrite fmap_cons. cbn [foldr]. lia.
Qed.

Lemma sizes_bound rs : Forall rec_ok rs -> sizes rs <= Z.of_nat (length rs) * 2 ^ 32.
Proof.
  unfold sizes. induction 1 as [|r rs [_ Hr] _ IH]; [done|].
  rewrite fmap_cons. cbn [foldr length]. lia.
Qed.

Lemma length_bk_recs batch bk :
  bucket_ok batch bk -> Z.of_nat (length (bk_recs bk)) = lrb_rec_count bk.
Proof.
  intros [Hc Hs Hl _ _]. apply (f_equal length) in Hl.
  rewrite length_fmap, length_take in Hl. lia.
Qed.

Lemma new_bucket_recs idx batch : bk_recs (new_bucket idx batch) = [].
Proof. done. Qed.

Lemma new_bucket_ok idx batch : 0 < batch -> bucket_ok batch (new_bucket idx batch).
Proof.
  intros Hb. constructor; simpl; [lia| |done|by apply Forall_nil_2|done].
  rewrite length_replicate. lia.
Qed.

(** ** [rec_bucket_add] *)

Lemma bucket_alloc_size batch :
  0 < batch < 2 ^ 31 -> u64 (sizeof_bucket + batch * sizeof_ptr) = 64 + batch * 8.
Proof. intros. apply to_u_id. unfold in_u, sizeof_bucket, sizeof_ptr. lia. Qed.

Lemma cfg_ok_batch cfg idx :
  cfg_ok cfg idx -> 0 < ccf_rec_batch_count cfg < 2 ^ 31 /\ in_s 32 (capacity cfg)
                /\ 0 < capacity cfg.
Proof. unfold cfg_ok, capacity, in_s. intros [(? & ? & ?) _]. nia. Qed.

(** What a new bucket at the end of the list does to the memory. *)
Lemma rep_append s bks cls nb f :
  rep s bks cls ->
  (forall e, re_buckets (f e) = re_buckets e) -> (forall e, re_peers (f e) = re_peers e) ->
  let b := r_next s in
  let s1 := set_env f (set_bkts (insert b nb)
              (mkSt (r_env s) (<[b := mkNode None None]> (r_nodes s)) (r_bkts s) (r_clis s)
                 (Pos.succ b) (r_trace s))) in
  wp (on_buckets (list_append b)) (fun _ s' => rep s' (bks ++ [(b, nb)]) cls /\
    exists hd nodes, s' = set_env (fun e => set_lists hd (re_peers e) e)
                            (set_nodes (fun _ => nodes) s1)) safe s1.
Proof.
  intros Hr Hf1 Hf2 b s1. unfold on_buckets. rewrite wp_zoom.
  pose proof (rep_fresh_bkt _ _ _ Hr) as Hb. pose proof (rep_fresh_cli _ _ _ Hr) as Hc.
  destruct Hr as [H1 H2 H3 H4 H5 H6]. subst s1. simpl. rewrite Hf1.
  eapply wp_mono; [eapply (list_append_spec _ bks.*1 b)| |done].
  - eapply is_list_same; [|exact H1]. intros x Hx. simpl.
    rewrite lookup_insert_ne; [done|]. by intros <-.
  - done.
  - simpl. rewrite lookup_insert_eq. eauto.
  - intros _ [hd nodes] [Hl Hout]. simpl in Hout. split; [|by exists hd, nodes].
    constructor; simpl; rewrite ?Hf2, ?fmap_app; simpl.
    + exact Hl.
    + eapply is_list_same; [|exact H2]. intros x Hx. rewrite Hout.
      * rewrite lookup_insert_ne; [done|]. by intros <-.
      * intros [-> |Hin]%elem_of_cons; [done|]. by apply (H3 x).
    + intros l [Hl1|Hl2%list_elem_of_singleton]%elem_of_app; [by apply H3|by subst].
    + intros b' bk' [Hin|Hin%list_elem_of_singleton]%elem_of_app.
      * rewrite lookup_insert_ne; [by apply H4|]. intros <-. by apply Hb, (in_fst _ _ bk').
      * simplify_eq. by rewrite lookup_insert_eq.
    + done.
    + intros l Hsome. assert (l = b \/ is_Some (r_nodes s !! l)) as [-> |Hold].
      { destruct (decide (l = b)); [by left|right].
        destruct (decide (l ∈ bks.*1)) as [Hin|Hnin].
        - by apply (is_list_in _ _ _ H1).
        - rewrite Hout in Hsome by (by intros [?|?]%elem_of_cons).
          by rewrite lookup_insert_ne in Hsome by done. }
      * lia.
      * specialize (H6 _ Hold). subst b. lia.
Qed.

(** The environment after a bucket was added. *)
Definition env_added (b : loc) (hd : list_hd) (e : reader_env) : reader_env :=
  set_current_open (Some b) (set_lists hd (re_peers e) (set_bkt_idx (re_bkt_idx e + 1) e)).

Lemma rec_bucket_add_spec s bks cls :
  rep s bks cls -> 0 < batch_of s < 2 ^ 31 ->
  wp rec_bucket_add (fun rc s' => exists t, silent t /\ recvs_of t = [] /\
    r_trace s' = r_trace s ++ t /\
    (rc = - ENOMEM /\ out_of_memory /\ extends s t s' \/
     rc = 0 /\ let b := r_next s in
       rep s' (bks ++ [(b, new_bucket (re_bkt_idx (r_env s)) (batch_of s))]) cls
       /\ exists hd, r_env s' = env_added b hd (r_env s))) safe s.
Proof.
  intros Hr Hb. unfold rec_bucket_add. wp_steps. rewrite wp_alloc.
  rewrite (bucket_alloc_size _ Hb). set (c := Alloc _).
  assert (Hsil : silent [(c, w_rc (s_trace s) c)]) by done.
  destruct (0 <=? _) eqn:Hal; simpl negb; cbv iota; wp_steps.
  2: { apply alloc_failed in Hal. exists [(c, w_rc (s_trace s) c)].
       split_and!; [done|done|done|by left]. }
  rewrite (proj2 (Z.ltb_ge _ _)) by (unfold sizeof_bucket; lia). wp_steps.
  unfold new_loc. unfold wp at 1. unfold mod_env. wp_steps.
  replace (Z.to_nat _) with (Z.to_nat (batch_of s)) by
    (unfold sizeof_bucket, sizeof_ptr; f_equal; rewrite Z.add_simpl_l, Z.div_mul; lia).
  apply (rep_put (s_trace s ++ [(c, w_rc (s_trace s) c)])) in Hr as Hr'.
  eapply wp_mono; [eapply (rep_append _ _ _ (new_bucket (re_bkt_idx (r_env s)) (batch_of s))
    (set_bkt_idx (re_bkt_idx (r_env s) + 1)) Hr'); done| |done].
  intros _ s' (Hs' & hd & nodes & ->). wp_steps. exists [(c, w_rc (s_trace s) c)].
  split_and!; [done|done|done|]. right. split; [done|]. split.
  - by apply (rep_env (set_current_open _)).
  - by exists hd.
Qed.

Lemma env_inv_add e bks cls b hd :
  env_inv e bks cls ->
  env_inv (env_added b hd e)
    (bks ++ [(b, new_bucket (re_bkt_idx e) (ccf_rec_batch_count (re_cfg e)))]) cls.
Proof.
  intros [Hcfg Hb Hne Ho Hcl Hd Hcnt Hcap How Hid Hso Hsr Hbe].
  constructor; simpl; rewrite ?stream_app, ?stream_one, ?new_bucket_recs, ?app_nil_r; try done.
  - apply Forall_app. split; [done|]. apply Forall_singleton. simpl.
    apply new_bucket_ok. apply Hcfg.
  - by destruct bks.
  - by rewrite last_fst.
  - rewrite fmap_app, head_app_ne; [done|]. by destruct bks.
  - intros d Hd'. rewrite fmap_app. apply elem_of_app. left. by apply Hd.
  - intros c cs b' Hin Hb'. rewrite fmap_app. apply elem_of_app. left. by eapply How.
Qed.

(** ** [changelog_reader_rec_store] *)

Definition put_rec (rec : bytes) (bk : lcap_rec_bucket) : lcap_rec_bucket :=
  mkBucket (lrb_index bk) (lrb_expiry bk) (lrb_ready bk) (u64 (lrb_size bk + rec_len rec))
    (lrb_rec_count bk + 1) (<[Z.to_nat (lrb_rec_count bk) := Some rec]> (lrb_records bk)).

Lemma put_rec_recs batch bk rec :
  bucket_ok batch bk -> lrb_rec_count bk < batch ->
  bk_recs (put_rec rec bk) = bk_recs bk ++ [rec].
Proof.
  intros [Hc Hs _ _ _] Hlt. unfold bk_recs. simpl.
  replace (Z.to_nat (lrb_rec_count bk + 1)) with (S (Z.to_nat (lrb_rec_count bk))) by lia.
  set (n := Z.to_nat (lrb_rec_count bk)).
  rewrite (take_S_r _ _ (Some rec)), omap_app by (apply list_lookup_insert_eq; lia).
  by rewrite take_insert_ge by lia.
Qed.

Lemma put_rec_ok batch bk rec :
  bucket_ok batch bk -> batch < 2 ^ 31 -> lrb_rec_count bk < batch -> rec_ok rec ->
  bucket_ok batch (put_rec rec bk).
Proof.
  intros Hok Hb Hlt Hr. pose proof (put_rec_recs _ _ rec Hok Hlt) as Hrecs.
  pose proof (length_bk_recs _ _ Hok) as Hlen. destruct Hok as [Hc Hs Hl Hf Hz].
  constructor; rewrite ?Hrecs; simpl; [lia|by rewrite length_insert| | |].
  - replace (Z.to_nat (lrb_rec_count bk + 1)) with (S (Z.to_nat (lrb_rec_count bk))) by lia.
    rewrite (take_S_r _ _ (Some rec)) by (apply list_lookup_insert_eq; lia).
    rewrite take_insert_ge by lia. by rewrite Hl, fmap_app.
  - apply Forall_app. split; [done|by apply Forall_singleton].
  - pose proof (sizes_nonneg _ Hf). pose proof (sizes_bound _ Hf). destruct Hr as [Hr1 Hr2].
    rewrite Hz, sizes_app. change (sizes [rec]) with (rec_len rec + 0). rewrite Z.add_0_r.
    apply to_u_id. unfold in_u. lia.
Qed.

Lemma rec_store_open_spec s bks c bk cls rec :
  rep s (bks ++ [(c, bk)]) cls -> re_current_open (r_env s) = Some c ->
  bucket_ok (batch_of s) bk -> lrb_rec_count bk < batch_of s ->
  wp (rec_store_open rec) (fun rc s' => rc = 0 /\
    s' = set_bkts (insert c (put_rec rec bk)) s) safe s.
Proof.
  intros Hr Ho Hok Hlt. unfold rec_store_open. wp_steps. cbn [compose]. rewrite Ho. wp_steps.
  eapply wp_load_bkt; [done|apply elem_of_app; right; by left|]. wp_steps.
  rewrite (proj2 (Z.ltb_lt _ _) Hlt). destruct Hok as [Hc Hs _ _ _].
  rewrite (proj2 (Z.ltb_ge _ _)) by lia. rewrite (proj2 (Z.leb_gt _ _)) by lia.
  cbn [orb]. wp_steps. by eapply wp_store_bkt.
Qed.

(** What a store may change in the environment: it opens a bucket or not. *)
Definition same_or_added (e e' : reader_env) : Prop :=
  e' = e \/ exists b hd, e' = env_added b hd e.

Lemma stream_put l c bk batch rec :
  bucket_ok batch bk -> lrb_rec_count bk < batch ->
  stream (l ++ [(c, put_rec rec bk)]) = stream (l ++ [(c, bk)]) ++ [rec].
Proof.
  intros Hok Hlt. rewrite !stream_app, !stream_one, (put_rec_recs _ _ _ Hok Hlt).
  apply app_assoc.
Qed.

(** The state of a store that succeeded: [rec] went to the open bucket [c],
    the last one. *)
Definition stored (s : rstate) (bks : bkt_list) (cls : cli_list) (rec : bytes)
    (s' : rstate) (l : bkt_list) (c : loc) (bk : lcap_rec_bucket) : Prop :=
  rep s' (l ++ [(c, put_rec rec bk)]) cls /\ env_inv (r_env s') (l ++ [(c, bk)]) cls /\
  lrb_rec_count bk < batch_of s' /\ stream (l ++ [(c, bk)]) = stream bks /\
  same_or_added (r_env s) (r_env s') /\
  (bks = l ++ [(c, bk)] \/ bks = l).

Lemma rec_store_room s bks l c bk cls rec :
  reader_inv s (l ++ [(c, bk)]) cls -> lrb_rec_count bk < batch_of s ->
  stream (l ++ [(c, bk)]) = stream bks ->
  wp (rec_store_open rec) (fun rc s' => rc = 0 /\ r_trace s' = r_trace s /\
    r_env s' = r_env s /\ rep s' (l ++ [(c, put_rec rec bk)]) cls) safe s.
Proof.
  intros [Hr He] Hlt Hst. eapply wp_mono; [eapply rec_store_open_spec|..|done]; try done.
  - by rewrite (ei_open _ _ _ He), last_fst.
  - pose proof (ei_bounds _ _ _ He) as [_ Hb]%Forall_snoc. exact Hb.
  - cbn beta. intros rc s' [-> ->]. split_and!; try done. by eapply rep_store_bkt.
Qed.

Lemma reader_inv_batch s bks cls : reader_inv s bks cls -> 0 < batch_of s < 2 ^ 31.
Proof. intros [_ He]. eapply cfg_ok_batch, (ei_cfg _ _ _ He). Qed.

Lemma rec_store_spec s bks cls rec :
  reader_inv s bks cls ->
  wp (changelog_reader_rec_store rec) (fun rc s' => exists t,
    silent t /\ recvs_of t = [] /\ r_trace s' = r_trace s ++ t /\
    (rc = - ENOMEM /\ extends s t s' \/
     rc = 0 /\ exists l c bk, stored s bks cls rec s' l c bk)) safe s.
Proof.
  intros Hinv. pose proof Hinv as [Hr He]. pose proof (reader_inv_batch _ _ _ Hinv) as Hb.
  pose proof (ei_open _ _ _ He) as Ho. pose proof (ei_bounds _ _ _ He) as Hbo.
  destruct bks as [|[c bk] l _] using rev_ind; [by destruct (ei_ne _ _ _ He)|].
  rewrite last_fst in Ho.
  apply Forall_snoc in Hbo as [_ Hbk]. cbn [snd] in Hbk.
  unfold changelog_reader_rec_store. wp_steps. cbn [compose]. rewrite Ho. wp_steps.
  eapply wp_load_bkt; [done|apply elem_of_app; right; by left|]. wp_steps.
  destruct (Z.eqb_spec (lrb_rec_count bk) (batch_of s)) as [Hfull|Hroom].
  - wp_steps. wp_apply (rec_bucket_add_spec _ _ _ Hr Hb).
    intros rc s1 (t & Ht & Hre & Htr & [(-> & _ & Hx)|[-> [Hr1 [hd He1]]]]).
    { simpl. wp_steps. exists t. split_and!; [done|done|done|by left]. }
    simpl negb. cbv iota. pose proof (env_inv_add _ _ _ (r_next s) hd He) as He2.
    rewrite <- He1 in He2.
    eapply wp_mono; [eapply (rec_store_room s1 _ (l ++ [(c, bk)]))|..|done].
    + split; [done|exact He2].
    + unfold batch_of, cfg_of. rewrite He1. simpl. apply Hb.
    + by rewrite stream_app, stream_one, new_bucket_recs, app_nil_r.
    + cbn beta. intros rc s2 (-> & Htr2 & He3 & Hr2). exists t.
      rewrite Htr2. split_and!; [done|done|done|]. right. split; [done|].
      do 3 eexists. split; [exact Hr2|]. rewrite He3. split; [exact He2|].
      split; [unfold batch_of, cfg_of; rewrite He3, He1; simpl; apply Hb|].
      split; [by rewrite stream_app, stream_one, new_bucket_recs, app_nil_r|].
      split; [right; eauto|by right].
  - destruct Hbk as [Hc _ _ _ _]. fold (batch_of s) in Hc.
    change (ccf_rec_batch_count _) with (batch_of s) in Hc.
    eapply wp_mono; [eapply (rec_store_room s (l ++ [(c, bk)]))|..|done]; [done|lia|done|].
    cbn beta. intros rc s2 (-> & Htr2 & He3 & Hr2). exists [].
    rewrite Htr2, app_nil_r. split_and!; [done|done|done|]. right. split; [done|].
    exists l, c, bk. split; [exact Hr2|]. rewrite He3. split; [done|].
    split; [unfold batch_of, cfg_of in *; rewrite He3; lia|]. split; [done|]. split; by left.
Qed.

(** The counters that [changelog_reader_enqueue] sets after a store. *)
Lemma env_inv_put e l c bk cls rec n :
  env_inv e (l ++ [(c, bk)]) cls -> lrb_rec_count bk < ccf_rec_batch_count (re_cfg e) ->
  rec_ok rec -> re_srec e <= cr_index rec < 2 ^ 63 - 1 ->
  re_rec_cnt e < capacity (re_cfg e) ->
  env_inv (set_counters (cr_index rec + 1) n (re_rec_cnt e + 1) e)
    (l ++ [(c, put_rec rec bk)]) cls.
Proof.
  intros [Hcfg Hb Hne Ho Hcl Hd Hcnt Hcap How Hid Hso Hsr Hbe] Hlt Hrec Hidx Hroom.
  apply Forall_snoc in Hb as [Hb1 Hbk]. cbn [snd] in Hbk.
  pose proof (stream_put l c bk _ rec Hbk Hlt) as Hst.
  assert (Hkeys : (l ++ [(c, put_rec rec bk)]).*1 = (l ++ [(c, bk)]).*1).
  { by rewrite !fst_app_cons. }
  constructor; simpl; rewrite ?Hkeys, ?Hst; try done.
  - apply Forall_snoc. split; [done|].
    apply put_rec_ok; try done. apply (cfg_ok_batch _ _ Hcfg).
  - by destruct l.
  - rewrite length_app. simpl. lia.
  - lia.
  - rewrite fmap_app. apply StronglySorted_app. split_and!; [|done|repeat constructor].
    + intros x y Hx Hy. simpl in Hy. apply list_elem_of_singleton in Hy as ->.
      apply list_elem_of_fmap_1 in Hx as (r & -> & Hr). rewrite Forall_forall in Hbe.
      specialize (Hbe _ Hr). lia.
  - lia.
  - apply Forall_app. split.
    + eapply Forall_impl; [exact Hbe|]. cbn beta. intros r ?. lia.
    + apply Forall_singleton. lia.
Qed.
End lemmas.
