(* ===== verification/ReaderBuckets.v ===== *)
(** * What the reader's bucket operations do to the list of buckets *)
From S2P Require Import Prelude World Queue Idl LcapNet RpcUtils Config Reader ReaderRep ReaderInv.
Local Open Scope Z_scope.

(** The buckets before [d] lose their readiness: an expired bucket and the ones
    sent after it are to be sent again. *)
Fixpoint unready (d : ptr) (bks : bkt_list) : bkt_list :=
  match bks with
  | [] => []
  | (b, bk) :: t =>
      if bool_decide (Some b = d) then bks else (b, set_ready false bk) :: unready d t
  end.

Section lemmas.
Context `{World, ChangelogRec}.
Implicit Types (s : rstate) (bks : bkt_list) (cls : cli_list).

(** Two lists of buckets that hold the same records under the same keys. *)
Definition same_content (batch : Z) bks bks' : Prop :=
  bks'.*1 = bks.*1 /\ stream bks' = stream bks /\
  Forall (fun x => bucket_ok batch (snd x)) bks'.

Lemma env_inv_bks e bks bks' cls :
  env_inv e bks cls -> same_content (ccf_rec_batch_count (re_cfg e)) bks bks' ->
  env_inv e bks' cls.
Proof.
  intros [Hcfg Hb Hne Ho Hcl Hd Hcnt Hcap How Hid Hso Hsr Hbe] (Hk & Hs & Hok).
  constructor; rewrite ?Hk, ?Hs; try done.
  intros ->. by destruct bks.
Qed.

Lemma env_inv_deliver e bks cls p :
  env_inv e bks cls -> (forall d, p = Some d -> d ∈ bks.*1) ->
  env_inv (set_deliver_next p e) bks cls.
Proof. by intros [] Hp; constructor. Qed.

Lemma unready_content d batch bks :
  Forall (fun x => bucket_ok batch (snd x)) bks -> same_content batch bks (unready d bks).
Proof.
  unfold same_content. induction bks as [|[b bk] t IH]; intros Hall; [done|].
  apply Forall_cons in Hall as [Hbk Ht]. specialize (IH Ht) as (Hk & Hs & Hok). simpl.
  destruct (bool_decide _); [split_and!; [done|done|by apply Forall_cons]|].
  split_and!; [rewrite !fmap_cons; simpl; by f_equal| |].
  - change (stream ((b, set_ready false bk) :: unready d t))
      with (bk_recs bk ++ stream (unready d t)). by rewrite Hs.
  - apply Forall_cons. split; [|done]. by destruct Hbk.
Qed.

(** The loop of [rec_bucket_get] on the buckets that are left to visit. *)
Lemma mark_non_ready_spec fuel s l1 l2 cls :
  rep s (l1 ++ l2) cls -> (length l2 < fuel)%nat ->
  wp (mark_non_ready fuel (head l2.*1)) (fun _ s' =>
    r_trace s' = r_trace s /\ r_env s' = r_env s /\
    rep s' (l1 ++ unready (re_deliver_next (r_env s)) l2) cls) safe s.
Proof.
  revert s l1 l2. induction fuel as [|fuel IH]; intros s l1 l2 Hr Hf; [lia|].
  destruct l2 as [|[b bk] l2]; cbn [mark_non_ready head unready fmap list_fmap fst].
  { by wp_steps. }
  wp_steps. cbn [compose]. destruct (bool_decide (Some b = _)); [by wp_steps|]. wp_steps.
  eapply wp_load_bkt; [done|apply elem_of_app; right; by left|]. wp_steps.
  eapply wp_store_bkt; [done|]. wp_steps.
  apply (rep_store_bkt _ _ _ _ (set_ready false bk)) in Hr.
  eapply wp_load_next_bkt; [done|]. cbn [length] in Hf.
  rewrite (cons_middle (b, set_ready false bk)), app_assoc in Hr.
  wp_apply (IH _ _ _ Hr ltac:(lia)). intros _ s' (Ht & He & Hr').
  split_and!; [done|done|]. by rewrite (cons_middle (b, set_ready false bk)), app_assoc.
Qed.

Definition expired (now : Z * Z) (bk : lcap_rec_bucket) : Prop :=
  tv_sec (lrb_expiry bk) < fst now.

Lemma reader_inv_logged c s bks cls : reader_inv s bks cls -> reader_inv (logged c s) bks cls.
Proof. intros [Hr He]. split; [by apply rep_put|done]. Qed.

Lemma wp_bucket_next s l1 b bk l2 cls Q E :
  rep s (l1 ++ (b, bk) :: l2) cls -> Q (head l2.*1) s -> wp (bucket_next (Some b)) Q E s.
Proof. apply wp_load_next_bkt. Qed.

Lemma rec_bucket_get_spec s bks hb hbk rest cls :
  let now := w_clock (r_trace s ++ [(ClockGettime, w_rc (r_trace s) ClockGettime)]) in
  bks = (hb, hbk) :: rest -> reader_inv s bks cls ->
  wp rec_bucket_get (fun r s' => exists t bks',
    silent t /\ r_trace s' = r_trace s ++ t /\ reader_inv s' bks' cls /\
    same_content (batch_of s) bks bks' /\
    match r with
    | None => ~ expired now hbk /\ re_deliver_next (r_env s) = None /\ bks' = bks
              /\ r_env s' = r_env s
    | Some b => exists l1 bk l2, bks' = l1 ++ (b, bk) :: l2 /\
        r_env s' = set_deliver_next (head l2.*1) (r_env s) /\
        (expired now hbk /\ l1 = [] /\ b = hb /\
           bks' = unready (re_deliver_next (r_env s)) bks
         \/ ~ expired now hbk /\ bks' = bks /\ re_deliver_next (r_env s) = Some b)
    end) safe s.
Proof.
  intros now Hbks Hinv. pose proof Hinv as [Hr He].
  pose proof (ei_bounds _ _ _ He) as Hbo.
  unfold rec_bucket_get. wp_steps. cbn [compose].
  rewrite (ei_cleanup _ _ _ He).
  replace (head bks.*1) with (Some hb) by (by rewrite Hbks). wp_steps.
  rewrite wp_ext. wp_steps. apply (reader_inv_logged ClockGettime) in Hinv as [Hr1 _].
  set (s1 := logged _ _) in *. change (w_clock (s_trace s1)) with now.
  eapply wp_load_bkt; [exact Hr1|rewrite Hbks; by left|]. wp_steps.
  destruct (Z.ltb_spec (tv_sec (lrb_expiry hbk)) (fst now)) as [Hexp|Hexp].
  - wp_steps.
    replace (Some hb) with (head bks.*1) at 1 by (by rewrite Hbks).
    wp_apply (mark_non_ready_spec _ s1 [] bks cls Hr1).
    { rewrite <- (length_fmap fst). eapply walk_fuel_list, (rep_buckets _ _ _ Hr1). }
    intros _ s2 (Ht2 & He2 & Hr2). unfold mod_env. wp_steps. cbn [app] in Hr2.
    pose proof (unready_content (re_deliver_next (r_env s)) _ _ Hbo) as Hsc.
    change (re_deliver_next (r_env s1)) with (re_deliver_next (r_env s)) in Hr2.
    assert (exists bk' rest', unready (re_deliver_next (r_env s)) bks = (hb, bk') :: rest')
      as (bk' & rest' & Hu).
    { rewrite Hbks. cbn [unready]. destruct (bool_decide _); eauto. }
    pose proof (rep_env (set_deliver_next (Some hb)) _ _ _ ltac:(done) ltac:(done) Hr2) as Hr3.
    rewrite Hu in Hr3. eapply (wp_bucket_next _ [] hb bk' rest'); [exact Hr3|]. wp_steps.
    exists [(ClockGettime, w_rc (r_trace s) ClockGettime)], ((hb, bk') :: rest').
    rewrite Hu in Hsc. rewrite <- Hu. simpl r_trace. simpl r_env. rewrite Ht2, He2, Hu.
    split_and!; try done.
    + split; [by apply rep_env|]. simpl. rewrite He2.
      eapply (env_inv_deliver _ _ _ _ (env_inv_bks _ _ _ _ He Hsc)).
      intros d Hd. right. by apply head_Some_elem_of.
    + exists [], bk', rest'. split_and!; [done|done|left; split_and!; done].
  - wp_steps. cbn [compose]. change (re_deliver_next (r_env s1)) with (re_deliver_next (r_env s)).
    assert (Hsc : same_content (batch_of s) bks bks) by done.
    destruct (re_deliver_next (r_env s)) as [d|] eqn:Hd.
    + pose proof (ei_deliver _ _ _ He d Hd) as Hin.
      apply fst_split in Hin as (bk & l1 & l2 & Hb).
      wp_steps. rewrite Hb in Hr1. eapply wp_bucket_next; [exact Hr1|].
      unfold mod_env. wp_steps. exists [(ClockGettime, w_rc (r_trace s) ClockGettime)], bks. split_and!; try done.
      * split; [rewrite Hb; by apply rep_env|]. apply env_inv_deliver; [done|].
        intros x Hx. rewrite Hb, fst_app_cons. apply elem_of_app. right. right.
        by apply head_Some_elem_of.
      * exists l1, bk, l2. split_and!; [done|done|]. right. split_and!; [|done|done].
        unfold expired. lia.
    + wp_steps. exists [(ClockGettime, w_rc (r_trace s) ClockGettime)], bks. split_and!; try done. unfold expired. lia.
Qed.
End lemmas.
