(* ===== verification/ReaderRpc.v ===== *)
(** * The changelog reader: RPC handlers and main loop
      ([src/lcapd/reader.c], from [client_state_get]) *)
From S2P Require Import Prelude World Queue Idl LcapNet RpcUtils Config Log Reader.
Local Open Scope Z_scope.

Section reader.
Context `{World, ChangelogRec}.
Implicit Types (req : lcapnet_request).

(** The loop of [client_state_get]; [memcmp] runs on equal lengths only. *)
Fixpoint find_client (fuel : nat) (lnode : ptr) (cid : option conn_id) : M rstate ptr :=
  match fuel with
  | O => fail OutOfFuel
  | S fuel =>
      match lnode with
      | None => mret None
      | Some c =>
          cs ← load_cli c;
          cid' ← unwrap NullDeref cid;
          if negb (ci_length (cs_ident cs) =? ci_length cid') then
            next ← load_next c; find_client fuel next cid
          else if bool_decide (cs_ident cs = cid') then mret (Some c)
          else next ← load_next c; find_client fuel next cid
      end
  end.

Definition client_state_get (cid : option conn_id) : M rstate ptr :=
  first ← gets (l_first ∘ re_peers ∘ r_env);
  fuel ← gets walk_fuel;
  find_client fuel first cid.

Definition client_state_release (c : loc) : M rstate unit :=
  load_cli c;;
  modify (set_clis (delete c));;
  modify (set_nodes (delete c)).

(** The client state is put in the memory once its identity is allocated:
    before that nothing refers to it. *)
Definition reader_handle_start req : M rstate Z :=
  if lr_body_len req <? sizeof_register then mret (- EINVAL)
  else
    cs ← client_state_get (lr_forward req);
    if cs is Some _ then mret (- EALREADY)
    else
      ok ← alloc sizeof_client_state;
      if negb ok then mret (- ENOMEM)
      else
        cid ← unwrap NullDeref (lr_forward req);
        ident ← conn_id_dup cid;
        match ident with
        | None => mret (- ENOMEM)
        | Some id =>
            c ← new_loc;
            modify (set_clis (insert c (mkClient (s64 (get_start (lr_body req))) None id)));;
            on_peers (list_append c);;
            rc ← ack_retcode None (lr_forward req) 0;
            if rc <? 0 then mret rc else mret 0
        end.

Definition bucket_set_expiry_time (b : loc) : M rstate unit :=
  ext ClockGettime;;
  now ← gets (fun s => w_clock (s_trace s));
  bk ← load_bkt b;
  store_bkt b (set_expiry {| tv_sec := fst now + ACK_TIMEOUT_MSEC / 1000;
                             tv_nsec := snd now |} bk).

(** The copy loop of [enqueue_rec]: [n] records are left, [i] are copied;
    [acc] is what the buffer of [room] bytes holds. *)
Fixpoint pack_records (n i : nat) (recs : list (option bytes)) (room : Z) (acc : bytes)
    : M rstate bytes :=
  match n with
  | O => mret acc
  | S n =>
      r ← unwrap OutOfBounds (recs !! i);
      rec ← unwrap NullDeref r;
      let copy_len := u64 (rec_len rec) in
      if (room <? Z.of_nat (length acc) + copy_len) || (Z.of_nat (length rec) <? copy_len)
      then fail OutOfBounds
      else pack_records n (S i) recs room (acc ++ take (Z.to_nat copy_len) rec)
  end.

Definition enqueue_message (count : Z) (records : bytes) : px_rpc_enqueue :=
  {| enq_hdr := {| op_type := op_code RPC_OP_ENQUEUE; reserved := 0 |};
     enq_count := count; enq_records := records |}.

Definition enqueue_rec (c : loc) req : M rstate Z :=
  cs ← load_cli c;
  b ← unwrap NullDeref (cs_bucket cs);
  bk ← load_bkt b;
  let rpc_size := u64 (sizeof_enqueue + lrb_size bk) in
  ok ← alloc rpc_size;
  if negb ok then mret (- ENOMEM)
  else
    let room := rpc_size - sizeof_enqueue in
    if room <? 0 then fail OutOfBounds
    else
      let count := u32 (lrb_rec_count bk) in
      recs ← pack_records (Z.to_nat count) 0 (lrb_records bk) room [];
      bucket_set_expiry_time b;;
      peer_rpc_send None (lr_forward req)
        (enc_enqueue (enqueue_message count
           (recs ++ replicate (Z.to_nat (room - Z.of_nat (length recs))) NUL))).

Definition reader_handle_dequeue req : M rstate Z :=
  if lr_body_len req <? sizeof_dequeue then mret (- EPROTO)
  else
    cs ← client_state_get (lr_forward req);
    match cs with
    | None => mret (- EPROTO)
    | Some c =>
        st ← load_cli c;
        if cs_bucket st is Some _ then mret (- EPROTO)
        else
          bkt ← rec_bucket_get;
          match bkt with
          | None => mret 1
          | Some b =>
              current ← gets (re_current_open ∘ r_env);
              rc ← (if bool_decide (Some b = current) then rec_bucket_add else mret 0);
              if negb (rc =? 0) then mret rc
              else
                st ← load_cli c;
                store_cli c (set_cs_bucket (Some b) st);;
                enqueue_rec c req
          end
    end.

(** One turn of the loop of [reader_handle_clear] on a ready bucket: the
    upstream acknowledgement and, if it succeeds, the removal. *)
Definition clear_bucket (b : loc) (bk : lcap_rec_bucket) : M rstate Z :=
  mod_env (set_cleanup_next (Some b));;
  odev ← gets (reader_device ∘ r_env);
  dev ← unwrap NullDeref odev;
  ocli ← gets (ccf_clreader ∘ cfg_of);
  cli ← unwrap NullDeref ocli;
  idx ← rec_bucket_max_index bk;
  rc ← ext (LlapiChangelogClear dev cli idx);
  if rc <? 0 then mret rc
  else
    on_buckets (list_remove b);;
    mod_env (fun e => set_counters (re_srec e) (rs_rec_read (re_stats e))
                        (re_rec_cnt e - lrb_rec_count bk) e);;
    rec_bucket_destroy b;;
    mret 0.

(** [list_foreach_entry]: the next bucket is read after the turn. *)
Fixpoint clear_buckets (fuel : nat) (pos : ptr) : M rstate Z :=
  match fuel with
  | O => fail OutOfFuel
  | S fuel =>
      match pos with
      | None => mret 0
      | Some b =>
          bk ← load_bkt b;
          if negb (lrb_ready bk) then mret 0
          else
            rc ← clear_bucket b bk;
            if rc <? 0 then mret rc
            else next ← load_next b; clear_buckets fuel next
      end
  end.

Definition reader_handle_clear req : M rstate Z :=
  if lr_body_len req <? sizeof_clear then mret (- EPROTO)
  else
    cs ← client_state_get (lr_forward req);
    match cs with
    | None => mret (- EPROTO)
    | Some c =>
        st ← load_cli c;
        match cs_bucket st with
        | None => mret 0
        | Some b =>
            store_cli c (set_cs_bucket None st);;
            bk ← load_bkt b;
            store_bkt b (set_ready true bk);;
            cleanup ← gets (re_cleanup_next ∘ r_env);
            first ← unwrap NullDeref cleanup;
            fuel ← gets walk_fuel;
            rc ← clear_buckets fuel (Some first);
            if rc <? 0 then mret rc
            else ack_retcode None (lr_forward req) 0
        end
    end.

Definition reader_handle_fini req : M rstate Z :=
  if lr_body_len req <? sizeof_fini then mret (- EPROTO)
  else
    cs ← client_state_get (lr_forward req);
    match cs with
    | None => mret (- EPROTO)
    | Some c =>
        on_peers (list_remove c);;
        client_state_release c;;
        ack_retcode None (lr_forward req) 0
    end.

Definition reader_rpc_handle (op : rpc_op_type)
    : option (lcapnet_request -> M rstate Z) :=
  match op with
  | RPC_OP_START => Some reader_handle_start
  | RPC_OP_DEQUEUE => Some reader_handle_dequeue
  | RPC_OP_CLEAR => Some reader_handle_clear
  | RPC_OP_FINI => Some reader_handle_fini
  | RPC_OP_ENQUEUE => None
  | RPC_OP_ACK => None
  | RPC_OP_SIGNAL => None
  end.

(** Reading [reader_rpc_handle[op_type]] outside of the array is a fault. *)
Definition rpc_handle_one (op_type : Z) req : M rstate Z :=
  op ← unwrap OutOfBounds (op_of_code op_type);
  match reader_rpc_handle op with
  | None => mret (- EPROTO)
  | Some h => h req
  end.

Definition changelog_reader_rpc_hdl req : M rstate Z :=
  rc ← (if lr_body_len req <? sizeof_hdr then mret (- EPROTO)
        else
          let op := get_op_type (lr_body req) in
          if (op <? RPC_OP_FIRST) || (RPC_OP_LAST <? op) then mret (- EINVAL)
          else rpc_handle_one op req);
  cfg ← gets cfg_of;
  lcap_debug_op_type cfg (lr_body req);;
  if (rc <? 0) || (rc =? 1) then ack_retcode None (lr_forward req) rc
  else mret rc.

(** [n] bounds the messages that wait, [frames] the frames of each. *)
Definition changelog_reader_serve (n frames : nat) : M rstate Z :=
  clpriv ← gets (re_clpriv ∘ r_env);
  rc ← ext (ZmqPoll (if clpriv : bool then 50 else 1000));
  if rc <? 0 then mret (-1)
  else if rc =? 0 then mret 0
  else
    revents ← gets (fun s => w_revents (s_trace s));
    assert (negb (Z.land revents ZMQ_POLLIN =? 0));;
    rc ← lcap_rpc_recv n frames (Z.lor LCAP_RECV_NONBLOCK LCAP_RECV_NO_ENVELOPE)
           changelog_reader_rpc_hdl 0;
    if rc <? 0 then mret rc else mret 0.

(** [env->re_srec = rec->cr_index + 1; env->re_stats.rs_rec_read++;
    env->re_rec_cnt++;] *)
Definition count_record (rec : bytes) : M rstate unit :=
  mod_env (fun e => set_counters (s64 (u64 (cr_index rec + 1)))
                      (rs_rec_read (re_stats e) + 1) (re_rec_cnt e + 1) e).

(** The [while] of [changelog_reader_enqueue]; the start index is compared as
    an unsigned number, [cr_index] being one. *)
Fixpoint enqueue_loop (fuel : nat) (batch_count : Z) : M rstate Z :=
  match fuel with
  | O => fail OutOfFuel
  | S fuel =>
      rc ← ext LlapiChangelogRecv;
      if negb (rc =? 0) then mret rc
      else
        rec ← gets (fun s => w_rec (s_trace s));
        term ← ext ReadTerminateSig;
        if negb (term =? 0) then mret 0
        else
          srec ← gets (re_srec ∘ r_env);
          if u64 (cr_index rec) <? u64 srec then enqueue_loop fuel batch_count
          else
            rc ← changelog_reader_rec_store rec;
            if negb (rc =? 0) then mret rc
            else
              count_record rec;;
              batch_size ← gets batch_of;
              stop ← (if batch_size <=? batch_count + 1 then mret true
                      else changelog_reader_full);
              if stop : bool then mret 0 else enqueue_loop fuel (batch_count + 1)
  end.

Definition enqueue_end (rc : Z) : M rstate Z :=
  (if (rc =? 1) || (rc =? - EAGAIN) || (rc =? - EPROTO) then
     ext LlapiChangelogFini;; mod_env (set_clpriv false)
   else mret tt);;
  mret rc.

Definition changelog_reader_enqueue (fuel : nat) : M rstate Z :=
  full ← changelog_reader_full;
  if full : bool then mret 0
  else
    clpriv ← gets (re_clpriv ∘ r_env);
    rc ← (if clpriv : bool then mret 0
          else
            odev ← gets (reader_device ∘ r_env);
            dev ← unwrap NullDeref odev;
            srec ← gets (re_srec ∘ r_env);
            rc ← ext (LlapiChangelogStart CHANGELOG_FLAG_JOBID dev srec);
            (if rc =? 0 then mod_env (set_clpriv true) else mret tt);;
            mret rc);
    if negb (rc =? 0) then mret rc
    else rc ← enqueue_loop fuel 0; enqueue_end rc.

(** [turns] bounds the turns of the main loop, [fuel] the records read in one
    turn, [n] and [frames] the messages served in one. *)
Fixpoint reader_loop (turns fuel n frames : nat) (rc : Z) : M rstate Z :=
  match turns with
  | O => fail OutOfFuel
  | S turns =>
      term ← ext ReadTerminateSig;
      if negb (term =? 0) then mret rc
      else
        rc ← changelog_reader_enqueue fuel;
        if rc <? 0 then mret rc
        else
          rc ← changelog_reader_serve n frames;
          if rc <? 0 then mret rc else reader_loop turns fuel n frames rc
  end.

Definition reader_main (cfg : lcap_cfg) (idx : Z) (turns fuel n frames : nat)
    : M rstate Z :=
  rc ← changelog_reader_init cfg idx;
  rc ← (if negb (rc =? 0) then mret rc
        else
          rc ← changelog_reader_signal 0;
          if negb (rc =? 0) then mret rc else reader_loop turns fuel n frames rc);
  (if negb (rc =? 0) then changelog_reader_signal rc;; mret tt else mret tt);;
  changelog_reader_release;;
  mret rc.
End reader.
