(* ===== verification/ReaderEffects.v ===== *)
(** * The calls that each operation of the reader makes

    The RPCs never read the upstream log, reading it never sends, and only
    CLEAR acknowledges or frees records. *)
From S2P Require Import Prelude World Queue Idl LcapNet RpcUtils Effects Config Log Reader ReaderRpc.
Local Open Scope Z_scope.

Section effects.
Context `{World, ChangelogRec}.
Implicit Types (req : lcapnet_request) (P : extcall -> Prop).

(** What the handler of an RPC may call. *)
Definition rpc_calls (op : rpc_op_type) (c : extcall) : Prop :=
  match c with
  | ZmqSend _ _ => True
  | Alloc _ => op = RPC_OP_START \/ op = RPC_OP_DEQUEUE
  | ClockGettime => op = RPC_OP_DEQUEUE
  | LlapiChangelogClear _ _ _ | LlapiChangelogFree => op = RPC_OP_CLEAR
  | _ => False
  end.

(** What reading a batch of records may call. *)
Definition read_calls (c : extcall) : Prop :=
  match c with
  | Alloc _ | ReadTerminateSig | LlapiChangelogStart _ _ _ | LlapiChangelogRecv
  | LlapiChangelogFini => True
  | _ => False
  end.

Lemma emits_debug_op_type P cfg body :
  emits P (lcap_debug_op_type cfg body : M rstate unit).
Proof. unfold lcap_debug_op_type. destruct (_ && _); emit. Qed.
Hint Resolve emits_debug_op_type : emits.

Lemma emits_load_bkt P b : emits P (load_bkt b).
Proof. apply emits_none. unfold load_bkt. intros s a s'. by case_match; intros [= _ <-]. Qed.
Lemma emits_load_cli P c : emits P (load_cli c).
Proof. apply emits_none. unfold load_cli. intros s a s'. by case_match; intros [= _ <-]. Qed.
Lemma emits_load_next P l : emits P (load_next l).
Proof. apply emits_none. unfold load_next. intros s a s'. by case_match; intros [= _ <-]. Qed.
Lemma emits_new_loc P : emits P new_loc.
Proof. apply emits_none. by intros s a s' [= _ <-]. Qed.
#[local] Hint Resolve emits_load_bkt emits_load_cli emits_load_next emits_new_loc : emits.

Lemma emits_mod_env P f : emits P (mod_env f).
Proof. unfold mod_env. emit. Qed.
Lemma emits_store_bkt P b bk : emits P (store_bkt b bk).
Proof. unfold store_bkt. emit. Qed.
Lemma emits_store_cli P c cs : emits P (store_cli c cs).
Proof. unfold store_cli. emit. Qed.
Lemma emits_on_buckets P {A} (m : M qst A) : emits P (on_buckets m).
Proof. unfold on_buckets. emit. Qed.
Lemma emits_on_peers P {A} (m : M qst A) : emits P (on_peers m).
Proof. unfold on_peers. emit. Qed.
#[local] Hint Resolve emits_mod_env emits_store_bkt emits_store_cli emits_on_buckets
  emits_on_peers : emits.

Lemma emits_find_client P fuel lnode cid : emits P (find_client fuel lnode cid).
Proof. revert lnode. induction fuel as [|fuel IH]; intros lnode; cbn [find_client]; emit. Qed.

Lemma emits_client_state_get P cid : emits P (client_state_get cid).
Proof. unfold client_state_get. emit. apply emits_find_client. Qed.

Lemma emits_bucket_next P bkt : emits P (bucket_next bkt).
Proof. unfold bucket_next. emit. Qed.

Lemma emits_mark_non_ready P fuel tmp : emits P (mark_non_ready fuel tmp).
Proof. revert tmp. induction fuel as [|fuel IH]; intros tmp; cbn [mark_non_ready]; emit. Qed.

Lemma emits_pack_records P n i recs room acc : emits P (pack_records n i recs room acc).
Proof.
  revert i acc. induction n as [|n IH]; intros i acc; cbn [pack_records]; [emit|].
  cbv zeta. emit.
Qed.
#[local] Hint Resolve emits_client_state_get emits_bucket_next emits_mark_non_ready
  emits_pack_records : emits.

Lemma emits_rec_bucket_add P : (forall sz, P (Alloc sz)) -> emits P rec_bucket_add.
Proof. intros HP. unfold rec_bucket_add. cbv zeta. emit. Qed.

Lemma emits_rec_bucket_get P : P ClockGettime -> emits P rec_bucket_get.
Proof. intros HP. unfold rec_bucket_get. emit. Qed.

(** ** The handlers *)

Lemma start_calls req : emits (rpc_calls RPC_OP_START) (reader_handle_start req).
Proof.
  unfold reader_handle_start, conn_id_dup. emit; try (by left).
  by apply emits_ack_retcode.
Qed.

Lemma dequeue_calls req : emits (rpc_calls RPC_OP_DEQUEUE) (reader_handle_dequeue req).
Proof.
  unfold reader_handle_dequeue, enqueue_rec, bucket_set_expiry_time. cbv zeta. emit.
  all: try (by right); try (by apply emits_peer_rpc_send); try (by apply emits_rec_bucket_get).
  apply emits_rec_bucket_add. by right.
Qed.

Lemma emits_free_records P n : P LlapiChangelogFree -> emits P (free_records n).
Proof. intros HP. induction n as [|n IH]; cbn [free_records]; emit. Qed.

Lemma emits_clear_bucket b bk : emits (rpc_calls RPC_OP_CLEAR) (clear_bucket b bk).
Proof.
  unfold clear_bucket, rec_bucket_max_index, rec_bucket_destroy. emit.
  by apply emits_free_records.
Qed.

Lemma emits_clear_buckets fuel pos : emits (rpc_calls RPC_OP_CLEAR) (clear_buckets fuel pos).
Proof.
  revert pos. induction fuel as [|fuel IH]; intros pos; cbn [clear_buckets]; emit.
  apply emits_clear_bucket.
Qed.

Lemma clear_calls req : emits (rpc_calls RPC_OP_CLEAR) (reader_handle_clear req).
Proof.
  unfold reader_handle_clear. emit; [apply emits_clear_buckets|by apply emits_ack_retcode].
Qed.

Lemma fini_calls req : emits (rpc_calls RPC_OP_FINI) (reader_handle_fini req).
Proof.
  unfold reader_handle_fini, client_state_release. emit. by apply emits_ack_retcode.
Qed.
(** ** The dispatcher, the record loop and the service *)

Lemma rpc_hdl_calls req op :
  op_of_code (get_op_type (lr_body req)) = Some op ->
  emits (rpc_calls op) (changelog_reader_rpc_hdl req).
Proof.
  intros Hop. unfold changelog_reader_rpc_hdl.
  apply emits_bind; [|emit; by apply emits_ack_retcode].
  destruct (_ <? _); [emit|]. cbv zeta. destruct (_ || _); [emit|].
  unfold rpc_handle_one. rewrite Hop.
  change (emits (rpc_calls op)
    (match reader_rpc_handle op with None => mret (- EPROTO) | Some h => h req end)).
  destruct op; cbn [reader_rpc_handle]; try (by emit).
  - apply start_calls.
  - apply dequeue_calls.
  - apply clear_calls.
  - apply fini_calls.
Qed.

(** What is refused before any handler runs is only answered. *)
Lemma rpc_refused_calls req :
  op_of_code (get_op_type (lr_body req)) = None -> emits sends (changelog_reader_rpc_hdl req).
Proof.
  intros Hop. unfold changelog_reader_rpc_hdl, rpc_handle_one. rewrite Hop.
  cbv zeta. cbn [unwrap]. apply emits_bind; [|emit; by apply emits_ack_retcode].
  destruct (_ <? _); [emit|]. destruct (_ || _); [emit|]. apply emits_none. done.
Qed.

(** What serving the RPCs that wait may call. *)
Definition serve_calls (c : extcall) : Prop :=
  match c with
  | ZmqPoll _ | ZmqMsgInit | ZmqMsgRecv _ => True
  | _ => exists op, rpc_calls op c
  end.

Lemma rpc_hdl_serve_calls req : emits serve_calls (changelog_reader_rpc_hdl req).
Proof.
  destruct (op_of_code (get_op_type (lr_body req))) as [op|] eqn:Hop.
  - apply (emits_mono (rpc_calls op)); [|by apply rpc_hdl_calls].
    intros c Hc. destruct c; cbn; try exists op; done.
  - apply (emits_mono sends); [|by apply rpc_refused_calls].
    intros c Hc. destruct c; try done. by exists RPC_OP_START.
Qed.

Lemma serve_calls_spec n frames : emits serve_calls (changelog_reader_serve n frames).
Proof.
  unfold changelog_reader_serve. emit. apply emits_lcap_rpc_recv; [|apply rpc_hdl_serve_calls].
  intros c Hc. destruct c; try done. exists RPC_OP_START. by left.
Qed.

Lemma rec_store_calls rec : emits read_calls (changelog_reader_rec_store rec).
Proof.
  unfold changelog_reader_rec_store, rec_store_open. cbv zeta. emit.
  all: by apply emits_rec_bucket_add.
Qed.

Lemma reader_full_calls P : emits P changelog_reader_full.
Proof. unfold changelog_reader_full. cbv zeta. emit. Qed.

Lemma enqueue_calls fuel : emits read_calls (changelog_reader_enqueue fuel).
Proof.
  assert (Hloop : forall k, emits read_calls (enqueue_loop fuel k)).
  { induction fuel as [|n IH]; intros k; cbn [enqueue_loop]; [emit|].
    unfold count_record. emit; [apply rec_store_calls|apply reader_full_calls]. }
  unfold changelog_reader_enqueue, enqueue_end. emit. apply reader_full_calls.
Qed.

(** ** What the effects say of a trace *)

Lemma no_recvs t P :
  Forall (fun e => P e.1) t -> (forall c, P c -> ~ read_calls c \/ exists n, c = Alloc n) ->
  recvs_of t = [].
Proof.
  intros Ht HP. induction Ht as [|[c z] t Hc _ IH]; [done|].
  change ((c, z) :: t) with ([(c, z)] ++ t). rewrite recvs_of_app, IH, app_nil_r.
  destruct (HP c Hc) as [Hn|[n ->]]; [|done]. by destruct c; try destruct (Hn I).
Qed.

Lemma serve_no_recvs t : Forall (fun e => serve_calls e.1) t -> recvs_of t = [].
Proof.
  intros Ht. eapply no_recvs; [done|]. intros c Hc.
  destruct c; try (by left; intros []); try (by right; eexists); by destruct Hc.
Qed.
End effects.
