(* ===== verification/ReaderEnqueue.v ===== *)
(** * The record loop of the reader ([changelog_reader_enqueue]) *)
From S2P Require Import Prelude World Queue Idl LcapNet RpcUtils Config Reader ReaderRep ReaderInv ReaderRpc.
Local Open Scope Z_scope.

(** What the upstream records are: their memory holds them and their index is
    that of a log that has not been running for 2^63 records. *)
Record upstream_ok `{World, ChangelogRec} : Prop := {
  uo_rec : forall t, rec_ok (w_rec t);
  uo_index : forall t, 0 <= cr_index (w_rec t) < 2 ^ 63 - 1;
}.

(** The records of [rs] that are not older than [srec] or than an accepted one. *)
Fixpoint accept `{ChangelogRec} (srec : Z) (rs : list bytes) : list bytes :=
  match rs with
  | [] => []
  | r :: t => if cr_index r <? srec then accept srec t else r :: accept (cr_index r + 1) t
  end.

(** Where the upstream log stands: at the record it was opened at, or after the
    last one it handed out. *)
Fixpoint cursor_from `{World, ChangelogRec} (pre t : trace) (pos : Z) : Z :=
  match t with
  | [] => pos
  | e :: t' =>
      cursor_from (pre ++ [e]) t'
        match e with
        | (LlapiChangelogStart _ _ start, z) => if z =? 0 then start else pos
        | (LlapiChangelogRecv, z) => if z =? 0 then cr_index (w_rec (pre ++ [e])) + 1 else pos
        | _ => pos
        end
  end.
Definition cursor `{World, ChangelogRec} (t : trace) : Z := cursor_from [] t 0.

(** The upstream log hands out records in order, from the one asked for. *)
Definition upstream_ordered `{World, ChangelogRec} : Prop :=
  forall t, w_rc t LlapiChangelogRecv = 0 -> cursor t <= cr_index (w_rec (t ++ [(LlapiChangelogRecv, 0)])).

Section enqueue.
Context `{World, ChangelogRec}.
Implicit Types (s : rstate) (bks : bkt_list) (cls : cli_list) (t : trace).

(** What reading records leaves alone. *)
Definition kept (e e' : reader_env) : Prop :=
  re_cfg e' = re_cfg e /\ re_index e' = re_index e /\
  re_deliver_next e' = re_deliver_next e /\
  rs_start_time (re_stats e') = rs_start_time (re_stats e) /\ re_ident e' = re_ident e.

#[local] Instance kept_preorder : PreOrder kept.
Proof.
  split; [by intros e; repeat split|].
  unfold kept. intros e1 e2 e3 (-> & -> & -> & -> & ->) (-> & -> & -> & -> & ->). by repeat split.
Qed.

(** The buckets after [recs] were read: the last one, or new ones after it, hold
    them; the others are as before. *)
Definition grown bks (recs : list bytes) bks' : Prop :=
  stream bks' = stream bks ++ recs /\
  (bks' = bks \/
   exists l x y new, bks = l ++ [x] /\ bks' = l ++ y :: new /\ fst y = fst x /\
     lrb_expiry (snd y) = lrb_expiry (snd x)).

Lemma grown_refl bks : grown bks [] bks.
Proof. split; [by rewrite app_nil_r|by left]. Qed.
#[local] Hint Resolve grown_refl : core.

Lemma grown_trans bks1 recs1 bks2 recs2 bks3 :
  grown bks1 recs1 bks2 -> grown bks2 recs2 bks3 -> grown bks1 (recs1 ++ recs2) bks3.
Proof.
  intros [Hs1 H1] [Hs2 H2]. split; [by rewrite Hs2, Hs1, app_assoc|].
  destruct H1 as [->|(l & x & y & new & -> & -> & Hk & He)]; [done|].
  destruct H2 as [->|(l' & x' & y' & new' & Heq & -> & Hk' & He')]; [right; by exists l, x, y, new|].
  right. exists l, x. destruct new as [|z new _] using rev_ind.
  - apply app_inj_tail in Heq as [<- <-]. exists y', new'. split_and!; try done; congruence.
  - rewrite app_comm_cons, app_assoc in Heq. apply app_inj_tail in Heq as [<- <-].
    exists y, (new ++ y' :: new'). by rewrite <- app_assoc.
Qed.

(** The index that the reader expects after it has kept [recs]. *)
Definition next_srec (srec : Z) (recs : list bytes) : Z :=
  match last recs with Some r => cr_index r + 1 | None => srec end.

Lemma next_srec_app srec r1 r2 : next_srec (next_srec srec r1) r2 = next_srec srec (r1 ++ r2).
Proof. unfold next_srec. rewrite last_app. by destruct (last r2). Qed.

Lemma accept_app srec rs1 rs2 :
  accept srec (rs1 ++ rs2) =
  accept srec rs1 ++ accept (next_srec srec (accept srec rs1)) rs2.
Proof.
  revert srec. induction rs1 as [|r rs1 IH]; intros srec; [done|]. cbn [app accept].
  destruct (cr_index r <? srec); [apply IH|]. rewrite IH.
  change (r :: accept (cr_index r + 1) rs1) with ([r] ++ accept (cr_index r + 1) rs1).
  by rewrite <- next_srec_app.
Qed.

(** From [s], the calls [t] read records, of which the accepted ones are in
    the stream; at most the last one is lost, to a failed allocation or to the
    termination flag, and [rc] or the trace tells. *)
Definition enqueued (room : Z) s bks cls (rc : Z) (s' : rstate) : Prop :=
  exists t bks' recs lost,
    r_trace s' = r_trace s ++ t /\ silent t /\ reader_inv s' bks' cls /\
    kept (r_env s) (r_env s') /\ grown bks recs bks' /\
    re_srec (r_env s') = next_srec (re_srec (r_env s)) recs /\
    accept (re_srec (r_env s)) (received (r_trace s) t) = recs ++ lost /\
    Z.of_nat (length recs) <= room /\
    (lost = [] \/ exists r, lost = [r] /\
       (rc = - ENOMEM \/ exists z, (ReadTerminateSig, z) ∈ t /\ z <> 0)).

Lemma changelog_reader_full_spec s bks cls :
  reader_inv s bks cls ->
  changelog_reader_full s = Ok (capacity (cfg_of s) <=? re_rec_cnt (r_env s), s).
Proof.
  intros [_ He]. destruct (cfg_ok_batch _ _ (ei_cfg _ _ _ He)) as (_ & Hin & _).
  unfold changelog_reader_full, mbind, M_bind, gets. cbn zeta.
  fold (capacity (cfg_of s)). by rewrite bool_decide_eq_true_2.
Qed.

Lemma accept_new srec r rs :
  srec <= cr_index r -> accept srec (r :: rs) = r :: accept (cr_index r + 1) rs.
Proof. intros. cbn [accept]. by rewrite (proj2 (Z.ltb_ge _ _)). Qed.

Lemma kept_same_or_added e e' : same_or_added e e' -> kept e e'.
Proof. intros [->|(b & hd & ->)]; by repeat split. Qed.

Definition counted (rec : bytes) (e : reader_env) : reader_env :=
  set_counters (cr_index rec + 1) (rs_rec_read (re_stats e) + 1) (re_rec_cnt e + 1) e.

Lemma count_record_eq rec s :
  0 <= cr_index rec < 2 ^ 63 - 1 ->
  count_record rec s = Ok (tt, set_env (counted rec) s).
Proof.
  intros Hi. unfold count_record, mod_env, modify. do 2 f_equal.
  assert (s64 (u64 (cr_index rec + 1)) = cr_index rec + 1) as ->; [|done].
  apply to_s_to_u; [lia|]. unfold in_s. lia.
Qed.

(** One record: stored, counted, in the stream. *)
Lemma store_count_spec s bks cls rec (k : M rstate Z) Q E :
  reader_inv s bks cls -> rec_ok rec -> cr_index rec < 2 ^ 63 - 1 ->
  re_srec (r_env s) <= cr_index rec -> re_rec_cnt (r_env s) < capacity (cfg_of s) ->
  (forall t s', silent t -> recvs_of t = [] -> extends s t s' -> Q (- ENOMEM) s') ->
  (forall t s' bks', silent t -> recvs_of t = [] -> r_trace s' = r_trace s ++ t ->
     reader_inv s' bks' cls -> grown bks [rec] bks' ->
     kept (r_env s) (r_env s') -> re_srec (r_env s') = cr_index rec + 1 ->
     re_rec_cnt (r_env s') = re_rec_cnt (r_env s) + 1 -> wp k Q E s') ->
  wp (rc ← changelog_reader_rec_store rec;
      if negb (rc =? 0) then mret rc else count_record rec;; k) Q E s.
Proof.
  intros Hinv Hrec Hmax Hnew Hroom Hno Hk. pose proof Hinv as [Hr He].
  pose proof (ei_srec _ _ _ He) as Hsr. wp_steps.
  eapply wp_mono; [apply (rec_store_spec _ _ _ rec Hinv)| |done].
  intros rc s1 (t & Ht & Hre & Htr & [[-> Hx]|[-> (l & c & bk & Hst)]]).
  { cbn. wp_steps. by eapply Hno. }
  destruct Hst as (Hr1 & He1 & Hlt & Hstr & Hsa & Hl).
  pose proof (kept_same_or_added _ _ Hsa) as Hkept.
  assert (Hsc : re_srec (r_env s1) = re_srec (r_env s) /\
                re_rec_cnt (r_env s1) = re_rec_cnt (r_env s)).
  { by destruct Hsa as [->|(b & hd & ->)]. }
  destruct Hsc as [Hsr1 Hc1]. cbn [Z.eqb negb]. wp_steps.
  unfold wp at 1. rewrite count_record_eq by lia.
  eapply (Hk t _ (l ++ [(c, put_rec rec bk)])); try done.
  - split; [by apply rep_env|]. cbn. apply env_inv_put; try done; rewrite ?Hsr1, ?Hc1; try lia.
    by rewrite (proj1 Hkept).
  - split.
    + rewrite <- Hstr. eapply stream_put; [|exact Hlt].
      pose proof (ei_bounds _ _ _ He1) as [_ Hb]%Forall_snoc. exact Hb.
    + right. destruct Hl as [-> | ->]; [by exists l, (c, bk), (c, put_rec rec bk), []|].
      destruct l as [|x l _] using rev_ind; [by destruct (ei_ne _ _ _ He)|].
      exists l, x, x, [(c, put_rec rec bk)]. by rewrite <- app_assoc.
  - cbn. by rewrite Hc1.
Qed.

Lemma enqueued_end room s bks cls rc :
  reader_inv s bks cls -> 0 <= room -> enqueued room s bks cls rc s.
Proof.
  intros Hinv Hroom. exists [], bks, [], []. rewrite !app_nil_r.
  split_and!; try done. by left.
Qed.

(** Calls that come before: [recs0] went to the stream. *)
Lemma enqueued_after room s bks s1 bks1 cls t0 recs0 rc s' :
  r_trace s1 = r_trace s ++ t0 -> silent t0 -> kept (r_env s) (r_env s1) ->
  grown bks recs0 bks1 ->
  re_srec (r_env s1) = next_srec (re_srec (r_env s)) recs0 ->
  (forall rs, accept (re_srec (r_env s)) (received (r_trace s) t0 ++ rs) =
              recs0 ++ accept (re_srec (r_env s1)) rs) ->
  enqueued (room - Z.of_nat (length recs0)) s1 bks1 cls rc s' ->
  enqueued room s bks cls rc s'.
Proof.
  intros Htr Ht0 Hk Hst Hsr Hacc (t & bks' & recs & lost & Htr' & Ht & Hinv & Hk' & Hst' & Hsr' & Hacc'
    & Hlen & Hlost).
  exists (t0 ++ t), bks', (recs0 ++ recs), lost. split_and!; try done.
  - by rewrite Htr', Htr, app_assoc.
  - by apply silent_app.
  - by rewrite Hk.
  - by eapply grown_trans.
  - by rewrite Hsr', Hsr, next_srec_app.
  - rewrite received_app, Hacc, <- Htr, Hacc'. apply app_assoc.
  - rewrite length_app. lia.
  - destruct Hlost as [?|(r & -> & Hr)]; [by left|]. right. exists r. split; [done|].
    destruct Hr as [?|(z & Hz & Hnz)]; [by left|]. right. exists z.
    split; [|done]. apply elem_of_app. by right.
Qed.

(** The read and the test of the termination flag at the top of a turn. *)
Lemma received_one s z term rest :
  w_rc (r_trace s) LlapiChangelogRecv = z -> z = 0 ->
  received (r_trace s) ([(LlapiChangelogRecv, z); (ReadTerminateSig, term)] ++ rest) =
  w_rec (r_trace s ++ [(LlapiChangelogRecv, z)]) ::
    received (r_trace s ++ [(LlapiChangelogRecv, z); (ReadTerminateSig, term)]) rest.
Proof. intros _ ->. cbn. by rewrite <- app_assoc. Qed.

Lemma accept_skip srec r rs : cr_index r < srec -> accept srec (r :: rs) = accept srec rs.
Proof. intros. cbn [accept]. by rewrite (proj2 (Z.ltb_lt _ _)). Qed.

Context (Hup : upstream_ok).

(** A turn that keeps its record, [loop] being the turns that follow. *)
Lemma enqueue_accepted (loop : M rstate Z) k s s2 t2 rec bks cls :
  r_trace s2 = r_trace s ++ t2 -> silent t2 -> r_env s2 = r_env s -> reader_inv s2 bks cls ->
  received (r_trace s) t2 = [rec] -> rec_ok rec -> cr_index rec < 2 ^ 63 - 1 ->
  re_srec (r_env s) <= cr_index rec -> 0 <= k < batch_of s ->
  re_rec_cnt (r_env s) < capacity (cfg_of s) ->
  (forall s3 bks3, reader_inv s3 bks3 cls -> batch_of s3 = batch_of s -> k + 1 < batch_of s ->
     re_rec_cnt (r_env s3) < capacity (cfg_of s3) ->
     wp loop (enqueued (batch_of s - (k + 1)) s3 bks3 cls) (eq OutOfFuel) s3) ->
  wp (rc ← changelog_reader_rec_store rec;
      if negb (rc =? 0) then mret rc
      else
        count_record rec;;
        batch_size ← gets batch_of;
        stop ← (if batch_size <=? k + 1 then mret true else changelog_reader_full);
        if stop : bool then mret 0 else loop)
     (enqueued (batch_of s - k) s bks cls) (eq OutOfFuel) s2.
Proof.
  intros Htr2 Hsil Henv Hinv2 Hrecv Hok Hi2 Hge Hk Hroom Hloop.
  apply (store_count_spec s2 bks cls); unfold cfg_of in *; rewrite ?Henv; try done.
  + intros t s' Ht Hre Hx. exists (t2 ++ t), bks, [], [rec].
    split_and!; try done.
    * rewrite (extends_trace _ _ _ Hx : r_trace s' = r_trace s2 ++ t), Htr2.
      by rewrite app_assoc.
    * by apply silent_app.
    * rewrite Hx. split; [apply rep_put; apply Hinv2|]. cbn. apply Hinv2.
    * rewrite Hx. cbn. by rewrite Henv.
    * rewrite Hx. cbn. by rewrite Henv.
    * rewrite received_app, Hrecv, (received_nil _ _ Hre). cbn [app].
      by rewrite accept_new.
    * cbn; lia.
    * right. exists rec. split; [done|by left].
  + intros t s3 bks3 Ht Hre Htr3 Hinv3 Hst3 Hk3 Hsr3 Hc3.
    assert (Hb3 : batch_of s3 = batch_of s) by (unfold batch_of, cfg_of; by rewrite (proj1 Hk3)).
    assert (Hafter : forall rc s', enqueued (batch_of s - k - 1) s3 bks3 cls rc s' ->
      enqueued (batch_of s - k) s bks cls rc s').
    { intros rc s' Henq. eapply (enqueued_after _ _ _ s3 bks3 _ (t2 ++ t) [rec]); try done.
      - by rewrite Htr3, Htr2, app_assoc.
      - by apply silent_app.
      - intros rs. rewrite received_app, Hrecv, (received_nil _ _ Hre). cbn [app].
        rewrite accept_new by done. by rewrite Hsr3. }
    wp_steps. rewrite Hb3. destruct (Z.leb_spec (batch_of s) (k + 1)).
    { wp_steps. apply Hafter, enqueued_end; [done|lia]. }
    unfold wp at 1. rewrite (changelog_reader_full_spec _ _ _ Hinv3).
    destruct (Z.leb_spec (capacity (cfg_of s3)) (re_rec_cnt (r_env s3))).
    { wp_steps. apply Hafter, enqueued_end; [done|lia]. }
    eapply wp_mono; [apply (Hloop s3 bks3); [done|done|lia|done]| |done].
    intros rc s' Henq. apply Hafter.
    by replace (batch_of s - k - 1) with (batch_of s - (k + 1)) by lia.
Qed.

Lemma enqueue_loop_spec fuel k s bks cls :
  reader_inv s bks cls -> 0 <= k < batch_of s -> re_rec_cnt (r_env s) < capacity (cfg_of s) ->
  wp (enqueue_loop fuel k) (enqueued (batch_of s - k) s bks cls) (eq OutOfFuel) s.
Proof.
  revert k s bks. induction fuel as [|fuel IH]; intros k s bks Hinv Hk Hroom; [done|].
  cbn [enqueue_loop]. wp_steps. rewrite wp_ext. set (z := w_rc (s_trace s) _).
  set (s1 := logged _ s). pose proof Hinv as [Hr He]. pose proof (ei_srec _ _ _ He) as Hsr.
  destruct (Z.eqb_spec z 0) as [Hz|Hz]; cbn [negb].
  2: { wp_steps. eapply (enqueued_after _ _ _ s1 bks _ [(LlapiChangelogRecv, z)] []); try done.
       - intros rs. cbn. by rewrite (proj2 (Z.eqb_neq z 0)).
       - apply enqueued_end; [by split; [apply rep_put|]|cbn; lia]. }
  wp_steps. set (rec := w_rec (s_trace s1)). rewrite wp_ext.
  set (term := w_rc (s_trace s1) ReadTerminateSig). set (s2 := logged _ s1).
  set (t2 := [(LlapiChangelogRecv, z); (ReadTerminateSig, term)]).
  assert (Htr2 : r_trace s2 = r_trace s ++ t2) by (cbn; by rewrite <- app_assoc).
  assert (Hinv2 : reader_inv s2 bks cls) by (by split; [apply rep_put, rep_put|]).
  assert (Hrecv : received (r_trace s) t2 = [rec]).
  { subst t2. rewrite <- (app_nil_r [_; _]). by rewrite received_one. }
  destruct (uo_index Hup (s_trace s1)) as [Hi1 Hi2]. fold rec in Hi1, Hi2.
  assert (Hu : u64 (cr_index rec) = cr_index rec /\ u64 (re_srec (r_env s)) = re_srec (r_env s)).
  { split; apply to_u_id; unfold in_u; lia. }
  destruct (Z.eqb_spec term 0) as [Hterm|Hterm]; cbn [negb].
  2: { wp_steps. exists t2, bks, [], (accept (re_srec (r_env s)) [rec]).
       rewrite Hrecv. split_and!; try done; [cbn; lia|]. cbn [accept].
       destruct (_ <? _); [by left|]. right. exists rec. split; [done|]. right. exists term.
       split; [|done]. right. left. }
  wp_steps. cbn [compose]. change (re_srec (r_env s2)) with (re_srec (r_env s)).
  rewrite (proj1 Hu), (proj2 Hu). destruct (Z.ltb_spec (cr_index rec) (re_srec (r_env s))).
  - eapply wp_mono; [by apply (IH k s2 bks)| |done]. intros rc s' Henq.
    eapply (enqueued_after _ _ _ s2 bks _ t2 []); try done.
    + intros rs. rewrite Hrecv. by apply accept_skip.
    + by rewrite Z.sub_0_r.
  - apply (enqueue_accepted _ k s s2 t2 rec bks cls); try done; [apply (uo_rec Hup)|].
    intros s3 bks3 Hinv3 Hb3 Hk3 Hc3. rewrite <- Hb3. apply IH; [done|lia|done].
Qed.

(** ** [changelog_reader_enqueue] *)

Lemma reader_inv_clpriv x s bks cls :
  reader_inv s bks cls -> reader_inv (set_env (set_clpriv x) s) bks cls.
Proof. intros [Hr He]. split; [by apply rep_env|]. by destruct He; constructor. Qed.

(** Opening the log, when it is not open: what follows starts from [s1]. *)
Lemma open_log_spec s bks cls (k : Z -> M rstate Z) Q E :
  reader_inv s bks cls ->
  (forall t z s1, silent t -> (forall pre, received pre t = []) -> r_trace s1 = r_trace s ++ t ->
     reader_inv s1 bks cls -> kept (r_env s) (r_env s1) -> re_srec (r_env s1) = re_srec (r_env s) ->
     re_rec_cnt (r_env s1) = re_rec_cnt (r_env s) ->
     (re_clpriv (r_env s) = true /\ s1 = s /\ z = 0 \/
      re_clpriv (r_env s) = false /\ re_clpriv (r_env s1) = (z =? 0) /\
      exists dev, t = [(LlapiChangelogStart CHANGELOG_FLAG_JOBID dev (re_srec (r_env s)), z)]) ->
     wp (k z) Q E s1) ->
  wp (clpriv ← gets (re_clpriv ∘ r_env);
      rc ← (if clpriv : bool then mret 0
            else
              odev ← gets (reader_device ∘ r_env);
              dev ← unwrap NullDeref odev;
              srec ← gets (re_srec ∘ r_env);
              rc ← ext (LlapiChangelogStart CHANGELOG_FLAG_JOBID dev srec);
              (if rc =? 0 then mod_env (set_clpriv true) else mret tt);;
              mret rc); k rc) Q E s.
Proof.
  intros Hinv Hk. pose proof Hinv as [Hr He]. wp_steps. cbn [compose].
  destruct (re_clpriv (r_env s)) eqn:Hp.
  { wp_steps. eapply (Hk []); try done; [by rewrite app_nil_r|]. left. done. }
  destruct (ei_cfg _ _ _ He) as (_ & [dev Hdev] & _). wp_steps. cbn [compose].
  unfold reader_device. rewrite Hdev. wp_steps. cbn [compose]. rewrite wp_ext.
  set (c := LlapiChangelogStart _ _ _). set (z := w_rc (s_trace s) c).
  assert (Hinv1 : reader_inv (logged c s) bks cls) by (split; [by apply rep_put|done]).
  wp_steps. destruct (z =? 0) eqn:Hz; unfold mod_env; wp_steps.
  - apply (Hk [(c, z)]); try done; [by apply reader_inv_clpriv|right].
    rewrite Hz. split_and!; [done|done|by exists dev].
  - apply (Hk [(c, z)]); try done. right. rewrite Hz. split_and!; [done|done|by exists dev].
Qed.

Lemma enqueue_end_spec room s bks cls rc s1 :
  enqueued room s bks cls rc s1 ->
  wp (enqueue_end rc) (fun rc' s' => rc' = rc /\ enqueued room s bks cls rc s' /\
     (re_clpriv (r_env s') = true -> s' = s1)) safe s1.
Proof.
  intros Henq. unfold enqueue_end, mod_env. destruct (_ || _); wp_steps; [|done].
  rewrite wp_ext. wp_steps. split; [done|]. split; [|done].
  destruct Henq as (t & bks' & recs & lost & Htr & Ht & Hinv & Hk & Hst & Hsr & Hacc & Hlen & Hlost).
  set (e := (LlapiChangelogFini, w_rc (s_trace s1) LlapiChangelogFini)).
  exists (t ++ [e]), bks', recs, lost. split_and!; try done.
  - change (r_trace s1 ++ [e] = r_trace s ++ t ++ [e]). by rewrite Htr, <- app_assoc.
  - by apply silent_app.
  - apply reader_inv_clpriv. destruct Hinv. split; [by apply rep_put|done].
  - by rewrite received_app, app_nil_r.
  - destruct Hlost as [?|(r & -> & Hr)]; [by left|]. right. exists r. split; [done|].
    destruct Hr as [?|(z & Hz & Hnz)]; [by left|]. right. exists z. split; [|done].
    apply elem_of_app. by left.
Qed.

Lemma enqueue_spec fuel s bks cls :
  reader_inv s bks cls ->
  wp (changelog_reader_enqueue fuel) (enqueued (batch_of s) s bks cls) (eq OutOfFuel) s.
Proof.
  intros Hinv. pose proof (reader_inv_batch _ _ _ Hinv) as Hb.
  unfold changelog_reader_enqueue. rewrite wp_bind. unfold wp at 1.
  rewrite (changelog_reader_full_spec _ _ _ Hinv).
  destruct (Z.leb_spec (capacity (cfg_of s)) (re_rec_cnt (r_env s))) as [Hc|Hc].
  { wp_steps. apply enqueued_end; [done|lia]. }
  eapply open_log_spec; [done|]. intros t z s1 Ht Hre Htr Hinv1 Hk Hsr Hcnt _.
  assert (Hb1 : batch_of s1 = batch_of s) by (unfold batch_of, cfg_of; by rewrite (proj1 Hk)).
  assert (Hpre : forall rc s', enqueued (batch_of s) s1 bks cls rc s' ->
    enqueued (batch_of s) s bks cls rc s').
  { intros rc s' Henq. eapply (enqueued_after _ _ _ s1 bks _ t []); try done.
    - intros rs. by rewrite Hre, Hsr.
    - by rewrite Z.sub_0_r. }
  destruct (z =? 0); cbn [negb]; wp_steps; [|apply Hpre, enqueued_end; [done|lia]].
  eapply wp_mono; [apply (enqueue_loop_spec fuel 0 s1 bks cls Hinv1)| |done].
  - lia.
  - unfold cfg_of in *. rewrite (proj1 Hk). lia.
  - intros rc s2 Henq. rewrite Hb1, Z.sub_0_r in Henq. apply Hpre in Henq.
    eapply wp_mono; [apply (enqueue_end_spec _ _ _ _ _ _ Henq)| |done].
    by intros rc' s3 (-> & ? & _).
Qed.

(** ** Termination *)

Lemma cursor_app pre t1 t2 pos :
  cursor_from pre (t1 ++ t2) pos = cursor_from (pre ++ t1) t2 (cursor_from pre t1 pos).
Proof.
  revert pre pos. induction t1 as [|e t1 IH]; intros pre pos; cbn [app cursor_from].
  - by rewrite app_nil_r.
  - by rewrite IH, <- (app_assoc pre [e]).
Qed.

Lemma cursor_nil pre t pos : recvs_of t = [] -> cursor_from pre t pos = pos.
Proof.
  revert pre. induction t as [|[c z] t IH]; intros pre; [done|].
  cbn [cursor_from recvs_of omap]. destruct c; try done; intros Ht; apply (IH _ Ht).
Qed.

Lemma cursor_snoc t t' : cursor (t ++ t') = cursor_from t t' (cursor t).
Proof. unfold cursor. by rewrite cursor_app. Qed.

(** The reader has not read ahead of the log it has open. *)
Definition in_step s : Prop := re_srec (r_env s) <= cursor (r_trace s).

Context (Hord : upstream_ordered).

(** As many turns as records fit in the batch are enough. *)
Lemma enqueue_loop_total fuel k s bks cls :
  reader_inv s bks cls -> 0 <= k < batch_of s -> re_rec_cnt (r_env s) < capacity (cfg_of s) ->
  in_step s -> (Z.to_nat (batch_of s - k) <= fuel)%nat ->
  wp (enqueue_loop fuel k) (fun _ => in_step) safe s.
Proof.
  revert k s bks. induction fuel as [|fuel IH]; intros k s bks Hinv Hk Hroom Hin Hf; [lia|].
  cbn [enqueue_loop]. wp_steps. rewrite wp_ext. set (z := w_rc (s_trace s) _).
  set (s1 := logged _ s). pose proof Hinv as [Hr He]. pose proof (ei_srec _ _ _ He) as Hsr.
  destruct (Z.eqb_spec z 0) as [Hz|Hz]; cbn [negb].
  2: { wp_steps. unfold in_step.
       change (r_trace s1) with (r_trace s ++ [(LlapiChangelogRecv, z)]).
       rewrite cursor_snoc. cbn [cursor_from]. by rewrite (proj2 (Z.eqb_neq z 0)). }
  wp_steps. set (rec := w_rec (s_trace s1)). rewrite wp_ext.
  set (term := w_rc (s_trace s1) ReadTerminateSig). set (s2 := logged _ s1).
  assert (Hinv2 : reader_inv s2 bks cls) by (by split; [apply rep_put, rep_put|]).
  destruct (uo_index Hup (s_trace s1)) as [Hi1 Hi2]. fold rec in Hi1, Hi2.
  assert (Hnew : re_srec (r_env s) <= cr_index rec).
  { unfold in_step in Hin. etransitivity; [exact Hin|]. subst rec.
    change (s_trace s1) with (r_trace s ++ [(LlapiChangelogRecv, z)]). rewrite Hz. by apply Hord. }
  assert (Hcur : cursor (r_trace s2) = cr_index rec + 1).
  { change (r_trace s2) with
      ((r_trace s ++ [(LlapiChangelogRecv, z)]) ++ [(ReadTerminateSig, term)]).
    rewrite !cursor_snoc. cbn [cursor_from]. by rewrite (proj2 (Z.eqb_eq z 0) Hz). }
  destruct (Z.eqb_spec term 0) as [Hterm|Hterm]; cbn [negb].
  2: { wp_steps. unfold in_step. rewrite Hcur. change (r_env s2) with (r_env s). lia. }
  wp_steps. cbn [compose]. change (re_srec (r_env s2)) with (re_srec (r_env s)).
  rewrite (proj2 (Z.ltb_ge _ _)) by (unfold u64; rewrite !to_u_id; unfold in_u; lia).
  apply (store_count_spec s2 bks cls); try done; [apply (uo_rec Hup)| |].
  - intros t s' Ht Hre ->. unfold in_step.
    change (re_srec (r_env s) <= cursor (r_trace s2 ++ t)).
    rewrite cursor_snoc, cursor_nil, Hcur by done. lia.
  - intros t s3 bks3 Ht Hre Htr3 Hinv3 Hst3 Hk3 Hsr3 Hc3.
    assert (Hin3 : in_step s3).
    { unfold in_step. rewrite Htr3, cursor_snoc, cursor_nil, Hcur by done. lia. }
    assert (Hb3 : batch_of s3 = batch_of s) by (unfold batch_of, cfg_of; by rewrite (proj1 Hk3)).
    wp_steps. rewrite Hb3. destruct (Z.leb_spec (batch_of s) (k + 1)); [by wp_steps|].
    unfold wp at 1. rewrite (changelog_reader_full_spec _ _ _ Hinv3).
    destruct (Z.leb_spec (capacity (cfg_of s3)) (re_rec_cnt (r_env s3))); [by wp_steps|].
    apply (IH (k + 1) s3 bks3); try done; lia.
Qed.

Definition in_step_open s : Prop := re_clpriv (r_env s) = true -> in_step s.

Lemma enqueue_total s bks cls :
  reader_inv s bks cls -> in_step_open s ->
  wp (changelog_reader_enqueue (Z.to_nat (batch_of s))) (fun _ => in_step_open) safe s.
Proof.
  intros Hinv Hin. pose proof (reader_inv_batch _ _ _ Hinv) as Hb.
  unfold changelog_reader_enqueue. rewrite wp_bind. unfold wp at 1.
  rewrite (changelog_reader_full_spec _ _ _ Hinv).
  destruct (Z.leb_spec (capacity (cfg_of s)) (re_rec_cnt (r_env s))) as [Hc|Hc];
    [by wp_steps|].
  eapply open_log_spec; [done|]. intros t z s1 Ht Hre Htr Hinv1 Hk Hsr Hcnt Hopen.
  assert (Hb1 : batch_of s1 = batch_of s) by (unfold batch_of, cfg_of; by rewrite (proj1 Hk)).
  assert (Hin1 : (z =? 0) = true -> in_step s1).
  { intros Hz. destruct Hopen as [(Hp & -> & _)|(Hp & _ & dev & ->)]; [by apply Hin|].
    unfold in_step. rewrite Htr, cursor_snoc. cbn [cursor_from]. rewrite Hz. lia. }
  destruct (z =? 0) eqn:Hz; cbn [negb]; wp_steps.
  2: { intros Hp1. destruct Hopen as [(_ & _ & ->)|(_ & Hp & _)]; [done|congruence]. }
  eapply wp_mono; [apply (enqueue_loop_total _ 0 s1 bks cls Hinv1)| |done].
  - lia.
  - unfold cfg_of in *. rewrite (proj1 Hk). lia.
  - by apply Hin1.
  - rewrite Hb1, Z.sub_0_r. lia.
  - intros rc s2 Hin2. unfold enqueue_end, mod_env.
    destruct (_ || _); wp_steps; [|by intros _]. rewrite wp_ext. wp_steps. by intros Hp.
Qed.
End enqueue.
