(* ===== verification/ReaderSpec.v ===== *)
(** * What the changelog reader promises

    The reader seen from outside is a [view]: its buckets from the oldest to the
    one that is being filled, its clients in the order of their registration,
    and the bucket that is served next. [served] is the step relation of one
    RPC on views; [ReaderHandlers] shows that the handlers implement it. *)
From S2P Require Import Prelude World Queue Idl LcapNet RpcUtils Config Reader ReaderRep ReaderInv ReaderBuckets.
Local Open Scope Z_scope.

Record view := mkView {
  v_bks : bkt_list;
  v_cls : cli_list;
  v_deliver : ptr;
}.

(** The client of an identity. *)
Fixpoint client_of (cid : conn_id) (cls : cli_list) : ptr :=
  match cls with
  | [] => None
  | (c, cs) :: t => if bool_decide (cs_ident cs = cid) then Some c else client_of cid t
  end.

Section spec.
Context `{World, ChangelogRec}.

Definition represents (s : rstate) (v : view) : Prop :=
  reader_inv s (v_bks v) (v_cls v) /\ re_deliver_next (r_env s) = v_deliver v.

(** The bucket that a DEQUEUE at time [now] serves, if any, and the buckets
    afterwards: the oldest bucket when its deadline has passed, which makes it
    and the ones sent after it pending again, else the next one in line. *)
Inductive chosen (now : Z * Z) (v : view) : ptr -> bkt_list -> Prop :=
| chosen_expired b bk rest :
    shown now -> v_bks v = (b, bk) :: rest -> expired now bk ->
    chosen now v (Some b) (unready (v_deliver v) (v_bks v))
| chosen_next b bk rest :
    shown now -> v_bks v = (b, bk) :: rest -> ~ expired now bk ->
    chosen now v (v_deliver v) (v_bks v).

(** The last bucket is sealed when it is served: a new one is opened. *)
Definition sealed (batch : Z) (after new : bkt_list) : Prop :=
  match after with
  | [] => exists b idx, new = [(b, new_bucket idx batch)]
  | _ => new = []
  end.

(** The bytes of a record that travel. *)
Definition wire_rec (r : bytes) : bytes := take (Z.to_nat (rec_len r)) r.

Definition enqueue_packet (bk : lcap_rec_bucket) : bytes :=
  enc_enqueue
    {| enq_hdr := {| op_type := op_code RPC_OP_ENQUEUE; reserved := 0 |};
       enq_count := Z.of_nat (length (bk_recs bk));
       enq_records := concat (wire_rec <$> bk_recs bk) |}.

Definition deadline (now : Z * Z) : timespec :=
  {| tv_sec := fst now + ACK_TIMEOUT_MSEC / 1000; tv_nsec := snd now |}.

Definition holds (v : view) (cid : conn_id) (c : loc) (cs : client_state)
    (k1 k2 : cli_list) : Prop :=
  v_cls v = k1 ++ (c, cs) :: k2 /\ client_of cid (v_cls v) = Some c /\ cs_ident cs = cid.

(** The view of a CLEAR before the upstream calls: the client gave its bucket
    back and the bucket is ready. *)
Inductive returned (cid : conn_id) (v : view) : view -> Prop :=
| returned_bucket c cs k1 k2 b bk l1 l2 :
    holds v cid c cs k1 k2 -> cs_bucket cs = Some b ->
    v_bks v = l1 ++ (b, bk) :: l2 ->
    returned cid v (mkView (l1 ++ (b, set_ready true bk) :: l2)
                      (k1 ++ (c, set_cs_bucket None cs) :: k2) (v_deliver v)).

Definition head_ready (v : view) : bool :=
  match v_bks v with (_, bk) :: _ => lrb_ready bk | [] => false end.

(** [served batch cid body op v rc fs v']: the handler of [op] takes [v] to
    [v'], returns [rc] and performs the calls [t]. *)
Inductive served (batch : Z) (cid : conn_id) (body : bytes)
    : rpc_op_type -> view -> Z -> trace -> view -> Prop :=
| start_short v :
    Z.of_nat (length body) < sizeof_register ->
    served batch cid body RPC_OP_START v (- EINVAL) [] v
| start_again v c t :
    sizeof_register <= Z.of_nat (length body) -> client_of cid (v_cls v) = Some c ->
    silent t -> served batch cid body RPC_OP_START v (- EALREADY) t v
| start_nomem v t :
    sizeof_register <= Z.of_nat (length body) -> client_of cid (v_cls v) = None ->
    out_of_memory -> silent t -> served batch cid body RPC_OP_START v (- ENOMEM) t v
| start_new v c rc t :
    sizeof_register <= Z.of_nat (length body) -> client_of cid (v_cls v) = None ->
    sent (envelope None cid (enc_ack (ack_message 0))) rc t ->
    served batch cid body RPC_OP_START v rc t
      (mkView (v_bks v) (v_cls v ++ [(c, mkClient (s64 (get_start body)) None cid)])
         (v_deliver v))
| dequeue_refused v :
    Z.of_nat (length body) < sizeof_dequeue \/ client_of cid (v_cls v) = None ->
    served batch cid body RPC_OP_DEQUEUE v (- EPROTO) [] v
| dequeue_busy v c cs k1 k2 b :
    sizeof_dequeue <= Z.of_nat (length body) ->
    holds v cid c cs k1 k2 -> cs_bucket cs = Some b ->
    served batch cid body RPC_OP_DEQUEUE v (- EPROTO) [] v
| dequeue_eof v c cs k1 k2 now t :
    sizeof_dequeue <= Z.of_nat (length body) ->
    holds v cid c cs k1 k2 -> cs_bucket cs = None -> chosen now v None (v_bks v) ->
    silent t -> served batch cid body RPC_OP_DEQUEUE v 1 t v
| dequeue_noseal v c cs k1 k2 now l1 b bk t :
    sizeof_dequeue <= Z.of_nat (length body) ->
    holds v cid c cs k1 k2 -> cs_bucket cs = None ->
    chosen now v (Some b) (l1 ++ [(b, bk)]) -> out_of_memory -> silent t ->
    served batch cid body RPC_OP_DEQUEUE v (- ENOMEM) t
      (mkView (l1 ++ [(b, bk)]) (v_cls v) None)
| dequeue_nopacket v c cs k1 k2 now l1 b bk l2 new t :
    sizeof_dequeue <= Z.of_nat (length body) ->
    holds v cid c cs k1 k2 -> cs_bucket cs = None ->
    chosen now v (Some b) (l1 ++ (b, bk) :: l2) -> sealed batch l2 new -> out_of_memory ->
    silent t ->
    served batch cid body RPC_OP_DEQUEUE v (- ENOMEM) t
      (mkView (l1 ++ (b, bk) :: l2 ++ new)
         (k1 ++ (c, set_cs_bucket (Some b) cs) :: k2) (head l2.*1))
| dequeue_sent v c cs k1 k2 now now' l1 b bk l2 new rc t :
    sizeof_dequeue <= Z.of_nat (length body) ->
    holds v cid c cs k1 k2 -> cs_bucket cs = None ->
    chosen now v (Some b) (l1 ++ (b, bk) :: l2) -> sealed batch l2 new -> shown now' ->
    sent (envelope None cid (enqueue_packet bk)) rc t ->
    served batch cid body RPC_OP_DEQUEUE v rc t
      (mkView (l1 ++ (b, set_expiry (deadline now') bk) :: l2 ++ new)
         (k1 ++ (c, set_cs_bucket (Some b) cs) :: k2) (head l2.*1))
| clear_refused v :
    Z.of_nat (length body) < sizeof_clear \/ client_of cid (v_cls v) = None ->
    served batch cid body RPC_OP_CLEAR v (- EPROTO) [] v
| clear_nothing v c cs k1 k2 :
    sizeof_clear <= Z.of_nat (length body) ->
    holds v cid c cs k1 k2 -> cs_bucket cs = None ->
    served batch cid body RPC_OP_CLEAR v 0 [] v
| clear_pending v v' rc t :
    sizeof_clear <= Z.of_nat (length body) ->
    returned cid v v' -> head_ready v' = false ->
    sent (envelope None cid (enc_ack (ack_message 0))) rc t ->
    served batch cid body RPC_OP_CLEAR v rc t v'
| clear_upstream_failed v v' rc t :
    sizeof_clear <= Z.of_nat (length body) ->
    returned cid v v' -> head_ready v' = true -> rc < 0 -> silent t ->
    served batch cid body RPC_OP_CLEAR v rc t v'
| fini_refused v :
    Z.of_nat (length body) < sizeof_fini \/ client_of cid (v_cls v) = None ->
    served batch cid body RPC_OP_FINI v (- EPROTO) [] v
| fini_done v c cs k1 k2 rc t :
    sizeof_fini <= Z.of_nat (length body) -> holds v cid c cs k1 k2 ->
    sent (envelope None cid (enc_ack (ack_message 0))) rc t ->
    served batch cid body RPC_OP_FINI v rc t
      (mkView (v_bks v) (k1 ++ k2) (v_deliver v))
| not_for_readers op v :
    op = RPC_OP_ENQUEUE \/ op = RPC_OP_ACK \/ op = RPC_OP_SIGNAL ->
    served batch cid body op v (- EPROTO) [] v.

(** The dispatcher: what is too short or has no valid operation is refused,
    the rest goes to the handler. *)
Inductive dispatched (batch : Z) (cid : conn_id) (body : bytes)
    : view -> Z -> trace -> view -> Prop :=
| rpc_truncated v :
    Z.of_nat (length body) < sizeof_hdr ->
    dispatched batch cid body v (- EPROTO) [] v
| rpc_bad_op v :
    sizeof_hdr <= Z.of_nat (length body) -> op_of_code (get_op_type body) = None ->
    dispatched batch cid body v (- EINVAL) [] v
| rpc_served op v rc t v' :
    sizeof_hdr <= Z.of_nat (length body) -> op_of_code (get_op_type body) = Some op ->
    served batch cid body op v rc t v' -> dispatched batch cid body v rc t v'.

(** The reply: a negative code and the end of the records (1) go to the peer. *)
Inductive replied (cid : conn_id) (rc0 : Z) (t0 : trace) : Z -> trace -> Prop :=
| reply_code rc t :
    rc0 < 0 \/ rc0 = 1 -> sent (envelope None cid (enc_ack (ack_message rc0))) rc t ->
    replied cid rc0 t0 rc (t0 ++ t)
| reply_none :
    0 <= rc0 -> rc0 <> 1 -> replied cid rc0 t0 rc0 t0.

(** A DEQUEUE that succeeds serves a bucket. *)
Lemma served_dequeue_0 batch cid body v t v' :
  served batch cid body RPC_OP_DEQUEUE v 0 t v' ->
  exists c cs k1 k2 now now' l1 b bk l2 new,
    holds v cid c cs k1 k2 /\ chosen now v (Some b) (l1 ++ (b, bk) :: l2) /\
    sealed batch l2 new /\ frames_of t = envelope None cid (enqueue_packet bk) /\
    v' = mkView (l1 ++ (b, set_expiry (deadline now') bk) :: l2 ++ new)
           (k1 ++ (c, set_cs_bucket (Some b) cs) :: k2) (head l2.*1).
Proof.
  inversion 1; subst; try done.
  do 11 eexists. split_and!; try done.
  match goal with Hs : sent _ 0 _ |- _ => by destruct Hs as [[_ ?]|[? _]] end.
Qed.

(** The client of an identity is one. *)
Lemma holds_unique s v cid c cs k1 k2 c' cs' k1' k2' :
  represents s v -> holds v cid c cs k1 k2 -> holds v cid c' cs' k1' k2' -> c = c' /\ cs = cs'.
Proof.
  intros [[Hr _] _] (Hk & Hcl & _) (Hk' & Hcl' & _).
  assert (c' = c) as -> by congruence. split; [done|].
  assert (Hin : (c, cs) ∈ v_cls v) by (rewrite Hk; apply elem_of_app; right; by left).
  assert (Hin' : (c, cs') ∈ v_cls v) by (rewrite Hk'; apply elem_of_app; right; by left).
  apply (rep_cmem _ _ _ Hr) in Hin, Hin'. congruence.
Qed.
End spec.
