(* ===== verification/Demo.v ===== *)
(** * A concrete world and concrete readers

    The parameters of the development, instantiated: a record layout, an
    upstream log of a few records, a clock that stands still, and readers small
    enough to be evaluated. The theorems are applied to them, which shows that
    their hypotheses can hold. *)
From S2P Require Import Prelude World Queue Idl LcapNet RpcUtils Config Reader ReaderRep ReaderInv ReaderRpc ReaderEnqueue ReaderSpec.
Local Open Scope Z_scope.

(** ** Records: 16 bytes and a name; the name's length first, the index at 8 *)

#[export] Instance demo_layout : ChangelogRec := {|
  cr_index r := field r 8 8;
  cr_namelen r := field r 0 2;
  changelog_rec_size _ := 16;
  changelog_rec_name _ := 16;
  sizeof_changelog_rec := 16;
  CHANGELOG_FLAG_FOLLOW := 1;
  CHANGELOG_FLAG_BLOCK := 2;
  CHANGELOG_FLAG_JOBID := 4;
|}.

#[export] Instance demo_layout_laws : ChangelogRecLaws.
Proof.
  split; cbn; [done|done|done| |].
  - intros r. apply le_dec_range.
  - intros r rest Hl. by rewrite !field_app_l by lia.
Qed.

Definition demo_rec (n : Z) : bytes :=
  le_enc 2 1 ++ le_enc 6 0 ++ le_enc 8 n ++ of_str "f".

Lemma demo_rec_index n : 0 <= n < 2 ^ 64 -> cr_index (demo_rec n) = n.
Proof.
  intros Hn. cbn [cr_index demo_layout]. unfold demo_rec. rewrite app_assoc.
  rewrite field_at by (rewrite ?length_app, ?length_le_enc; done).
  rewrite le_dec_enc. by apply Z.mod_small.
Qed.

Lemma demo_rec_ok n : rec_ok (demo_rec n).
Proof.
  unfold rec_ok, rec_len. cbn [cr_namelen changelog_rec_size demo_layout].
  assert (field (demo_rec n) 0 2 = 1) as -> by done.
  unfold demo_rec. rewrite !length_app, !length_le_enc. cbn. lia.
Qed.

(** ** The world: a log of [demo_len] records *)

Definition demo_len : Z := 3.

(** The position in the log after the calls of a trace. *)
Definition demo_step (pos : Z) (e : event) : Z :=
  match e with
  | (LlapiChangelogStart _ _ start, z) => if z =? 0 then Z.max 0 start else pos
  | (LlapiChangelogRecv, z) => if z =? 0 then pos + 1 else pos
  | _ => pos
  end.
Definition demo_pos (t : trace) : Z := foldl demo_step 0 t.

(** [up] is what upstream answers to an acknowledgement. *)
Definition demo_world (now up : Z) : World := {|
  w_rc t c :=
    match c with
    | LlapiChangelogRecv => if demo_pos t <? demo_len then 0 else 1
    | LlapiChangelogClear _ _ _ => up
    | _ => 0
    end;
  w_clock _ := (now, 0);
  w_rec t := demo_rec (Z.min (demo_pos (removelast t)) demo_len);
  w_frame _ := ([], false);
  w_revents _ := ZMQ_POLLIN;
|}.

Lemma demo_pos_snoc t e : demo_pos (t ++ [e]) = demo_step (demo_pos t) e.
Proof. unfold demo_pos. by rewrite foldl_app. Qed.

Lemma demo_pos_nonneg t : 0 <= demo_pos t.
Proof.
  induction t as [|[c z] t IH] using rev_ind; [done|].
  rewrite demo_pos_snoc. destruct c; cbn; try done; destruct (z =? 0); lia.
Qed.

Section demo_world.
Context (now up : Z).
#[local] Instance the_world : World := demo_world now up.

Lemma demo_index t :
  cr_index (w_rec (World := demo_world now up) t) = Z.min (demo_pos (removelast t)) demo_len.
Proof.
  cbn [w_rec demo_world]. pose proof (demo_pos_nonneg (removelast t)).
  apply demo_rec_index. unfold demo_len. lia.
Qed.

Lemma demo_upstream_ok : upstream_ok.
Proof.
  split; intros t; [apply demo_rec_ok|]. rewrite demo_index.
  pose proof (demo_pos_nonneg (removelast t)). unfold demo_len. lia.
Qed.

Lemma demo_cursor t : cursor t <= demo_pos t.
Proof.
  induction t as [|[c z] t IH] using rev_ind; [done|].
  rewrite cursor_snoc, demo_pos_snoc. destruct c; cbn [cursor_from demo_step]; try done;
    destruct (z =? 0); try done; try lia.
  rewrite demo_index, removelast_last. lia.
Qed.

Lemma demo_upstream_ordered : upstream_ordered.
Proof.
  intros t Ht. rewrite demo_index, removelast_last. pose proof (demo_cursor t).
  cbn in Ht. destruct (Z.ltb_spec (demo_pos t) demo_len); [lia|done].
Qed.
End demo_world.

(** ** Readers *)

Definition demo_cfg : lcap_cfg := {|
  ccf_mdt := [Some (of_str "mdt0")]; ccf_clreader := Some (of_str "cl1"); ccf_mdtcount := 1;
  ccf_file := None; ccf_loggername := None; ccf_oneshot := false; ccf_verbosity := 0;
  ccf_max_bkt := 2; ccf_rec_batch_count := 2; ccf_worker_count := 1;
|}.

Definition demo_cid : conn_id := of_str "client".

(** A bucket that holds the record [n], sent at 0 or never ([deadline] 0). *)
Definition demo_bucket (n due : Z) : lcap_rec_bucket :=
  mkBucket 0 {| tv_sec := due; tv_nsec := 0 |} false 17 1 [Some (demo_rec n); None].

(** The reader that has the buckets [b1] (at 1), and an empty one (at 2), and
    one client (at 3) that holds [held]. *)
Definition demo_reader (b1 : lcap_rec_bucket) (held deliver : ptr) : rstate :=
  mkSt (mkEnv demo_cfg true true true (Some (of_str "mdt0"))
          (mkStats (0, 0) 1 0) 0 1 2 1
          (Some 2%positive) deliver (Some 1%positive)
          (mkList 2 (Some 1%positive) (Some 2%positive))
          (mkList 1 (Some 3%positive) (Some 3%positive)))
       {[1%positive := mkNode None (Some 2%positive);
         2%positive := mkNode (Some 1%positive) None;
         3%positive := mkNode None None]}
       {[1%positive := b1; 2%positive := new_bucket 1 2]}
       {[3%positive := mkClient 0 held demo_cid]}
       4 [(LlapiChangelogStart 4 (of_str "mdt0") 0, 0); (LlapiChangelogRecv, 0)].

Definition demo_view (b1 : lcap_rec_bucket) (held deliver : ptr) : view :=
  mkView [(1%positive, b1); (2%positive, new_bucket 1 2)]
    [(3%positive, mkClient 0 held demo_cid)] deliver.

Lemma demo_rep b1 held deliver :
  rep (demo_reader b1 held deliver) (v_bks (demo_view b1 held deliver))
    (v_cls (demo_view b1 held deliver)).
Proof.
  split; cbn.
  - split; cbn; try done. apply (bool_decide_unpack _). by vm_compute.
  - split; cbn; try done. apply NoDup_singleton.
  - intros l Hl ->%list_elem_of_singleton.
    apply elem_of_cons in Hl as [?|?%list_elem_of_singleton]; done.
  - intros b bk Hin. rewrite !elem_of_cons in Hin.
    destruct Hin as [[= -> ->]|[[= -> ->]|Hin]]; [done|done|by apply elem_of_nil in Hin].
  - intros c cs Hin. rewrite !elem_of_cons in Hin.
    destruct Hin as [[= -> ->]|Hin]; [done|by apply elem_of_nil in Hin].
  - intros l [nd Hl]. rewrite !lookup_insert_Some, lookup_singleton_Some in Hl.
    destruct Hl as [[<- _]|[_ [[<- _]|[_ [<- _]]]]]; lia.
Qed.

(** A bucket of the demo reader, or none. *)
Definition demo_ptr (p : ptr) : Prop := forall b, p = Some b -> b ∈ [1%positive; 2%positive].

Lemma demo_bucket_ok due : bucket_ok 2 (demo_bucket 0 due).
Proof.
  constructor; try done. apply Forall_cons. split; [apply demo_rec_ok|].
  by apply Forall_nil_2.
Qed.

(** The reader is well formed, whoever holds the bucket of the record 0. *)
Lemma demo_represents due held deliver :
  demo_ptr held -> demo_ptr deliver ->
  represents (demo_reader (demo_bucket 0 due) held deliver)
    (demo_view (demo_bucket 0 due) held deliver).
Proof.
  intros Hh Hd. split; [|done]. split; [apply demo_rep|].
  constructor; try done; cbn.
  - repeat (apply Forall_cons; split); [apply demo_bucket_ok|by apply new_bucket_ok|].
    by apply Forall_nil_2.
  - intros c cs b [[= -> ->]|Hin%elem_of_nil]%elem_of_cons; [|done]. apply Hh.
  - apply NoDup_singleton.
  - repeat constructor.
  - change (Forall (fun r => 0 <= cr_index r < 1) [demo_rec 0]).
    apply Forall_cons. split; [rewrite demo_rec_index; lia|by apply Forall_nil_2].
Qed.

Lemma demo_ptr_None : demo_ptr None.
Proof. done. Qed.
Lemma demo_ptr_1 : demo_ptr (Some 1%positive).
Proof. intros b [= <-]. left. Qed.
Lemma demo_ptr_2 : demo_ptr (Some 2%positive).
Proof. intros b [= <-]. right. left. Qed.

#[export] Hint Resolve demo_ptr_None demo_ptr_1 demo_ptr_2 demo_represents : core.

(** The requests of the demo client. *)
Definition demo_request (body : bytes) : lcapnet_request :=
  {| lr_flags := 1; lr_remote := None; lr_forward := Some demo_cid; lr_body := body |}.
Definition demo_hdr (op : rpc_op_type) : px_rpc_hdr := {| op_type := op_code op; reserved := 0 |}.
Definition demo_dequeue : lcapnet_request :=
  demo_request (enc_dequeue {| deq_hdr := demo_hdr RPC_OP_DEQUEUE |}).
Definition demo_clear : lcapnet_request :=
  demo_request (enc_clear {| clear_hdr := demo_hdr RPC_OP_CLEAR; clear_index := 0;
                             clear_id_len := 0; clear_id := of_str "cl1" ++ NUL :: of_str "mdt0" ++ [NUL] |}).
