(* ===== verification/ReaderHandlers.v ===== *)
(** * The reader's handlers implement [ReaderSpec.served] *)
From S2P Require Import Prelude World Queue Idl LcapNet RpcUtils Config Reader ReaderRep ReaderInv ReaderBuckets ReaderRpc ReaderSpec.
Local Open Scope Z_scope.

(** What no RPC changes: configuration, identity, position in the upstream log,
    counters. *)
Definition static (e e' : reader_env) : Prop :=
  re_cfg e' = re_cfg e /\ re_index e' = re_index e /\ re_srec e' = re_srec e /\
  re_clpriv e' = re_clpriv e /\ re_rec_cnt e' = re_rec_cnt e /\ re_stats e' = re_stats e /\
  re_ident e' = re_ident e.

#[export] Instance static_preorder : PreOrder static.
Proof.
  split; [by intros e; repeat split|].
  unfold static.
  intros e1 e2 e3 (-> & -> & -> & -> & -> & -> & ->) (-> & -> & -> & -> & -> & -> & ->).
  by repeat split.
Qed.

Section clients.
Context `{World, ChangelogRec}.
Implicit Types (s : rstate) (bks : bkt_list) (cls : cli_list).

(** ** Looking a client up *)

Lemma client_of_None cid cls :
  client_of cid cls = None <-> cid ∉ (cs_ident ∘ snd) <$> cls.
Proof.
  induction cls as [|[c cs] t IH]; simpl; [by split; intros; [apply not_elem_of_nil|]|].
  rewrite not_elem_of_cons. unfold compose at 1. simpl.
  case_bool_decide as Hid; [split; [done|]; by intros [? _]; subst|].
  rewrite IH. split; [|tauto]. intros; split; [congruence|done].
Qed.

Lemma client_of_Some cid cls c :
  client_of cid cls = Some c ->
  exists cs k1 k2, cls = k1 ++ (c, cs) :: k2 /\ cs_ident cs = cid.
Proof.
  induction cls as [|[c' cs'] t IH]; simpl; [done|].
  case_bool_decide as Hid; [intros [= ->]; by exists cs', [], t|].
  intros (cs & k1 & k2 & -> & Hcs)%IH. by exists cs, ((c', cs') :: k1), k2.
Qed.

Lemma find_client_spec fuel s bks l1 l2 cid :
  rep s bks (l1 ++ l2) -> (length l2 < fuel)%nat ->
  wp (find_client fuel (head l2.*1) (Some cid))
     (fun r s' => s' = s /\ r = client_of cid l2) safe s.
Proof.
  revert l1 l2. induction fuel as [|fuel IH]; intros l1 l2 Hr Hf; [lia|].
  destruct l2 as [|[c cs] l2]; cbn [find_client head client_of fmap list_fmap fst].
  { by wp_steps. }
  wp_steps. eapply wp_load_cli; [done|apply elem_of_app; right; by left|]. wp_steps.
  assert (Hnext : wp (next ← load_next c; find_client fuel next (Some cid))
    (fun r s' => s' = s /\ r = client_of cid l2) safe s).
  { wp_steps. eapply wp_load_next_cli; [done|]. cbn [length] in Hf.
    apply (IH (l1 ++ [(c, cs)])); [by rewrite <- app_assoc|lia]. }
  destruct (Z.eqb_spec (ci_length (cs_ident cs)) (ci_length cid)) as [Hlen|Hlen]; simpl negb.
  - case_bool_decide; [by wp_steps|done].
  - cbv iota. rewrite bool_decide_eq_false_2; [done|]. intros Heq. by rewrite Heq in Hlen.
Qed.

Lemma client_state_get_spec s bks cls cid :
  rep s bks cls ->
  wp (client_state_get (Some cid)) (fun r s' => s' = s /\ r = client_of cid cls) safe s.
Proof.
  intros Hr. unfold client_state_get. wp_steps. cbn [compose].
  pose proof (il_first _ _ (rep_peers _ _ _ Hr)) as Hf. simpl in Hf. rewrite Hf.
  eapply (find_client_spec _ _ _ [] cls); [done|].
  rewrite <- (length_fmap fst). eapply walk_fuel_list, (rep_peers _ _ _ Hr).
Qed.

(** ** Updates of the list of clients *)

Lemma env_inv_cls e bks cls cls' :
  env_inv e bks cls ->
  (forall c cs b, (c, cs) ∈ cls' -> cs_bucket cs = Some b -> b ∈ bks.*1) ->
  NoDup ((cs_ident ∘ snd) <$> cls') -> env_inv e bks cls'.
Proof. by intros [] ??; constructor. Qed.

Lemma env_inv_set_lists hb hp e bks cls :
  env_inv e bks cls -> env_inv (set_lists hb hp e) bks cls.
Proof. by intros []; constructor. Qed.

(** The bucket of one client changes. *)
Lemma env_inv_bind e bks k1 c cs k2 p :
  env_inv e bks (k1 ++ (c, cs) :: k2) -> (forall b, p = Some b -> b ∈ bks.*1) ->
  env_inv e bks (k1 ++ (c, set_cs_bucket p cs) :: k2).
Proof.
  intros He Hp. eapply env_inv_cls; [done| |].
  - intros c' cs' b Hin Hb. rewrite elem_of_app, elem_of_cons in Hin.
    destruct Hin as [?|[[= -> ->]|?]]; [|by apply Hp|];
      apply (ei_owner _ _ _ He c' cs' b); try done; rewrite elem_of_app, elem_of_cons; tauto.
  - pose proof (ei_idents _ _ _ He) as Hnd. by rewrite fmap_app, fmap_cons in *.
Qed.

Lemma env_inv_remove e bks k1 c cs k2 :
  env_inv e bks (k1 ++ (c, cs) :: k2) -> env_inv e bks (k1 ++ k2).
Proof.
  intros He. eapply env_inv_cls; [done| |].
  - intros c' cs' b Hin. apply (ei_owner _ _ _ He c' cs' b).
    rewrite elem_of_app, elem_of_cons. apply elem_of_app in Hin. tauto.
  - pose proof (ei_idents _ _ _ He) as Hnd. rewrite fmap_app, fmap_cons in Hnd.
    rewrite fmap_app. by apply nodup_cut in Hnd as [_ ?].
Qed.
End clients.

Section handlers.
Context `{World, ChangelogRec}.
Implicit Types (s : rstate) (v : view) (req : lcapnet_request) (t : trace).

Lemma represents_extends s t s' v : extends s t s' -> represents s v -> represents s' v.
Proof. intros -> [[Hr He] Hd]. split; [split; [by apply rep_put|done]|done]. Qed.

Lemma static_extends s t s' : extends s t s' -> static (r_env s) (r_env s').
Proof. by intros ->. Qed.

(** What a handler of [op] does from [s], whose view is [v]. *)
Definition handled (cid : conn_id) (body : bytes) (op : rpc_op_type) s v
    (rc : Z) (s' : rstate) : Prop :=
  exists t v', r_trace s' = r_trace s ++ t /\ clears_of t = [] /\
    served (batch_of s) cid body op v rc t v' /\ represents s' v' /\
    static (r_env s) (r_env s').

(** The faults of a handler: one, and only in CLEAR. *)
Definition may_fault (op : rpc_op_type) (f : fault) : Prop :=
  op = RPC_OP_CLEAR /\ f = UseAfterFree.

(** Ending a handler without having changed anything but the trace. *)
Lemma handled_same cid body op s v rc s' t :
  represents s v -> extends s t s' -> clears_of t = [] ->
  served (batch_of s) cid body op v rc t v -> handled cid body op s v rc s'.
Proof.
  intros Hv Ht Hc Hs. exists t, v. split_and!; [by rewrite Ht|done|done| |].
  - by eapply represents_extends.
  - by eapply static_extends.
Qed.

(** Ending a handler with the reply [msg] to the peer. *)
Lemma handled_sent cid body op s v s1 t1 v1 msg (k : M rstate Z) E :
  r_trace s1 = r_trace s ++ t1 -> silent t1 -> represents s1 v1 ->
  static (r_env s) (r_env s1) ->
  wp k (fun rc s' => exists t, extends s1 t s' /\ clears_of t = []
          /\ sent (envelope None cid msg) rc t) safe s1 ->
  (forall rc t, sent (envelope None cid msg) rc t ->
     served (batch_of s) cid body op v rc t v1) ->
  wp k (handled cid body op s v) E s1.
Proof.
  intros Ht1 [Hf1 Hc1] Hv Hst Hk Hs. eapply wp_mono; [exact Hk| |done].
  intros rc s' (t & Ht & Hc & Hsent). exists (t1 ++ t), v1.
  assert (sent (envelope None cid msg) rc (t1 ++ t)) as Hsent'.
  { unfold sent in *. by rewrite frames_of_app, Hf1. }
  split_and!.
  - rewrite Ht. simpl. by rewrite Ht1, app_assoc.
  - by rewrite clears_of_app, Hc1, Hc.
  - by apply Hs.
  - by eapply represents_extends.
  - rewrite Hst. by eapply static_extends.
Qed.

(** The acknowledgement 0 that ends three of the handlers. *)
Lemma handled_ack cid body op s v s1 t1 v1 E :
  r_trace s1 = r_trace s ++ t1 -> silent t1 -> represents s1 v1 ->
  static (r_env s) (r_env s1) ->
  (forall rc t, sent (envelope None cid (enc_ack (ack_message 0))) rc t ->
     served (batch_of s) cid body op v rc t v1) ->
  wp (ack_retcode None (Some cid) 0) (handled cid body op s v) E s1.
Proof.
  intros. eapply handled_sent; try done. apply (ack_retcode_spec None cid 0).
Qed.

Lemma holds_intro v cid c :
  client_of cid (v_cls v) = Some c -> exists cs k1 k2, holds v cid c cs k1 k2.
Proof.
  intros Hc. destruct (client_of_Some _ _ _ Hc) as (cs & k1 & k2 & Hv & Hid).
  exists cs, k1, k2. split_and!; try done.
Qed.

Lemma wp_load_held v cid c cs k1 k2 s Q E :
  represents s v -> holds v cid c cs k1 k2 -> Q cs s -> wp (load_cli c) Q E s.
Proof.
  intros [[Hr _] _] (Hk & _ & _) HQ. eapply wp_load_cli; [exact Hr| |exact HQ].
  rewrite Hk. apply elem_of_app. right. by left.
Qed.

(** ** START *)

Lemma reader_handle_start_spec s v req cid :
  represents s v -> lr_forward req = Some cid ->
  wp (reader_handle_start req) (handled cid (lr_body req) RPC_OP_START s v) safe s.
Proof.
  intros Hv Hf. unfold reader_handle_start, lr_body_len, conn_id_dup. rewrite Hf.
  destruct (Z.ltb_spec (Z.of_nat (length (lr_body req))) sizeof_register) as [Hl|Hl].
  { wp_steps. by eapply handled_same; [done|apply extends_refl|done|constructor]. }
  wp_steps. destruct Hv as [[Hr He] Hd]. eapply wp_mono;
    [apply (client_state_get_spec _ _ _ cid Hr)| |done]. intros r s' [-> ->].
  assert (Hv : represents s v) by done.
  destruct (client_of cid (v_cls v)) as [c|] eqn:Hcl.
  { wp_steps. eapply handled_same; [done|apply extends_refl|done|by econstructor]. }
  wp_steps. rewrite wp_alloc. set (a1 := Alloc _). set (s1 := logged a1 s).
  assert (H1 : extends s [(a1, w_rc (s_trace s) a1)] s1) by apply extends_logged.
  destruct (0 <=? w_rc (s_trace s) a1) eqn:Ha1; simpl negb; cbv iota; wp_steps.
  2: { apply alloc_failed in Ha1. eapply handled_same; [done|exact H1|done|by constructor]. }
  rewrite wp_alloc. set (a2 := Alloc (_ + _)). set (s2 := logged a2 s1).
  assert (H2 : extends s [(a1, w_rc (s_trace s) a1); (a2, w_rc (s_trace s1) a2)] s2).
  { apply (extends_trans s s1 s2 [_] [_]); by apply extends_logged. }
  destruct (0 <=? w_rc (s_trace s1) a2) eqn:Ha2; wp_steps.
  2: { apply alloc_failed in Ha2. eapply handled_same; [done|exact H2|done|by constructor]. }
  unfold new_loc, wp at 1. wp_steps.
  destruct (represents_extends _ _ _ _ H2 Hv) as [[Hr2 He2] Hd2].
  eapply wp_mono; [apply (rep_append_cli _ _ _ _ Hr2)| |done].
  intros _ s3 (Hr3 & hd & nodes & ->). wp_steps.
  eapply wp_mono; [eapply (handled_ack _ _ _ _ _ _ [_; _]
    (mkView (v_bks v) (v_cls v ++ [(r_next s, mkClient (s64 (get_start (lr_body req))) None cid)])
       (v_deliver v))) with (E := safe)| |done].
  - exact (extends_trace _ _ _ H2).
  - done.
  - split; [split; [exact Hr3|]|done]. apply env_inv_set_lists.
    eapply env_inv_cls; [exact He| |].
    + intros c cs b [Hin|Hin%list_elem_of_singleton]%elem_of_app Hb; [|by simplify_eq].
      by eapply (ei_owner _ _ _ He).
    + cbn [v_cls]. rewrite fmap_app. simpl. apply client_of_None in Hcl.
      apply NoDup_app. split_and!; [apply (ei_idents _ _ _ He)| |apply NoDup_singleton].
      intros x Hx ->%list_elem_of_singleton. done.
  - done.
  - intros rc t Hs. by constructor.
  - intros rc s4 Hh. simpl in Hh.
    destruct (Z.ltb_spec rc 0); wp_steps; [done|].
    enough (rc = 0) as -> by done. destruct Hh as (t & v' & _ & _ & Hs & _).
    inversion Hs; subst; try done; unfold sent in *; lia.
Qed.

(** The lookup that starts the other handlers: refused, or a client. *)
Lemma handled_lookup cid body op s v sz (k : loc -> M rstate Z) :
  represents s v ->
  (forall v, Z.of_nat (length body) < sz \/ client_of cid (v_cls v) = None ->
     served (batch_of s) cid body op v (- EPROTO) [] v) ->
  (forall c cs k1 k2, sz <= Z.of_nat (length body) -> holds v cid c cs k1 k2 ->
     wp (k c) (handled cid body op s v) (may_fault op) s) ->
  wp (if Z.of_nat (length body) <? sz then mret (- EPROTO)
      else cs ← client_state_get (Some cid);
           match cs with None => mret (- EPROTO) | Some c => k c end)
     (handled cid body op s v) (may_fault op) s.
Proof.
  intros Hv Hrefuse Hk. destruct (Z.ltb_spec (Z.of_nat (length body)) sz) as [Hl|Hl].
  { wp_steps. eapply handled_same; [done|apply extends_refl|done|]. apply Hrefuse. by left. }
  wp_steps. pose proof Hv as [[Hr _] _]. eapply wp_mono;
    [apply (client_state_get_spec _ _ _ cid Hr)| |done]. intros r s' [-> ->].
  destruct (client_of cid (v_cls v)) as [c|] eqn:Hcl.
  - destruct (holds_intro _ _ _ Hcl) as (cs & k1 & k2 & Hh). by eapply Hk.
  - wp_steps. eapply handled_same; [done|apply extends_refl|done|]. apply Hrefuse. by right.
Qed.

(** ** FINI *)

Lemma client_remove_spec s v cid c cs k1 k2 :
  represents s v -> holds v cid c cs k1 k2 ->
  wp (on_peers (list_remove c);; client_state_release c) (fun _ s' =>
    r_trace s' = r_trace s /\ static (r_env s) (r_env s') /\
    represents s' (mkView (v_bks v) (k1 ++ k2) (v_deliver v))) safe s.
Proof.
  intros [[Hr He] Hd] (Hk & _ & _). rewrite Hk in Hr, He. wp_steps.
  eapply wp_mono; [apply (rep_remove_cli _ _ _ _ _ _ Hr)| |done].
  intros _ s1 (Hr1 & hd & nodes & ->). unfold client_state_release, load_cli. wp_steps.
  unfold wp at 1. cbn [r_clis set_env set_nodes].
  rewrite (rep_cmem _ _ _ Hr c cs) by (apply elem_of_app; right; by left).
  wp_steps. split_and!; [done|done|]. split; [|done]. split.
  - destruct (rep_unique_cli _ _ _ _ _ _ Hr). by apply rep_free_cli.
  - simpl. eapply env_inv_set_lists, env_inv_remove, He.
Qed.

Lemma reader_handle_fini_spec s v req cid :
  represents s v -> lr_forward req = Some cid ->
  wp (reader_handle_fini req) (handled cid (lr_body req) RPC_OP_FINI s v)
     (may_fault RPC_OP_FINI) s.
Proof.
  intros Hv Hf. unfold reader_handle_fini, lr_body_len. rewrite Hf.
  apply handled_lookup; [done|by constructor|].
  intros c cs k1 k2 Hl Hh.
  pose proof (client_remove_spec _ _ _ _ _ _ _ Hv Hh) as Hrm.
  rewrite wp_bind in Hrm. rewrite wp_bind.
  eapply wp_mono; [exact Hrm| |done]. intros u s1 Hrel. rewrite wp_bind.
  eapply wp_mono; [exact Hrel| |done]. intros _ s2 (Ht & Hst & Hv2).
  eapply (handled_ack _ _ _ _ _ _ []); [by rewrite app_nil_r|done|exact Hv2|done|].
  intros rc t Hs. by econstructor.
Qed.

(** ** CLEAR *)

(** A bucket changes but for its records. *)
Lemma env_inv_touch e l1 b bk bk' l2 cls :
  env_inv e (l1 ++ (b, bk) :: l2) cls -> bk_recs bk' = bk_recs bk ->
  (forall batch, bucket_ok batch bk -> bucket_ok batch bk') ->
  env_inv e (l1 ++ (b, bk') :: l2) cls.
Proof.
  intros He Hrecs Hok. eapply env_inv_bks; [done|]. unfold same_content.
  rewrite !fst_app_cons. split; [done|]. split.
  - change ((b, ?x) :: l2) with ([(b, x)] ++ l2). by rewrite !stream_app, !stream_one, Hrecs.
  - pose proof (ei_bounds _ _ _ He) as Hb. rewrite Forall_app, Forall_cons in *.
    destruct Hb as (? & Hbk & ?). split_and!; [done|by apply Hok|done].
Qed.

Lemma set_ready_ok batch x bk : bucket_ok batch bk -> bucket_ok batch (set_ready x bk).
Proof. by intros []. Qed.
Lemma set_expiry_ok batch (d : timespec) bk :
  bucket_ok batch bk -> bucket_ok batch (set_expiry d bk).
Proof. by intros []. Qed.

Lemma env_inv_owner e bks k1 c cs k2 b :
  env_inv e bks (k1 ++ (c, cs) :: k2) -> cs_bucket cs = Some b -> b ∈ bks.*1.
Proof.
  intros He. apply (ei_owner _ _ _ He c). apply elem_of_app. right. by left.
Qed.

Lemma return_bucket_spec s v cid c cs k1 k2 b (k : M rstate Z) (Q : Z -> rstate -> Prop) E :
  represents s v -> holds v cid c cs k1 k2 -> cs_bucket cs = Some b ->
  (forall s' v', r_trace s' = r_trace s -> r_env s' = r_env s -> represents s' v' ->
     returned cid v v' -> wp k Q E s') ->
  wp (store_cli c (set_cs_bucket None cs);; bk ← load_bkt b;
      store_bkt b (set_ready true bk);; k) Q E s.
Proof.
  intros [[Hr He] Hd] Hh Hcs Hk. pose proof Hh as (Hc & _ & _). rewrite Hc in Hr, He.
  wp_steps. eapply wp_store_cli; [exact Hr|]. wp_steps.
  apply (rep_store_cli _ _ _ _ _ (set_cs_bucket None cs)) in Hr.
  pose proof (env_inv_owner _ _ _ _ _ _ _ He Hcs) as Hb.
  apply fst_split in Hb as (bk & l1 & l2 & Hb). rewrite Hb in Hr, He.
  eapply wp_load_bkt; [exact Hr|apply elem_of_app; right; by left|]. wp_steps.
  eapply wp_store_bkt; [exact Hr|]. apply (rep_store_bkt _ _ _ _ (set_ready true bk)) in Hr.
  eapply Hk; [| | |by eapply returned_bucket]; [done|done|].
  split; [split; [exact Hr|]|done]. simpl.
  apply env_inv_bind; [|done]. eapply env_inv_touch; [exact He|done|].
  intros. by apply set_ready_ok.
Qed.

(** The record number that acknowledges a bucket upstream. *)
Definition max_index (bk : lcap_rec_bucket) : Z :=
  from_option (s64 ∘ cr_index) (-1) (last (bk_recs bk)).

Lemma rec_bucket_max_index_spec batch bk s :
  bucket_ok batch bk ->
  wp (rec_bucket_max_index bk) (fun z s' => s' = s /\ z = max_index bk) safe s.
Proof.
  intros Hok. pose proof (length_bk_recs _ _ Hok) as Hlen. destruct Hok as [Hc Hs Hl _ _].
  unfold rec_bucket_max_index, max_index. destruct (Z.eqb_spec (lrb_rec_count bk) 0) as [Hz0|Hz0].
  - wp_steps. destruct (bk_recs bk); [done|]. cbn [length] in Hlen. lia.
  - rewrite last_lookup. set (n := Z.to_nat (lrb_rec_count bk - 1)).
    replace (pred (length (bk_recs bk))) with n by lia.
    destruct (lookup_lt_is_Some_2 (bk_recs bk) n) as [r Hr]; [lia|].
    apply (f_equal (lookup n)) in Hl. rewrite list_lookup_fmap, Hr in Hl.
    rewrite lookup_take_lt in Hl by lia. cbn in Hl. wp_steps. rewrite Hl. wp_steps.
    by rewrite Hr.
Qed.

Lemma wp_free_records n s (Q : unit -> rstate -> Prop) :
  (forall t s', silent t -> extends s t s' -> Q tt s') -> wp (free_records n) Q safe s.
Proof.
  revert s Q. induction n as [|n IH]; intros s Q HQ; cbn [free_records]; wp_steps.
  { eapply (HQ []); [done|apply extends_refl]. }
  rewrite wp_ext. apply IH. intros t s' Ht He.
  eapply (HQ ([(LlapiChangelogFree, w_rc (s_trace s) LlapiChangelogFree)] ++ t));
    [by apply silent_app|]. by eapply extends_trans.
Qed.

(** Destroying a bucket that was removed from the list. *)
Lemma rec_bucket_destroy_spec s bks cls b bk :
  rep s bks cls -> r_bkts s !! b = Some bk -> b ∉ bks.*1 -> b ∉ cls.*1 ->
  wp (rec_bucket_destroy b) (fun _ s' => exists t, silent t /\
    r_trace s' = r_trace s ++ t /\ r_env s' = r_env s /\ rep s' bks cls /\
    r_nodes s' !! b = None) safe s.
Proof.
  intros Hr Hb Hn1 Hn2. unfold rec_bucket_destroy. wp_steps. unfold load_bkt, wp at 1.
  rewrite Hb. wp_steps. apply wp_free_records. intros t s' Ht He. wp_steps.
  exists t. rewrite He. split_and!; [done|done|done| |].
  - apply rep_free_bkt; [|done|done]. by apply rep_put.
  - simpl. apply lookup_delete_eq.
Qed.

(** The call that acknowledges [bk] upstream. *)
Definition clear_call (dev cli : bytes) (bk : lcap_rec_bucket) : extcall :=
  LlapiChangelogClear dev cli (max_index bk).

Definition refused_or_removed s (dev cli : bytes) b bk rest cls (rc : Z) (s' : rstate) : Prop :=
  let c := clear_call dev cli bk in
  let z := w_rc (r_trace s) c in
  (rc = z /\ z < 0 /\ extends s [(c, z)] s') \/
  (rc = 0 /\ 0 <= z /\ exists t, silent t /\ r_trace s' = r_trace s ++ [(c, z)] ++ t /\
     rep s' rest cls /\ r_nodes s' !! b = None /\
     re_rec_cnt (r_env s') = Z.of_nat (length (stream rest)) /\
     re_cleanup_next (r_env s') = Some b).

(** One turn on the oldest bucket: it is acknowledged up to its last record
    and goes, unless upstream refuses. [re_cleanup_next] still points to it. *)
Lemma clear_bucket_step s b bk rest cls dev cli :
  reader_inv s ((b, bk) :: rest) cls -> reader_device (r_env s) = Some dev ->
  ccf_clreader (cfg_of s) = Some cli ->
  wp (clear_bucket b bk) (refused_or_removed s dev cli b bk rest cls) safe s.
Proof.
  intros [Hr He] Hdev Hcli. unfold clear_bucket, mod_env. wp_steps.
  assert (set_env (set_cleanup_next (Some b)) s = s) as ->.
  { pose proof (ei_cleanup _ _ _ He) as Hcl. destruct s as [e ? ? ? ? ?]. destruct e.
    simpl in Hcl. by subst. }
  cbn [compose]. rewrite Hdev. wp_steps. cbn [compose]. rewrite Hcli. wp_steps.
  pose proof (ei_bounds _ _ _ He) as [Hok _]%Forall_cons. cbn [snd] in Hok.
  eapply wp_mono; [eapply rec_bucket_max_index_spec, Hok| |done].
  intros idx s0 [-> ->]. wp_steps. rewrite wp_ext. fold (clear_call dev cli bk).
  unfold refused_or_removed. cbn zeta.
  set (z := w_rc (s_trace s) (clear_call dev cli bk)).
  change (w_rc (r_trace s) (clear_call dev cli bk)) with z.
  destruct (Z.ltb_spec z 0) as [Hz|Hz]; wp_steps.
  { left. split_and!; [done|done|]. by apply extends_logged. }
  apply (rep_put (s_trace s ++ [(clear_call dev cli bk, z)])) in Hr as Hr1.
  eapply wp_mono; [apply (rep_remove_bkt _ [] _ _ _ _ Hr1)| |done].
  intros _ s2 (Hr2 & hd & nodes & ->). wp_steps.
  destruct (rep_unique_bkt _ [] _ _ _ _ Hr) as [Hu1 Hu2].
  eapply wp_mono; [eapply (rec_bucket_destroy_spec _ rest cls b bk)| |done].
  - by apply rep_env.
  - apply (rep_bmem _ _ _ Hr). left.
  - done.
  - done.
  - intros _ s3 (t & Ht & Htr & He3 & Hr3 & Hn3). wp_steps. right.
    split_and!; [done|done|]. exists t. rewrite Htr, He3. simpl.
    split_and!; [done|by rewrite <- app_assoc|done|done| |by rewrite (ei_cleanup _ _ _ He)].
    rewrite (ei_cnt _ _ _ He), <- (length_bk_recs _ _ Hok).
    change (stream ((b, bk) :: rest)) with (bk_recs bk ++ stream rest).
    rewrite length_app. lia.
Qed.

(** The loop of [reader_handle_clear] never makes a second turn: either it
    stops at once, or upstream refuses, or it reads the bucket it has freed. *)
Lemma clear_buckets_spec fuel s b bk rest cls dev cli :
  reader_inv s ((b, bk) :: rest) cls -> reader_device (r_env s) = Some dev ->
  ccf_clreader (cfg_of s) = Some cli -> (0 < fuel)%nat ->
  let z := w_rc (r_trace s) (clear_call dev cli bk) in
  clear_buckets fuel (Some b) s =
    if lrb_ready bk then
      if z <? 0 then Ok (z, logged (clear_call dev cli bk) s) else Fault UseAfterFree
    else Ok (0, s).
Proof.
  intros Hinv Hdev Hcli Hf z. destruct fuel as [|fuel]; [lia|]. cbn [clear_buckets].
  pose proof Hinv as [Hr He].
  pose proof (clear_bucket_step _ _ _ _ _ _ _ Hinv Hdev Hcli) as Hstep.
  unfold mbind, M_bind, load_bkt. rewrite (rep_bmem _ _ _ Hr b bk) by left.
  destruct (lrb_ready bk); cbn [negb]; cbv beta iota; [|done].
  unfold wp in Hstep. destruct (clear_bucket b bk s) as [[rc s']|]; [|done].
  unfold refused_or_removed in Hstep. fold z in Hstep.
  destruct Hstep as [(-> & Hz & ->)|(-> & Hz & t & _ & _ & _ & Hn & _)].
  - by rewrite (proj2 (Z.ltb_lt z 0)).
  - rewrite (proj2 (Z.ltb_ge z 0)) by done. simpl. unfold load_next. by rewrite Hn.
Qed.

Lemma reader_inv_names s bks cls :
  reader_inv s bks cls -> exists dev cli,
    reader_device (r_env s) = Some dev /\ ccf_clreader (cfg_of s) = Some cli.
Proof.
  intros [_ He]. destruct (ei_cfg _ _ _ He) as (_ & [dev Hdev] & [cli Hcli]). eauto.
Qed.

(** The end of [reader_handle_clear], once the bucket was given back. *)
Definition clear_rest (cid : conn_id) : M rstate Z :=
  cleanup ← gets (re_cleanup_next ∘ r_env);
  first ← unwrap NullDeref cleanup;
  fuel ← gets walk_fuel;
  rc ← clear_buckets fuel (Some first);
  if rc <? 0 then mret rc else ack_retcode None (Some cid) 0.

Lemma clear_rest_eq cid s v b bk rest dev cli :
  represents s v -> v_bks v = (b, bk) :: rest ->
  reader_device (r_env s) = Some dev -> ccf_clreader (cfg_of s) = Some cli ->
  let z := w_rc (r_trace s) (clear_call dev cli bk) in
  clear_rest cid s =
    if lrb_ready bk then
      if z <? 0 then Ok (z, logged (clear_call dev cli bk) s) else Fault UseAfterFree
    else ack_retcode None (Some cid) 0 s.
Proof.
  intros [Hinv _] Hb Hdev Hcli z. rewrite Hb in Hinv. pose proof Hinv as [_ He].
  unfold clear_rest, mbind, M_bind, gets. cbn [compose].
  rewrite (ei_cleanup _ _ _ He). cbn [head fmap list_fmap fst unwrap].
  unfold mret, M_ret. unfold walk_fuel.
  rewrite (clear_buckets_spec _ _ _ _ _ _ _ _ Hinv Hdev Hcli) by lia. fold z.
  destruct (lrb_ready bk); [|done]. destruct (z <? 0) eqn:Hz; [|done]. by rewrite Hz.
Qed.

Lemma represents_bks s v : represents s v -> exists b bk rest, v_bks v = (b, bk) :: rest.
Proof.
  intros [[_ He] _]. pose proof (ei_ne _ _ _ He). destruct (v_bks v) as [|[b bk] rest]; eauto.
  done.
Qed.

Lemma reader_handle_clear_spec s v req cid :
  represents s v -> lr_forward req = Some cid ->
  wp (reader_handle_clear req) (handled cid (lr_body req) RPC_OP_CLEAR s v)
     (may_fault RPC_OP_CLEAR) s.
Proof.
  intros Hv Hf. unfold reader_handle_clear, lr_body_len. rewrite Hf. fold (clear_rest cid).
  apply handled_lookup; [done|by constructor|].
  intros c cs k1 k2 Hl Hh. wp_steps. eapply wp_load_held; [done|done|].
  destruct (cs_bucket cs) as [b|] eqn:Hcs.
  2: { wp_steps. eapply handled_same; [done|apply extends_refl|done|by econstructor]. }
  eapply return_bucket_spec; [done|done|done|]. intros s1 v1 Ht1 He1 Hv1 Hret.
  destruct (represents_bks _ _ Hv1) as (hb & hbk & rest & Hb1).
  pose proof Hv1 as [Hinv1 _]. destruct (reader_inv_names _ _ _ Hinv1) as (dev & cli & Hdev & Hcli).
  assert (Hst : static (r_env s) (r_env s1)) by (by rewrite He1).
  pose proof (clear_rest_eq cid _ _ _ _ _ _ _ Hv1 Hb1 Hdev Hcli) as Hrest. cbn zeta in Hrest.
  assert (Hhd : head_ready v1 = lrb_ready hbk) by (unfold head_ready; by rewrite Hb1).
  destruct (lrb_ready hbk).
  - unfold wp. rewrite Hrest. rewrite Ht1 in *.
    set (z := w_rc (r_trace s) (clear_call dev cli hbk)) in *.
    destruct (Z.ltb_spec z 0) as [Hz|Hz].
    + exists [(clear_call dev cli hbk, z)], v1.
      assert (Hno : clears_of [(clear_call dev cli hbk, z)] = []).
      { cbn. by rewrite (proj2 (Z.leb_gt 0 z)). }
      split_and!; [simpl; by rewrite Ht1|done| | |done].
      * by eapply clear_upstream_failed.
      * eapply represents_extends; [|done]. apply extends_logged.
    + done.
  - unfold wp. rewrite Hrest.
    change (wp (ack_retcode None (Some cid) 0) (handled cid (lr_body req) RPC_OP_CLEAR s v)
              (may_fault RPC_OP_CLEAR) s1).
    eapply (handled_ack _ _ _ _ _ _ []); [by rewrite app_nil_r|done|exact Hv1|done|].
    intros rc t Hs. by eapply clear_pending.
Qed.

(** ** DEQUEUE *)

Lemma length_wire_rec r : rec_ok r -> Z.of_nat (length (wire_rec r)) = rec_len r.
Proof. intros [??]. unfold wire_rec. rewrite length_take. lia. Qed.

Lemma length_wire rs :
  Forall rec_ok rs -> Z.of_nat (length (concat (wire_rec <$> rs))) = sizes rs.
Proof.
  unfold sizes. induction 1 as [|r rs Hr _ IH]; [done|]. rewrite !fmap_cons.
  cbn [concat foldr]. rewrite length_app, Nat2Z.inj_add, (length_wire_rec _ Hr). lia.
Qed.

(** The copy loop stays within the packet and within the records. *)
Lemma pack_records_spec todo i recs room acc s :
  (forall j r, todo !! j = Some r -> recs !! (i + j)%nat = Some (Some r)) ->
  Forall rec_ok todo -> Z.of_nat (length acc) + sizes todo <= room ->
  wp (pack_records (length todo) i recs room acc)
     (fun a s' => s' = s /\ a = acc ++ concat (wire_rec <$> todo)) safe s.
Proof.
  revert i acc. induction todo as [|r todo IH]; intros i acc Hat Hok Hroom;
    cbn [length pack_records].
  { wp_steps. by rewrite app_nil_r. }
  apply Forall_cons in Hok as [Hr Hok]. pose proof (Hat 0%nat r eq_refl) as H0r.
  rewrite Nat.add_0_r in H0r. rewrite H0r. wp_steps.
  pose proof (sizes_nonneg _ Hok) as Hnn. pose proof (length_wire_rec _ Hr) as Hlw.
  change (sizes (r :: todo)) with (rec_len r + sizes todo) in Hroom. destruct Hr as [Hr1 Hr2].
  assert (u64 (rec_len r) = rec_len r) as -> by (apply to_u_id; unfold in_u; lia).
  rewrite (proj2 (Z.ltb_ge _ _)), (proj2 (Z.ltb_ge _ _)) by lia. cbn [orb].
  eapply wp_mono; [apply (IH (S i))| |done].
  - intros j x Hx. replace (S i + j)%nat with (i + S j)%nat by lia. by apply Hat.
  - done.
  - fold (wire_rec r). rewrite length_app. lia.
  - intros a s' [-> ->]. fold (wire_rec r). by rewrite <- app_assoc.
Qed.

Lemma bk_recs_at batch bk j r :
  bucket_ok batch bk -> bk_recs bk !! j = Some r -> lrb_records bk !! j = Some (Some r).
Proof.
  intros Hok Hj. pose proof (length_bk_recs _ _ Hok) as Hlen. destruct Hok as [_ _ Hl _ _].
  apply lookup_lt_Some in Hj as Hlt. apply (f_equal (lookup j)) in Hl.
  rewrite list_lookup_fmap, Hj, lookup_take_lt in Hl by lia. done.
Qed.

(** [calloc] and the copy loop build [enqueue_packet]. *)
Lemma bucket_packet batch bk :
  bucket_ok batch bk -> batch < 2 ^ 31 ->
  u32 (lrb_rec_count bk) = Z.of_nat (length (bk_recs bk)) /\
  u64 (sizeof_enqueue + lrb_size bk) = sizeof_enqueue + sizes (bk_recs bk) /\
  0 <= sizes (bk_recs bk).
Proof.
  intros Hok Hb. pose proof (length_bk_recs _ _ Hok) as Hlen.
  destruct Hok as [Hc _ _ Hf Hsz]. pose proof (sizes_nonneg _ Hf). pose proof (sizes_bound _ Hf).
  rewrite Hsz. split_and!; [| |done].
  - rewrite Hlen. apply to_u_id. unfold in_u. lia.
  - apply to_u_id. unfold in_u, sizeof_enqueue. lia.
Qed.


Lemma static_batch s s' : static (r_env s) (r_env s') -> batch_of s' = batch_of s.
Proof. intros [Hc _]. unfold batch_of, cfg_of. by rewrite Hc. Qed.

Lemma represents_batch s v : represents s v -> 0 < batch_of s < 2 ^ 31.
Proof. intros [Hinv _]. by eapply reader_inv_batch. Qed.

(** [now] was read from the clock in the course of [t], before any frame was sent;
    [pre] is the trace before. *)
Definition stamped (pre t : trace) (now : Z * Z) : Prop :=
  exists t1 z t2, t = t1 ++ (ClockGettime, z) :: t2 /\ frames_of t1 = [] /\
    now = w_clock (pre ++ t1 ++ [(ClockGettime, z)]).

Lemma stamped_shown pre t now : stamped pre t now -> shown now.
Proof. intros (t1 & z & t2 & _ & _ & ->). by eexists. Qed.

Lemma stamped_after pre t0 t now :
  frames_of t0 = [] -> stamped (pre ++ t0) t now -> stamped pre (t0 ++ t) now.
Proof.
  intros Hf (t1 & z & t2 & -> & Hf1 & ->). exists (t0 ++ t1), z, t2.
  split_and!; [by rewrite app_assoc|by rewrite frames_of_app, Hf, Hf1|by rewrite !app_assoc].
Qed.

(** [enqueue_rec], for a client that was just given the bucket [b]. *)
Lemma enqueue_rec_spec s v req cid c cs k1 k2 l1 b bk l2 :
  represents s v -> lr_forward req = Some cid ->
  v_cls v = k1 ++ (c, cs) :: k2 -> cs_bucket cs = Some b ->
  v_bks v = l1 ++ (b, bk) :: l2 ->
  wp (enqueue_rec c req) (fun rc s' => exists t, r_trace s' = r_trace s ++ t /\
    clears_of t = [] /\ r_env s' = r_env s /\
    (rc = - ENOMEM /\ out_of_memory /\ silent t /\ represents s' v \/
     exists now, stamped (r_trace s) t now /\ sent (envelope None cid (enqueue_packet bk)) rc t /\
       represents s' (mkView (l1 ++ (b, set_expiry (deadline now) bk) :: l2)
                        (v_cls v) (v_deliver v)))) safe s.
Proof.
  intros Hv Hf Hc Hcs Hb. pose proof (represents_batch _ _ Hv) as Hbatch.
  pose proof Hv as [[Hr He] Hd]. rewrite Hc, Hb in Hr, He.
  pose proof (ei_bounds _ _ _ He) as Hbo. rewrite Forall_app, Forall_cons in Hbo.
  destruct Hbo as (_ & Hok & _). cbn [snd] in Hok. fold (batch_of s) in Hok.
  destruct (bucket_packet _ _ Hok ltac:(apply Hbatch)) as (Hcnt & Hsz & Hnn).
  unfold enqueue_rec. wp_steps.
  eapply wp_load_cli; [exact Hr|apply elem_of_app; right; by left|]. rewrite Hcs. wp_steps.
  eapply wp_load_bkt; [exact Hr|apply elem_of_app; right; by left|]. wp_steps.
  rewrite wp_alloc, Hsz. set (a := Alloc _). set (s1 := logged a s).
  assert (H1 : extends s [(a, w_rc (s_trace s) a)] s1) by apply extends_logged.
  destruct (0 <=? w_rc (s_trace s) a) eqn:Hal; cbn [negb]; wp_steps.
  2: { apply alloc_failed in Hal. exists [(a, w_rc (s_trace s) a)]. split_and!; try done. left.
       split_and!; [done|done|done|]. by eapply represents_extends. }
  rewrite (proj2 (Z.ltb_ge _ _)) by lia. rewrite Hcnt, Nat2Z.id. wp_steps.
  eapply wp_mono; [eapply (pack_records_spec (bk_recs bk))| |done].
  - intros j r. by eapply bk_recs_at.
  - apply (bo_recs _ _ Hok).
  - cbn [length]. lia.
  - intros recs s' [-> ->]. cbn [app]. unfold bucket_set_expiry_time. wp_steps.
    rewrite wp_ext. wp_steps. set (s2 := logged _ s1). apply (rep_put (s_trace s2)) in Hr as Hr2.
    change (s_put (s_trace s2) s) with s2 in Hr2.
    eapply wp_load_bkt; [exact Hr2|apply elem_of_app; right; by left|]. wp_steps.
    eapply wp_store_bkt; [exact Hr2|]. set (now := w_clock (s_trace s2)).
    apply (rep_store_bkt _ _ _ _ (set_expiry (deadline now) bk)) in Hr2.
    rewrite (length_wire _ (bo_recs _ _ Hok)), Z.add_simpl_l, Z.sub_diag.
    cbn [Z.to_nat replicate]. rewrite app_nil_r, Hf. fold (deadline now).
    eapply wp_mono; [apply (peer_rpc_send_spec None cid)| |done].
    intros rc s3 (t & Ht & Hcl & Hsent).
    exists ([(a, w_rc (s_trace s) a); (ClockGettime, w_rc (s_trace s1) ClockGettime)] ++ t).
    split_and!; [rewrite Ht; cbn; by rewrite <- !app_assoc|done|by rewrite Ht|]. right.
    exists now. split.
    { exists [(a, w_rc (s_trace s) a)], (w_rc (s_trace s1) ClockGettime), t.
      split_and!; [done|done|]. subst now s2 s1. cbn. by rewrite <- !app_assoc. }
    split; [exact Hsent|].
    + eapply represents_extends; [exact Ht|]. split; [|exact Hd]. cbn. rewrite Hc.
      split; [exact Hr2|].
      eapply env_inv_touch; [exact He|done|]. intros. by apply set_expiry_ok.
Qed.

Lemma last_is_open s l1 b bk l2 cls :
  reader_inv s (l1 ++ (b, bk) :: l2) cls ->
  bool_decide (Some b = re_current_open (r_env s)) = bool_decide (l2 = []).
Proof.
  intros [Hr He]. rewrite (ei_open _ _ _ He). apply bool_decide_ext. split.
  - destruct l2 as [|x l2 _] using rev_ind; [done|]. intros Hb.
    destruct (rep_unique_bkt _ _ _ _ _ _ Hr) as [Hn _]. destruct Hn.
    rewrite app_comm_cons, app_assoc, fmap_app in Hb. cbn in Hb. rewrite last_snoc in Hb.
    simplify_eq. rewrite fmap_app, fmap_app. cbn. rewrite !elem_of_app. right. right. by left.
  - intros ->. by rewrite last_fst.
Qed.

Lemma env_added_static b hd e : static e (env_added b hd e).
Proof. by repeat split. Qed.

(** Opening a new bucket when the one to be served is the last. *)
Lemma seal_spec s v l1 b bk l2 :
  represents s v -> v_bks v = l1 ++ (b, bk) :: l2 ->
  wp (current ← gets (re_current_open ∘ r_env);
      if bool_decide (Some b = current) then rec_bucket_add else mret 0)
     (fun rc s' => exists t, silent t /\ r_trace s' = r_trace s ++ t /\
        (rc = - ENOMEM /\ l2 = [] /\ out_of_memory /\ extends s t s' \/
         rc = 0 /\ exists new, sealed (batch_of s) l2 new /\ static (r_env s) (r_env s') /\
           represents s' (mkView (v_bks v ++ new) (v_cls v) (v_deliver v)))) safe s.
Proof.
  intros Hv Hb. pose proof (represents_batch _ _ Hv) as Hbatch.
  pose proof Hv as [Hinv Hd]. wp_steps. cbn [compose].
  rewrite (last_is_open _ l1 b bk l2 (v_cls v)) by (by rewrite <- Hb).
  destruct (bool_decide_reflect (l2 = [])) as [->|Hl2].
  - destruct Hinv as [Hr He]. eapply wp_mono; [apply (rec_bucket_add_spec _ _ _ Hr Hbatch)| |done].
    intros rc s' (t & Ht & _ & Htr & Hcase). exists t. split_and!; [done|done|].
    destruct Hcase as [(-> & Hoom & Hx)|[-> [Hr' [hd He']]]]; [by left|]. right. split; [done|].
    eexists. split_and!; [do 2 eexists; done|rewrite He'; apply env_added_static|].
    split; [split; [exact Hr'|]|by rewrite He']. rewrite He'. by apply env_inv_add.
  - wp_steps. exists []. split_and!; [done|by rewrite app_nil_r|]. right. split; [done|].
    exists []. split_and!; [by destruct l2|done|]. cbn. rewrite app_nil_r. by destruct v.
Qed.

(** What [rec_bucket_get] does to the view. *)
Lemma get_bucket_spec s v :
  represents s v ->
  wp rec_bucket_get (fun r s' => exists t now bks, silent t /\ r_trace s' = r_trace s ++ t /\
    static (r_env s) (r_env s') /\ chosen now v r bks /\
    match r with
    | None => bks = v_bks v /\ represents s' v
    | Some b => exists l1 bk l2, bks = l1 ++ (b, bk) :: l2 /\
        represents s' (mkView bks (v_cls v) (head l2.*1))
    end) safe s.
Proof.
  intros Hv. destruct (represents_bks _ _ Hv) as (hb & hbk & rest & Hb).
  pose proof Hv as [Hinv Hd].
  eapply wp_mono; [apply (rec_bucket_get_spec _ _ _ _ _ _ Hb Hinv)| |done].
  intros r s' (t & bks & Ht & Htr & Hinv' & Hsc & Hcase).
  exists t, (w_clock (r_trace s ++ [(ClockGettime, w_rc (r_trace s) ClockGettime)])), bks.
  destruct r as [b|].
  - destruct Hcase as (l1 & bk & l2 & Hbks & He & Hcase).
    split_and!; [done|done|by rewrite He| |].
    + destruct Hcase as [(Hx & _ & -> & ->)|(Hx & -> & Hn)].
      * rewrite Hd. econstructor; [by eexists|done|done].
      * rewrite <- Hn, Hd. econstructor; [by eexists|done|done].
    + exists l1, bk, l2. split; [done|]. split; [done|]. by rewrite He.
  - destruct Hcase as (Hx & Hn & -> & He). split_and!; [done|done|by rewrite He| |done|].
    + rewrite <- Hn, Hd. econstructor; [by eexists|done|done].
    + split; [done|]. by rewrite He.
Qed.

Lemma holds_view v cid c cs k1 k2 bks d :
  holds v cid c cs k1 k2 -> holds (mkView bks (v_cls v) d) cid c cs k1 k2.
Proof. done. Qed.

(** Binding the bucket to the client. *)
Lemma bind_bucket_spec s v cid c cs k1 k2 b (k : M rstate Z) (Q : Z -> rstate -> Prop) E :
  represents s v -> holds v cid c cs k1 k2 -> b ∈ (v_bks v).*1 ->
  (forall s', r_trace s' = r_trace s -> r_env s' = r_env s ->
     represents s' (mkView (v_bks v) (k1 ++ (c, set_cs_bucket (Some b) cs) :: k2)
                      (v_deliver v)) -> wp k Q E s') ->
  wp (st ← load_cli c; store_cli c (set_cs_bucket (Some b) st);; k) Q E s.
Proof.
  intros Hv Hh Hb HQ. wp_steps. eapply wp_load_held; [done|done|].
  destruct Hv as [[Hr He] Hd]. destruct Hh as (Hc & _ & _). rewrite Hc in Hr, He.
  wp_steps. eapply wp_store_cli; [exact Hr|]. apply HQ; [done|done|]. split; [|done].
  split; [by apply rep_store_cli with (cs := cs)|]. apply env_inv_bind; [done|].
  by intros b' [= <-].
Qed.

(** The handler for a client [c] without a bucket. *)
Definition dequeue_rest (c : loc) req : M rstate Z :=
  bkt ← rec_bucket_get;
  match bkt with
  | None => mret 1
  | Some b =>
      current ← gets (re_current_open ∘ r_env);
      rc ← (if bool_decide (Some b = current) then rec_bucket_add else mret 0);
      if negb (rc =? 0) then mret rc
      else
        st ← load_cli c;
        store_cli c (set_cs_bucket (Some b) st);;
        enqueue_rec c req
  end.

(** A success gives the client [c] a bucket, with a deadline from the clock. *)
Definition bucket_stamped (c : loc) (cs : client_state) s (t : trace) v' : Prop :=
  exists now b bk, stamped (r_trace s) t now /\ (b, set_expiry (deadline now) bk) ∈ v_bks v' /\
    (c, set_cs_bucket (Some b) cs) ∈ v_cls v'.

Lemma dequeue_rest_spec s v req cid c cs k1 k2 :
  represents s v -> lr_forward req = Some cid ->
  sizeof_dequeue <= Z.of_nat (length (lr_body req)) ->
  holds v cid c cs k1 k2 -> cs_bucket cs = None ->
  wp (dequeue_rest c req) (fun rc s' => exists t v', r_trace s' = r_trace s ++ t /\
    clears_of t = [] /\ served (batch_of s) cid (lr_body req) RPC_OP_DEQUEUE v rc t v' /\
    represents s' v' /\ static (r_env s) (r_env s') /\ (rc = 0 -> bucket_stamped c cs s t v'))
    safe s.
Proof.
  intros Hv Hf Hl Hh Hcs. unfold dequeue_rest.
  wp_steps. eapply wp_mono; [apply (get_bucket_spec _ _ Hv)| |done].
  intros [b|] s1 (t1 & now & bks & Ht1 & Htr1 & Hst1 & Hch & Hget).
  2: { destruct Hget as [-> Hv1]. wp_steps. exists t1, v.
       split_and!; [done|apply Ht1|by econstructor|done|done|done]. }
  destruct Hget as (l1 & bk & l2 & -> & Hv1).
  pose proof (static_batch _ _ Hst1) as Hbs1.
  pose proof (seal_spec _ _ _ _ _ _ Hv1 eq_refl) as Hseal.
  rewrite wp_bind, wp_gets in Hseal. wp_steps.
  eapply wp_mono; [exact Hseal| |done].
  intros rc s2 (t2 & Ht2 & Htr2 & Hcase2). rewrite Hbs1, Htr1 in *.
  destruct Hcase2 as [(-> & -> & Hoom & Hx)|(-> & new & Hnew & Hst2 & Hv2)]; cbn [negb]; cbv iota.
  { wp_steps. exists (t1 ++ t2), (mkView (l1 ++ [(b, bk)]) (v_cls v) None).
    rewrite Htr2, app_assoc. split_and!; [done|apply (silent_app _ _ Ht1 Ht2)| | | |done].
    - eapply dequeue_noseal; try done. by apply silent_app.
    - by eapply represents_extends.
    - rewrite Hst1. by eapply static_extends. }
  change (0 =? 0) with true. cbn [negb]. cbv iota.
  cbn [v_bks v_cls v_deliver] in Hv2.
  rewrite <- app_assoc, <- app_comm_cons in Hv2.
  pose proof (holds_view _ _ _ _ _ _ (l1 ++ (b, bk) :: l2 ++ new) (head l2.*1) Hh) as Hh2.
  eapply (bind_bucket_spec _ _ _ _ _ _ _ b); [exact Hv2|exact Hh2| |].
  { cbn. rewrite fst_app_cons. apply elem_of_app. right. left. }
  intros s3 Htr3 He3 Hv3. cbn [v_bks v_deliver] in Hv3.
  eapply wp_mono; [eapply (enqueue_rec_spec _ _ _ cid c); [exact Hv3|done|done|done|done]| |done].
  intros rc s4 (t4 & Htr4 & Hcl4 & He4 & Hcase4).
  assert (Hs12 : silent (t1 ++ t2)) by (by apply silent_app).
  assert (Hst : static (r_env s) (r_env s4)) by (by rewrite He4, He3, Hst1).
  assert (Htr : r_trace s4 = r_trace s ++ (t1 ++ t2) ++ t4).
  { by rewrite Htr4, Htr3, Htr2, !app_assoc. }
  assert (Hcl : clears_of ((t1 ++ t2) ++ t4) = []).
  { rewrite clears_of_app, Hcl4. by rewrite (proj2 Hs12). }
  destruct Hcase4 as [(-> & Hoom & Hs4 & Hv4)|(now' & Hnow' & Hsent & Hv4)].
  - eexists _, _. split_and!; [done|done| |exact Hv4|done|done].
    eapply dequeue_nopacket; try done. by apply silent_app.
  - rewrite Htr3, Htr2 in Hnow'. eexists _, _. split_and!; [done|done| |exact Hv4|done|].
    + eapply dequeue_sent; try done; [by eapply stamped_shown|]. unfold sent in *.
      by rewrite frames_of_app, (proj1 Hs12).
    + intros _. exists now', b, bk. cbn [v_bks v_cls]. split_and!.
      * apply stamped_after; [apply Hs12|]. by rewrite app_assoc.
      * apply elem_of_app. right. left.
      * apply elem_of_app. right. left.
Qed.

Lemma reader_handle_dequeue_spec s v req cid :
  represents s v -> lr_forward req = Some cid ->
  wp (reader_handle_dequeue req) (handled cid (lr_body req) RPC_OP_DEQUEUE s v)
     (may_fault RPC_OP_DEQUEUE) s.
Proof.
  intros Hv Hf. unfold reader_handle_dequeue, lr_body_len. rewrite Hf.
  apply handled_lookup; [done|by constructor|].
  intros c cs k1 k2 Hl Hh. wp_steps. eapply wp_load_held; [done|done|].
  destruct (cs_bucket cs) as [b|] eqn:Hcs.
  { wp_steps. eapply handled_same; [done|apply extends_refl|done|by econstructor]. }
  fold (dequeue_rest c req). eapply wp_mono; [by apply (dequeue_rest_spec s v req cid c cs k1 k2)| |done].
  intros rc s' (t & v' & Ht & Hc & Hs & Hv' & Hst & _). by exists t, v'.
Qed.

(** A success to a client without a bucket. *)
Lemma reader_handle_dequeue_served s v req cid c cs k1 k2 :
  represents s v -> lr_forward req = Some cid ->
  sizeof_dequeue <= Z.of_nat (length (lr_body req)) ->
  holds v cid c cs k1 k2 -> cs_bucket cs = None ->
  wp (reader_handle_dequeue req) (fun rc s' => exists t v', r_trace s' = r_trace s ++ t /\
    clears_of t = [] /\ served (batch_of s) cid (lr_body req) RPC_OP_DEQUEUE v rc t v' /\
    represents s' v' /\ static (r_env s) (r_env s') /\ (rc = 0 -> bucket_stamped c cs s t v'))
    safe s.
Proof.
  intros Hv Hf Hl Hh Hcs. unfold reader_handle_dequeue, lr_body_len.
  rewrite (proj2 (Z.ltb_ge _ _)) by done. rewrite Hf. wp_steps. pose proof Hv as [[Hr _] _].
  eapply wp_mono; [apply (client_state_get_spec _ _ _ cid Hr)| |done]. intros r s' [-> ->].
  rewrite (proj1 (proj2 Hh)). wp_steps. eapply wp_load_held; [done|exact Hh|]. rewrite Hcs.
  fold (dequeue_rest c req). by apply (dequeue_rest_spec s v req cid c cs k1 k2).
Qed.
End handlers.
