(* ===== verification/ReaderMain.v ===== *)
(** * The reader's dispatcher, its record loop and its main loop *)
From S2P Require Import Prelude World Queue Idl LcapNet RpcUtils Config Log Reader ReaderRep ReaderInv ReaderBuckets ReaderRpc ReaderEnqueue ReaderSpec ReaderHandlers.
Local Open Scope Z_scope.

Section rpc.
Context `{World, ChangelogRec}.
Implicit Types (s : rstate) (v : view) (req : lcapnet_request) (t : trace).

(** ** The dispatcher *)

(** What [changelog_reader_rpc_hdl] does from [s], whose view is [v]. *)
Definition answered (cid : conn_id) (body : bytes) s v (rc : Z) (s' : rstate) : Prop :=
  exists rc0 t0 t v', r_trace s' = r_trace s ++ t /\ clears_of t = [] /\
    dispatched (batch_of s) cid body v rc0 t0 v' /\ replied cid rc0 t0 rc t /\
    represents s' v' /\ static (r_env s) (r_env s').

(** The fault of the handlers: CLEAR reads a bucket that it has freed. *)
Definition only_uaf (body : bytes) (f : fault) : Prop :=
  op_of_code (get_op_type body) = Some RPC_OP_CLEAR /\ f = UseAfterFree.

(** The other fault of the dispatcher: the message in the log reads the operation
    code of a body that is too short for one, at the debug level. *)
Definition rpc_fault (cfg : lcap_cfg) (body : bytes) (f : fault) : Prop :=
  only_uaf body f \/ f = OutOfBounds /\ debugging cfg = true /\ Z.of_nat (length body) < 4.

Lemma rpc_fault_long cfg body f : 4 <= Z.of_nat (length body) -> rpc_fault cfg body f -> only_uaf body f.
Proof. intros Hl [?|(_ & _ & ?)]; [done|lia]. Qed.

Lemma rpc_handle_one_spec s v req cid op :
  represents s v -> lr_forward req = Some cid -> op_of_code (get_op_type (lr_body req)) = Some op ->
  wp (rpc_handle_one (get_op_type (lr_body req)) req)
     (handled cid (lr_body req) op s v) (only_uaf (lr_body req)) s.
Proof.
  intros Hv Hf Hop. unfold rpc_handle_one. rewrite Hop. wp_steps.
  assert (Hm : forall m, wp m (handled cid (lr_body req) op s v) (may_fault op) s ->
    wp m (handled cid (lr_body req) op s v) (only_uaf (lr_body req)) s).
  { intros m Hm. eapply wp_mono; [exact Hm|done|]. by intros f [-> ?]. }
  assert (Hnone : op = RPC_OP_ENQUEUE \/ op = RPC_OP_ACK \/ op = RPC_OP_SIGNAL ->
    wp (mret (- EPROTO)) (handled cid (lr_body req) op s v) (only_uaf (lr_body req)) s).
  { intros Ho. wp_steps. eapply handled_same; [done|apply extends_refl|done|].
    by apply not_for_readers. }
  destruct op; cbn [reader_rpc_handle]; try (apply Hnone; tauto).
  - eapply wp_mono; [by apply reader_handle_start_spec|done|done].
  - by apply Hm, reader_handle_dequeue_spec.
  - by apply Hm, reader_handle_clear_spec.
  - by apply Hm, reader_handle_fini_spec.
Qed.

(** The part before the reply. *)
Lemma dispatch_spec s v req cid (k : Z -> M rstate Z) Q :
  represents s v -> lr_forward req = Some cid ->
  (forall rc0 s1 t0 v1, r_trace s1 = r_trace s ++ t0 -> clears_of t0 = [] ->
     dispatched (batch_of s) cid (lr_body req) v rc0 t0 v1 -> represents s1 v1 ->
     static (r_env s) (r_env s1) -> wp (k rc0) Q (rpc_fault (cfg_of s) (lr_body req)) s1) ->
  wp (rc ← (if lr_body_len req <? sizeof_hdr then mret (- EPROTO)
            else
              let op := get_op_type (lr_body req) in
              if (op <? RPC_OP_FIRST) || (RPC_OP_LAST <? op) then mret (- EINVAL)
              else rpc_handle_one op req); k rc) Q (rpc_fault (cfg_of s) (lr_body req)) s.
Proof.
  intros Hv Hf Hk. unfold lr_body_len. wp_steps.
  destruct (Z.ltb_spec (Z.of_nat (length (lr_body req))) sizeof_hdr) as [Hl|Hl].
  { wp_steps. eapply (Hk _ s []); [by rewrite app_nil_r|done|by apply rpc_truncated|done|done]. }
  cbn zeta. destruct (op_of_code (get_op_type (lr_body req))) as [op|] eqn:Hop.
  - destruct (_ || _) eqn:Hbad; [by apply op_of_code_valid in Hbad; rewrite Hop in Hbad|].
    eapply wp_mono; [by apply rpc_handle_one_spec| |by left].
    intros rc0 s1 (t0 & v1 & Ht & Hc & Hs & Hv1 & Hst).
    eapply Hk; try done. by eapply rpc_served.
  - pose proof Hop as Hbad. apply op_of_code_valid in Hbad. rewrite Hbad. wp_steps.
    eapply (Hk _ s []); [by rewrite app_nil_r|done|by apply rpc_bad_op|done|done].
Qed.

Lemma changelog_reader_rpc_hdl_spec s v req cid :
  represents s v -> lr_forward req = Some cid ->
  wp (changelog_reader_rpc_hdl req) (answered cid (lr_body req) s v)
     (rpc_fault (cfg_of s) (lr_body req)) s.
Proof.
  intros Hv Hf. unfold changelog_reader_rpc_hdl.
  eapply dispatch_spec; [done|done|]. intros rc0 s1 t0 v1 Htr Hc Hd Hv1 Hst.
  wp_steps. assert (cfg_of s1 = cfg_of s) as -> by apply Hst.
  apply wp_debug_op_type; [by right|].
  destruct ((rc0 <? 0) || (rc0 =? 1)) eqn:Hrc.
  - rewrite Hf. eapply wp_mono; [apply (ack_retcode_spec None cid rc0)| |done].
    intros rc s2 (t & Ht & Hct & Hsent). exists rc0, t0, (t0 ++ t), v1.
    rewrite orb_true_iff, Z.ltb_lt, Z.eqb_eq in Hrc. split_and!; [|by rewrite clears_of_app, Hc, Hct|done| | |].
    + rewrite Ht. cbn. by rewrite Htr, app_assoc.
    + by apply reply_code.
    + by eapply represents_extends.
    + rewrite Hst. by eapply static_extends.
  - rewrite orb_false_iff, Z.ltb_ge, Z.eqb_neq in Hrc. wp_steps.
    exists rc0, t0, t0, v1. split_and!; try done. destruct Hrc. by apply reply_none.
Qed.


(** ** No RPC changes the records that the reader holds *)

Lemma stream_unready d (bks : bkt_list) : stream (unready d bks) = stream bks.
Proof.
  induction bks as [|[b bk] l IH]; [done|]. cbn [unready].
  destruct (bool_decide _); [done|].
  change (stream ((b, ?x) :: ?t)) with (bk_recs x ++ stream t). by rewrite IH.
Qed.

Lemma stream_chosen now v p bks : chosen now v p bks -> stream bks = stream (v_bks v).
Proof. intros [|]; [apply stream_unready|done]. Qed.

Lemma stream_touch (l1 l2 : bkt_list) b bk bk' :
  bk_recs bk' = bk_recs bk -> stream (l1 ++ (b, bk') :: l2) = stream (l1 ++ (b, bk) :: l2).
Proof.
  intros Heq. change ((b, ?x) :: l2) with ([(b, x)] ++ l2).
  by rewrite !stream_app, !stream_one, Heq.
Qed.

Lemma stream_sealed batch l1 b bk bk' (l2 new : bkt_list) :
  sealed batch l2 new -> bk_recs bk' = bk_recs bk ->
  stream (l1 ++ (b, bk') :: l2 ++ new) = stream (l1 ++ (b, bk) :: l2).
Proof.
  intros Hnew Heq. rewrite (stream_touch l1 _ b bk bk' Heq).
  enough (Hn : stream new = []).
  { by rewrite app_comm_cons, app_assoc, stream_app, Hn, app_nil_r. }
  destruct l2; cbn in Hnew; [destruct Hnew as (b' & idx & ->)|by subst]. by rewrite stream_one.
Qed.

Lemma served_stream batch cid body op v rc t v' :
  served batch cid body op v rc t v' -> stream (v_bks v') = stream (v_bks v).
Proof.
  intros Hs. destruct Hs; try done; cbn [v_bks].
  - by eapply stream_chosen.
  - erewrite stream_sealed by done. by eapply stream_chosen.
  - erewrite (stream_sealed _ _ _ bk) by done. by eapply stream_chosen.
  - destruct H2 as [c cs k1 k2 b bk l1 l2 _ _ Hb]. rewrite Hb. by apply stream_touch.
  - destruct H2 as [c cs k1 k2 b bk l1 l2 _ _ Hb]. rewrite Hb. by apply stream_touch.
Qed.

Lemma dispatched_stream batch cid body v rc t v' :
  dispatched batch cid body v rc t v' -> stream (v_bks v') = stream (v_bks v).
Proof. intros Hd. destruct Hd; try done. by eapply served_stream. Qed.
End rpc.

(** ** Start, main loop and end *)

Section main.
Context `{World, ChangelogRec}.
Implicit Types (s : rstate) (bks : bkt_list) (cls : cli_list) (t : trace).

(** A reader's memory before [changelog_reader_init]. *)
Definition boot s : Prop := r_nodes s = ∅ /\ r_bkts s = ∅ /\ r_clis s = ∅.

(** The configuration of reader [idx]; the device name fits the SIGNAL RPC. *)
Definition reader_cfg (cfg : lcap_cfg) (idx : Z) : Prop :=
  cfg_ok cfg idx /\
  forall dev, mjoin (ccf_mdt cfg !! Z.to_nat idx) = Some dev ->
    Z.of_nat (length dev) < sizeof_mdtname.

(** The environment is that of reader [idx] of [cfg]; its start time was read
    from the clock. *)
Definition named (cfg : lcap_cfg) (idx : Z) s : Prop :=
  re_cfg (r_env s) = cfg /\ re_index (r_env s) = idx /\
  exists t, rs_start_time (re_stats (r_env s)) = w_clock t.

Lemma named_static cfg idx s s' :
  static (r_env s) (r_env s') -> named cfg idx s -> named cfg idx s'.
Proof.
  intros (Hc & Hi & _ & _ & _ & Hst & _) (Hc' & Hi' & t & Ht).
  split_and!; [congruence|congruence|]. exists t. by rewrite Hst.
Qed.

Lemma named_kept cfg idx s s' :
  kept (r_env s) (r_env s') -> named cfg idx s -> named cfg idx s'.
Proof.
  intros (Hc & Hi & _ & Hst & _) (Hc' & Hi' & t & Ht).
  split_and!; [congruence|congruence|]. exists t. by rewrite Hst.
Qed.

Lemma named_ext cfg idx s t s' : extends s t s' -> named cfg idx s -> named cfg idx s'.
Proof. by intros ->. Qed.

Lemma zero_env_rep s cfg idx :
  boot s -> rep (set_env (fun _ => zero_env cfg idx) s) [] [].
Proof.
  intros (Hn & Hb & Hc). constructor; cbn; try (by intros ? ? ?%elem_of_nil).
  - apply is_list_nil.
  - apply is_list_nil.
  - intros l [nd Hnd]. by rewrite Hn, lookup_empty in Hnd.
Qed.

(** The first bucket makes an empty, well-formed reader. *)
Lemma first_bucket_inv cfg idx now b hd :
  cfg_ok cfg idx ->
  let e := env_added b hd (set_start_time now (zero_env cfg idx)) in
  env_inv (set_cursors (Some b) (Some b) (Some b) e)
    [(b, new_bucket 0 (ccf_rec_batch_count cfg))] [].
Proof.
  intros Hcfg e. destruct (cfg_ok_batch _ _ Hcfg) as (Hb & Hcap & Hpos).
  constructor; cbn; rewrite ?stream_one; try done.
  - apply Forall_cons. split; [apply new_bucket_ok, Hb|by apply Forall_nil_2].
  - intros d [= ->]. by left.
  - lia.
  - intros c cs b' Hin. by apply elem_of_nil in Hin.
  - apply NoDup_nil_2.
  - constructor.
Qed.

(** The 0MQ handles and the identity play no part in the invariant. *)
Definition zmq_only (f : reader_env -> reader_env) : Prop :=
  forall e, exists z k i, f e = set_zmq z k i e.

Lemma reader_inv_zmq f s bks cls :
  zmq_only f -> reader_inv s bks cls -> reader_inv (set_env f s) bks cls.
Proof.
  intros Hf [[H1 H2 H3 H4 H5 H6] He]. destruct (Hf (r_env s)) as (z & k & i & Hz).
  split; [constructor; cbn; rewrite ?Hz; done|].
  cbn. rewrite Hz. by destruct He; constructor.
Qed.

(** A reader that has its first bucket and is being connected. *)
Definition starting (cfg : lcap_cfg) (idx : Z) s : Prop :=
  named cfg idx s /\ exists b,
    reader_inv s [(b, new_bucket 0 (ccf_rec_batch_count cfg))] [] /\
    re_deliver_next (r_env s) = Some b.

Lemma starting_logged cfg idx c s : starting cfg idx s -> starting cfg idx (logged c s).
Proof.
  intros (Hn & b & [Hr He] & Hd). split; [done|]. exists b. split; [|done].
  split; [by apply rep_put|done].
Qed.

Lemma starting_zmq cfg idx f s :
  zmq_only f -> starting cfg idx s -> starting cfg idx (set_env f s).
Proof.
  intros Hf (Hn & b & Hinv & Hd). pose proof (reader_inv_zmq _ _ _ _ Hf Hinv) as Hinv'.
  destruct (Hf (r_env s)) as (z & k & i & Hz).
  split; [unfold named in *; cbn; by rewrite Hz|]. exists b. split; [done|]. cbn.
  by rewrite Hz.
Qed.

(** 0MQ refuses an identity at some point. *)
Definition identity_refused : Prop := exists t id, w_rc t (ZmqSetIdentity id) < 0.

(** The faults of the message about an identity that could not be set. *)
Definition init_fault (f : fault) : Prop :=
  f = NullDeref /\ out_of_memory \/ f = OutOfBounds /\ identity_refused.

Lemma set_identity_spec cfg idx s :
  cfg_ok cfg idx -> starting cfg idx s -> re_ident (r_env s) = None ->
  wp changelog_reader_set_identity (fun rc s' => rc <= 0 /\ starting cfg idx s' /\
    (rc < 0 -> re_ident (r_env s') = None /\ out_of_memory \/
               (exists id, re_ident (r_env s') = Some id) /\ identity_refused)) safe s.
Proof.
  intros Hcfg Hs Hid. unfold changelog_reader_set_identity, build_reader_identity, mod_env.
  destruct Hcfg as (_ & [dev Hdev] & _). pose proof Hs as ((Hc & Hi & _) & _).
  wp_steps. cbn [compose]. unfold reader_device. rewrite Hc, Hi, Hdev. wp_steps.
  rewrite wp_alloc. set (c := Alloc _). pose proof (starting_logged _ _ c _ Hs) as Hs1.
  destruct (0 <=? _) eqn:Hal; cbn [negb]; wp_steps.
  2: { split; [unfold ENOMEM; lia|]. split; [done|]. left. split; [exact Hid|by eapply alloc_failed]. }
  change (0 <? 0) with false. cbv iota. wp_steps. cbn [compose r_env set_env re_ident set_zmq].
  wp_steps. rewrite wp_ext. set (f := fun e => set_zmq _ _ (Some dev) e).
  assert (Hs2 : starting cfg idx (logged (ZmqSetIdentity dev) (set_env f (logged c s)))).
  { apply starting_logged, starting_zmq; [intros e; by do 3 eexists|done]. }
  destruct (Z.ltb_spec (w_rc (s_trace (set_env f (logged c s))) (ZmqSetIdentity dev)) 0);
    wp_steps; (split; [lia|split; [done|intros ?; try lia]]).
  right. split; [by eexists|by do 2 eexists].
Qed.

(** Connecting: every outcome leaves a well-formed reader. *)
Lemma init_zmq_spec cfg idx s :
  cfg_ok cfg idx -> starting cfg idx s -> re_ident (r_env s) = None ->
  wp (rc ← ext ZmqCtxNew;
      if rc <? 0 then mret rc
      else
        modify (set_env (fun e => set_zmq true (re_sock e) (re_ident e) e));;
        rc ← ext ZmqSocket;
        if rc <? 0 then mret rc
        else
          modify (set_env (fun e => set_zmq (re_zctx e) true (re_ident e) e));;
          rc ← changelog_reader_set_identity;
          if rc <? 0 then
            oid ← gets (re_ident ∘ r_env);
            id ← unwrap NullDeref oid;
            unwrap OutOfBounds (cstr id);;
            mret rc
          else
            rc ← ext (ZmqConnect BROKER_CONN_URL);
            if rc <? 0 then mret rc else mret 0)
     (fun rc s' => rc <= 0 /\ starting cfg idx s') init_fault s.
Proof.
  intros Hcfg Hs Hid. wp_steps. rewrite wp_ext. apply (starting_logged _ _ ZmqCtxNew) in Hs.
  set (z1 := w_rc _ _). destruct (Z.ltb_spec z1 0); wp_steps; [split; [lia|done]|].
  rewrite wp_ext. eapply (starting_zmq _ _ (fun e => set_zmq true (re_sock e) (re_ident e) e)) in Hs;
    [|intros e; by do 3 eexists].
  apply (starting_logged _ _ ZmqSocket) in Hs.
  set (z2 := w_rc _ _). destruct (Z.ltb_spec z2 0); wp_steps; [split; [lia|done]|].
  eapply (starting_zmq _ _ (fun e => set_zmq (re_zctx e) true (re_ident e) e)) in Hs;
    [|intros e; by do 3 eexists].
  eapply wp_mono; [apply (set_identity_spec _ _ _ Hcfg Hs Hid)| |done].
  intros rc s1 (Hrc & Hs1 & Hneg). destruct (Z.ltb_spec rc 0); wp_steps.
  { cbn [compose]. destruct (Hneg ltac:(done)) as [[-> Hm]|[[id ->] Hr]]; wp_steps; [by left|].
    destruct (cstr id); wp_steps; [done|by right]. }
  rewrite wp_ext. apply (starting_logged _ _ (ZmqConnect BROKER_CONN_URL)) in Hs1.
  set (z3 := w_rc _ _). destruct (Z.ltb_spec z3 0); wp_steps; (split; [lia|done]).
Qed.

(** The outcome of [changelog_reader_init], whatever fails. *)
Lemma changelog_reader_init_spec s cfg idx :
  boot s -> cfg_ok cfg idx ->
  wp (changelog_reader_init cfg idx) (fun rc s' => rc <= 0 /\ named cfg idx s' /\
    (rc = 0 -> starting cfg idx s')) init_fault s.
Proof.
  intros Hboot Hcfg. pose proof (zero_env_rep s cfg idx Hboot) as Hr0.
  unfold changelog_reader_init, gettimeofday, mod_env. wp_steps.
  rewrite wp_ext. wp_steps.
  apply (rep_put (r_trace s ++ [(GetTimeOfDay, w_rc (r_trace s) GetTimeOfDay)])) in Hr0.
  set (now := w_clock _). apply (rep_env (set_start_time now)) in Hr0; try done.
  destruct (cfg_ok_batch _ _ Hcfg) as (Hb & _ & _).
  eapply wp_mono; [apply (rec_bucket_add_spec _ _ _ Hr0 Hb)| |done].
  intros rc s1 (t & _ & _ & _ & [(-> & _ & ->)|[-> [Hr1 [hd He1]]]]).
  { cbn. wp_steps. split_and!; [unfold ENOMEM; lia| |unfold ENOMEM; lia].
    by do 2 (split; [done|]); eexists. }
  cbn [Z.eqb negb]. wp_steps. set (b := r_next _) in *. cbn [r_env set_env] in He1.
  pose proof (il_first _ _ (rep_buckets _ _ _ Hr1)) as Hfst. cbn in Hfst.
  set (f := fun e : reader_env => let p := l_first (re_buckets e) in set_cursors p p p e).
  assert (Hs2 : starting cfg idx (set_env f s1)).
  { split; [unfold named; cbn; rewrite He1; split_and!; [done|done|by eexists]|]. exists b. split; [split|].
    - by apply (rep_env f).
    - cbn [r_env set_env]. unfold f. cbn zeta. rewrite Hfst, He1.
      by apply first_bucket_inv.
    - exact Hfst. }
  assert (Hid : re_ident (r_env (set_env f s1)) = None) by (cbn; by rewrite He1).
  pose proof (init_zmq_spec cfg idx _ Hcfg Hs2 Hid) as Hz. rewrite wp_bind in Hz.
  eapply wp_mono; [exact Hz| |done]. intros z s2 Hz2. eapply wp_mono; [exact Hz2| |done].
  intros rc s' [Hrc Hs']. split_and!; [done|apply Hs'|done].
Qed.

(** ** Signals and service *)

(** What the receiver reads in a SIGNAL. *)
Lemma signal_fields dev code :
  Z.of_nat (length dev) < sizeof_mdtname ->
  let body := enc_signal (signal_message code dev) in
  Z.of_nat (length body) = sizeof_signal /\ get_op_type body = op_code RPC_OP_SIGNAL /\
  get_sig_ret body = u64 code /\ (no_nul dev -> cstr (get_sig_mdtname body) = Some dev).
Proof.
  intros Hl body. unfold sizeof_mdtname in Hl. subst body. split_and!.
  - apply length_enc_signal. cbn [sig_mdtname signal_message].
    rewrite length_app, length_replicate. lia.
  - by apply get_op_type_hdr.
  - apply get_sig_ret_signal. exact (to_u_range 64 code ltac:(lia)).
  - intros Hnul. rewrite get_sig_mdtname_signal. cbn [sig_mdtname signal_message].
    replace (128 - length dev)%nat with (S (127 - length dev)) by lia. by apply cstr_app.
Qed.

Lemma changelog_reader_signal_spec s dev code :
  reader_device (r_env s) = Some dev -> Z.of_nat (length dev) < sizeof_mdtname ->
  wp (changelog_reader_signal code) (fun rc s' => exists t, extends s t s' /\
    clears_of t = [] /\
    sent [([], true); (dev, true); (enc_signal (signal_message code dev), false)] rc t)
    safe s.
Proof.
  intros Hdev Hlen. unfold changelog_reader_signal. wp_steps. cbn [compose].
  rewrite Hdev. wp_steps. rewrite (proj2 (Z.leb_gt _ _)) by done.
  do 3 (apply wp_send_part; intros ?). wp_steps. exists [].
  split_and!; [apply extends_refl|done|by left].
Qed.

(** What the RPCs keep of the reader that served them from [s0]. *)
Definition serving s0 bks0 s : Prop :=
  static (r_env s0) (r_env s) /\ exists v, represents s v /\ stream (v_bks v) = stream bks0.

(** The faults of the main loop of a reader of [cfg]: CLEAR, the bounds of the
    loops, an answer of [zmq_poll] that 0MQ does not document, and, at the debug
    level, the message about an RPC that is too short for an operation code. *)
Definition loop_fault (cfg : lcap_cfg) (f : fault) : Prop :=
  f = UseAfterFree \/ f = OutOfFuel \/ f = AssertFail /\ ~ poll_documented \/
  f = OutOfBounds /\ debugging cfg = true /\
    exists req, receivable true req /\ lr_body_len req < 4.

Lemma rpc_fault_loop cfg req f :
  receivable true req -> rpc_fault cfg (lr_body req) f -> loop_fault cfg f.
Proof.
  intros Hreq [[_ ->]|(-> & Hd & Hl)]; [by left|]. do 3 right. split_and!; [done|done|by exists req].
Qed.

Lemma serving_extends s0 bks0 t s s' :
  extends s t s' -> serving s0 bks0 s -> serving s0 bks0 s'.
Proof.
  intros Ht [Hst (v & Hv & Hs)]. split.
  - rewrite Hst. by eapply static_extends.
  - exists v. split; [by eapply represents_extends|done].
Qed.

Lemma rpc_hdl_serving s0 bks0 s req :
  serving s0 bks0 s -> receivable true req -> is_Some (lr_forward req) ->
  wp (changelog_reader_rpc_hdl req) (fun _ => serving s0 bks0) (loop_fault (cfg_of s0)) s.
Proof.
  intros [Hst (v & Hv & Hs)] Hreq [cid Hf]. assert (cfg_of s0 = cfg_of s) as -> by (symmetry; apply Hst).
  eapply wp_mono; [apply (changelog_reader_rpc_hdl_spec _ _ _ _ Hv Hf)| |by intros f; apply rpc_fault_loop].
  intros rc s' (rc0 & t0 & t & v' & _ & _ & Hd & _ & Hv' & Hst').
  split; [by rewrite Hst|]. exists v'. split; [done|].
  by rewrite (dispatched_stream _ _ _ _ _ _ _ Hd).
Qed.

(** The assertion after a [zmq_poll] that reported an event. *)
Lemma poll_assertion cfg timeout t (P : Prop) :
  let z := w_rc t (ZmqPoll timeout) in
  0 < z -> P ->
  if negb (Z.land (w_revents (t ++ [(ZmqPoll timeout, z)])) ZMQ_POLLIN =? 0) then P
  else loop_fault cfg AssertFail.
Proof.
  intros z Hz HP. destruct (Z.eqb_spec (Z.land (w_revents (t ++ [(ZmqPoll timeout, z)])) ZMQ_POLLIN) 0)
    as [Hr|Hr]; cbn [negb]; [|done].
  do 2 right. left. split; [done|]. intros Hdoc. by apply (Hdoc t timeout Hz).
Qed.

Lemma changelog_reader_serve_spec n frames s bks cls :
  reader_inv s bks cls ->
  wp (changelog_reader_serve n frames) (fun rc s' => rc <= 0 /\ serving s bks s') (loop_fault (cfg_of s)) s.
Proof.
  intros Hinv.
  assert (Hs : serving s bks s).
  { split; [done|]. by exists (mkView bks cls (re_deliver_next (r_env s))). }
  unfold changelog_reader_serve. wp_steps. rewrite wp_ext. set (c := ZmqPoll _).
  assert (Hs1 : serving s bks (logged c s)) by (eapply serving_extends; [apply extends_logged|done]).
  destruct (Z.ltb_spec (w_rc (s_trace s) c) 0); [wp_steps; split; [lia|done]|].
  destruct (Z.eqb_spec (w_rc (s_trace s) c) 0); [wp_steps; split; [lia|done]|]. wp_steps.
  apply (poll_assertion _ _ (s_trace s)); [fold c; lia|]. wp_steps.
  eapply wp_mono; [eapply (wp_lcap_rpc_recv n frames _ changelog_reader_rpc_hdl 0
    (serving s bks) (loop_fault (cfg_of s)))| |done]; [by right; left| | |done|].
  - intros t s1 s2 Ht _. by apply (serving_extends _ _ t).
  - intros req s1 Hs2 Hreq Hf _. by apply rpc_hdl_serving.
  - intros rc s2 [Hrc Hs2]. destruct (Z.ltb_spec rc 0); wp_steps; split; (lia || done).
Qed.

(** ** The main loop *)

(** A running reader of [cfg]: the invariant of the main loop. *)
Definition running (cfg : lcap_cfg) (idx : Z) s : Prop :=
  named cfg idx s /\ exists bks cls, reader_inv s bks cls.

Lemma running_logged cfg idx c s : running cfg idx s -> running cfg idx (logged c s).
Proof.
  intros (Hn & bks & cls & Hinv). split; [done|]. exists bks, cls.
  by apply reader_inv_logged.
Qed.

Context (Hup : upstream_ok).

Lemma enqueue_running cfg idx fuel s :
  running cfg idx s ->
  wp (changelog_reader_enqueue fuel) (fun _ => running cfg idx) (loop_fault cfg) s.
Proof.
  intros (Hn & bks & cls & Hinv).
  eapply wp_mono; [apply (enqueue_spec Hup fuel _ _ _ Hinv)| |by right; left].
  intros rc s' (t & bks' & recs & lost & _ & _ & Hinv' & Hk & _).
  split; [by eapply named_kept|]. by exists bks', cls.
Qed.

Lemma serve_running cfg idx n frames s :
  running cfg idx s ->
  wp (changelog_reader_serve n frames) (fun rc s' => rc <= 0 /\ running cfg idx s')
     (loop_fault cfg) s.
Proof.
  intros (Hn & bks & cls & Hinv). assert (cfg = cfg_of s) as Hcfg by (symmetry; apply Hn).
  eapply wp_mono; [apply (changelog_reader_serve_spec n frames _ _ _ Hinv)| |by rewrite <- Hcfg].
  intros rc s' [Hrc [Hst (v & [Hinv' _] & _)]].
  split; [done|]. split; [by eapply named_static|]. eauto.
Qed.

Lemma reader_loop_spec cfg idx turns fuel n frames rc s :
  rc <= 0 -> running cfg idx s ->
  wp (reader_loop turns fuel n frames rc) (fun rc' s' => rc' <= 0 /\ running cfg idx s')
     (loop_fault cfg) s.
Proof.
  revert rc s. induction turns as [|turns IH]; intros rc s Hrc Hs; [by right; left|].
  cbn [reader_loop]. wp_steps. rewrite wp_ext. apply (running_logged _ _ ReadTerminateSig) in Hs.
  destruct (_ =? 0); cbn [negb]; wp_steps; [|done].
  eapply wp_mono; [by apply (enqueue_running cfg idx)| |done]. intros rc1 s1 Hs1.
  destruct (Z.ltb_spec rc1 0); wp_steps; [split; [lia|done]|].
  eapply wp_mono; [by apply (serve_running cfg idx)| |done]. intros rc2 s2 [Hrc2 Hs2].
  destruct (Z.ltb_spec rc2 0); wp_steps; [done|]. by apply IH.
Qed.

(** The duration that the statistics print is computed without overflow
    between any two times that the clock shows. *)
Definition short_runs : Prop :=
  forall t1 t2, is_Some (stats_duration (w_clock t1) (w_clock t2)).

(** The faults of a whole reader: also those of the statistics and of the message
    about an identity that could not be set. *)
Definition reader_fault (cfg : lcap_cfg) (f : fault) : Prop :=
  loop_fault cfg f \/ init_fault f \/ f = IntOverflow /\ ~ short_runs.

Lemma print_stats_spec cfg idx s :
  named cfg idx s ->
  wp changelog_reader_print_stats (fun rc s' => rc = 0 /\ extends s [(GetTimeOfDay, w_rc (r_trace s) GetTimeOfDay)] s')
     (fun f => f = IntOverflow /\ ~ short_runs) s.
Proof.
  intros (_ & _ & t & Ht). unfold changelog_reader_print_stats, gettimeofday. wp_steps.
  rewrite wp_ext. wp_steps. cbn [compose].
  change (rs_start_time (re_stats (r_env (logged GetTimeOfDay s))))
    with (rs_start_time (re_stats (r_env s))). rewrite Ht.
  destruct (stats_duration _ _) eqn:Hd; wp_steps; [done|].
  split; [done|]. intros Hs. edestruct Hs as [d Hd']. by erewrite Hd' in Hd.
Qed.

Lemma changelog_reader_release_spec cfg idx s :
  named cfg idx s ->
  wp changelog_reader_release
     (fun rc s' => rc = 0 /\ re_sock (r_env s') = false /\ re_zctx (r_env s') = false)
     (fun f => f = IntOverflow /\ ~ short_runs) s.
Proof.
  intros Hn. unfold changelog_reader_release, mod_env.
  assert (Hend : forall s, named cfg idx s -> re_sock (r_env s) = false -> re_zctx (r_env s) = false ->
    wp (rc ← changelog_reader_print_stats; if rc <? 0 then mret rc else mret 0)
      (fun rc s' => rc = 0 /\ re_sock (r_env s') = false /\ re_zctx (r_env s') = false)
      (fun f => f = IntOverflow /\ ~ short_runs) s).
  { intros s1 Hn1 Hk Hz. wp_steps. eapply wp_mono; [by apply (print_stats_spec cfg idx)| |done].
    by intros _ s2 [-> ->]. }
  wp_steps. cbn [compose].
  destruct (re_sock (r_env s)) eqn:Hk; wp_steps; cbn [compose]; rewrite ?wp_ext; wp_steps;
    cbn [compose r_env set_env]; cbn;
    (destruct (re_zctx (r_env s)) eqn:Hz; wp_steps; rewrite ?wp_ext; wp_steps;
     (apply Hend || rewrite <- wp_bind; by apply Hend)).
Qed.
End main.
