(* ===== verification/ReaderRun.v ===== *)
(** * The runs of the changelog reader

    A run of the reader's main loop is a sequence of steps on its view: an RPC
    that is served, a batch of records that is read. [reader_loop_runs] shows
    that the loop implements that transition system, frames and records
    included; the properties of whole runs are then proved on it, by induction
    on the steps. *)
From S2P Require Import Prelude World Queue Idl LcapNet RpcUtils Effects Config Log Reader ReaderRep ReaderInv ReaderBuckets ReaderRpc ReaderEffects ReaderEnqueue ReaderSpec ReaderHandlers ReaderMain.
Local Open Scope Z_scope.

Section run.
Context `{World, ChangelogRec}.
Implicit Types (s : rstate) (v : view) (t : trace).

(** ** The transition system *)

Inductive rlabel :=
| did_call (cid : conn_id) (body : bytes) (fs : list (bytes * bool))
| did_read (recs : list bytes).

(** The locations of the buckets of a view differ: the new ones are fresh. *)
Definition distinct v : Prop := NoDup (v_bks v).*1.

Inductive vstep (batch : Z) v : rlabel -> view -> Prop :=
| step_call cid body rc0 t0 rc t v' :
    dispatched batch cid body v rc0 t0 v' -> replied cid rc0 t0 rc t -> distinct v' ->
    vstep batch v (did_call cid body (frames_of t)) v'
| step_read bks recs :
    grown (v_bks v) recs bks -> NoDup bks.*1 ->
    vstep batch v (did_read recs) (mkView bks (v_cls v) (v_deliver v)).

Inductive vsteps (batch : Z) v : list rlabel -> view -> Prop :=
| steps_nil : vsteps batch v [] v
| steps_snoc ls v' l v'' :
    vsteps batch v ls v' -> vstep batch v' l v'' -> vsteps batch v (ls ++ [l]) v''.

(** The frames that a run sends, the records that it reads. *)
Definition label_frames (l : rlabel) : list (bytes * bool) :=
  match l with did_call _ _ fs => fs | did_read _ => [] end.
Definition label_recs (l : rlabel) : list bytes :=
  match l with did_call _ _ _ => [] | did_read recs => recs end.
Definition frames_in (ls : list rlabel) : list (bytes * bool) := concat (label_frames <$> ls).
Definition recs_in (ls : list rlabel) : list bytes := concat (label_recs <$> ls).

Lemma frames_in_snoc ls l : frames_in (ls ++ [l]) = frames_in ls ++ label_frames l.
Proof. unfold frames_in. rewrite fmap_app, concat_app. cbn. by rewrite app_nil_r. Qed.
Lemma recs_in_snoc ls l : recs_in (ls ++ [l]) = recs_in ls ++ label_recs l.
Proof. unfold recs_in. rewrite fmap_app, concat_app. cbn. by rewrite app_nil_r. Qed.

(** The stream grows by exactly what is read. *)
Lemma vsteps_stream batch v ls v' :
  vsteps batch v ls v' -> stream (v_bks v') = stream (v_bks v) ++ recs_in ls.
Proof.
  induction 1 as [|ls v1 l v2 _ IH Hst]; [by rewrite app_nil_r|].
  rewrite recs_in_snoc, app_assoc, <- IH.
  destruct Hst as [cid body rc0 t0 rc t v' Hd _ _|bks recs [Hs _] _]; cbn [label_recs].
  - rewrite app_nil_r. by eapply dispatched_stream.
  - exact Hs.
Qed.

(** ** The loop implements it *)

(** The termination flag was not seen raised in [t]. *)
Definition calm t : Prop := forall z, (ReadTerminateSig, z) ∈ t -> z = 0.

(** [s] is the outcome of a run from [s0], whose view was [v0]: the calls since
    then are [t] and the steps [ls]. *)
Record ran s0 v0 s v (ls : list rlabel) t : Prop := {
  ran_steps : vsteps (batch_of s0) v0 ls v;
  ran_repr : represents s v;
  ran_cfg : cfg_of s = cfg_of s0;
  ran_trace : r_trace s = r_trace s0 ++ t;
  ran_frames : frames_of t = frames_in ls;
  ran_clears : clears_of t = [];
}.

(** What the run has read is what upstream handed out. *)
Definition caught_up s0 s (ls : list rlabel) t : Prop :=
  recs_in ls = accept (re_srec (r_env s0)) (received (r_trace s0) t) /\
  re_srec (r_env s) = next_srec (re_srec (r_env s0)) (recs_in ls).

Definition run_of (Caught : trace -> Prop) s0 v0 s : Prop :=
  exists v ls t, ran s0 v0 s v ls t /\ (Caught t -> caught_up s0 s ls t).

Lemma represents_distinct s v : represents s v -> distinct v.
Proof. intros [[Hr _] _]. exact (il_nodup _ _ (rep_buckets _ _ _ Hr)). Qed.

Lemma run_of_start s v C : represents s v -> run_of C s v s.
Proof.
  intros Hv. exists v, [], []. split; [|by split].
  constructor; try done; [constructor|by rewrite app_nil_r].
Qed.

(** Calls that neither send nor read. *)
Lemma ran_quiet s0 v0 s v ls t s' t' :
  extends s t' s' -> silent t' -> ran s0 v0 s v ls t -> ran s0 v0 s' v ls (t ++ t').
Proof.
  intros Hx [Hf Hc] [H1 H2 H3 H4 H5 H6]. constructor; try done.
  - by eapply represents_extends.
  - by rewrite Hx.
  - rewrite Hx. cbn. by rewrite H4, app_assoc.
  - by rewrite frames_of_app, H5, Hf, app_nil_r.
  - by rewrite clears_of_app, H6, Hc.
Qed.

Lemma caught_up_quiet s0 s ls t s' t' :
  re_srec (r_env s') = re_srec (r_env s) -> recvs_of t' = [] ->
  caught_up s0 s ls t -> caught_up s0 s' ls (t ++ t').
Proof.
  intros He Ht [H1 H2]. split; [|by rewrite He].
  by rewrite received_app, (received_nil _ _ Ht), app_nil_r.
Qed.

(** An RPC that is served. *)
Lemma ran_call s0 v0 s v ls t cid body rc s' :
  ran s0 v0 s v ls t -> answered cid body s v rc s' ->
  exists t' v' l, ran s0 v0 s' v' (ls ++ [l]) (t ++ t') /\ label_recs l = [] /\
    re_srec (r_env s') = re_srec (r_env s) /\ r_trace s' = r_trace s ++ t'.
Proof.
  intros [H1 H2 H3 H4 H5 H6] (rc0 & t0 & t' & v' & Ht & Hc & Hd & Hr & Hv' & Hst).
  exists t', v', (did_call cid body (frames_of t')). split; [|split_and!; [done|apply Hst|done]].
  unfold batch_of in Hd. rewrite H3 in Hd. constructor.
  - eapply steps_snoc; [exact H1|]. econstructor; [exact Hd|exact Hr|].
    by eapply represents_distinct.
  - exact Hv'.
  - rewrite <- H3. apply Hst.
  - by rewrite Ht, H4, app_assoc.
  - by rewrite frames_of_app, frames_in_snoc, H5.
  - by rewrite clears_of_app, H6, Hc.
Qed.

(** A batch that is read. *)
Lemma ran_read s0 v0 s v ls t rc s' :
  ran s0 v0 s v ls t -> enqueued (batch_of s) s (v_bks v) (v_cls v) rc s' ->
  exists t' v' recs lost, ran s0 v0 s' v' (ls ++ [did_read recs]) (t ++ t') /\
    r_trace s' = r_trace s ++ t' /\
    accept (re_srec (r_env s)) (received (r_trace s) t') = recs ++ lost /\
    re_srec (r_env s') = next_srec (re_srec (r_env s)) recs /\
    (rc <> - ENOMEM -> calm t' -> lost = []).
Proof.
  intros [H1 H2 H3 H4 H5 H6] (t' & bks & recs & lost & Ht & [Hf Hc] & Hinv & Hk & Hg & Hsr
    & Hacc & _ & Hlost).
  set (v' := mkView bks (v_cls v) (v_deliver v)).
  assert (Hv' : represents s' v').
  { split; [exact Hinv|]. destruct Hk as (_ & _ & -> & _). apply H2. }
  exists t', v', recs, lost. split; [constructor|split_and!; try done].
  - eapply steps_snoc; [exact H1|]. constructor; [exact Hg|]. exact (represents_distinct _ _ Hv').
  - exact Hv'.
  - rewrite <- H3. unfold cfg_of. by destruct Hk as (-> & _).
  - by rewrite Ht, H4, app_assoc.
  - by rewrite frames_of_app, frames_in_snoc, H5, Hf.
  - by rewrite clears_of_app, H6, Hc.
  - intros Hrc Hcalm. destruct Hlost as [?|(r & _ & [?|(z & Hz & Hnz)])]; [done|done|].
    by apply Hcalm in Hz.
Qed.

(** Serving the RPCs that wait. *)
Definition served_from s0 v0 s (ls : list rlabel) t s' : Prop :=
  exists v' ls' t', ran s0 v0 s' v' (ls ++ ls') (t ++ t') /\ recs_in ls' = [] /\
    re_srec (r_env s') = re_srec (r_env s) /\ r_trace s' = r_trace s ++ t'.

Lemma served_from_start s0 v0 s v ls t :
  ran s0 v0 s v ls t -> served_from s0 v0 s ls t s.
Proof. intros Hr. exists v, [], []. rewrite !app_nil_r. split_and!; done || by rewrite app_nil_r. Qed.

Lemma served_from_quiet s0 v0 s ls t s1 t1 s2 :
  extends s1 t1 s2 -> silent t1 -> served_from s0 v0 s ls t s1 -> served_from s0 v0 s ls t s2.
Proof.
  intros Hx Hq (v1 & ls1 & t2 & Hr & Hrec & Hsr & Ht). exists v1, ls1, (t2 ++ t1).
  rewrite app_assoc. split_and!; [by eapply ran_quiet|done|by rewrite Hx|].
  rewrite Hx. cbn. by rewrite Ht, app_assoc.
Qed.

Lemma served_from_call s0 v0 s ls t s1 req :
  served_from s0 v0 s ls t s1 -> receivable true req -> is_Some (lr_forward req) ->
  wp (changelog_reader_rpc_hdl req) (fun _ => served_from s0 v0 s ls t) (loop_fault (cfg_of s0)) s1.
Proof.
  intros (v1 & ls1 & t1 & Hr & Hrec & Hsr & Ht) Hreq [cid Hf].
  rewrite <- (ran_cfg _ _ _ _ _ _ Hr).
  eapply wp_mono; [apply (changelog_reader_rpc_hdl_spec _ _ _ _ (ran_repr _ _ _ _ _ _ Hr) Hf)| |].
  - intros rc s2 Ha. destruct (ran_call _ _ _ _ _ _ _ _ _ _ Hr Ha)
      as (t2 & v2 & l & Hr2 & Hl & Hsr2 & Ht2).
    exists v2, (ls1 ++ [l]), (t1 ++ t2). rewrite !app_assoc. split_and!; [done| | |].
    + by rewrite recs_in_snoc, Hrec, Hl.
    + by rewrite Hsr2.
    + by rewrite Ht2, Ht.
  - intros f. by apply rpc_fault_loop.
Qed.

Lemma serve_ran n frames s0 v0 s v ls t :
  ran s0 v0 s v ls t ->
  wp (changelog_reader_serve n frames)
     (fun rc s' => (rc <= 0 /\ served_from s0 v0 s ls t s') /\
        exists t', s_trace s' = s_trace s ++ t' /\ Forall (fun e => serve_calls e.1) t')
     (loop_fault (cfg_of s0)) s.
Proof.
  intros Hr. apply emits_wp; [apply serve_calls_spec|].
  pose proof (served_from_start _ _ _ _ _ _ Hr) as Hs.
  unfold changelog_reader_serve. wp_steps. rewrite wp_ext. set (c := ZmqPoll _).
  assert (Hs1 : served_from s0 v0 s ls t (logged c s)).
  { eapply served_from_quiet; [apply extends_logged|done|done]. }
  destruct (Z.ltb_spec (w_rc (s_trace s) c) 0); [wp_steps; split; [lia|done]|].
  destruct (Z.eqb_spec (w_rc (s_trace s) c) 0); [wp_steps; split; [lia|done]|]. wp_steps.
  apply (poll_assertion _ _ (s_trace s)); [fold c; lia|]. wp_steps.
  eapply wp_mono; [eapply (wp_lcap_rpc_recv n frames _ changelog_reader_rpc_hdl 0
    (served_from s0 v0 s ls t) (loop_fault (cfg_of s0)))| |done]; [by right; left| | |done|].
  - intros t1 s1 s2. apply served_from_quiet.
  - intros req s1 Hs2 Hreq Hf _. by apply served_from_call.
  - intros rc s2 [Hrc Hs2]. destruct (Z.ltb_spec rc 0); wp_steps; split; (lia || done).
Qed.

Lemma calm_app t1 t2 : calm (t1 ++ t2) -> calm t1 /\ calm t2.
Proof. intros Hc. split; intros z Hz; apply Hc, elem_of_app; tauto. Qed.

Context (Hup : upstream_ok).

(** What the loop has done when it returns [rc]: all but its last test of the
    flag was a run, and nothing upstream handed out was dropped unless the
    flag was seen or memory ran out. *)
Definition loop_ran s0 v0 (rc : Z) s' : Prop :=
  exists v ls t, ran s0 v0 s' v ls t /\
    exists t1 t2, t = t1 ++ t2 /\ (t2 = [] \/ exists z, t2 = [(ReadTerminateSig, z)]) /\
      (rc <> - ENOMEM -> calm t1 -> caught_up s0 s' ls t).

Lemma reader_loop_ran turns fuel n frames rc s0 v0 s v ls t :
  rc <> - ENOMEM -> ran s0 v0 s v ls t -> (calm t -> caught_up s0 s ls t) ->
  wp (reader_loop turns fuel n frames rc) (loop_ran s0 v0) (loop_fault (cfg_of s0)) s.
Proof.
  revert rc s v ls t. induction turns as [|turns IH]; intros rc s v ls t Hrc Hr Hup'; [by right; left|].
  cbn [reader_loop]. wp_steps. rewrite wp_ext. set (z0 := w_rc (s_trace s) ReadTerminateSig). set (e := (ReadTerminateSig, z0)).
  set (s1 := logged ReadTerminateSig s).
  assert (Hx : extends s [e] s1) by apply extends_logged.
  pose proof (ran_quiet _ _ _ _ _ _ _ _ Hx ltac:(done) Hr) as Hr1.
  assert (Hc1 : calm t -> caught_up s0 s1 ls (t ++ [e])).
  { intros Hc. eapply caught_up_quiet; [done|done|by apply Hup']. }
  destruct (_ =? 0) eqn:Hz; cbn [negb]; wp_steps.
  2: { exists v, ls, (t ++ [e]). split; [done|]. exists t, [e]. split; [done|].
       split; [right; by eexists|]. intros _. exact Hc1. }
  eapply wp_mono; [apply (enqueue_spec Hup fuel _ _ _ (proj1 (ran_repr _ _ _ _ _ _ Hr1)))| |by right; left].
  intros rc1 s2 Henq. destruct (ran_read _ _ _ _ _ _ _ _ Hr1 Henq)
    as (t2 & v2 & recs & lost & Hr2 & Ht2 & Hacc & Hsr & Hlost).
  assert (Hc2 : rc1 <> - ENOMEM -> calm ((t ++ [e]) ++ t2) ->
    caught_up s0 s2 (ls ++ [did_read recs]) ((t ++ [e]) ++ t2)).
  { intros Hn [Hc Hct2]%calm_app. apply calm_app in Hc as [Hc _].
    destruct (Hc1 Hc) as [Hrecs Hsr1]. rewrite (Hlost Hn Hct2), app_nil_r in Hacc.
    pose proof (ran_trace _ _ _ _ _ _ Hr1) as Htr1. split; rewrite recs_in_snoc; cbn [label_recs].
    - rewrite received_app, accept_app, <- Hrecs, <- Hsr1, <- Htr1, Hacc. done.
    - by rewrite Hsr, Hsr1, next_srec_app. }
  destruct (Z.ltb_spec rc1 0); wp_steps.
  { exists v2, (ls ++ [did_read recs]), ((t ++ [e]) ++ t2). split; [done|].
    exists ((t ++ [e]) ++ t2), []. rewrite app_nil_r. split_and!; [done|by left|exact Hc2]. }
  specialize (Hc2 ltac:(unfold ENOMEM; lia)).
  eapply wp_mono; [apply (serve_ran n frames _ _ _ _ _ _ Hr2)| |done].
  intros rc2 s3 [[Hrc2 (v3 & ls3 & t3 & Hr3 & Hrecs3 & Hsr3 & Ht3)] (t3' & Ht3' & Hf)].
  change (r_trace s3 = r_trace s2 ++ t3') in Ht3'. rewrite Ht3 in Ht3'. apply app_inv_head in Ht3' as <-.
  assert (Hc3 : calm (((t ++ [e]) ++ t2) ++ t3) ->
    caught_up s0 s3 ((ls ++ [did_read recs]) ++ ls3) (((t ++ [e]) ++ t2) ++ t3)).
  { intros [Hc _]%calm_app. apply Hc2 in Hc. destruct (caught_up_quiet _ _ _ _ s3 t3 Hsr3
      (serve_no_recvs _ Hf) Hc) as [Ha Hb].
    assert (Hn : recs_in ((ls ++ [did_read recs]) ++ ls3) = recs_in (ls ++ [did_read recs])).
    { unfold recs_in in *. by rewrite fmap_app, concat_app, Hrecs3, app_nil_r. }
    split; by rewrite Hn. }
  destruct (Z.ltb_spec rc2 0) as [Hneg|Hneg]; wp_steps.
  - exists v3, ((ls ++ [did_read recs]) ++ ls3), (((t ++ [e]) ++ t2) ++ t3). split; [done|].
    exists (((t ++ [e]) ++ t2) ++ t3), []. rewrite app_nil_r. split_and!; [done|by left|by intros _].
  - eapply IH; [|exact Hr3|exact Hc3]. unfold ENOMEM; lia.
Qed.
End run.

(** ** Runs shorter than the acknowledgement timeout *)

Section orderly.
Context `{World, ChangelogRec}.
Implicit Types (v : view) (bks sent pend : bkt_list) (cls : cli_list).

(** The clock does not leave the ACK timeout that starts at [t0], and memory
    does not run out. *)
Record punctual (t0 : Z) : Prop := {
  pu_clock : forall t, t0 <= fst (w_clock t) <= t0 + ACK_TIMEOUT_MSEC / 1000;
  pu_memory : ~ out_of_memory;
}.

(** The buckets that the clients hold. *)
Definition held cls : list loc := omap (cs_bucket ∘ snd) cls.

(** The buckets are those that were sent, with their deadline, and those that
    are pending; delivery goes on with the first pending one or has stopped. *)
Record orderly (t0 : Z) v sent pend : Prop := {
  or_bks : v_bks v = sent ++ pend;
  or_pend : pend <> [];
  or_next : v_deliver v = head pend.*1 \/ v_deliver v = None /\ sent <> [];
  or_due : Forall (fun x => t0 + ACK_TIMEOUT_MSEC / 1000 <= tv_sec (lrb_expiry x.2)) sent;
  or_held : forall b, b ∈ held (v_cls v) -> b ∈ sent.*1;
  or_once : NoDup (held (v_cls v));
}.

Lemma held_app cls1 cls2 : held (cls1 ++ cls2) = held cls1 ++ held cls2.
Proof. apply omap_app. Qed.

Lemma held_one c cs k : held ((c, cs) :: k) = option_list (cs_bucket cs) ++ held k.
Proof. unfold held. cbn. by destruct (cs_bucket cs). Qed.

(** The records of a bucket, as they were sent. *)
Definition packet_of (recs : list bytes) : bytes :=
  enc_enqueue
    {| enq_hdr := {| op_type := op_code RPC_OP_ENQUEUE; reserved := 0 |};
       enq_count := Z.of_nat (length recs);
       enq_records := concat (wire_rec <$> recs) |}.

(** The ENQUEUE messages among the frames of a run. *)
Definition packets (fs : list (bytes * bool)) : list bytes :=
  filter (fun p => get_op_type p = op_code RPC_OP_ENQUEUE) (fst <$> filter (fun f => f.2 = false) fs).

Lemma packets_app fs1 fs2 : packets (fs1 ++ fs2) = packets fs1 ++ packets fs2.
Proof. unfold packets. by rewrite filter_app, fmap_app, filter_app. Qed.

Lemma packets_sent cid msg rc t :
  sent (envelope None cid msg) rc t ->
  packets (frames_of t) = if bool_decide (rc = 0) then packets [(msg, false)] else [].
Proof.
  intros [[-> ->]|(Hrc & _ & k & Hk & ->)]; [done|]. rewrite bool_decide_eq_false_2 by lia.
  cbn [envelope app length] in Hk. by destruct k as [|[|[|k]]]; [..|lia].
Qed.

Lemma packets_ack ret : packets [(enc_ack (ack_message ret), false)] = [].
Proof. done. Qed.

Lemma packets_acked cid ret rc t :
  sent (envelope None cid (enc_ack (ack_message ret))) rc t -> packets (frames_of t) = [].
Proof. intros ->%packets_sent. rewrite packets_ack. by destruct (bool_decide _). Qed.

Lemma packets_silent t : silent t -> packets (frames_of t) = [].
Proof. by intros [-> _]. Qed.

Lemma packets_packet recs : packets [(packet_of recs, false)] = [packet_of recs].
Proof.
  unfold packets. rewrite filter_cons_True by done. cbn [fmap list_fmap].
  rewrite filter_cons_True; [done|]. by apply get_op_type_hdr.
Qed.

(** Where a bucket stands is determined by its location. *)
Lemma split_unique (l1 l2 k1 k2 : bkt_list) b x y :
  NoDup (l1 ++ (b, x) :: l2).*1 -> l1 ++ (b, x) :: l2 = k1 ++ (b, y) :: k2 ->
  k1 = l1 /\ y = x /\ k2 = l2.
Proof.
  revert k1. induction l1 as [|z l1 IH]; intros k1; cbn [app]; rewrite fmap_cons;
    intros [Hn Hnd]%NoDup_cons Heq; destruct k1 as [|z' k1]; cbn [app] in Heq; simplify_eq.
  - done.
  - destruct Hn. cbn. rewrite fst_app_cons. apply elem_of_app. right. left.
  - destruct Hn. cbn. rewrite fst_app_cons. apply elem_of_app. right. left.
  - by destruct (IH k1 Hnd ltac:(done)) as (-> & -> & ->).
Qed.

(** Buckets that differ at most in their readiness. *)
Definition alike (x y : loc * lcap_rec_bucket) : Prop :=
  y.1 = x.1 /\ lrb_expiry y.2 = lrb_expiry x.2 /\ bk_recs y.2 = bk_recs x.2.

Definition all_recs bks : list (list bytes) := (bk_recs ∘ snd) <$> bks.

Lemma alike_refl bks : Forall2 alike bks bks.
Proof. by apply Forall_Forall2_diag, Forall_true. Qed.

Lemma alike_keys bks bks' : Forall2 alike bks bks' -> bks'.*1 = bks.*1.
Proof. induction 1 as [|x y l l' (Hk & _) _ IH]; [done|]. by rewrite !fmap_cons, Hk, IH. Qed.

Lemma alike_recs bks bks' : Forall2 alike bks bks' -> all_recs bks' = all_recs bks.
Proof.
  unfold all_recs. induction 1 as [|x y l l' (_ & _ & Hr) _ IH]; [done|].
  rewrite !fmap_cons, IH. cbn. by rewrite Hr.
Qed.

(** A step that sends no bucket. *)
Lemma orderly_same t0 v sent pend v' :
  orderly t0 v sent pend -> Forall2 alike (v_bks v) (v_bks v') -> v_deliver v' = v_deliver v ->
  held (v_cls v') ⊆ held (v_cls v) -> NoDup (held (v_cls v')) ->
  exists sent' pend', orderly t0 v' sent' pend' /\ all_recs sent' = all_recs sent.
Proof.
  intros [H1 H2 H3 H4 H5 H6] Hal Hd Hin Hnd. rewrite H1 in Hal.
  apply Forall2_app_inv_l in Hal as (sent' & pend' & Hs & Hp & Hb).
  exists sent', pend'. split; [|by apply alike_recs].
  pose proof (alike_keys _ _ Hs) as Hks. pose proof (alike_keys _ _ Hp) as Hkp.
  constructor; try done.
  - intros ->. by inversion Hp; subst.
  - rewrite Hd, Hkp. destruct H3 as [?|[? Hne]]; [by left|]. right. split; [done|].
    intros ->. by inversion Hs; subst.
  - clear -H4 Hs. induction Hs as [|x y l l' (_ & He & _) _ IH]; [done|].
    apply Forall_cons in H4 as [Hx Hl]. apply Forall_cons. split; [by rewrite He|by apply IH].
  - intros b Hb'. rewrite Hks. by apply H5, Hin.
Qed.

Lemma orderly_refl t0 v sent pend :
  orderly t0 v sent pend ->
  exists sent' pend', orderly t0 v sent' pend' /\ all_recs sent' = all_recs sent.
Proof. intros Ho. by exists sent, pend. Qed.

(** A batch goes to the pending buckets. *)
Lemma orderly_read t0 v sent pend recs bks :
  orderly t0 v sent pend -> grown (v_bks v) recs bks ->
  exists pend', orderly t0 (mkView bks (v_cls v) (v_deliver v)) sent pend'.
Proof.
  intros [H1 H2 H3 H4 H5 H6] [_ [->|(l & x & y & new & Hb & -> & Hk & _)]];
    [exists pend; by constructor|].
  destruct pend as [|z pend _] using rev_ind; [done|]. rewrite H1, app_assoc in Hb.
  apply app_inj_tail in Hb as [<- ->]. exists (pend ++ y :: new). constructor; cbn; try done.
  - by rewrite <- app_assoc.
  - by destruct pend.
  - destruct H3 as [->|?]; [left|by right]. destruct pend; cbn; [by rewrite Hk|done].
Qed.

(** The bucket that a DEQUEUE serves is the first pending one. *)
Lemma orderly_chosen t0 v sent pend now b l1 bk l2 :
  punctual t0 -> orderly t0 v sent pend -> distinct v ->
  chosen now v (Some b) (l1 ++ (b, bk) :: l2) ->
  l1 = sent /\ pend = (b, bk) :: l2.
Proof.
  intros Hpu [H1 H2 H3 H4 _ _] Hdis Hch.
  assert (Hfirst : v_deliver v = Some b /\ v_bks v = l1 ++ (b, bk) :: l2).
  { remember (Some b) as p eqn:Hp. remember (l1 ++ (b, bk) :: l2) as bs eqn:Hu.
    destruct Hch as [b' bk' rest Hnow Hb Hx|b' bk' rest _ _ _]; [|done]. clear Hu.
    injection Hp as ->. destruct sent as [|[k x] sent].
    - destruct H3 as [Hd|[_ []]]; [|done]. cbn [app] in H1. rewrite <- H1, Hb in Hd.
      cbn in Hd. split; [done|]. rewrite Hd, Hb. cbn [unready].
      by rewrite bool_decide_eq_true_2.
    - rewrite H1 in Hb. cbn [app] in Hb. simplify_eq.
      apply Forall_cons in H4 as [Hdue _]. destruct Hnow as [t ->]. unfold expired in Hx.
      pose proof (pu_clock _ Hpu t). cbn in Hdue. lia. }
  destruct Hfirst as [Hd Hb]. destruct pend as [|[k x] pend]; [done|].
  destruct H3 as [Hn|[Hn _]]; [|congruence]. rewrite Hd in Hn. cbn in Hn. simplify_eq.
  unfold distinct in Hdis. rewrite H1 in Hdis, Hb.
  by destruct (split_unique _ _ _ _ _ _ _ Hdis Hb) as (-> & -> & ->).
Qed.

Lemma orderly_sent t0 batch v sent c cs k1 k2 cid b bk l2 new now :
  punctual t0 -> orderly t0 v sent ((b, bk) :: l2) -> distinct v ->
  holds v cid c cs k1 k2 -> cs_bucket cs = None -> sealed batch l2 new -> shown now ->
  orderly t0 (mkView (sent ++ (b, set_expiry (deadline now) bk) :: l2 ++ new)
    (k1 ++ (c, set_cs_bucket (Some b) cs) :: k2) (head l2.*1))
    (sent ++ [(b, set_expiry (deadline now) bk)]) (l2 ++ new).
Proof.
  intros Hpu [H1 H2 H3 H4 H5 H6] Hdis (Hk & _ & _) Hcs Hseal [t ->].
  assert (Hb : b ∉ held k1 ++ held k2).
  { intros Hin. unfold distinct in Hdis. rewrite H1, fst_app_cons in Hdis.
    apply NoDup_app in Hdis as (_ & Hdis & _). apply (Hdis b); [|by left].
    apply H5. by rewrite Hk, held_app, held_one, Hcs. }
  rewrite Hk, held_app, held_one, Hcs in H5, H6. cbn [option_list app] in H5, H6.
  constructor; cbn [v_bks v_cls v_deliver].
  - by rewrite <- app_assoc.
  - destruct l2; [|done]. destruct Hseal as (b' & idx & ->). done.
  - destruct l2 as [|x l2]; [right; split; [done|by destruct sent]|by left].
  - apply Forall_app. split; [done|]. apply Forall_singleton. cbn.
    pose proof (pu_clock _ Hpu t). lia.
  - intros b'. rewrite held_app, held_one, fmap_app. cbn. rewrite !elem_of_app, elem_of_cons.
    intros [?|[->|?]]; [left; apply H5, elem_of_app; tauto|right; by left|].
    left. apply H5, elem_of_app. tauto.
  - rewrite held_app, held_one. cbn. by rewrite <- Permutation_middle, NoDup_cons.
Qed.

(** What a step does to the buckets that were sent, and the packets it sends:
    no bucket, or the next one, whose packet leaves unless the send fails. *)
Definition sends_next t0 sent v' (ps : list bytes) : Prop :=
  exists sent' pend', orderly t0 v' sent' pend' /\
    (all_recs sent' = all_recs sent /\ ps = [] \/
     exists recs, all_recs sent' = all_recs sent ++ [recs] /\
       (ps = [] \/ ps = [packet_of recs])).

Lemma sends_none t0 v sent pend v' ps :
  orderly t0 v sent pend -> ps = [] -> Forall2 alike (v_bks v) (v_bks v') ->
  v_deliver v' = v_deliver v -> held (v_cls v') ⊆ held (v_cls v) ->
  NoDup (held (v_cls v')) -> sends_next t0 sent v' ps.
Proof.
  intros Ho -> Hal Hd Hin Hnd.
  destruct (orderly_same _ _ _ _ _ Ho Hal Hd Hin Hnd) as (sent' & pend' & Ho' & Hr).
  exists sent', pend'. split; [done|by left].
Qed.

Lemma sends_same t0 v sent pend ps :
  orderly t0 v sent pend -> ps = [] -> sends_next t0 sent v ps.
Proof.
  intros Ho Hps. eapply sends_none; try done; [apply alike_refl|]. apply (or_once _ _ _ _ Ho).
Qed.

Lemma sends_returned t0 v sent pend cid v' ps :
  orderly t0 v sent pend -> ps = [] -> returned cid v v' -> sends_next t0 sent v' ps.
Proof.
  intros Ho Hps [c cs k1 k2 b bk l1 l2 (Hk & _ & _) Hcs Hb].
  pose proof (or_once _ _ _ _ Ho) as Hnd. rewrite Hk, held_app, held_one, Hcs in Hnd.
  eapply sends_none; [exact Ho|exact Hps| |done| |]; cbn [v_bks v_cls].
  - rewrite Hb. apply Forall2_app; [apply alike_refl|]. constructor; [done|apply alike_refl].
  - rewrite Hk, !held_app, !held_one, Hcs. cbn. set_solver.
  - rewrite held_app, held_one. cbn. eapply sublist_NoDup; [exact Hnd|].
    apply sublist_app; [done|]. by apply sublist_inserts_l.
Qed.

Lemma served_orderly t0 batch cid body op v rc t v' sent pend :
  punctual t0 -> served batch cid body op v rc t v' -> distinct v -> orderly t0 v sent pend ->
  sends_next t0 sent v' (packets (frames_of t)).
Proof.
  intros Hpu Hs Hdis Ho. pose proof (or_once _ _ _ _ Ho) as Hnd.
  destruct Hs;
    try (by eapply sends_same; [done|]);
    try (by eapply sends_same; [done|apply packets_silent]);
    try (by destruct (pu_memory _ Hpu)).
  - eapply sends_none; [exact Ho|by eapply packets_acked|apply alike_refl|done| |];
      cbn [v_cls]; rewrite held_app, held_one; cbn; by rewrite app_nil_r.
  - match goal with H : chosen _ _ _ _ |- _ =>
      destruct (orderly_chosen _ _ _ _ _ _ _ _ _ Hpu Ho Hdis H) as [-> ->] end.
    do 2 eexists. split; [by eapply orderly_sent|]. right. exists (bk_recs bk).
    split; [unfold all_recs; by rewrite fmap_app|].
    match goal with H : RpcUtils.sent _ _ _ |- _ => rewrite (packets_sent _ _ _ _ H) end.
    change (enqueue_packet bk) with (packet_of (bk_recs bk)). rewrite packets_packet.
    destruct (bool_decide _); [by right|by left].
  - eapply sends_returned; [exact Ho|by eapply packets_acked|done].
  - eapply sends_returned; [exact Ho|by apply packets_silent|done].
  - match goal with H : holds _ _ _ _ _ _ |- _ => destruct H as (Hk & _ & _) end.
    rewrite Hk, held_app, held_one in Hnd.
    eapply sends_none; [exact Ho|by eapply packets_acked|apply alike_refl|done| |];
      cbn [v_cls]; rewrite ?Hk, ?held_app, ?held_one; [set_solver|].
    eapply sublist_NoDup; [exact Hnd|]. apply sublist_app; [done|]. by apply sublist_inserts_l.
Qed.

Lemma vstep_orderly t0 batch v l v' sent pend :
  punctual t0 -> vstep batch v l v' -> distinct v -> orderly t0 v sent pend ->
  distinct v' /\ sends_next t0 sent v' (packets (label_frames l)).
Proof.
  intros Hpu [cid body rc0 tr0 rc t w Hd Hr Hdis'|bks recs Hg Hnd] Hdis Ho;
    (split; [done|]); cbn [label_frames].
  - assert (Hps : packets (frames_of t) = packets (frames_of tr0)).
    { destruct Hr as [rc t Hrc Hs|]; [|done].
      by rewrite frames_of_app, packets_app, (packets_acked _ _ _ _ Hs), app_nil_r. }
    rewrite Hps. destruct Hd; [by eapply sends_same|by eapply sends_same|].
    by eapply served_orderly.
  - destruct (orderly_read _ _ _ _ _ _ Ho Hg) as (pend' & Ho'). exists sent, pend'.
    split; [done|by left].
Qed.

(** The packets of a run carry buckets in their order, none twice; no bucket
    has two holders. *)
Lemma vsteps_orderly t0 batch v ls v' pend :
  punctual t0 -> vsteps batch v ls v' -> distinct v -> orderly t0 v [] pend ->
  distinct v' /\ exists sent pend' rss, orderly t0 v' sent pend' /\
    packets (frames_in ls) = packet_of <$> rss /\ sublist rss (all_recs sent).
Proof.
  intros Hpu Hs Hdis Ho. induction Hs as [|ls v1 l v2 _ IH Hst].
  { split; [done|]. by exists [], pend, []. }
  destruct IH as (Hdis1 & sent & pend' & rss & Ho1 & Hps & Hsub).
  destruct (vstep_orderly _ _ _ _ _ _ _ Hpu Hst Hdis1 Ho1)
    as (Hdis2 & sent2 & pend2 & Ho2 & Hcase). split; [done|].
  rewrite frames_in_snoc, packets_app, Hps.
  destruct Hcase as [[Heq ->]|(recs & Heq & [->| ->])].
  - exists sent2, pend2, rss. by rewrite Heq, app_nil_r.
  - exists sent2, pend2, rss. rewrite Heq, app_nil_r. split_and!; [done|done|].
    by apply sublist_inserts_r.
  - exists sent2, pend2, (rss ++ [recs]). rewrite Heq, fmap_app. split_and!; [done|done|].
    by apply sublist_app.
Qed.

Lemma sublist_concat {A} (ls1 ls2 : list (list A)) :
  sublist ls1 ls2 -> sublist (concat ls1) (concat ls2).
Proof.
  induction 1 as [|l ls1 ls2 _ IH|l ls1 ls2 _ IH]; cbn [concat]; [done| |].
  - by apply sublist_app.
  - by apply sublist_inserts_l.
Qed.

Lemma orderly_stream t0 v sent pend :
  orderly t0 v sent pend -> stream (v_bks v) = concat (all_recs sent) ++ stream pend.
Proof. intros [-> _ _ _ _ _]. by rewrite stream_app. Qed.

Lemma orderly_starting t0 b bk : orderly t0 (mkView [(b, bk)] [] (Some b)) [] [(b, bk)].
Proof.
  constructor; cbn; try done; [by left|apply NoDup_nil_2].
Qed.
End orderly.
