(* ===== verification/ReaderProps.v ===== *)
(** * The properties of the changelog reader *)
From S2P Require Import Prelude World Queue Idl LcapNet RpcUtils Config Log Reader ReaderRep ReaderInv ReaderBuckets ReaderRpc ReaderEnqueue ReaderSpec Demo ReaderHandlers ReaderMain.
From stdpp Require Import sorting.
Local Open Scope Z_scope.

Section props.
Context `{World, ChangelogRec}.
Implicit Types (s : rstate) (v : view) (req : lcapnet_request).

(** C8: The reader RPC callback implements the specified step relation on every
    request: it returns in a well-formed state with the specified result,
    frames and view. Its only faults are the read of a freed bucket, and
    that only in CLEAR, and, when the daemon logs at the debug level, the
    read of the operation code of a body that is shorter than one. *)
Theorem reader_rpc_refines s v req cid :
  represents s v -> lr_forward req = Some cid ->
  wp (changelog_reader_rpc_hdl req) (answered cid (lr_body req) s v)
     (rpc_fault (cfg_of s) (lr_body req)) s.
Proof. apply changelog_reader_rpc_hdl_spec. Qed.

(** An RPC that ends neither loses, adds nor reorders a record the reader
    holds, and acknowledges nothing upstream. *)
Theorem reader_rpc_keeps_records s v req cid rc s' :
  represents s v -> lr_forward req = Some cid ->
  changelog_reader_rpc_hdl req s = Ok (rc, s') ->
  exists v' t, represents s' v' /\ stream (v_bks v') = stream (v_bks v) /\
    r_trace s' = r_trace s ++ t /\ clears_of t = [] /\ re_srec (r_env s') = re_srec (r_env s).
Proof.
  intros Hv Hf Hrun. pose proof (changelog_reader_rpc_hdl_spec _ _ _ _ Hv Hf) as Hwp.
  apply (wp_Ok _ _ _ _ _ _ Hwp) in Hrun as (rc0 & t0 & t & v' & Ht & Hc & Hd & _ & Hv' & Hst).
  exists v', t. split_and!; [done|by eapply dispatched_stream|done|done|apply Hst].
Qed.

Lemma first_of_list (l1 l2 rest : bkt_list) b bk bk' :
  NoDup ((b, bk) :: rest).*1 -> (b, bk) :: rest = l1 ++ (b, bk') :: l2 -> l1 = [].
Proof.
  destruct l1 as [|x l1]; [done|]. intros [Hn _]%NoDup_cons [= <- Hr]. destruct Hn.
  rewrite Hr. apply (in_fst _ _ bk'). apply elem_of_app. right. left.
Qed.

(** Giving back the oldest bucket makes it the ready head. *)
Lemma returned_head s v v1 cid c cs k1 k2 b bk rest :
  represents s v -> holds v cid c cs k1 k2 -> cs_bucket cs = Some b ->
  v_bks v = (b, bk) :: rest -> returned cid v v1 ->
  v_bks v1 = (b, set_ready true bk) :: rest.
Proof.
  intros [[Hr _] _] (Hk & Hcl & _) Hcs Hb Hret.
  pose proof (il_nodup _ _ (rep_buckets _ _ _ Hr)) as Hnd. rewrite Hb in Hnd.
  destruct Hret as [c' cs' k1' k2' b' bk' l1 l2 (Hk' & Hcl' & _) Hcs' Hb'].
  assert (c' = c) as -> by congruence.
  assert (Hin : (c, cs) ∈ v_cls v) by (rewrite Hk; apply elem_of_app; right; by left).
  assert (Hin' : (c, cs') ∈ v_cls v) by (rewrite Hk'; apply elem_of_app; right; by left).
  apply (rep_cmem _ _ _ Hr) in Hin, Hin'. simplify_eq. rewrite Hb in Hb'.
  pose proof (first_of_list _ _ _ _ _ _ Hnd Hb') as ->. cbn in *. by simplify_eq.
Qed.

(** C21: When the client that holds the oldest bucket clears it and the upstream
    acknowledgement succeeds, the CLEAR handler reads the bucket it has just
    freed. *)
Theorem clear_reads_freed_bucket s v req cid c cs k1 k2 b bk rest dev cli :
  represents s v -> lr_forward req = Some cid ->
  sizeof_clear <= Z.of_nat (length (lr_body req)) ->
  holds v cid c cs k1 k2 -> cs_bucket cs = Some b -> v_bks v = (b, bk) :: rest ->
  reader_device (r_env s) = Some dev -> ccf_clreader (cfg_of s) = Some cli ->
  0 <= w_rc (r_trace s) (clear_call dev cli bk) ->
  reader_handle_clear req s = Fault UseAfterFree.
Proof.
  intros Hv Hf Hl Hh Hcs Hb Hdev Hcli Hup. apply wp_fault.
  pose proof Hv as [[Hr _] _]. unfold reader_handle_clear, lr_body_len. rewrite Hf.
  fold (clear_rest cid). rewrite (proj2 (Z.ltb_ge _ _)) by done. wp_steps.
  eapply wp_mono; [apply (client_state_get_spec _ _ _ cid Hr)| |done]. intros r s' [-> ->].
  rewrite (proj1 (proj2 Hh)). wp_steps.
  eapply wp_load_held; [done|exact Hh|]. rewrite Hcs.
  eapply return_bucket_spec; [done|exact Hh|done|]. intros s1 v1 Ht1 He1 Hv1 Hret.
  pose proof (returned_head _ _ _ _ _ _ _ _ _ _ _ Hv Hh Hcs Hb Hret) as Hb1.
  unfold wp. rewrite (clear_rest_eq cid s1 v1 b (set_ready true bk) rest dev cli); try done.
  - cbn [lrb_ready set_ready]. rewrite Ht1.
    change (clear_call dev cli (set_ready true bk)) with (clear_call dev cli bk).
    by rewrite (proj2 (Z.ltb_ge _ 0)).
  - by rewrite He1.
  - unfold cfg_of. by rewrite He1.
Qed.

(** The record number that a CLEAR carries plays no part: requests of the same
    client, both long enough, are handled alike. *)
Lemma clear_ignores_record req req' :
  lr_forward req = lr_forward req' ->
  sizeof_clear <= lr_body_len req -> sizeof_clear <= lr_body_len req' ->
  reader_handle_clear req = reader_handle_clear req'.
Proof.
  intros Hf Hl Hl'. unfold reader_handle_clear. rewrite Hf.
  by rewrite (proj2 (Z.ltb_ge _ _) Hl), (proj2 (Z.ltb_ge _ _) Hl').
Qed.

(** C25: One turn of the CLEAR loop on the oldest bucket acknowledges its last
    record upstream and removes exactly that bucket, or leaves everything
    when upstream refuses. *)
Theorem clear_acks_oldest s b bk rest cls dev cli :
  reader_inv s ((b, bk) :: rest) cls -> reader_device (r_env s) = Some dev ->
  ccf_clreader (cfg_of s) = Some cli ->
  wp (clear_bucket b bk) (refused_or_removed s dev cli b bk rest cls) safe s.
Proof. apply clear_bucket_step. Qed.

(** C36: A CLEAR of a client that holds no bucket changes nothing and gets no
    answer. *)
Theorem clear_without_bucket_unanswered s v req cid c cs k1 k2 :
  represents s v -> lr_forward req = Some cid ->
  sizeof_clear <= Z.of_nat (length (lr_body req)) ->
  get_op_type (lr_body req) = op_code RPC_OP_CLEAR ->
  holds v cid c cs k1 k2 -> cs_bucket cs = None ->
  changelog_reader_rpc_hdl req s = Ok (0, s).
Proof.
  intros Hv Hf Hl Hop Hh Hcs. apply wp_eq.
  pose proof Hv as [[Hr _] _]. unfold changelog_reader_rpc_hdl, lr_body_len.
  wp_steps. rewrite (proj2 (Z.ltb_ge _ _)) by (unfold sizeof_hdr, sizeof_clear in *; lia).
  rewrite Hop. cbn zeta. cbn [op_code].
  replace ((2 <? RPC_OP_FIRST) || (RPC_OP_LAST <? 2)) with false by done.
  unfold rpc_handle_one. wp_steps. cbn [op_of_code Z.eqb Pos.eqb]. wp_steps.
  cbn [reader_rpc_handle]. unfold reader_handle_clear, lr_body_len.
  rewrite (proj2 (Z.ltb_ge _ _)) by done. rewrite Hf. wp_steps.
  eapply wp_mono; [apply (client_state_get_spec _ _ _ cid Hr)| |done]. intros r s' [-> ->].
  rewrite (proj1 (proj2 Hh)). wp_steps. eapply wp_load_held; [done|exact Hh|].
  rewrite Hcs. wp_steps. apply wp_debug_op_type; [unfold sizeof_clear in Hl; lia|]. by wp_steps.
Qed.

Lemma keys_unready d (bks : bkt_list) : (unready d bks).*1 = bks.*1.
Proof.
  induction bks as [|[b bk] l IH]; [done|]. cbn [unready].
  destruct (bool_decide _); [done|]. rewrite !fmap_cons. by f_equal.
Qed.

Lemma keys_chosen now v p bks : chosen now v p bks -> bks.*1 = (v_bks v).*1.
Proof. intros [|]; [apply keys_unready|done]. Qed.

(** C18: A DEQUEUE that succeeds sends one packet: that of a bucket of the
    reader, a contiguous part of its stream; the client holds it from then
    on, and its deadline is one acknowledgement timeout after a time that
    was read from the clock in this DEQUEUE, before the packet was sent. *)
Theorem dequeue_sends_bucket s v req cid c cs k1 k2 s' :
  represents s v -> lr_forward req = Some cid ->
  sizeof_dequeue <= Z.of_nat (length (lr_body req)) ->
  holds v cid c cs k1 k2 -> cs_bucket cs = None ->
  reader_handle_dequeue req s = Ok (0, s') ->
  exists b bk t t1 z t2, r_trace s' = r_trace s ++ t /\
    frames_of t = envelope None cid (enqueue_packet bk) /\
    t = t1 ++ (ClockGettime, z) :: t2 /\ frames_of t1 = [] /\
    r_clis s' !! c = Some (set_cs_bucket (Some b) cs) /\
    r_bkts s' !! b =
      Some (set_expiry (deadline (w_clock (r_trace s ++ t1 ++ [(ClockGettime, z)]))) bk) /\
    b ∈ (v_bks v).*1 /\
    exists before after, stream (v_bks v) = before ++ bk_recs bk ++ after.
Proof.
  intros Hv Hf Hl Hh Hcs Hrun.
  pose proof (reader_handle_dequeue_served _ _ _ _ _ _ _ _ Hv Hf Hl Hh Hcs) as Hwp.
  apply (wp_Ok _ _ _ _ _ _ Hwp) in Hrun as (t & v' & Ht & _ & Hs & [[Hr' _] _] & _ & Hst).
  destruct (Hst eq_refl) as (n1 & b1 & bk1 & (t1 & z & t2 & Htt & Hf1 & ->) & Hb1 & Hc1).
  apply (rep_bmem _ _ _ Hr') in Hb1. apply (rep_cmem _ _ _ Hr') in Hc1.
  apply served_dequeue_0 in Hs as (c' & cs' & k1' & k2' & now & now' & l1 & b & bk & l2 & new
    & Hh' & Hch & Hnew & Hsent & ->).
  destruct (holds_unique _ _ _ _ _ _ _ _ _ _ _ Hv Hh Hh') as [<- <-].
  assert (Hc : r_clis s' !! c = Some (set_cs_bucket (Some b) cs)).
  { apply (rep_cmem _ _ _ Hr'). cbn. apply elem_of_app. right. left. }
  assert (Hb : r_bkts s' !! b = Some (set_expiry (deadline now') bk)).
  { apply (rep_bmem _ _ _ Hr'). cbn. apply elem_of_app. right. left. }
  assert (b1 = b) as -> by (rewrite Hc in Hc1; unfold set_cs_bucket in Hc1; congruence).
  exists b, bk, t, t1, z, t2. split_and!; [done|done|done|done|done| | |].
  - rewrite Hb in Hb1 |- *. f_equal. unfold set_expiry in *. congruence.
  - rewrite <- (keys_chosen _ _ _ _ Hch), fst_app_cons. apply elem_of_app. right. left.
  - rewrite <- (stream_chosen _ _ _ _ Hch). exists (stream l1), (stream l2).
    change ((b, bk) :: l2) with ([(b, bk)] ++ l2). by rewrite !stream_app, stream_one.
Qed.

(** ** Reading records *)

(** C17: A batch of upstream reads puts exactly the accepted records, in order,
    at the end of the stream of records; at most the last record read is
    lost, and only to a failed allocation or to the termination flag. *)
Theorem enqueue_in_order fuel s bks cls :
  upstream_ok -> reader_inv s bks cls ->
  wp (changelog_reader_enqueue fuel) (enqueued (batch_of s) s bks cls) (eq OutOfFuel) s.
Proof. intros Hup. by apply enqueue_spec. Qed.

(** C27: With an upstream log that hands out records in order, a batch ends
    after at most as many reads as a bucket has slots, without any fault. *)
Theorem enqueue_terminates s bks cls :
  upstream_ok -> upstream_ordered -> reader_inv s bks cls -> in_step_open s ->
  wp (changelog_reader_enqueue (Z.to_nat (batch_of s))) (fun _ => in_step_open) safe s.
Proof. intros Hup Hord. by apply enqueue_total. Qed.

(** After a batch the reader holds at most batch size times bucket count
    records, in strictly increasing index order. *)
Theorem reader_capacity fuel s bks cls rc s' :
  upstream_ok -> reader_inv s bks cls -> changelog_reader_enqueue fuel s = Ok (rc, s') ->
  exists bks', reader_inv s' bks' cls /\
    Z.of_nat (length (stream bks')) <= capacity (cfg_of s') /\
    StronglySorted Z.lt (cr_index <$> stream bks').
Proof.
  intros Hup Hinv Hrun. pose proof (enqueue_spec Hup fuel _ _ _ Hinv) as Hwp.
  apply (wp_Ok _ _ _ _ _ _ Hwp) in Hrun as (t & bks' & recs & lost & _ & _ & Hinv' & _).
  exists bks'. pose proof Hinv' as [_ He]. split_and!; [done| |apply (ei_sorted _ _ _ He)].
  rewrite <- (ei_cnt _ _ _ He). apply (ei_cap _ _ _ He).
Qed.

(** ** Service over time *)

(** C26: Once the last bucket has been served, the records read afterwards are
    not: every DEQUEUE ends with the end-of-records code until the oldest
    bucket expires. *)
Theorem sent_last_then_starves fuel s bks cls rc s' req cid c cs k1 k2 :
  upstream_ok -> reader_inv s bks cls -> re_deliver_next (r_env s) = None ->
  changelog_reader_enqueue fuel s = Ok (rc, s') ->
  lr_forward req = Some cid -> sizeof_dequeue <= Z.of_nat (length (lr_body req)) ->
  holds (mkView bks cls None) cid c cs k1 k2 -> cs_bucket cs = None ->
  (forall b bk, re_cleanup_next (r_env s') = Some b -> r_bkts s' !! b = Some bk ->
     ~ expired (w_clock (r_trace s' ++ [(ClockGettime, w_rc (r_trace s') ClockGettime)])) bk) ->
  reader_handle_dequeue req s' = Ok (1, logged ClockGettime s').
Proof.
  intros Hup Hinv Hd Hrun Hf Hl (Hk & Hcl & Hid) Hcs Hclock.
  pose proof (enqueue_spec Hup fuel _ _ _ Hinv) as Hwp.
  apply (wp_Ok _ _ _ _ _ _ Hwp) in Hrun as (t & bks' & recs & lost & _ & _ & Hinv' & Hkept & _).
  destruct Hkept as (_ & _ & Hd' & _). rewrite Hd in Hd'. apply wp_eq.
  pose proof Hinv' as [Hr He]. destruct bks' as [|[hb hbk] rest]; [by destruct (ei_ne _ _ _ He)|].
  pose proof (Hclock hb hbk (ei_cleanup _ _ _ He) (rep_bmem _ _ _ Hr hb hbk ltac:(left))) as Hx.
  unfold reader_handle_dequeue, lr_body_len. rewrite (proj2 (Z.ltb_ge _ _)) by done.
  rewrite Hf. wp_steps.
  eapply wp_mono; [apply (client_state_get_spec _ _ _ cid Hr)| |done]. intros r s1 [-> ->].
  cbn [v_cls] in Hcl, Hk. rewrite Hcl. wp_steps.
  eapply wp_load_cli; [exact Hr| |]. { rewrite Hk. apply elem_of_app. right. left. }
  rewrite Hcs. unfold rec_bucket_get. wp_steps. cbn [compose].
  rewrite (ei_cleanup _ _ _ He). cbn [head fmap list_fmap fst]. wp_steps. rewrite wp_ext. wp_steps.
  eapply (wp_load_bkt _ ((hb, hbk) :: rest) cls); [by apply rep_put|by left|].
  rewrite (proj2 (Z.ltb_ge _ _)) by (unfold expired in Hx; cbn; lia).
  wp_steps. cbn. rewrite Hd'. by wp_steps.
Qed.

(** C12: The whole life of a reader thread with a well-formed configuration,
    whatever the libraries answer, if upstream hands out well-formed
    records: it ends with a code that is not positive, and the socket and
    the context are released. The only faults are the use after free of
    CLEAR; the bounds of the model on the loops that have none; the overflow
    of the statistics, if the clock shows an end too far from the start; the
    message about an identity that could not be set, which reads through
    NULL if the memory for it ran out, and past its end if 0MQ refuses it;
    the assertion after zmq_poll, only if that answers an event other than
    the documented one; and, at the debug level, the read of the operation
    code of a body shorter than one. *)
Theorem reader_main_safe s cfg idx turns fuel n frames :
  upstream_ok -> boot s -> reader_cfg cfg idx ->
  wp (reader_main cfg idx turns fuel n frames)
     (fun rc s' => rc <= 0 /\ re_sock (r_env s') = false /\ re_zctx (r_env s') = false)
     (reader_fault cfg) s.
Proof.
  intros Hup Hboot [Hcfg Hlen]. unfold reader_main. wp_steps.
  destruct Hcfg as (Hsz & [dev Hdev] & Hcli) eqn:E. specialize (Hlen dev Hdev).
  assert (Hend : forall rc s, rc <= 0 -> named cfg idx s ->
    wp ((if negb (rc =? 0) then changelog_reader_signal rc;; mret tt else mret tt);;
        changelog_reader_release;; mret rc)
      (fun rc s' => rc <= 0 /\ re_sock (r_env s') = false /\ re_zctx (r_env s') = false)
      (reader_fault cfg) s).
  { intros rc s1 Hrc Hn. wp_steps.
    assert (Hrel : forall s, named cfg idx s -> wp changelog_reader_release (fun _ => wp (mret rc)
      (fun rc s' => rc <= 0 /\ re_sock (r_env s') = false /\ re_zctx (r_env s') = false)
      (reader_fault cfg)) (reader_fault cfg) s).
    { intros s2 Hn2. eapply wp_mono; [by apply (changelog_reader_release_spec cfg idx)| |by right; right].
      intros _ s3 (_ & ? & ?). by wp_steps. }
    destruct (rc =? 0); cbn [negb]; wp_steps; [by apply Hrel|].
    eapply wp_mono; [apply (changelog_reader_signal_spec s1 dev rc); [|done]| |done].
    - unfold reader_device. destruct Hn as (-> & -> & _). done.
    - intros rc' s2 (t & Ht & _). wp_steps. apply Hrel. by eapply named_ext. }
  eapply wp_mono; [apply (changelog_reader_init_spec _ _ _ Hboot Hcfg)| |by right; left].
  intros rc s1 (Hrc & Hn & Hst).
  destruct (Z.eqb_spec rc 0) as [->|Hnz]; cbn [negb].
  2: { rewrite wp_bind, wp_ret. by apply Hend. }
  destruct (Hst eq_refl) as (_ & b & Hinv & _). wp_steps.
  eapply wp_mono; [apply (changelog_reader_signal_spec s1 dev 0); [|done]| |done].
  { unfold reader_device. destruct Hn as (-> & -> & _). done. }
  intros rc s2 (t & Ht & _ & Hsent).
  assert (Hrun : rc <= 0 /\ running cfg idx s2).
  { split; [unfold sent in Hsent; lia|]. split; [by eapply named_ext|].
    do 2 eexists. rewrite Ht. destruct Hinv as [Hr He]. split; [by apply rep_put|exact He]. }
  destruct Hrun as [Hrc2 Hrun]. destruct (rc =? 0); cbn [negb].
  - eapply wp_mono; [by apply (reader_loop_spec Hup cfg idx)| |by left].
    intros rc' s3 [Hrc' [Hn' _]]. by apply Hend.
  - rewrite wp_ret. apply Hend; [done|apply Hrun].
Qed.

(** What is refused before any handler runs, and the code of the refusal. *)
Definition refusal (body : bytes) : option Z :=
  if Z.of_nat (length body) <? sizeof_hdr then Some (- EPROTO)
  else match op_of_code (get_op_type body) with
       | None => Some (- EINVAL)
       | Some (RPC_OP_ENQUEUE | RPC_OP_ACK | RPC_OP_SIGNAL) => Some (- EPROTO)
       | Some _ => None
       end.

(** A truncated request, an unknown operation code or an operation that is
    not for readers is answered with its error code, which the peer reads
    back unchanged. *)
Theorem bad_request_answered s req cid rc0 :
  lr_forward req = Some cid -> refusal (lr_body req) = Some rc0 ->
  wp (changelog_reader_rpc_hdl req) (fun rc s' => exists t, extends s t s' /\
    sent (envelope None cid (enc_ack (ack_message rc0))) rc t)
    (fun f => f = OutOfBounds /\ debugging (cfg_of s) = true /\ lr_body_len req < 4) s /\
  get_retcode (enc_ack (ack_message rc0)) = rc0.
Proof.
  intros Hf Href. unfold refusal in Href.
  assert (Hrc : rc0 < 0 /\ in_s 32 rc0).
  { destruct (_ <? _); [simplify_eq|destruct (op_of_code _) as [[]|]; simplify_eq];
      unfold EPROTO, EINVAL, in_s; lia. }
  split; [|apply ack_message_retcode, Hrc].
  assert (Hack : wp (ack_retcode None (lr_forward req) rc0) (fun rc s' => exists t,
    extends s t s' /\ sent (envelope None cid (enc_ack (ack_message rc0))) rc t) safe s).
  { rewrite Hf. eapply wp_mono; [apply (ack_retcode_spec None cid rc0)| |done].
    intros rc s' (t & Ht & _ & Hs). by exists t. }
  set (E := fun f : fault => f = OutOfBounds /\ debugging (cfg_of s) = true /\ lr_body_len req < 4).
  unfold changelog_reader_rpc_hdl, lr_body_len. rewrite wp_bind.
  assert (Hgo : forall m, m s = Ok (rc0, s) -> wp m (fun rc => wp
    (cfg ← gets cfg_of; lcap_debug_op_type cfg (lr_body req);;
     if (rc <? 0) || (rc =? 1) then ack_retcode None (lr_forward req) rc else mret rc)
    (fun rc s' => exists t, extends s t s' /\
       sent (envelope None cid (enc_ack (ack_message rc0))) rc t) E) E s).
  { intros m Hm. unfold wp at 1. rewrite Hm. wp_steps. apply wp_debug_op_type; [done|].
    rewrite (proj2 (Z.ltb_lt rc0 0) (proj1 Hrc)). eapply wp_mono; [exact Hack|done|done]. }
  apply Hgo. destruct (_ <? _); [by simplify_eq|]. cbn zeta.
  destruct (op_of_code (get_op_type (lr_body req))) as [op|] eqn:Hop.
  - destruct (_ || _) eqn:Hbad; [by apply op_of_code_valid in Hbad; rewrite Hop in Hbad|].
    unfold rpc_handle_one. rewrite Hop. by destruct op; simplify_eq.
  - apply op_of_code_valid in Hop. rewrite Hop. by simplify_eq.
Qed.

(** When the oldest bucket is past its deadline it is served again, the
    buckets sent after it are pending again, and the service resumes after
    it. *)
Theorem expired_bucket_served_again s bks hb hbk rest cls :
  reader_inv s bks cls -> bks = (hb, hbk) :: rest ->
  expired (w_clock (r_trace s ++ [(ClockGettime, w_rc (r_trace s) ClockGettime)])) hbk ->
  wp rec_bucket_get (fun r s' => r = Some hb /\
    reader_inv s' (unready (re_deliver_next (r_env s)) bks) cls /\
    re_deliver_next (r_env s') = head rest.*1) safe s.
Proof.
  intros Hinv Hb Hx. eapply wp_mono; [by apply (rec_bucket_get_spec s bks hb hbk rest cls)| |done].
  intros r s' (t & bks' & _ & _ & Hinv' & (Hkeys & _) & Hcase). destruct r as [b|].
  - destruct Hcase as (l1 & bk & l2 & Hb' & He & [(_ & -> & -> & Hu)|(Hn & _)]); [|done].
    rewrite <- Hu. split_and!; [done|done|]. rewrite He. cbn. f_equal.
    rewrite Hb', Hb in Hkeys. by simplify_list_eq.
  - by destruct Hcase as [Hn _].
Qed.

(** A reader that starts has one empty open bucket, which is the next to
    serve and to clean up; every failure is an error code. *)
Theorem reader_init_inv s cfg idx :
  boot s -> cfg_ok cfg idx ->
  wp (changelog_reader_init cfg idx) (fun rc s' => rc <= 0 /\ named cfg idx s' /\
    (rc = 0 -> starting cfg idx s')) init_fault s.
Proof. apply changelog_reader_init_spec. Qed.

(** The SIGNAL of a reader is an empty frame, its device name and the RPC,
    from which the receiver reads back the error code and the device name. *)
Theorem reader_signal_frames s dev code :
  reader_device (r_env s) = Some dev -> Z.of_nat (length dev) < sizeof_mdtname ->
  wp (changelog_reader_signal code) (fun rc s' => exists t, extends s t s' /\
    clears_of t = [] /\
    sent [([], true); (dev, true); (enc_signal (signal_message code dev), false)] rc t)
    safe s /\
  Z.of_nat (length (enc_signal (signal_message code dev))) = sizeof_signal /\
  get_sig_ret (enc_signal (signal_message code dev)) = u64 code /\
  (no_nul dev -> cstr (get_sig_mdtname (enc_signal (signal_message code dev))) = Some dev).
Proof.
  intros Hd Hl. split; [by apply changelog_reader_signal_spec|].
  destruct (signal_fields dev code Hl) as (? & _ & ? & ?). by split_and!.
Qed.
End props.

(** ** The theorems on concrete readers *)

(** A reader that sent its first bucket to its client, and has an empty one. *)
Definition held_reader : rstate := demo_reader (demo_bucket 0 15) (Some 1%positive) None.
Definition held_view : view := demo_view (demo_bucket 0 15) (Some 1%positive) None.

(** One whose client is idle and whose first bucket was never sent. *)
Definition idle_reader : rstate := demo_reader (demo_bucket 0 0) None (Some 1%positive).
Definition idle_view : view := demo_view (demo_bucket 0 0) None (Some 1%positive).

#[local] Instance accepting : World := demo_world 5 0.

Lemma idle_represents : represents idle_reader idle_view.
Proof. by apply demo_represents; auto. Qed.
Lemma held_represents : represents held_reader held_view.
Proof. by apply demo_represents; auto. Qed.
#[local] Hint Resolve idle_represents held_represents : core.

Lemma held_holds held deliver due :
  holds (demo_view (demo_bucket 0 due) held deliver) demo_cid 3%positive
    (mkClient 0 held demo_cid) [] [].
Proof. by split_and!. Qed.

Lemma reader_rpc_refines_witness :
  represents idle_reader idle_view /\
  wp (changelog_reader_rpc_hdl demo_dequeue) (answered demo_cid (lr_body demo_dequeue)
    idle_reader idle_view)
    (rpc_fault (cfg_of idle_reader) (lr_body demo_dequeue)) idle_reader.
Proof.
  assert (Hv : represents idle_reader idle_view) by auto. split; [exact Hv|].
  by apply (reader_rpc_refines idle_reader idle_view demo_dequeue demo_cid).
Defined.

Lemma reader_rpc_keeps_records_witness :
  exists s' v' t, changelog_reader_rpc_hdl demo_dequeue idle_reader = Ok (0, s') /\
    represents s' v' /\ stream (v_bks v') = [demo_rec 0] /\
    r_trace s' = r_trace idle_reader ++ t /\ clears_of t = [].
Proof.
  assert (Hv : represents idle_reader idle_view) by auto.
  assert (Hrun : exists s', changelog_reader_rpc_hdl demo_dequeue idle_reader = Ok (0, s')).
  { vm_compute. eexists. reflexivity. }
  destruct Hrun as [s' Hrun].
  destruct (reader_rpc_keeps_records idle_reader idle_view demo_dequeue demo_cid 0 s' Hv eq_refl Hrun)
    as (v' & t & Hv' & Hst & Ht & Hc & _).
  exists s', v', t. split; [exact Hrun|]. split; [exact Hv'|]. split; [|by split].
  rewrite Hst. reflexivity.
Defined.

Lemma clear_reads_freed_bucket_witness :
  reader_handle_clear demo_clear held_reader = Fault UseAfterFree.
Proof.
  apply (clear_reads_freed_bucket held_reader held_view demo_clear demo_cid 3%positive
    (mkClient 0 (Some 1%positive) demo_cid) [] [] 1%positive (demo_bucket 0 15)
    [(2%positive, new_bucket 1 2)] (of_str "mdt0") (of_str "cl1"));
    try (auto; done); vm_compute; congruence.
Defined.

Lemma clear_acks_oldest_witness :
  wp (clear_bucket 1%positive (demo_bucket 0 15))
    (refused_or_removed held_reader (of_str "mdt0") (of_str "cl1") 1%positive (demo_bucket 0 15)
       [(2%positive, new_bucket 1 2)] (v_cls held_view)) safe held_reader.
Proof.
  assert (Hv : represents held_reader held_view) by auto.
  apply (clear_acks_oldest held_reader); [exact (proj1 Hv)|reflexivity|reflexivity].
Defined.

Lemma clear_without_bucket_unanswered_witness :
  changelog_reader_rpc_hdl demo_clear idle_reader = Ok (0, idle_reader).
Proof.
  apply (clear_without_bucket_unanswered idle_reader idle_view demo_clear demo_cid 3%positive
    (mkClient 0 None demo_cid) [] []); try (auto; done); vm_compute; congruence.
Defined.

Lemma dequeue_sends_bucket_witness :
  exists s' t, reader_handle_dequeue demo_dequeue idle_reader = Ok (0, s') /\
    frames_of t = envelope None demo_cid (enqueue_packet (demo_bucket 0 0)) /\
    r_trace s' = r_trace idle_reader ++ t.
Proof.
  assert (Hv : represents idle_reader idle_view) by auto.
  assert (Hrun : exists s', reader_handle_dequeue demo_dequeue idle_reader = Ok (0, s') /\
    r_clis s' !! 3%positive = Some (mkClient 0 (Some 1%positive) demo_cid) /\
    r_bkts s' !! 1%positive = Some (demo_bucket 0 15)).
  { vm_compute. eexists. split; [reflexivity|]. split; reflexivity. }
  destruct Hrun as (s' & Hrun & Hc & Hb).
  destruct (dequeue_sends_bucket idle_reader idle_view demo_dequeue demo_cid 3%positive
    (mkClient 0 None demo_cid) [] [] s' Hv eq_refl ltac:(vm_compute; congruence)
    (held_holds None (Some 1%positive) 0) eq_refl Hrun)
    as (b & bk & t & t1 & z & t2 & Ht & Hf & _ & _ & Hc' & Hb' & _).
  exists s', t. split; [exact Hrun|]. split; [|exact Ht]. rewrite Hf.
  rewrite Hc in Hc'. injection Hc' as <-. rewrite Hb in Hb'.
  destruct bk as [i d r sz n l]. injection Hb'. intros. by subst.
Defined.

Lemma enqueue_in_order_witness :
  wp (changelog_reader_enqueue 5) (enqueued 2 held_reader (v_bks held_view) (v_cls held_view))
     (eq OutOfFuel) held_reader.
Proof.
  apply (enqueue_in_order 5 held_reader); [apply demo_upstream_ok|exact (proj1 held_represents)].
Defined.

Lemma enqueue_terminates_witness :
  wp (changelog_reader_enqueue (Z.to_nat 2)) (fun _ => in_step_open) safe held_reader.
Proof.
  apply (enqueue_terminates held_reader (v_bks held_view) (v_cls held_view));
    [apply demo_upstream_ok|apply demo_upstream_ordered|exact (proj1 held_represents)|].
  intros _. vm_compute. congruence.
Defined.

Lemma reader_capacity_witness :
  exists s' bks', changelog_reader_enqueue 5 held_reader = Ok (0, s') /\
    reader_inv s' bks' (v_cls held_view) /\ Z.of_nat (length (stream bks')) <= 4.
Proof.
  assert (Hrun : exists s', changelog_reader_enqueue 5 held_reader = Ok (0, s') /\
    cfg_of s' = demo_cfg).
  { vm_compute. eexists. split; reflexivity. }
  destruct Hrun as (s' & Hrun & Hcfg).
  destruct (reader_capacity 5 held_reader (v_bks held_view) (v_cls held_view) 0 s'
    (demo_upstream_ok 5 0) (proj1 held_represents) Hrun) as (bks' & Hinv & Hcap & _).
  exists s', bks'. split; [exact Hrun|]. split; [exact Hinv|]. rewrite Hcfg in Hcap. exact Hcap.
Defined.

(** The client of [spent_reader] is idle, its two buckets were sent. *)
Definition spent_reader : rstate := demo_reader (demo_bucket 0 15) None None.

Lemma sent_last_then_starves_witness :
  exists s', changelog_reader_enqueue 5 spent_reader = Ok (0, s') /\
    re_rec_cnt (r_env s') = 3 /\
    reader_handle_dequeue demo_dequeue s' = Ok (1, logged ClockGettime s').
Proof.
  assert (Hrun : exists s', changelog_reader_enqueue 5 spent_reader = Ok (0, s') /\
    re_rec_cnt (r_env s') = 3 /\ re_cleanup_next (r_env s') = Some 1%positive /\
    option_map lrb_expiry (r_bkts s' !! 1%positive) = Some {| tv_sec := 15; tv_nsec := 0 |}).
  { vm_compute. eexists. split; [reflexivity|]. repeat split. }
  destruct Hrun as (s' & Hrun & Hcnt & Hcl & Hexp). exists s'. split; [exact Hrun|].
  split; [exact Hcnt|].
  apply (sent_last_then_starves 5 spent_reader (v_bks held_view)
    [(3%positive, mkClient 0 None demo_cid)] 0 s' demo_dequeue demo_cid 3%positive
    (mkClient 0 None demo_cid) [] []); try done.
  - apply demo_upstream_ok.
  - exact (proj1 (demo_represents 15 None None demo_ptr_None demo_ptr_None)).
  - intros b bk Hb Hbk. rewrite Hcl in Hb. injection Hb as <-. rewrite Hbk in Hexp.
    injection Hexp as Hexp. unfold expired. rewrite Hexp. vm_compute. congruence.
Defined.

(** The memory of a reader thread that starts. *)
Definition booting : rstate := mkSt (zero_env demo_cfg 0) ∅ ∅ ∅ 1 [].

Lemma demo_cfg_ok : reader_cfg demo_cfg 0.
Proof.
  split; [split; [done|split; by eexists]|]. by intros dev [= <-].
Qed.

Lemma reader_main_safe_witness :
  wp (reader_main demo_cfg 0 3 5 5 5)
     (fun rc s' => rc <= 0 /\ re_sock (r_env s') = false /\ re_zctx (r_env s') = false)
     (reader_fault demo_cfg) booting.
Proof.
  apply (reader_main_safe booting demo_cfg 0);
    [apply demo_upstream_ok|by repeat split|exact demo_cfg_ok].
Defined.

Lemma reader_init_inv_witness :
  wp (changelog_reader_init demo_cfg 0) (fun rc s' => rc <= 0 /\ named demo_cfg 0 s' /\
      (rc = 0 -> starting demo_cfg 0 s')) init_fault booting.
Proof. apply (reader_init_inv booting demo_cfg 0); [by repeat split|apply demo_cfg_ok]. Defined.

Lemma bad_request_answered_witness :
  wp (changelog_reader_rpc_hdl (demo_request [x00])) (fun rc s' => exists t,
    extends idle_reader t s' /\
    sent (envelope None demo_cid (enc_ack (ack_message (- EPROTO)))) rc t)
    (fun f => f = OutOfBounds /\ debugging (cfg_of idle_reader) = true /\ 1 < 4) idle_reader.
Proof.
  apply (bad_request_answered idle_reader (demo_request [x00]) demo_cid (- EPROTO)); reflexivity.
Defined.

Lemma expired_bucket_served_again_witness :
  exists b bk rest, v_bks idle_view = (b, bk) :: rest /\
  wp rec_bucket_get (fun r s' => r = Some b /\
      reader_inv s' (unready (Some 1%positive) (v_bks idle_view)) (v_cls idle_view) /\
      re_deliver_next (r_env s') = head rest.*1) safe idle_reader.
Proof.
  exists 1%positive, (demo_bucket 0 0), [(2%positive, new_bucket 1 2)]. split; [reflexivity|].
  apply (expired_bucket_served_again idle_reader (v_bks idle_view) 1%positive (demo_bucket 0 0)
    [(2%positive, new_bucket 1 2)] (v_cls idle_view)); [exact (proj1 idle_represents)|reflexivity|].
  vm_compute. reflexivity.
Defined.

Lemma reader_signal_frames_witness :
  cstr (get_sig_mdtname (enc_signal (signal_message (-5) (of_str "mdt0")))) = Some (of_str "mdt0").
Proof.
  apply (reader_signal_frames idle_reader (of_str "mdt0") (-5)); [reflexivity|reflexivity|].
  apply (bool_decide_unpack _). vm_compute. exact I.
Defined.

(** ** An identity that cannot be set *)

(** 0MQ refuses it, or the memory for it runs out after the socket was made. *)
Definition no_identity_world (refused : bool) : World := {|
  w_rc t c :=
    match c with
    | ZmqSetIdentity _ => -1
    | Alloc _ =>
        if negb refused && existsb (fun e => match e with (ZmqSocket, _) => true | _ => false end) t
        then -1 else 0
    | _ => 0
    end;
  w_clock _ := (0, 0);
  w_rec _ := [];
  w_frame _ := ([], false);
  w_revents _ := 0;
|}.

(** The message about it reads past the end of the identity, or through NULL. *)
Lemma identity_message_faults :
  @changelog_reader_init (no_identity_world true) demo_cfg 0 booting = Fault OutOfBounds /\
  @changelog_reader_init (no_identity_world false) demo_cfg 0 booting = Fault NullDeref.
Proof. split; vm_compute; reflexivity. Qed.
