(* ===== verification/ReaderRunProps.v ===== *)
(** * The properties of the reader's runs

    What holds of every run of the main loop, of runs that are shorter than the
    acknowledgement timeout, and of the statistics at the end of a run; which
    library calls each operation may make. *)
From S2P Require Import Prelude World Queue Idl LcapNet RpcUtils Effects Config Log Reader ReaderRep ReaderInv ReaderBuckets ReaderRpc ReaderEffects ReaderEnqueue ReaderSpec Demo ReaderHandlers ReaderMain ReaderProps ReaderRun.
Local Open Scope Z_scope.

Section props.
Context `{World, ChangelogRec}.
Implicit Types (s : rstate) (v : view) (t : trace).

(** C9: The main loop of the reader implements the transition system of its
    view: a run is a sequence of served RPCs and of read batches, it sends
    exactly the frames of these steps, in order, and acknowledges nothing
    upstream; or it reads a freed bucket, runs out of the turns that it was
    given, asserts an event that zmq_poll, against its documentation, did
    not report, or, at the debug level, reads the operation code of a body
    that is shorter than one. *)
Theorem reader_loop_runs turns fuel n frames s v :
  upstream_ok -> represents s v ->
  wp (reader_loop turns fuel n frames 0) (fun _ s' => exists v' ls t,
        vsteps (batch_of s) v ls v' /\ represents s' v' /\ r_trace s' = r_trace s ++ t /\
        frames_of t = frames_in ls /\ clears_of t = [])
     (loop_fault (cfg_of s)) s.
Proof.
  intros Hup Hv. destruct (run_of_start s v (fun _ => True) Hv) as (v0 & ls & t & Hr & Hc).
  eapply wp_mono; [apply (reader_loop_ran Hup turns fuel n frames 0 s v s v0 ls t)|cbn beta|done];
    [done|exact Hr|intros _; by apply Hc|].
  intros rc s' (v' & ls' & t' & [H1 H2 H3 H4 H5 H6] & _). by exists v', ls', t'.
Qed.

(** C13: The records that the reader holds when its loop ends, without one of
    the faults of reader_loop_runs, are exactly the ones that upstream
    handed out and the reader had not seen, in their order, unless memory
    ran out or the termination flag was seen before. *)
Theorem reader_loop_keeps_all turns fuel n frames s v :
  upstream_ok -> represents s v -> stream (v_bks v) = [] ->
  wp (reader_loop turns fuel n frames 0) (fun rc s' => exists v' t1 t2,
        represents s' v' /\ r_trace s' = r_trace s ++ t1 ++ t2 /\
        (t2 = [] \/ exists z, t2 = [(ReadTerminateSig, z)]) /\
        (rc <> - ENOMEM -> calm t1 ->
           stream (v_bks v') = accept (re_srec (r_env s)) (received (r_trace s) (t1 ++ t2))))
     (loop_fault (cfg_of s)) s.
Proof.
  intros Hup Hv Hemp. destruct (run_of_start s v (fun _ => True) Hv) as (v0 & ls & t & Hr & Hc).
  eapply wp_mono; [apply (reader_loop_ran Hup turns fuel n frames 0 s v s v0 ls t)|cbn beta|done];
    [done|exact Hr|intros _; by apply Hc|].
  intros rc s' (v' & ls' & t' & [H1 H2 H3 H4 H5 H6] & t1 & t2 & -> & Ht2 & Hall).
  exists v', t1, t2. split_and!; [done|done|done|]. intros Hrc Hcalm.
  destruct (Hall Hrc Hcalm) as [<- _]. by rewrite (vsteps_stream _ _ _ _ H1), Hemp.
Qed.

Lemma starting_view cfg idx s :
  starting cfg idx s -> exists b, represents s
    (mkView [(b, new_bucket 0 (ccf_rec_batch_count cfg))] [] (Some b)).
Proof. intros (_ & b & Hinv & Hd). by exists b. Qed.

(** What a punctual run of a new reader leads to. *)
Lemma punctual_run (t0 : Z) turns fuel n frames cfg idx s :
  upstream_ok -> punctual t0 -> starting cfg idx s ->
  wp (reader_loop turns fuel n frames 0) (fun _ s' => exists v' t sent pend rss,
        represents s' v' /\ r_trace s' = r_trace s ++ t /\ orderly t0 v' sent pend /\
        packets (frames_of t) = packet_of <$> rss /\ sublist rss (all_recs sent))
     (loop_fault (cfg_of s)) s.
Proof.
  intros Hup Hpu [b Hv]%starting_view.
  destruct (run_of_start s _ (fun _ => True) Hv) as (v0 & ls & t & Hr & Hc).
  eapply wp_mono; [eapply (reader_loop_ran Hup turns fuel n frames 0)|cbn beta|done];
    [done|exact Hr|intros _; by apply Hc|].
  intros rc s' (v' & ls' & t' & [H1 H2 H3 H4 H5 H6] & _).
  destruct (vsteps_orderly _ _ _ _ _ _ Hpu H1 (represents_distinct _ _ Hv) (orderly_starting t0 _ _))
    as (_ & sent & pend & rss & Ho & Hps & Hsub).
  exists v', t', sent, pend, rss. by rewrite H5.
Qed.

(** In a run of a new reader that is shorter than the acknowledgement
    timeout, with enough memory, no two clients hold the same bucket, whatever
    they send and in whatever order. *)
Theorem buckets_held_once (t0 : Z) turns fuel n frames cfg idx s :
  upstream_ok -> punctual t0 -> starting cfg idx s ->
  wp (reader_loop turns fuel n frames 0) (fun _ s' => exists v',
        represents s' v' /\ NoDup (held (v_cls v')) /\
        forall b, b ∈ held (v_cls v') -> b ∈ (v_bks v').*1)
     (loop_fault (cfg_of s)) s.
Proof.
  intros Hup Hpu Hs. eapply wp_mono; [by apply (punctual_run t0 turns fuel n frames cfg idx)| |done].
  intros _ s' (v' & t & sent & pend & rss & Hv & _ & [H1 _ _ _ H5 H6] & _ & _).
  exists v'. split_and!; [done|done|]. intros b Hb. rewrite H1, fmap_app. apply elem_of_app.
  left. by apply H5.
Qed.

(** In a run of a new reader that is shorter than the acknowledgement
    timeout, with enough memory, the ENQUEUE packets sent to all the clients
    together carry the records in upstream order, none of them twice. *)
Theorem packets_in_order (t0 : Z) turns fuel n frames cfg idx s :
  upstream_ok -> punctual t0 -> starting cfg idx s ->
  wp (reader_loop turns fuel n frames 0) (fun _ s' => exists v' t rss,
        represents s' v' /\ r_trace s' = r_trace s ++ t /\
        packets (frames_of t) = packet_of <$> rss /\
        sublist (concat rss) (stream (v_bks v')))
     (loop_fault (cfg_of s)) s.
Proof.
  intros Hup Hpu Hs. eapply wp_mono; [by apply (punctual_run t0 turns fuel n frames cfg idx)| |done].
  intros _ s' (v' & t & sent & pend & rss & Hv & Ht & Ho & Hps & Hsub).
  exists v', t, rss. split_and!; [done|done|done|].
  rewrite (orderly_stream _ _ _ _ Ho). apply sublist_inserts_r. by apply sublist_concat.
Qed.

(** ** The calls of each operation *)

(** C35: An RPC of an operation makes no other library calls than the ones of
    that operation: only CLEAR acknowledges and frees records, only DEQUEUE
    reads the clock, no RPC reads the upstream log; reading a batch neither
    sends nor acknowledges. *)
Theorem reader_effects :
  (forall req op, op_of_code (get_op_type (lr_body req)) = Some op ->
     emits (rpc_calls op) (changelog_reader_rpc_hdl req)) /\
  (forall req, op_of_code (get_op_type (lr_body req)) = None ->
     emits sends (changelog_reader_rpc_hdl req)) /\
  (forall fuel, emits read_calls (changelog_reader_enqueue fuel)).
Proof.
  split_and!; [apply rpc_hdl_calls|apply rpc_refused_calls|apply enqueue_calls].
Qed.

(** ** The end of a run *)

(** The milliseconds of a time. *)
Definition millis (t : Z * Z) : Z := fst t * 1000 + Z.quot (snd t) 1000.

Lemma stats_duration_short start now :
  0 <= fst now - fst start <= 2147483 ->
  stats_duration start now = Some (s32 (millis now - millis start)).
Proof.
  intros Hd. unfold stats_duration. assert (s32 (fst now - fst start) = fst now - fst start) as ->.
  { apply to_s_id; [lia|]. unfold in_s. lia. }
  rewrite bool_decide_eq_true_2 by (unfold in_s; lia). unfold millis. do 2 f_equal. lia.
Qed.

Lemma stats_duration_long start now :
  2147483 < fst now - fst start < 2 ^ 31 -> stats_duration start now = None.
Proof.
  intros Hd. unfold stats_duration. assert (s32 (fst now - fst start) = fst now - fst start) as ->.
  { apply to_s_id; [lia|]. unfold in_s. lia. }
  rewrite bool_decide_eq_false_2; [done|]. unfold in_s. lia.
Qed.

(** Closing the sockets does not touch the statistics. *)
Lemma release_outcome s now :
  (forall t, w_clock (r_trace s ++ t) = now) ->
  exists s', changelog_reader_release s =
    match stats_duration (rs_start_time (re_stats (r_env s))) now with
    | Some _ => Ok (0, s')
    | None => Fault IntOverflow
    end.
Proof.
  intros Hclock.
  unfold changelog_reader_release, changelog_reader_print_stats, gettimeofday, mod_env.
  unfold mbind, M_bind, mret, M_ret, gets, ext, modify, unwrap, fail.
  destruct s as [e nodes bkts clis next tr]. cbn in Hclock |- *.
  destruct (re_sock e) eqn:Hk, (re_zctx e) eqn:Hz; destruct e; cbn in Hk, Hz |- *; subst; cbn;
    rewrite <- ?app_assoc, Hclock; destruct (stats_duration _ now); by eexists.
Qed.

(** C40: The statistics are computed without overflow as long as the reader ran
    for at most 2147483 seconds (24.8 days), and then are the milliseconds
    of the run; a longer run ends in a signed overflow. *)
Theorem stats_need_short_runs s now :
  (forall t, w_clock (r_trace s ++ t) = now) ->
  let start := rs_start_time (re_stats (r_env s)) in
  0 <= fst now - fst start < 2 ^ 31 ->
  (fst now - fst start <= 2147483 ->
     (exists s', changelog_reader_release s = Ok (0, s')) /\
     (0 <= millis now - millis start < 2 ^ 31 ->
        stats_duration start now = Some (millis now - millis start))) /\
  (2147483 < fst now - fst start -> changelog_reader_release s = Fault IntOverflow).
Proof.
  intros Hclock start Hd. destruct (release_outcome s now Hclock) as [s' ->]. fold start. split.
  - intros Hs. rewrite (stats_duration_short start now) by lia. split; [by eexists|].
    intros Hm. f_equal. apply to_s_id; [lia|]. unfold in_s. lia.
  - intros Hl. by rewrite stats_duration_long by lia.
Qed.
End props.

(** ** On a concrete reader *)

#[local] Existing Instance accepting.

(** The state of a new reader of the demo configuration. *)
Lemma demo_starting :
  exists s, changelog_reader_init demo_cfg 0 (mkSt (zero_env demo_cfg 0) ∅ ∅ ∅ 1 []) = Ok (0, s) /\
    starting demo_cfg 0 s.
Proof.
  set (s0 := mkSt _ _ _ _ _ _).
  assert (Hcfg : cfg_ok demo_cfg 0) by (split; [done|split; by eexists]).
  assert (Hrun : exists s, changelog_reader_init demo_cfg 0 s0 = Ok (0, s)).
  { vm_compute. eexists. reflexivity. }
  destruct Hrun as [s Hrun]. exists s. split; [exact Hrun|].
  pose proof (changelog_reader_init_spec s0 demo_cfg 0 ltac:(by repeat split) Hcfg) as Hwp.
  apply (wp_Ok _ _ _ _ _ _ Hwp) in Hrun as (_ & _ & Hs). by apply Hs.
Qed.

Lemma demo_punctual : punctual 5.
Proof.
  split; [intros t; change (5 <= 5 <= 15); lia|]. intros (t & sz & Hz). by change (0 < 0) in Hz.
Qed.

Lemma reader_loop_runs_witness :
  wp (reader_loop 3 5 5 5 0) (fun _ s' => exists v' ls t,
        vsteps (batch_of idle_reader) idle_view ls v' /\ represents s' v' /\
        r_trace s' = r_trace idle_reader ++ t /\ frames_of t = frames_in ls /\ clears_of t = [])
     (loop_fault (cfg_of idle_reader)) idle_reader.
Proof.
  apply (reader_loop_runs 3 5 5 5 idle_reader idle_view); [apply demo_upstream_ok|exact idle_represents].
Defined.

Lemma reader_loop_keeps_all_witness :
  exists s, wp (reader_loop 3 5 5 5 0) (fun rc s' => exists v' t1 t2,
        represents s' v' /\ r_trace s' = r_trace s ++ t1 ++ t2 /\
        (t2 = [] \/ exists z, t2 = [(ReadTerminateSig, z)]) /\
        (rc <> - ENOMEM -> calm t1 ->
           stream (v_bks v') = accept (re_srec (r_env s)) (received (r_trace s) (t1 ++ t2))))
     (loop_fault (cfg_of s)) s.
Proof.
  destruct demo_starting as (s & _ & Hs). exists s. destruct (starting_view _ _ _ Hs) as [b Hv].
  apply (reader_loop_keeps_all 3 5 5 5 s _ (demo_upstream_ok 5 0) Hv). reflexivity.
Defined.

Lemma buckets_held_once_witness :
  exists s, wp (reader_loop 3 5 5 5 0) (fun _ s' => exists v',
        represents s' v' /\ NoDup (held (v_cls v')) /\
        forall b, b ∈ held (v_cls v') -> b ∈ (v_bks v').*1)
     (loop_fault (cfg_of s)) s.
Proof.
  destruct demo_starting as (s & _ & Hs). exists s.
  apply (buckets_held_once 5 3 5 5 5 demo_cfg 0 s (demo_upstream_ok 5 0) demo_punctual Hs).
Defined.

Lemma packets_in_order_witness :
  exists s, wp (reader_loop 3 5 5 5 0) (fun _ s' => exists v' t rss,
        represents s' v' /\ r_trace s' = r_trace s ++ t /\
        packets (frames_of t) = packet_of <$> rss /\
        sublist (concat rss) (stream (v_bks v')))
     (loop_fault (cfg_of s)) s.
Proof.
  destruct demo_starting as (s & _ & Hs). exists s.
  apply (packets_in_order 5 3 5 5 5 demo_cfg 0 s (demo_upstream_ok 5 0) demo_punctual Hs).
Defined.

Lemma reader_effects_witness :
  emits (rpc_calls RPC_OP_DEQUEUE) (changelog_reader_rpc_hdl demo_dequeue).
Proof. apply (proj1 reader_effects). reflexivity. Defined.

Lemma stats_need_short_runs_witness :
  @changelog_reader_release (demo_world 2147484 0) idle_reader = Fault IntOverflow.
Proof.
  apply (@stats_need_short_runs (demo_world 2147484 0) idle_reader (2147484, 0));
    [reflexivity|cbn; lia|cbn; lia].
Defined.
