(* ===== verification/PxSpec.v ===== *)
(** * What the proxy client promises

    The client seen from outside is the device it is connected for and the
    records that it holds and has not delivered yet. *)
From S2P Require Import Prelude World Idl LcapNet RpcUtils PxClient ReaderInv ReaderSpec ReaderHandlers.
Local Open Scope Z_scope.

(** [r] starts at [off] in the packet. *)
Definition points (pk : bytes) (off : Z) (r : bytes) : Prop :=
  exists pre post, pk = pre ++ r ++ post /\ off = Z.of_nat (length pre).

(** A record with its header and nothing behind it: what a packet carries. *)
Definition whole_rec `{ChangelogRec} (r : bytes) : Prop :=
  sizeof_changelog_rec <= Z.of_nat (length r) /\ rec_len r = Z.of_nat (length r).

Definition live (s : client) (p : px_zmq_data) : Prop :=
  (forall b, is_Some (cl_bufs s !! b) -> (b < cl_next s)%positive) /\
  (forall b, rec_buff p = Some b -> is_Some (cl_bufs s !! b)).

(** The cache: the pending records are the slots from [rec_nxt] to [rec_cnt],
    pointers into the packet [rec_buff]. *)
Definition cached (bufs : gmap positive bytes) (p : px_zmq_data) (pend : list bytes) : Prop :=
  exists slots, records p = Some slots /\ 0 <= rec_nxt p /\
    rec_cnt p = rec_nxt p + Z.of_nat (length pend) /\
    rec_cnt p <= Z.of_nat (length slots) /\
    (pend = [] \/ exists b pk, rec_buff p = Some b /\ bufs !! b = Some pk /\
       forall i r, pend !! i = Some r -> exists off,
         slots !! (Z.to_nat (rec_nxt p) + i)%nat = Some (Some (mkRec b off)) /\
         points pk off r).

Definition client_holds `{ChangelogRec} (s : client) (mdt : bytes) (pend : list bytes) : Prop :=
  exists p, ccc_ptr s = Some p /\ rec_mdt p = mdt /\ live s p /\
    Forall whole_rec pend /\ cached (cl_bufs s) p pend.

Section replies.
Context `{World, ChangelogRec}.

(** The frames of a request: the reader's name, then the RPC. *)
Definition request (mdt rpc : bytes) : list (bytes * bool) := [(mdt, true); (rpc, false)].

(** The records of a bucket can be sent and told apart. *)
Definition packable bk : Prop :=
  Forall rec_ok (bk_recs bk) /\ Z.of_nat (length (bk_recs bk)) < 2 ^ 31.

(** What a reader answers to a DEQUEUE: records, or a code. *)
Inductive reader_reply : bytes -> Prop :=
| reply_records bk :
    bk_recs bk <> [] -> Forall rec_ok (bk_recs bk) ->
    Z.of_nat (length (bk_recs bk)) < 2 ^ 31 -> reader_reply (enqueue_packet bk)
| reply_error rc :
    rc < 0 \/ rc = 1 -> in_s 32 rc -> reader_reply (enc_ack (ack_message rc)).

(** Every DEQUEUE that the client sends from [s] on is answered by a reader,
    in one frame. *)
Definition dequeue_answered (s : client) (mdt : bytes) : Prop :=
  forall t, frames_of t = request mdt (enc_dequeue cl_dequeue_pack) ->
    reader_reply (fst (w_frame (cl_trace s ++ t))) /\ snd (w_frame (cl_trace s ++ t)) = false.
End replies.

(** ** Records in a packet *)

Section packets.
Context `{ChangelogRecLaws}.

Lemma rec_fields r rest :
  sizeof_changelog_rec <= Z.of_nat (length r) -> rec_len (r ++ rest) = rec_len r.
Proof. intros Hl. unfold rec_len. by destruct (crl_header r rest Hl) as (_ & -> & ->). Qed.

Lemma wire_rec_whole r : rec_ok r -> whole_rec (wire_rec r).
Proof.
  intros Hr. unfold whole_rec. rewrite (length_wire_rec _ Hr).
  assert (Hs : sizeof_changelog_rec <= rec_len r).
  { unfold rec_len. pose proof (crl_size r). pose proof (crl_namelen r). lia. }
  split; [done|]. rewrite <- (take_drop (Z.to_nat (rec_len r)) r) at 2. fold (wire_rec r).
  symmetry. apply rec_fields. by rewrite (length_wire_rec _ Hr).
Qed.

Lemma wire_recs_whole rs : Forall rec_ok rs -> Forall whole_rec (wire_rec <$> rs).
Proof. intros Hr. apply Forall_fmap. eapply Forall_impl; [exact Hr|]. apply wire_rec_whole. Qed.

Lemma whole_rec_ne r : whole_rec r -> (0 < length r)%nat.
Proof. intros [Hs _]. pose proof crl_sizeof. lia. Qed.

(** The first record of a packet ends where the next one starts. *)
Lemma changelog_rec_next_spec pre r post (s : client) :
  whole_rec r ->
  wp (changelog_rec_next (pre ++ r ++ post) (Z.of_nat (length pre)))
     (fun z s' => s' = s /\ z = Z.of_nat (length (pre ++ r))) safe s.
Proof.
  intros [Hs Hl]. unfold changelog_rec_next, rec_at. wp_steps.
  rewrite (proj2 (Z.ltb_ge _ _)), (proj2 (Z.ltb_ge _ _)) by (rewrite ?length_app; lia).
  cbn [orb]. wp_steps. rewrite Nat2Z.id, drop_app_length. split; [done|].
  destruct (crl_header r post Hs) as (_ & Hn & _). rewrite crl_name, Hn, length_app.
  pose proof (rec_fields r post Hs) as Hf. unfold rec_len in *. lia.
Qed.

(** The loop over the packet points the cache to its records. *)
Lemma cache_records_spec buf todo i pre post slots (s : client) :
  Forall whole_rec todo -> (i + length todo <= length slots)%nat ->
  wp (cache_records (length todo) i buf (pre ++ concat todo ++ post)
        (Z.of_nat (length pre)) (Some slots))
     (fun c s' => s' = s /\ exists slots', c = Some slots' /\ length slots' = length slots /\
        (forall j, (j < i)%nat -> slots' !! j = slots !! j) /\
        forall j r, todo !! j = Some r -> exists off,
          slots' !! (i + j)%nat = Some (Some (mkRec buf off)) /\
          points (pre ++ concat todo ++ post) off r) safe s.
Proof.
  intros Hw. revert i pre slots. induction Hw as [|r todo Hr Hw IH]; intros i pre slots Hi;
    cbn [length cache_records]; wp_steps.
  { split; [done|]. exists slots. by split_and!. }
  cbn [length] in Hi. rewrite (proj2 (Z.leb_gt _ _)) by lia. cbn [concat]. wp_steps.
  rewrite <- (app_assoc r). eapply wp_mono; [by apply changelog_rec_next_spec| |done].
  intros z ? [-> ->]. rewrite (app_assoc pre r).
  eapply wp_mono; [apply (IH (S i)); rewrite length_insert; lia| |done].
  intros c ? (-> & slots' & -> & Hlen & Hlow & Hat). rewrite length_insert in Hlen.
  split; [done|]. exists slots'. split_and!; [done|done| |].
  - intros j Hj. rewrite Hlow by lia. by apply list_lookup_insert_ne; lia.
  - intros [|j] x Hx; cbn in Hx.
    + simplify_eq. exists (Z.of_nat (length pre)). rewrite Nat.add_0_r, Hlow by lia.
      rewrite list_lookup_insert_eq by lia. split; [done|].
      exists pre, (concat todo ++ post). by rewrite <- app_assoc.
    + destruct (Hat _ _ Hx) as (off & Ho & Hp). exists off.
      by replace (i + S j)%nat with (S i + j)%nat by lia.
Qed.
End packets.

(** ** Requests and replies *)

Section exchange.
Context `{World}.
Implicit Types (s : client) (p : px_zmq_data).

Lemma px_rpc_send_spec p msg s :
  wp (px_rpc_send p msg) (fun rc s' => exists t, extends s t s' /\ rx (cl_trace s) t = [] /\
        sent (request (rec_mdt p) msg) rc t) safe s.
Proof.
  unfold px_rpc_send, send_part. wp_steps. rewrite wp_ext.
  set (c1 := ZmqSend _ true). set (z1 := w_rc _ c1).
  destruct (Z.ltb_spec z1 0) as [Hz|Hz]; wp_steps.
  { exists [(c1, z1)]. split_and!; [done|done|]. right. split; [done|].
    split; [by exists (s_trace s), (rec_mdt p), true|]. exists 0%nat.
    split; [cbn; lia|]. cbn. by rewrite (proj2 (Z.leb_gt 0 z1)). }
  rewrite wp_ext. set (c2 := ZmqSend _ false). set (z2 := w_rc _ c2).
  assert (He : extends s [(c1, z1); (c2, z2)] (logged c2 (logged c1 s))).
  { apply (extends_trans s (logged c1 s) _ [_] [_]); by apply extends_logged. }
  destruct (Z.ltb_spec z2 0) as [Hz2|Hz2]; wp_steps; exists [(c1, z1); (c2, z2)];
    (split_and!; [exact He|done|]).
  - right. split; [done|]. split; [by eexists _, msg, false|]. exists 1%nat. split; [cbn; lia|]. cbn.
    by rewrite (proj2 (Z.leb_le 0 z1)), (proj2 (Z.leb_gt 0 z2)).
  - left. split; [done|]. cbn.
    by rewrite (proj2 (Z.leb_le 0 z1)), (proj2 (Z.leb_le 0 z2)).
Qed.

(** [fm] is a frame that the socket may hand out after the request [fs]. *)
Definition heard s (fs : list (bytes * bool)) (fm : bytes * bool) : Prop :=
  exists t, frames_of t = fs /\ w_frame (cl_trace s ++ t) = fm.

(** A reply to the request [fs] does not fit the room of the receive, or is
    shorter than a code. *)
Definition too_long s (fs : list (bytes * bool)) (room : Z) : Prop :=
  exists t, frames_of t = fs /\ room < Z.of_nat (length (fst (w_frame (cl_trace s ++ t)))).
Definition too_short s (fs : list (bytes * bool)) : Prop :=
  exists t, frames_of t = fs /\ Z.of_nat (length (fst (w_frame (cl_trace s ++ t)))) < sizeof_ack.

Lemma too_long_after s t s1 room :
  extends s t s1 -> too_long s1 [] room -> too_long s (frames_of t) room.
Proof.
  intros He (t1 & Hf & Hl). exists (t ++ t1). split; [by rewrite frames_of_app, Hf, app_nil_r|].
  rewrite app_assoc. by rewrite <- (extends_trace _ _ _ He : cl_trace s1 = cl_trace s ++ t).
Qed.

(** A reply of one frame. *)
Lemma cl_rep_recv_spec n room s :
  (forall z, snd (w_frame (cl_trace s ++ [(ZmqRecv room, z)])) = false) ->
  wp (cl_rep_recv (S n) room []) (fun r s' => exists t, extends s t s' /\ frames_of t = [] /\
       (fst r < 0 /\ (call_fails \/ too_long s [] room) \/ exists z pk, w_frame (cl_trace s ++ [(ZmqRecv room, z)]) = (pk, false) /\
          rx (cl_trace s) t = [(pk, false)] /\ r = (Z.of_nat (length pk), pk))) safe s.
Proof.
  intros Hone. cbn [cl_rep_recv length]. rewrite Z.sub_0_r. wp_steps. rewrite wp_ext.
  set (c := ZmqRecv room). set (z := w_rc _ c). specialize (Hone z).
  destruct (Z.ltb_spec z 0) as [Hz|Hz]; wp_steps.
  { exists [(c, z)]. split_and!; [done|done|left; split; [done|left; eauto]]. }
  change (w_frame (s_trace (logged c s))) with (w_frame (cl_trace s ++ [(c, z)])).
  fold c in Hone. destruct (w_frame (cl_trace s ++ [(c, z)])) as [pk more] eqn:Hpk.
  cbn in Hone. subst more. cbn [fst snd].
  destruct (Z.ltb_spec room (Z.of_nat (length pk))); wp_steps.
  { exists [(c, z)]. split_and!; [done|done|left]. split; [done|right].
    exists [(c, z)]. by rewrite Hpk. }
  rewrite wp_ext. set (z2 := w_rc _ ZmqGetRcvMore).
  assert (He : extends s [(c, z); (ZmqGetRcvMore, z2)] (logged ZmqGetRcvMore (logged c s))).
  { apply (extends_trans s (logged c s) _ [_] [_]); by apply extends_logged. }
  destruct (Z.ltb_spec z2 0); wp_steps; eexists; (split_and!; [exact He|done|]);
    [left; split; [done|left; eauto]|].
  right. exists z, pk. split_and!; [done| |done]. cbn. subst c.
  by rewrite Hpk, (proj2 (Z.ltb_ge z 0)).
Qed.
End exchange.

Section decode.
Context `{ChangelogRecLaws}.

Lemma ack_fields rc :
  in_s 32 rc -> get_op_type (enc_ack (ack_message rc)) = op_code RPC_OP_ACK /\
  get_retcode (enc_ack (ack_message rc)) = rc.
Proof. intros Hr. split; [by apply get_op_type_hdr|by apply ack_message_retcode]. Qed.

Lemma length_ack rc : Z.of_nat (length (enc_ack (ack_message rc))) = sizeof_ack.
Proof. apply length_enc_ack. Qed.

(** A packet as its header and the records. *)
Lemma enqueue_packet_eq bk :
  exists pre, Z.of_nat (length pre) = sizeof_enqueue /\
    enqueue_packet bk = pre ++ concat (wire_rec <$> bk_recs bk) ++ [].
Proof.
  unfold enqueue_packet, enc_enqueue. cbn [enq_hdr enq_count enq_records].
  eexists (enc_hdr _ ++ le_enc 4 _). split.
  - by rewrite length_app, length_enc_hdr, length_le_enc.
  - by rewrite app_nil_r, <- app_assoc.
Qed.

Lemma enqueue_fields bk :
  Z.of_nat (length (bk_recs bk)) < 2 ^ 31 ->
  get_op_type (enqueue_packet bk) = op_code RPC_OP_ENQUEUE /\
  get_count (enqueue_packet bk) = Z.of_nat (length (bk_recs bk)).
Proof.
  intros Hl. split; [by apply get_op_type_hdr|]. unfold enqueue_packet.
  rewrite get_count_enqueue; [done|]. cbn. unfold in_u. lia.
Qed.

Lemma length_enqueue bk :
  bk_recs bk <> [] -> Forall rec_ok (bk_recs bk) ->
  sizeof_enqueue + sizeof_changelog_rec <= Z.of_nat (length (enqueue_packet bk)).
Proof.
  intros Hne Hok. destruct (enqueue_packet_eq bk) as (pre & Hpre & ->).
  destruct (bk_recs bk) as [|r rs]; [done|]. apply Forall_cons in Hok as [Hr _].
  destruct (wire_rec_whole _ Hr) as [Hs _]. rewrite fmap_cons. cbn [concat].
  rewrite !length_app. lia.
Qed.
End decode.
