(* ===== verification/PxProps.v ===== *)
(** * The properties of the proxy client *)
From S2P Require Import Prelude World Idl LcapNet RpcUtils PxClient ReaderInv ReaderSpec PxSpec Demo.
Local Open Scope Z_scope.

(** The cache was lost to a failed [realloc]. *)
Definition cache_lost (s : client) : Prop :=
  exists p, ccc_ptr s = Some p /\ records p = None.

Section ops.
Context `{World, ChangelogRecLaws}.
Implicit Types (s : client) (p : px_zmq_data).

Lemma pzd_cache_grow_spec p n s :
  0 <= n ->
  wp (pzd_cache_grow p n) (fun rp s' => exists t, extends s t s' /\ frames_of t = [] /\
       rx (cl_trace s) t = [] /\
       (fst rp = - ENOMEM /\ snd rp = set_records None p /\ out_of_memory \/
        fst rp = 0 /\ exists slots, snd rp = set_records (Some slots) p /\
          Z.of_nat (length slots) = n)) safe s.
Proof.
  intros Hn. unfold pzd_cache_grow. wp_steps. rewrite wp_alloc.
  destruct (0 <=? _) eqn:Ha; wp_steps; eexists; (split_and!; [by apply extends_logged|done|done|]).
  - right. split; [done|]. eexists. split; [done|].
    rewrite length_app, length_take, length_replicate. lia.
  - left. split_and!; [done|done|by eapply alloc_failed].
Qed.

(** The reply holds the records of [bk]: they are what the cache points to, in
    order, unless the cache cannot grow. *)
Lemma px_enqueue_reply_spec p bk buf slots s :
  bk_recs bk <> [] -> Forall rec_ok (bk_recs bk) -> Z.of_nat (length (bk_recs bk)) < 2 ^ 31 ->
  records p = Some slots -> rec_cnt p <= Z.of_nat (length slots) ->
  wp (px_enqueue_reply p buf (enqueue_packet bk)) (fun rp s' => exists t, extends s t s' /\
       frames_of t = [] /\ rx (cl_trace s) t = [] /\
       (fst rp = - ENOMEM /\ snd rp = set_records None p /\ out_of_memory \/
        fst rp = 0 /\ rec_mdt (snd rp) = rec_mdt p /\ rec_buff (snd rp) = Some buf /\
        forall bufs, bufs !! buf = Some (enqueue_packet bk) ->
          cached bufs (snd rp) (wire_rec <$> bk_recs bk))) safe s.
Proof.
  intros Hne Hok Hlen Hslots Hcnt. unfold px_enqueue_reply.
  rewrite (proj2 (Z.ltb_ge _ _)) by by apply length_enqueue.
  destruct (enqueue_fields bk Hlen) as [_ ->]. set (n := Z.of_nat (length (bk_recs bk))) in *.
  wp_steps.
  assert (Hgo : forall p' slots' s1 t1, extends s t1 s1 -> frames_of t1 = [] ->
    rx (cl_trace s) t1 = [] ->
    (exists r, p' = set_records r p) -> records p' = Some slots' -> n <= Z.of_nat (length slots') ->
    wp (cache ← cache_records (Z.to_nat n) 0 buf (enqueue_packet bk) sizeof_enqueue (records p');
        mret (0, set_buff (Some buf) (set_window 0 n (set_records cache p'))))
      (fun rp s' => exists t, extends s t s' /\ frames_of t = [] /\ rx (cl_trace s) t = [] /\
       (fst rp = - ENOMEM /\ snd rp = set_records None p /\ out_of_memory \/
        fst rp = 0 /\ rec_mdt (snd rp) = rec_mdt p /\ rec_buff (snd rp) = Some buf /\
        forall bufs, bufs !! buf = Some (enqueue_packet bk) ->
          cached bufs (snd rp) (wire_rec <$> bk_recs bk))) safe s1).
  { intros p' slots' s1 t1 He Hf Hx [r0 ->] Hr Hn. wp_steps. rewrite Hr.
    destruct (enqueue_packet_eq bk) as (pre & Hpre & Heq). rewrite Heq, <- Hpre.
    subst n. rewrite Nat2Z.id, <- (length_fmap wire_rec (bk_recs bk)).
    eapply wp_mono; [apply cache_records_spec|cbn beta|done].
    { by apply wire_recs_whole. }
    { rewrite length_fmap. lia. }
    intros c ? (-> & sl & -> & Hl & _ & Hat). wp_steps. exists t1. split_and!; [done..|].
    right. split_and!; [done|done|done|]. intros bufs Hb. exists sl. cbn.
    rewrite length_fmap in *. split_and!; [done|lia|lia|lia|]. right.
    exists buf, (pre ++ concat (wire_rec <$> bk_recs bk) ++ []). split_and!; [done|done|].
    intros i r Hi. apply (Hat i r Hi). }
  destruct (Z.ltb_spec (rec_cnt p) n).
  - eapply wp_mono; [apply pzd_cache_grow_spec; lia|cbn beta|done].
    intros [rc p'] s1 (t1 & He & Hf & Hx & Hc). cbn [fst snd] in *.
    destruct Hc as [(-> & -> & Hoom)|(-> & sl & -> & Hl)].
    + cbn [Z.ltb]. wp_steps. exists t1. split_and!; [done..|]. by left.
    + cbn [Z.ltb]. eapply Hgo; [done..|by eexists|done|lia].
  - wp_steps. cbn [fst snd]. change (0 <? 0) with false. cbn iota.
    eapply (Hgo p slots s []); [apply extends_refl|done|done| |done|lia].
    exists (records p). by destruct p.
Qed.

(** The answer of a reader, as the client takes it. *)
Lemma px_reply_spec p pk buf slots s :
  reader_reply pk -> records p = Some slots -> rec_cnt p <= Z.of_nat (length slots) ->
  wp (px_reply p buf pk) (fun rp s' => exists t, extends s t s' /\ frames_of t = [] /\
       rx (cl_trace s) t = [] /\
       ((exists rc, pk = enc_ack (ack_message rc) /\ rc <> 0 /\ rp = (rc, p)) \/
        (exists bk, pk = enqueue_packet bk /\ bk_recs bk <> [] /\ packable bk /\
         (fst rp = - ENOMEM /\ snd rp = set_records None p /\ out_of_memory \/
          fst rp = 0 /\ rec_mdt (snd rp) = rec_mdt p /\ rec_buff (snd rp) = Some buf /\
          forall bufs, bufs !! buf = Some pk ->
            cached bufs (snd rp) (wire_rec <$> bk_recs bk))))) safe s.
Proof.
  intros Hr Hs Hc. unfold px_reply. destruct Hr as [bk Hne Hok Hl|rc Hrc Hin].
  - pose proof (length_enqueue _ Hne Hok) as Hlen. pose proof crl_sizeof.
    rewrite (proj2 (Z.ltb_ge _ _)) by (unfold sizeof_hdr, sizeof_enqueue in *; lia).
    destruct (enqueue_fields bk Hl) as [-> _]. rewrite op_of_code_code.
    eapply wp_mono; [by apply (px_enqueue_reply_spec p bk buf slots)|cbn beta|done].
    intros rp s' (t & He & Hf & Hx & Hcase). exists t. split_and!; [done..|]. right.
    by exists bk.
  - destruct (ack_fields rc Hin) as [-> Hret]. rewrite length_ack, op_of_code_code.
    cbn [Z.ltb Z.compare sizeof_ack sizeof_hdr Pos.compare Pos.compare_cont]. wp_steps.
    rewrite Hret. exists []. split_and!; [apply extends_refl|done|done|]. left.
    exists rc. split_and!; [done|lia|done].
Qed.
End ops.

(** ** DEQUEUE *)

Section dequeue.
Context `{World, ChangelogRecLaws}.
Implicit Types (s : client) (p : px_zmq_data).

(** [pk] is what the server sends after the DEQUEUE. *)
Definition server_sends s (mdt : bytes) (pk : bytes) : Prop :=
  heard s (request mdt (enc_dequeue cl_dequeue_pack)) (pk, false).

(** The outcome of a DEQUEUE: the records or the code of the reply, or the
    error of a call; the last case is a failed [realloc]. *)
Inductive dequeued s (mdt : bytes) : Z -> client -> Prop :=
| dequeued_records bk t s' :
    cl_trace s' = cl_trace s ++ t -> frames_of t = request mdt (enc_dequeue cl_dequeue_pack) ->
    rx (cl_trace s) t = [(enqueue_packet bk, false)] -> bk_recs bk <> [] -> packable bk ->
    server_sends s mdt (enqueue_packet bk) ->
    client_holds s' mdt (wire_rec <$> bk_recs bk) -> dequeued s mdt 0 s'
| dequeued_code rc t s' :
    cl_trace s' = cl_trace s ++ t -> frames_of t = request mdt (enc_dequeue cl_dequeue_pack) ->
    rx (cl_trace s) t = [(enc_ack (ack_message rc), false)] -> rc <> 0 ->
    server_sends s mdt (enc_ack (ack_message rc)) ->
    client_holds s' mdt [] -> dequeued s mdt rc s'
| dequeued_error rc t s' :
    cl_trace s' = cl_trace s ++ t -> rc < 0 ->
    call_fails \/ too_long s (request mdt (enc_dequeue cl_dequeue_pack)) RECV_BUFFER_LENGTH ->
    client_holds s' mdt [] -> dequeued s mdt rc s'
| dequeued_lost t s' :
    cl_trace s' = cl_trace s ++ t -> out_of_memory -> cache_lost s' -> dequeued s mdt (- ENOMEM) s'.

Lemma client_holds_extends s t s' mdt pend :
  extends s t s' -> client_holds s mdt pend -> client_holds s' mdt pend.
Proof. by intros ->. Qed.

(** Nothing is pending: what the rest of the state must satisfy. *)
Lemma holds_none s mdt p slots :
  ccc_ptr s = Some p -> rec_mdt p = mdt -> live s p -> records p = Some slots ->
  0 <= rec_nxt p -> rec_cnt p = rec_nxt p -> rec_cnt p <= Z.of_nat (length slots) ->
  client_holds s mdt [].
Proof.
  intros. exists p. split_and!; [done..|by apply Forall_nil_2|]. exists slots.
  split_and!; [done|done|cbn; lia|done|by left].
Qed.

(** A receive buffer is a new location. *)
Definition with_buffer (data : bytes) s : client :=
  mkCl (ccc_ptr s) (<[cl_next s := data]> (cl_bufs s)) (Pos.succ (cl_next s)) (cl_trace s).

Lemma live_with_buffer data s p :
  live s p -> live (with_buffer data s) p /\
  live (with_buffer data s) (set_buff (Some (cl_next s)) p).
Proof.
  intros [Hlt Hb]. unfold live, with_buffer. cbn.
  assert (Hn : forall b, is_Some (<[cl_next s:=data]> (cl_bufs s) !! b) ->
    (b < Pos.succ (cl_next s))%positive).
  { intros b [x Hx]. apply lookup_insert_Some in Hx as [[<- _]|[_ Hx]]; [lia|].
    specialize (Hlt b ltac:(eauto)). lia. }
  split; (split; [done|]).
  - intros b Hp. destruct (Hb b Hp) as [x Hx]. destruct (decide (cl_next s = b)) as [<-|Hne].
    + rewrite lookup_insert_eq. eauto.
    + rewrite lookup_insert_ne by done. eauto.
  - intros b [= <-]. rewrite lookup_insert_eq. eauto.
Qed.

(** The buffer of a reply that is not kept is freed again. *)
Lemma live_freed data s p : live s p ->
  live (set_bufs (delete (cl_next s)) (with_buffer data s)) p.
Proof.
  intros [Hlt Hb]. split; cbn.
  - intros b [x Hx]. apply lookup_delete_Some in Hx as [Hne Hx].
    rewrite lookup_insert_ne in Hx by done. specialize (Hlt b ltac:(eauto)). lia.
  - intros b Hp. destruct (Hb b Hp) as [x Hx]. specialize (Hlt b ltac:(eauto)).
    rewrite lookup_delete_ne by lia. rewrite lookup_insert_ne by lia. eauto.
Qed.

(** After the reply: the structure is stored and a useless buffer freed. *)
Definition finish_reply (buf : positive) (rp : Z * px_zmq_data) : M client Z :=
  store_pzd (snd rp);;
  (if negb (fst rp =? 0) then free_buf (Some buf) else mret tt);;
  mret (fst rp).

Lemma finish_failed s s0 t data p rc (Q : Z -> client -> Prop) :
  extends (with_buffer data s0) t s -> rc <> 0 ->
  Q rc (set_bufs (delete (cl_next s0)) (set_ptr (Some p) s)) ->
  wp (finish_reply (cl_next s0) (rc, p)) Q safe s.
Proof.
  intros -> Hrc HQ. unfold finish_reply, store_pzd, free_buf. cbn [fst snd]. wp_steps.
  rewrite (proj2 (Z.eqb_neq _ _)) by done. cbn [negb]. wp_steps. cbn [compose].
  cbn. rewrite lookup_insert_eq. exact HQ.
Qed.

Lemma finish_ok buf p s (Q : Z -> client -> Prop) :
  Q 0 (set_ptr (Some p) s) -> wp (finish_reply buf (0, p)) Q safe s.
Proof. done. Qed.

(** The client [s] after a DEQUEUE for which nothing is pending. *)
Definition asked s (mdt : bytes) p slots t s3 : Prop :=
  extends s t s3 /\ frames_of t = request mdt (enc_dequeue cl_dequeue_pack) /\
  ccc_ptr s = Some p /\ rec_mdt p = mdt /\ live s p /\ records p = Some slots /\
  0 <= rec_nxt p /\ rec_cnt p = rec_nxt p /\ rec_cnt p <= Z.of_nat (length slots).

(** A reply that is not kept leaves everything as it was. *)
Lemma asked_keeps s mdt p slots t s3 data t4 s4 :
  asked s mdt p slots t s3 -> extends (with_buffer data s3) t4 s4 ->
  client_holds (set_bufs (delete (cl_next s3)) (set_ptr (Some p) s4)) mdt [].
Proof.
  intros (-> & _ & Hp & Hm & Hl & Hs & Hn & Hc & Hle) ->.
  apply (holds_none _ _ p slots); [done|done|by apply live_freed|done..].
Qed.

(** The reply, once it is in its buffer. *)
Lemma dequeue_reply_spec s mdt p slots t s3 pk :
  asked s mdt p slots t s3 -> rx (cl_trace s) t = [(pk, false)] -> reader_reply pk ->
  server_sends s mdt pk ->
  wp (rp ← px_reply p (cl_next s3) pk; finish_reply (cl_next s3) rp) (dequeued s mdt) safe
     (with_buffer pk s3).
Proof.
  intros Hask Hrx Hgood Hsrv. pose proof Hask as (He & Hf & Hp & Hm & Hl & Hsl & _ & _ & Hle).
  assert (Hl3 : live s3 p) by by rewrite He.
  pose proof (live_with_buffer pk _ _ Hl3) as [_ Hlb].
  assert (Htr : cl_trace s3 = cl_trace s ++ t) by apply (extends_trace _ _ _ He).
  wp_steps. eapply wp_mono; [apply (px_reply_spec p pk (cl_next s3) slots _ Hgood Hsl Hle)|cbn beta|done].
  intros rp s4 (t4 & He4 & Hf4 & Hx4 & Hcase).
  assert (Htr4 : cl_trace s4 = cl_trace s ++ t ++ t4).
  { rewrite (extends_trace _ _ _ He4 : cl_trace s4 = _). cbn. by rewrite Htr, <- app_assoc. }
  assert (Hf' : frames_of (t ++ t4) = request mdt (enc_dequeue cl_dequeue_pack)).
  { by rewrite frames_of_app, Hf, Hf4. }
  assert (Hrx' : rx (cl_trace s) (t ++ t4) = [(pk, false)]).
  { rewrite rx_app, Hrx, <- Htr. cbn in Hx4. by rewrite Hx4. }
  destruct Hcase as [(rc & -> & Hrc & ->)|(bk & -> & Hne & Hok & Hcase)].
  - eapply finish_failed; [exact He4|done|].
    eapply dequeued_code; [exact Htr4|exact Hf'|exact Hrx'|done|done|by eapply asked_keeps].
  - destruct rp as [rc p']. cbn [fst snd] in Hcase.
    destruct Hcase as [(-> & -> & Hoom)|(-> & Hm' & Hb & Hc)].
    + eapply finish_failed; [exact He4|done|].
      eapply dequeued_lost; [exact Htr4|done|]. by exists (set_records None p).
    + apply (finish_ok (cl_next s3)). eapply dequeued_records; [exact Htr4|exact Hf'|exact Hrx'|done|done|done|].
      exists p'. split_and!; [done|congruence| |apply wire_recs_whole, Hok|].
      * rewrite He4. split; [apply Hlb|]. intros b Hb'. apply Hlb. by rewrite Hb' in Hb.
      * apply Hc. rewrite He4. apply lookup_insert_eq.
Qed.

(** The reply of a DEQUEUE, from its request on. *)
Lemma dequeue_answer s mdt t s2 z :
  dequeue_answered s mdt -> frames_of t = request mdt (enc_dequeue cl_dequeue_pack) ->
  cl_trace s2 = cl_trace s ++ t ->
  let fm := w_frame (cl_trace s2 ++ [(ZmqRecv RECV_BUFFER_LENGTH, z)]) in
  reader_reply (fst fm) /\ snd fm = false.
Proof.
  intros Hans Hf -> fm. subst fm. rewrite <- app_assoc. apply Hans.
  by rewrite frames_of_app, Hf, app_nil_r.
Qed.

Lemma px_dequeue_records_spec n s mdt :
  client_holds s mdt [] -> dequeue_answered s mdt ->
  wp (px_dequeue_records (S n)) (dequeued s mdt) safe s.
Proof.
  intros Hs Hans. pose proof Hs as (p & Hp & Hmdt & Hlive & _ & slots & Hsl & Hn0 & Hcnt & Hle & _).
  cbn [length] in Hcnt. rewrite Z.add_0_r in Hcnt.
  unfold px_dequeue_records, load_pzd. wp_steps. rewrite Hp. wp_steps.
  eapply wp_mono; [apply px_rpc_send_spec|cbn beta|done].
  intros rc s1 (t1 & He1 & Hx1 & Hsent). rewrite Hmdt in Hsent.
  destruct Hsent as [[-> Hf1]|(Hneg & Hrf & _)].
  2: { rewrite (proj2 (Z.ltb_lt _ _)) by done. wp_steps.
       eapply dequeued_error; [by apply (extends_trace _ _ _ He1)|done|left; auto|by eapply client_holds_extends]. }
  cbn [Z.ltb Z.compare]. wp_steps. rewrite wp_alloc.
  set (a := Alloc _). set (z := w_rc _ a).
  assert (He2 : extends s (t1 ++ [(a, z)]) (logged a s1)).
  { eapply extends_trans; [exact He1|apply extends_logged]. }
  destruct (0 <=? z) eqn:Hz; cbn [negb]; wp_steps.
  2: { eapply dequeued_error; [by apply (extends_trace _ _ _ He2)|done| |by eapply client_holds_extends].
       left. apply memory_fails. by eapply alloc_failed. }
  set (s2 := logged a s1) in *. cbn beta.
  pose proof (extends_trace _ _ _ He2 : cl_trace s2 = cl_trace s ++ _) as Htr2.
  assert (Hf2 : frames_of (t1 ++ [(a, z)]) = request mdt (enc_dequeue cl_dequeue_pack)).
  { by rewrite frames_of_app, Hf1. }
  pose proof (fun z => dequeue_answer s mdt _ s2 z Hans Hf2 Htr2) as Hans2.
  eapply wp_mono; [apply cl_rep_recv_spec; apply Hans2|cbn beta|done].
  intros [rc data] s3 (t3 & He3 & Hf3 & Hr). cbn [fst snd] in *. wp_steps.
  fold (finish_reply (cl_next s2)).
  assert (cl_next s2 = cl_next s3) as -> by by rewrite He3.
  fold (with_buffer data s3).
  assert (Hask : asked s mdt p slots ((t1 ++ [(a, z)]) ++ t3) s3).
  { split_and!; [by eapply extends_trans|by rewrite frames_of_app, Hf2, Hf3|done..]. }
  destruct Hr as [[Hneg Hwhy]|(z3 & pk & Hpk & Hx3 & [= -> ->])].
  - rewrite (proj2 (Z.ltb_lt _ _)) by done. wp_steps.
    apply (finish_failed _ _ [] data); [apply extends_refl|lia|].
    eapply dequeued_error; [apply (extends_trace _ _ _ (proj1 Hask))|done| |].
    { destruct Hwhy as [|Hlong]; [by left|right]. rewrite <- Hf2. by eapply too_long_after. }
    eapply (asked_keeps _ _ _ _ _ _ data []); [exact Hask|apply extends_refl].
  - rewrite (proj2 (Z.ltb_ge _ _)), <- wp_bind by lia.
    eapply dequeue_reply_spec; [exact Hask| | |].
    + by rewrite rx_app, (rx_app _ t1), Hx1, <- Hx3, Htr2.
    + pose proof (proj1 (Hans2 z3)) as Hgood. by rewrite Hpk in Hgood.
    + exists ((t1 ++ [(a, z)]) ++ [(ZmqRecv RECV_BUFFER_LENGTH, z3)]).
      by rewrite frames_of_app, Hf2, app_nil_r, app_assoc, <- Htr2.
Qed.
End dequeue.

(** ** The records that the application gets *)

Section deliver.
Context `{World, ChangelogRecLaws}.
Implicit Types (s : client) (p : px_zmq_data).

(** What the application finds behind a pointer that it was given. *)
Definition reads s (x : rec_ptr) (r : bytes) : Prop :=
  exists rest, read_record x s = Ok (r ++ rest, s).

Lemma points_read s b pk off r :
  cl_bufs s !! b = Some pk -> points pk off r -> whole_rec r -> reads s (mkRec b off) r.
Proof.
  intros Hb (pre & post & -> & ->) [Hs _]. exists post. apply wp_eq.
  unfold read_record, rec_at. wp_steps. cbn [compose rp_buf rp_off]. rewrite Hb. wp_steps.
  rewrite (proj2 (Z.ltb_ge _ _)), (proj2 (Z.ltb_ge _ _)) by (rewrite ?length_app; lia).
  cbn [orb]. wp_steps. by rewrite Nat2Z.id, drop_app_length.
Qed.

Lemma reads_bufs s s' x r : cl_bufs s = cl_bufs s' -> reads s x r -> reads s' x r.
Proof.
  intros Hb [rest Hr]. exists rest. revert Hr. rewrite !wp_eq. unfold read_record, rec_at.
  wp_steps. cbn [compose]. rewrite Hb. destruct (cl_bufs s' !! rp_buf x); [|done]. wp_steps.
  destruct (_ || _); [done|]. wp_steps. by intros [-> _].
Qed.

(** The end of [px_changelog_recv]: the next pending record. *)
Definition next_record : M client (Z * option rec_ptr) :=
  p ← load_pzd;
  slots ← unwrap NullDeref (records p);
  if rec_nxt p <? 0 then fail OutOfBounds
  else
    slot ← unwrap OutOfBounds (slots !! Z.to_nat (rec_nxt p));
    r ← unwrap UninitRead slot;
    store_pzd (set_window (rec_nxt p + 1) (rec_cnt p) p);;
    mret (0, Some r).

(** The state after a delivery: only the position in the cache has moved. *)
Definition advanced s (o : Z * option rec_ptr) (r : bytes) (s' : client) : Prop :=
  cl_bufs s' = cl_bufs s /\ cl_trace s' = cl_trace s /\ fst o = 0 /\
  exists x, snd o = Some x /\ reads s x r.

Lemma next_record_spec s mdt r rs :
  client_holds s mdt (r :: rs) ->
  wp next_record (fun o s' => advanced s o r s' /\ client_holds s' mdt rs) safe s.
Proof.
  intros (p & Hp & Hmdt & Hlive & Hw & slots & Hsl & Hn & Hc & Hle & Hat).
  destruct Hat as [?|(b & pk & Hb & Hpk & Hat)]; [done|]. cbn [length] in Hc.
  unfold next_record, load_pzd, store_pzd. wp_steps. rewrite Hp. wp_steps. rewrite Hsl. wp_steps.
  rewrite (proj2 (Z.ltb_ge _ _)) by done.
  destruct (Hat 0%nat r eq_refl) as (off & Ho & Hpt). rewrite Nat.add_0_r in Ho.
  wp_steps. rewrite Ho. wp_steps. apply Forall_cons in Hw as [Hr Hrs]. split.
  - split_and!; [done|done|done|]. exists (mkRec b off). split; [done|]. by eapply points_read.
  - exists (set_window (rec_nxt p + 1) (rec_cnt p) p). split_and!; [done|done|done|done|].
    exists slots. cbn. split_and!; [done|lia|lia|done|]. right. exists b, pk.
    split_and!; [done|done|]. intros i x Hi. destruct (Hat (S i) x Hi) as (off' & Ho' & Hp').
    exists off'. by replace (Z.to_nat (rec_nxt p + 1) + i)%nat with (Z.to_nat (rec_nxt p) + S i)%nat by lia.
Qed.

Lemma px_recv_pending_spec n s mdt r rs :
  client_holds s mdt (r :: rs) ->
  wp (px_changelog_recv n) (fun o s' => advanced s o r s' /\ client_holds s' mdt rs) safe s.
Proof.
  intros Hs. unfold px_changelog_recv. fold next_record. unfold load_pzd at 1. wp_steps.
  pose proof Hs as (p & -> & _ & _ & _ & slots & _ & _ & Hc & _). cbn [length] in Hc. wp_steps.
  rewrite (proj2 (Z.eqb_neq _ _)) by lia. wp_steps. by apply next_record_spec.
Qed.

(** Calls of [px_changelog_recv], one after the other. *)
Fixpoint recv_many (k n : nat) : M client (list (Z * option rec_ptr)) :=
  match k with
  | O => mret []
  | S k => o ← px_changelog_recv n; os ← recv_many k n; mret (o :: os)
  end.

(** C23: Successive receives deliver the pending records one by one, all of them
    and in order, each readable in full, without any call to the server. *)
Theorem px_delivers_in_order n s mdt pend :
  client_holds s mdt pend ->
  wp (recv_many (length pend) n) (fun os s' => client_holds s' mdt [] /\
       cl_trace s' = cl_trace s /\ cl_bufs s' = cl_bufs s /\
       Forall2 (fun o r => fst o = 0 /\ exists x, snd o = Some x /\ reads s' x r) os pend) safe s.
Proof.
  revert s. induction pend as [|r rs IH]; intros s Hs; cbn [length recv_many]; wp_steps;
    [by split_and!|].
  eapply wp_mono; [by apply px_recv_pending_spec|cbn beta|done].
  intros o s1 [(Hb & Ht & Ho & x & Hx & Hrd) Hs1]. wp_steps.
  eapply wp_mono; [apply (IH s1 Hs1)|cbn beta|done].
  intros os s2 (Hs2 & Ht2 & Hb2 & Hall). wp_steps. split_and!; [done|congruence|congruence|].
  constructor; [|done]. split; [done|]. exists x. split; [done|].
  by apply (reads_bufs s); [congruence|].
Qed.

(** A receive that finds nothing pending. *)
Lemma px_recv_refill_spec n s mdt :
  client_holds s mdt [] -> dequeue_answered s mdt ->
  wp (px_changelog_recv (S n)) (fun o s' => exists s1, dequeued s mdt (fst o) s1 /\
       (fst o <> 0 /\ snd o = None /\ s' = s1 \/
        exists bk r rs, wire_rec <$> bk_recs bk = r :: rs /\ packable bk /\
          server_sends s mdt (enqueue_packet bk) /\ client_holds s1 mdt (r :: rs) /\
          advanced s1 o r s' /\ client_holds s' mdt rs)) safe s.
Proof.
  intros Hs Hans. unfold px_changelog_recv. fold next_record. unfold load_pzd at 1. wp_steps.
  pose proof Hs as (p & -> & _ & _ & _ & slots & _ & _ & Hc & _). cbn [length] in Hc. wp_steps.
  rewrite (proj2 (Z.eqb_eq _ _)) by lia.
  eapply wp_mono; [by apply px_dequeue_records_spec|cbn beta|done].
  intros rc s1 Hd. destruct (Z.eqb_spec rc 0) as [->|Hrc]; cbn [negb].
  - assert (exists bk r rs, wire_rec <$> bk_recs bk = r :: rs /\ packable bk /\
      server_sends s mdt (enqueue_packet bk) /\ client_holds s1 mdt (r :: rs))
      as (bk & r & rs & Hbk & Hpack & Hsrv & Hs1).
    { inversion Hd as [bk t ? _ _ _ Hne Hpack Hsrv Hh| | |]; subst; try done.
      destruct (bk_recs bk) as [|r rs] eqn:Hbk; [done|].
      exists bk, (wire_rec r), (wire_rec <$> rs). by rewrite Hbk. }
    eapply wp_mono; [by apply next_record_spec|cbn beta|done].
    intros o s2 [Hadv Hs2]. exists s1. pose proof Hadv as (_ & _ & -> & _).
    split; [done|]. right. exists bk, r, rs. by split_and!.
  - wp_steps. exists s1. split; [done|by left].
Qed.

(** C16: When a client has delivered all its records, the next receive sends one
    DEQUEUE; it either starts to deliver exactly the records that were put
    into the packet it got, the first of them now, or returns, with nothing
    pending, the code of the reply, or an error because a call failed or the
    reply was too long. *)
Theorem px_recv_refills n s mdt :
  client_holds s mdt [] -> dequeue_answered s mdt ->
  wp (px_changelog_recv (S n)) (fun o s' => exists s1, dequeued s mdt (fst o) s1 /\
       (fst o <> 0 /\ snd o = None /\ s' = s1 \/
        exists bk r rs, wire_rec <$> bk_recs bk = r :: rs /\ packable bk /\
          server_sends s mdt (enqueue_packet bk) /\ client_holds s1 mdt (r :: rs) /\
          advanced s1 o r s' /\ client_holds s' mdt rs)) safe s.
Proof. apply px_recv_refill_spec. Qed.

Lemma px_free_spec s mdt pend :
  client_holds s mdt pend ->
  wp px_changelog_free (fun rc s' => rc = 0 /\ client_holds s' mdt pend /\ cl_trace s' = cl_trace s /\
       (pend <> [] -> s' = s) /\
       (pend = [] -> exists p, ccc_ptr s = Some p /\
          cl_bufs s' = match rec_buff p with Some b => delete b (cl_bufs s) | None => cl_bufs s end))
     safe s.
Proof.
  intros Hs. unfold px_changelog_free, load_pzd. wp_steps.
  pose proof Hs as (p & Hp & Hm & [Hlt Hb] & Hw & slots & Hsl & Hn & Hc & Hle & _).
  rewrite Hp. wp_steps. destruct (Z.eqb_spec (rec_nxt p) (rec_cnt p)) as [He|He].
  - assert (pend = []) as -> by (destruct pend; [done|cbn [length] in Hc; lia]).
    unfold free_buf, store_pzd.
    assert (Hend : forall bufs, (forall b, is_Some (bufs !! b) -> is_Some (cl_bufs s !! b)) ->
      client_holds (set_ptr (Some (set_buff None p)) (set_bufs (fun _ => bufs) s)) mdt []).
    { intros bufs Hsub. apply (holds_none _ _ (set_buff None p) slots); try done.
      split; [|done]. intros b Hx. by apply Hlt, Hsub. }
    destruct (rec_buff p) as [b|] eqn:Hbuf; wp_steps.
    + cbn [compose]. destruct (Hb b eq_refl) as [pk Hpk]. rewrite Hpk. wp_steps.
      split_and!; [done| |done|done|by exists p; rewrite Hbuf].
      apply (Hend (delete b (cl_bufs s))). intros b' [x Hx].
      apply lookup_delete_Some in Hx as [_ Hx]. eauto.
    + split_and!; [done| |done|done|by exists p; rewrite Hbuf]. by apply (Hend (cl_bufs s)).
  - wp_steps. split_and!; [done|done|done|done|]. intros ->. cbn in Hc. lia.
Qed.

(** Freeing a record never loses a pending one: nothing is freed while
    records are pending, and the packet is freed once, after the last. *)
Theorem px_free_keeps_pending s mdt pend :
  client_holds s mdt pend ->
  wp px_changelog_free (fun rc s' => rc = 0 /\ client_holds s' mdt pend /\ cl_trace s' = cl_trace s /\
       (pend <> [] -> s' = s) /\
       (pend = [] -> exists p, ccc_ptr s = Some p /\
          cl_bufs s' = match rec_buff p with Some b => delete b (cl_bufs s) | None => cl_bufs s end))
     safe s.
Proof. apply px_free_spec. Qed.

(** A packet without records is refused with -EINVAL instead of being taken
    as the end of the records. *)
Theorem px_empty_packet_refused p buf bk s :
  bk_recs bk = [] -> px_reply p buf (enqueue_packet bk) s = Ok ((- EINVAL, p), s).
Proof.
  intros Hbk. unfold px_reply. destruct (enqueue_fields bk ltac:(by rewrite Hbk)) as [-> _].
  rewrite op_of_code_code. destruct (enqueue_packet_eq bk) as (pre & Hpre & Heq).
  unfold px_enqueue_reply. rewrite Heq, Hbk. cbn [fmap list_fmap concat]. rewrite !app_nil_r, Hpre.
  pose proof crl_sizeof. rewrite (proj2 (Z.ltb_ge _ _)) by done.
  by rewrite (proj2 (Z.ltb_lt _ _)) by (unfold sizeof_enqueue; lia).
Qed.

(** After a cache that could not grow, the next packet that needs no larger
    cache is written through NULL. *)
Theorem px_lost_cache_deref p buf bk s :
  records p = None -> bk_recs bk <> [] -> Forall rec_ok (bk_recs bk) ->
  Z.of_nat (length (bk_recs bk)) < 2 ^ 31 -> Z.of_nat (length (bk_recs bk)) <= rec_cnt p ->
  px_reply p buf (enqueue_packet bk) s = Fault NullDeref.
Proof.
  intros Hr Hne Hok Hl Hc. unfold px_reply. destruct (enqueue_fields bk Hl) as [-> Hcount].
  rewrite op_of_code_code. pose proof (length_enqueue _ Hne Hok) as Hlen.
  pose proof crl_sizeof. unfold px_enqueue_reply. rewrite Hcount.
  rewrite (proj2 (Z.ltb_ge _ _)) by (unfold sizeof_hdr, sizeof_enqueue in *; lia).
  rewrite (proj2 (Z.ltb_ge _ _)), (proj2 (Z.ltb_ge _ _)) by done.
  destruct (bk_recs bk) as [|r rs]; [done|]. apply wp_fault. wp_steps. cbn [fst snd].
  change (0 <? 0) with false. cbn iota. wp_steps. rewrite Hr. cbn [length].
  rewrite Nat2Z.id. cbn [cache_records]. by wp_steps.
Qed.
End deliver.

(** ** The other operations *)

Section others.
Context `{World, ChangelogRecLaws}.
Implicit Types (s : client) (p : px_zmq_data).

(** Every call of [ZmqRecv] after the request [fs] gets a reply of one frame. *)
Definition one_frame_reply s (fs : list (bytes * bool)) : Prop :=
  forall t, frames_of t = fs -> snd (w_frame (cl_trace s ++ t)) = false.

(** The request went out and its reply is [pk]. *)
Definition exchanged s (fs : list (bytes * bool)) (pk : bytes) (t : trace) : Prop :=
  frames_of t = fs /\ rx (cl_trace s) t = [(pk, false)] /\ heard s fs (pk, false).

(** Why a request for which an ACK is expected fails on the client's side. *)
Definition ack_fails s (fs : list (bytes * bool)) : Prop :=
  call_fails \/ too_long s fs sizeof_ack \/ too_short s fs.

(** What was sent is a beginning of what was to be sent. *)
Lemma sent_prefix fs rc t : sent fs rc t -> frames_of t `prefix_of` fs.
Proof.
  intros [[_ ->]|(_ & _ & k & _ & ->)]; [done|]. exists (drop k fs). by rewrite take_drop.
Qed.

(** A request and its ACK: the code of the ACK, or an error. *)
Lemma px_rpc_ack_spec n s p rpc :
  one_frame_reply s (request (rec_mdt p) rpc) ->
  wp (rc ← px_rpc_send p rpc; if rc <? 0 then mret rc else cl_ack_retcode (S n))
     (fun rc s' => exists t, extends s t s' /\ frames_of t `prefix_of` request (rec_mdt p) rpc /\
        (rc < 0 /\ ack_fails s (request (rec_mdt p) rpc) \/
         exists pk, exchanged s (request (rec_mdt p) rpc) pk t /\
           sizeof_ack <= Z.of_nat (length pk) /\ rc = get_retcode pk)) safe s.
Proof.
  intros Hone. wp_steps. eapply wp_mono; [apply px_rpc_send_spec|cbn beta|done].
  intros rc s1 (t1 & He1 & Hx1 & Hsent).
  pose proof Hsent as [[-> Hf1]|(Hneg & Hrf & _)].
  2: { rewrite (proj2 (Z.ltb_lt _ _)) by done. wp_steps. exists t1. split; [done|].
       split; [by eapply sent_prefix|]. left. split; [done|left; auto]. }
  cbn [Z.ltb Z.compare]. unfold cl_ack_retcode. wp_steps.
  assert (Htr : cl_trace s1 = cl_trace s ++ t1) by apply (extends_trace _ _ _ He1).
  eapply wp_mono; [apply cl_rep_recv_spec|cbn beta|done].
  { intros z. rewrite Htr, <- app_assoc. apply Hone. by rewrite frames_of_app, Hf1, app_nil_r. }
  intros [rc data] s2 (t2 & He2 & Hf2 & Hr). cbn [fst snd] in *.
  assert (He : extends s (t1 ++ t2) s2) by by eapply extends_trans.
  assert (Hpre : frames_of (t1 ++ t2) `prefix_of` request (rec_mdt p) rpc).
  { by rewrite frames_of_app, Hf1, Hf2, app_nil_r. }
  destruct Hr as [[Hneg Hwhy]|(z & pk & Hpk & Hx2 & [= -> ->])].
  { rewrite (proj2 (Z.ltb_lt _ _)) by done. wp_steps. exists (t1 ++ t2).
    split_and!; [done|done|]. left. split; [done|]. destruct Hwhy as [|Hlong]; [by left|right; left].
    rewrite <- Hf1. by eapply too_long_after. }
  rewrite (proj2 (Z.ltb_ge _ _)) by lia.
  destruct (Z.ltb_spec (Z.of_nat (length pk)) sizeof_ack); wp_steps; exists (t1 ++ t2);
    (split_and!; [done|done|]).
  { left. split; [done|]. right. right. exists (t1 ++ [(ZmqRecv sizeof_ack, z)]). split.
    - by rewrite frames_of_app, Hf1.
    - by rewrite app_assoc, <- Htr, Hpk. }
  right. exists pk. split_and!; [|done|done]. split_and!.
  - by rewrite frames_of_app, Hf1, Hf2, app_nil_r.
  - rewrite rx_app, Hx1. cbn [app]. by rewrite <- Htr.
  - exists (t1 ++ [(ZmqRecv sizeof_ack, z)]). split; [by rewrite frames_of_app, Hf1|].
    by rewrite app_assoc, <- Htr.
Qed.

(** A CLEAR carries the reader's identifier, the device and the record number;
    the server reads the same back. *)
Lemma clear_fields mdt id endrec :
  no_nul id -> no_nul mdt -> in_s 64 endrec ->
  px_rpc_get_id (enc_clear (cl_clear_pack mdt id endrec)) = Some id /\
  px_rpc_get_mdtname (enc_clear (cl_clear_pack mdt id endrec)) = Some mdt /\
  get_clear_index (enc_clear (cl_clear_pack mdt id endrec)) = endrec /\
  get_op_type (enc_clear (cl_clear_pack mdt id endrec)) = op_code RPC_OP_CLEAR /\
  sizeof_clear <= Z.of_nat (length (enc_clear (cl_clear_pack mdt id endrec))).
Proof.
  intros Hid Hmdt Hend. split_and!.
  - by apply (px_rpc_get_id_clear _ id (mdt ++ [NUL])).
  - by apply (px_rpc_get_mdtname_clear _ id mdt []).
  - rewrite get_clear_index_clear; cbn [clear_index cl_clear_pack]; [by apply to_s_id|].
    by apply to_s_range.
  - by apply get_op_type_hdr.
  - rewrite length_enc_clear. lia.
Qed.

Lemma ack_fails_after s t s1 fs :
  extends s t s1 -> frames_of t = [] -> ack_fails s1 fs -> ack_fails s fs.
Proof.
  intros He Hf [|[(t1 & <- & Hl)|(t1 & <- & Hl)]]; [by left|right; left|right; right];
    exists (t ++ t1); rewrite frames_of_app, Hf, app_assoc;
    by rewrite <- (extends_trace _ _ _ He : cl_trace s1 = cl_trace s ++ t).
Qed.

Lemma px_clear_spec n s mdt pend mdtname id endrec :
  client_holds s mdt pend ->
  (pend = [] -> one_frame_reply s (request mdt (enc_clear (cl_clear_pack mdtname id endrec)))) ->
  wp (px_changelog_clear (S n) mdtname id endrec) (fun rc s' => exists t, extends s t s' /\
       client_holds s' mdt pend /\
       frames_of t `prefix_of` request mdt (enc_clear (cl_clear_pack mdtname id endrec)) /\
       (pend <> [] -> rc = 0 /\ t = []) /\
       (pend = [] -> rc < 0 /\ ack_fails s (request mdt (enc_clear (cl_clear_pack mdtname id endrec))) \/
        exists pk, rc = get_retcode pk /\
          exchanged s (request mdt (enc_clear (cl_clear_pack mdtname id endrec))) pk t)) safe s.
Proof.
  intros Hs Hone. unfold px_changelog_clear, load_pzd. wp_steps.
  pose proof Hs as (p & Hp & Hm & _ & _ & slots & _ & _ & Hc & _). rewrite Hp. wp_steps.
  destruct (Z.ltb_spec (rec_nxt p) (rec_cnt p)).
  { wp_steps. exists []. split_and!; [apply extends_refl|done|apply prefix_nil|done|]. intros ->. cbn in Hc. lia. }
  assert (pend = []) as -> by (destruct pend; [done|cbn [length] in Hc; lia]).
  wp_steps. rewrite wp_alloc. set (a := Alloc _). set (z := w_rc _ a).
  destruct (0 <=? z) eqn:Hz; cbn [negb]; wp_steps.
  2: { exists [(a, z)]. split_and!; [done| |apply prefix_nil|done|];
         [|intros _; left; split; [done|left; apply memory_fails; by eapply alloc_failed]].
       eapply client_holds_extends; [apply extends_logged|done]. }
  rewrite <- wp_bind.
  eapply wp_mono; [apply (px_rpc_ack_spec n (logged a s))|cbn beta|done].
  { rewrite Hm. intros t Ht. change (cl_trace (logged a s)) with (cl_trace s ++ [(a, z)]).
    rewrite <- app_assoc. by apply (Hone eq_refl). }
  intros rc s' (t & He & Hpre & Hcase). exists ([(a, z)] ++ t).
  assert (He' : extends s ([(a, z)] ++ t) s') by (eapply extends_trans; [apply extends_logged|done]).
  split_and!; [done|by eapply client_holds_extends|by rewrite <- Hm|done|]. intros _.
  rewrite Hm in Hcase. destruct Hcase as [[Hneg Hwhy]|(pk & (Hf & Hx & Hh) & _ & ->)].
  { left. split; [done|]. by eapply (ack_fails_after s [(a, z)]). }
  right.
  exists pk. split; [done|]. split_and!; [done|done|]. destruct Hh as (t1 & Hf1 & Hw1).
  exists ([(a, z)] ++ t1). split; [done|].
  change (cl_trace (logged a s)) with (cl_trace s ++ [(a, z)]) in Hw1. by rewrite <- app_assoc in Hw1.
Qed.

(** C32: A clear with records pending is accepted and does nothing; otherwise it
    sends one CLEAR in which the server reads the same reader, device and
    record number, and returns the code of the answer, unless a call fails
    or the answer is no code; the pending records are kept either way. *)
Theorem px_clear_acks n s mdt pend mdtname id endrec :
  client_holds s mdt pend -> no_nul id -> no_nul mdtname -> in_s 64 endrec ->
  one_frame_reply s (request mdt (enc_clear (cl_clear_pack mdtname id endrec))) ->
  wp (px_changelog_clear (S n) mdtname id endrec) (fun rc s' => exists t, extends s t s' /\
       client_holds s' mdt pend /\
       (pend <> [] -> rc = 0 /\ t = []) /\
       (pend = [] ->
          rc < 0 /\ ack_fails s (request mdt (enc_clear (cl_clear_pack mdtname id endrec))) \/
          exists body pk, exchanged s (request mdt body) pk t /\
          px_rpc_get_id body = Some id /\ px_rpc_get_mdtname body = Some mdtname /\
          get_clear_index body = endrec /\ get_op_type body = op_code RPC_OP_CLEAR /\
          rc = get_retcode pk)) safe s.
Proof.
  intros Hs Hid Hmdt Hend Hone. eapply wp_mono; [by apply px_clear_spec; [|intros _]|cbn beta|done].
  intros rc s' (t & He & Hh & _ & Hp & Hn). exists t. split_and!; [done|done|done|].
  intros Hnil. destruct (Hn Hnil) as [|(pk & -> & Hx)]; [by left|]. right.
  destruct (clear_fields mdtname id endrec Hid Hmdt Hend) as (? & ? & ? & ? & _).
  do 2 eexists. split; [exact Hx|]. by split_and!.
Qed.

(** A structure without a packet: destroying it makes two calls at most. *)
Lemma pzd_destroy_spec p s (Q : px_zmq_data -> client -> Prop) :
  live s p ->
  (forall t s', frames_of t = [] -> rx (cl_trace s) t = [] ->
     s' = set_bufs (fun m => match rec_buff p with Some b => delete b m | None => m end)
            (s_put (cl_trace s ++ t) s) -> Q pzd_zero s') ->
  wp (pzd_destroy p) Q safe s.
Proof.
  intros [_ Hb] HQ. unfold pzd_destroy. wp_steps. rewrite !wp_if.
  assert (Hend : forall t s1, extends s t s1 -> frames_of t = [] -> rx (cl_trace s) t = [] ->
    wp (free_buf (rec_buff p)) (fun _ => Q pzd_zero) safe s1).
  { intros t s1 -> Hf Hx. unfold free_buf. specialize (HQ t). destruct (rec_buff p) as [b|].
    - destruct (Hb b eq_refl) as [pk Hpk]. wp_steps. cbn [compose]. cbn. rewrite Hpk. by apply HQ.
    - wp_steps. apply HQ; [done|done|]. by destruct s. }
  destruct (zmq_srv p), (zmq_ctx p); wp_steps; rewrite ?wp_ext; wp_steps; rewrite ?wp_if;
    wp_steps; rewrite ?wp_ext; wp_steps.
  - eapply (Hend [_; _]); [eapply (extends_trans _ _ _ [_] [_]); apply extends_logged|done|done].
  - eapply (Hend [_]); [apply extends_logged|done|done].
  - eapply (Hend [_]); [apply extends_logged|done|done].
  - eapply (Hend []); [apply extends_refl|done|done].
Qed.

(** A structure that was set up for [mdt] and holds nothing. *)
Definition fresh_pzd (mdt : bytes) p : Prop :=
  rec_mdt p = mdt /\ rec_buff p = None /\ rec_nxt p = 0 /\ rec_cnt p = 0 /\
  exists slots, records p = Some slots.

Lemma pzd_init_spec mdt s :
  Z.of_nat (length mdt) < 128 -> (forall b, is_Some (cl_bufs s !! b) -> (b < cl_next s)%positive) ->
  wp (pzd_init pzd_zero mdt) (fun rp s' => exists t, extends s t s' /\ frames_of t = [] /\
       rx (cl_trace s) t = [] /\ (fst rp < 0 /\ call_fails \/ fst rp = 0 /\ fresh_pzd mdt (snd rp))) safe s.
Proof.
  intros Hl Hlt. unfold pzd_init. wp_steps.
  assert (Hbad : forall rc p t s1, extends s t s1 -> frames_of t = [] -> rx (cl_trace s) t = [] ->
    rc < 0 -> call_fails -> rec_buff p = None ->
    wp (if negb (rc =? 0) then q ← pzd_destroy p; mret (rc, q) else mret (rc, p))
      (fun rp s' => exists t, extends s t s' /\ frames_of t = [] /\
       rx (cl_trace s) t = [] /\ (fst rp < 0 /\ call_fails \/ fst rp = 0 /\ fresh_pzd mdt (snd rp))) safe s1).
  { intros rc p t s1 He Hf Hx Hrc Hcf Hp. rewrite (proj2 (Z.eqb_neq _ _)) by lia. cbn [negb]. wp_steps.
    apply pzd_destroy_spec.
    { rewrite He. split; [done|]. by rewrite Hp. }
    intros t2 s2 Hf2 Hx2 ->. wp_steps. exists (t ++ t2). split_and!.
    - rewrite Hp, He. unfold extends, set_bufs. cbn. by rewrite app_assoc.
    - by rewrite frames_of_app, Hf, Hf2.
    - rewrite rx_app, Hx. cbn [app]. by rewrite He in Hx2.
    - by left. }
  rewrite wp_ext. set (s1 := logged _ s). set (z1 := w_rc _ ZmqCtxNew).
  destruct (Z.ltb_spec z1 0).
  { wp_steps. cbn [fst snd]. apply (Hbad _ _ [(ZmqCtxNew, z1)]); try done; eauto. }
  wp_steps. rewrite wp_ext. set (s2 := logged _ s1). set (z2 := w_rc _ ZmqSocket).
  assert (He2 : extends s [(ZmqCtxNew, z1); (ZmqSocket, z2)] s2).
  { eapply (extends_trans _ _ _ [_] [_]); apply extends_logged. }
  destruct (Z.ltb_spec z2 0).
  { wp_steps. cbn [fst snd]. apply (Hbad _ _ [(ZmqCtxNew, z1); (ZmqSocket, z2)]); try done; eauto. }
  unfold pzd_fill. rewrite (proj2 (Z.ltb_ge _ _)), (proj2 (Z.ltb_ge _ _)) by lia.
  eapply wp_mono; [by apply pzd_cache_grow_spec|cbn beta|done].
  intros [rc p] s3 (t3 & He3 & Hf3 & Hx3 & Hc). cbn [fst snd] in *.
  assert (He : extends s ([(ZmqCtxNew, z1); (ZmqSocket, z2)] ++ t3) s3) by by eapply extends_trans.
  assert (Hx : rx (cl_trace s) ([(ZmqCtxNew, z1); (ZmqSocket, z2)] ++ t3) = []).
  { rewrite rx_app. cbn [rx app]. change (cl_trace s2) with (s_trace s2) in Hx3.
    by rewrite (extends_trace _ _ _ He2) in Hx3. }
  destruct Hc as [(-> & -> & Hoom)|(-> & slots & -> & _)].
  - eapply (Hbad _ _ _ _ He); auto. done.
  - change (negb (0 =? 0)) with false. cbn iota. wp_steps. eexists. split; [exact He|].
    split_and!; [done|exact Hx|]. right. split; [done|]. split_and!; [done..|by eexists].
Qed.

(** What the server reads in a START. *)
Lemma start_fields flags mdt startrec :
  no_nul mdt -> Z.of_nat (length mdt) < 128 ->
  let body := enc_register (cl_start_pack flags mdt startrec) in
  cstr (get_reg_mdtname body) = Some mdt /\ get_start body = u64 startrec /\
  get_op_type body = op_code RPC_OP_START /\ Z.of_nat (length body) = sizeof_register.
Proof.
  intros Hm Hl body.
  assert (Hlen : length (reg_mdtname (cl_start_pack flags mdt startrec)) = 128%nat).
  { cbn [reg_mdtname cl_start_pack]. rewrite length_take, length_app, length_replicate. lia. }
  subst body. split_and!.
  - rewrite get_mdtname_register by done. cbn [reg_mdtname cl_start_pack].
    rewrite take_app_ge, take_replicate by lia.
    replace (min (128 - length mdt) 128)%nat with (S (127 - length mdt)) by lia.
    by apply cstr_app.
  - rewrite get_start_register; [done|]. by apply to_u_range.
  - by apply get_op_type_hdr.
  - by apply length_enc_register.
Qed.

Lemma px_register_spec p flags mdt startrec s :
  wp (px_register p flags mdt startrec) (fun re s' => exists t, extends s t s' /\
    (fst re < 0 /\ snd re = true /\
       (call_fails \/ too_short s (request (rec_mdt p) (enc_register (cl_start_pack flags mdt startrec)))) \/
     snd re = false /\ exists pk more,
       frames_of t = request (rec_mdt p) (enc_register (cl_start_pack flags mdt startrec)) /\
       heard s (frames_of t) (pk, more) /\
       rx (cl_trace s) t = [(pk, more)] /\ fst re = get_retcode pk)) safe s.
Proof.
  unfold px_register. wp_steps. rewrite wp_ext. set (c := ZmqConnect _). set (z := w_rc _ c).
  destruct (Z.ltb_spec z 0); wp_steps.
  { exists [(c, z)]. split; [done|]. left. split_and!; [done|done|left; eauto]. }
  eapply wp_mono; [apply px_rpc_send_spec|cbn beta|done].
  intros rc s1 (t1 & He1 & Hx1 & Hsent).
  assert (He : extends s ([(c, z)] ++ t1) s1) by (eapply extends_trans; [apply extends_logged|done]).
  destruct Hsent as [[-> Hf1]|(Hneg & Hrf & _)].
  2: { rewrite (proj2 (Z.ltb_lt _ _)) by done. wp_steps. eexists. split; [exact He|].
       left. split_and!; [done|done|left; auto]. }
  cbn [Z.ltb Z.compare]. wp_steps. rewrite wp_ext. set (c2 := ZmqRecv _). set (z2 := w_rc _ c2).
  assert (He2 : extends s (([(c, z)] ++ t1) ++ [(c2, z2)]) (logged c2 s1)).
  { eapply extends_trans; [exact He|apply extends_logged]. }
  destruct (Z.ltb_spec z2 0) as [Hz|Hz]; wp_steps.
  { eexists. split; [exact He2|]. left. split_and!; [done|done|left; eauto]. }
  set (fm := w_frame _). destruct (Z.ltb_spec (Z.of_nat (length (fst fm))) sizeof_ack); wp_steps;
    (eexists; split; [exact He2|]).
  { left. split_and!; [done|done|right]. exists (([(c, z)] ++ t1) ++ [(c2, z2)]). split.
    - by rewrite !frames_of_app, Hf1.
    - pose proof (extends_trace _ _ _ He2 : cl_trace (logged c2 s1) = cl_trace s ++ _) as Htr.
      by rewrite <- Htr. }
  right. split; [done|]. exists (fst fm), (snd fm).
  split_and!; [| | |done].
  - by rewrite !frames_of_app, Hf1.
  - exists (([(c, z)] ++ t1) ++ [(c2, z2)]). split; [done|].
    pose proof (extends_trace _ _ _ He2 : cl_trace (logged c2 s1) = cl_trace s ++ _) as Htr.
    rewrite <- Htr. by apply surjective_pairing.
  - rewrite rx_app. assert (rx (cl_trace s) ([(c, z)] ++ t1) = []) as ->.
    { rewrite rx_app. exact Hx1. }
    cbn [app rx]. subst c2. rewrite (proj2 (Z.ltb_ge _ _)) by done. rewrite app_nil_r.
    f_equal. rewrite <- surjective_pairing. subst fm. f_equal.
    subst z2. change (s_trace (logged ?c s1)) with (s_trace s1 ++ [(c, w_rc (s_trace s1) c)]).
    f_equal. symmetry. apply (extends_trace _ _ _ He).
Qed.

Lemma px_start_spec flags mdt startrec s :
  Z.of_nat (length mdt) < 128 ->
  (forall b, is_Some (cl_bufs s !! b) -> (b < cl_next s)%positive) ->
  wp (px_changelog_start flags mdt startrec) (fun rc s' => exists t,
       cl_trace s' = cl_trace s ++ t /\ cl_bufs s' = cl_bufs s /\
       (rc < 0 /\ ccc_ptr s' = None /\
          (call_fails \/ too_short s (request mdt (enc_register (cl_start_pack flags mdt startrec)))) \/
        client_holds s' mdt [] /\ exists pk more,
          frames_of t = request mdt (enc_register (cl_start_pack flags mdt startrec)) /\
          heard s (frames_of t) (pk, more) /\ rx (cl_trace s) t = [(pk, more)] /\
          rc = get_retcode pk)) safe s.
Proof.
  intros Hl Hlt. unfold px_changelog_start. wp_steps. rewrite wp_alloc.
  set (a := Alloc _). set (z := w_rc _ a). destruct (0 <=? z) eqn:Hz; cbn [negb]; wp_steps.
  2: { exists [(a, z)]. split_and!; [done|done|]. left. split_and!; [done|done|].
       left. apply memory_fails. by eapply alloc_failed. }
  eapply wp_mono; [apply pzd_init_spec; [done|exact Hlt]|cbn beta|done].
  intros [rc p] s1 (t1 & He1 & Hf1 & Hx1 & Hcase). cbn [fst snd] in *.
  assert (He : extends s ([(a, z)] ++ t1) s1) by (eapply extends_trans; [apply extends_logged|done]).
  destruct Hcase as [[Hrc Hcf]|(-> & Hpm & Hpb & Hpn & Hpc & slots & Hsl)].
  { rewrite (proj2 (Z.eqb_neq _ _)) by lia. cbn [negb]. wp_steps. exists ([(a, z)] ++ t1).
    rewrite He. split_and!; [done|done|]. left. by split_and!; [..|left]. }
  change (negb (0 =? 0)) with false. cbn iota. unfold store_pzd. wp_steps.
  eapply wp_mono; [apply px_register_spec|cbn beta|done].
  intros [rc jump] s2 (t2 & He2 & Hcase). cbn [fst snd] in *. rewrite Hpm in Hcase.
  set (t := ([(a, z)] ++ t1) ++ t2).
  assert (Htr : s2 = mkCl (Some p) (cl_bufs s) (cl_next s) (cl_trace s ++ t)).
  { rewrite He2, He. subst t. cbn -[app]. by rewrite !app_assoc. }
  destruct Hcase as [(Hrc & -> & Hwhy)|(-> & pk & more & Hf2 & Hh2 & Hx2 & ->)]; wp_steps.
  - apply pzd_destroy_spec; [rewrite Htr; split; [done|by rewrite Hpb]|].
    intros t3 s3 _ _ ->. wp_steps. exists (t ++ t3). rewrite Hpb, Htr. cbn -[app].
    split_and!; [by rewrite app_assoc|done|]. left. split_and!; [done|done|].
    destruct Hwhy as [|(t4 & Hf4 & Hl4)]; [by left|right]. exists (([(a, z)] ++ t1) ++ t4). split.
    + by rewrite !frames_of_app, Hf1, Hf4.
    + pose proof (extends_trace _ _ _ He : cl_trace s1 = cl_trace s ++ _) as Htr1.
      cbn [cl_trace set_ptr] in Hl4. by rewrite Htr1, <- app_assoc in Hl4.
  - exists t. rewrite Htr. split_and!; [done|done|]. right. split.
    { apply (holds_none _ _ p slots); try done; [|lia|lia|lia].
      split; [done|]. by rewrite Hpb. }
    assert (Hf : frames_of t = request mdt (enc_register (cl_start_pack flags mdt startrec))).
    { subst t. rewrite !frames_of_app, Hf1. exact Hf2. }
    do 2 eexists. split_and!; [done| | |done].
    + rewrite Hf, <- Hf2. destruct Hh2 as (t3 & Hf3 & Hw3). exists (([(a, z)] ++ t1) ++ t3). split.
      * by rewrite !frames_of_app, Hf1, Hf3.
      * pose proof (extends_trace _ _ _ He : cl_trace s1 = cl_trace s ++ _) as Htr1.
        cbn [cl_trace set_ptr] in Hw3. by rewrite Htr1, <- app_assoc in Hw3.
    + subst t. rewrite rx_app.
      assert (rx (cl_trace s) ([(a, z)] ++ t1) = []) as ->.
      { rewrite rx_app. exact Hx1. }
      rewrite app_nil_l. replace (cl_trace s ++ _) with (cl_trace s1); [done|].
      apply (extends_trace _ _ _ He).
Qed.

(** C33: For a device name of less than 128 characters, a start either fails
    with a negative code and leaves no context, because a call failed or the
    answer is too short for a code, or leaves a connected client without
    records, having sent one START in which the server reads the device and
    the first record number, and returns the code of the answer. *)
Theorem px_start_registers flags mdt startrec s :
  no_nul mdt -> Z.of_nat (length mdt) < 128 ->
  (forall b, is_Some (cl_bufs s !! b) -> (b < cl_next s)%positive) ->
  wp (px_changelog_start flags mdt startrec) (fun rc s' => exists t,
       cl_trace s' = cl_trace s ++ t /\ cl_bufs s' = cl_bufs s /\
       (rc < 0 /\ ccc_ptr s' = None /\
          (call_fails \/ too_short s (request mdt (enc_register (cl_start_pack flags mdt startrec)))) \/
        client_holds s' mdt [] /\ exists body pk more, frames_of t = request mdt body /\
          rx (cl_trace s) t = [(pk, more)] /\ rc = get_retcode pk /\
          cstr (get_reg_mdtname body) = Some mdt /\ get_start body = u64 startrec /\
          get_op_type body = op_code RPC_OP_START)) safe s.
Proof.
  intros Hm Hl Hlt. eapply wp_mono; [by apply px_start_spec|cbn beta|done].
  intros rc s' (t & Ht & Hb & Hcase). exists t. split_and!; [done|done|].
  destruct Hcase as [Hcase|(Hh & pk & more & Hf & _ & Hx & Hrc)]; [by left|right].
  split; [done|]. destruct (start_fields flags mdt startrec Hm Hl) as (? & ? & ? & _).
  do 3 eexists. by split_and!.
Qed.

(** An end: refused, with everything kept, or done, with everything released. *)
Definition fini_request : bytes := enc_fini {| fini_hdr := client_hdr RPC_OP_FINI |}.

Definition finished s (mdt : bytes) (rc : Z) s' : Prop :=
  ccc_ptr s' = Some pzd_zero /\
  (exists p, ccc_ptr s = Some p /\
     cl_bufs s' = match rec_buff p with Some b => delete b (cl_bufs s) | None => cl_bufs s end) /\
  exists t pk, cl_trace s' = cl_trace s ++ t /\ frames_of t = request mdt fini_request /\
    heard s (request mdt fini_request) (pk, false) /\ rc = get_retcode pk.

Lemma px_fini_spec n s mdt pend :
  client_holds s mdt pend -> one_frame_reply s (request mdt fini_request) ->
  wp (px_changelog_fini (S n)) (fun rc s' =>
       (rc < 0 /\ (exists t, extends s t s' /\ client_holds s' mdt pend) /\
          (ack_fails s (request mdt fini_request) \/
           exists pk t, exchanged s (request mdt fini_request) pk t /\ rc = get_retcode pk)) \/
       (0 <= rc /\ finished s mdt rc s'))
     safe s.
Proof.
  intros Hs Hone. unfold px_changelog_fini, load_pzd. wp_steps.
  pose proof Hs as (p & Hp & Hm & Hlive & _). rewrite Hp. wp_steps. rewrite <- Hm in Hone |- *.
  pose proof (px_rpc_ack_spec n s p _ Hone) as Hack. revert Hack. wp_steps. intros Hack.
  eapply wp_mono; [exact Hack|cbn beta|done]. rewrite Hm.
  assert (Hkeep : forall t s1, extends s t s1 -> exists t', extends s t' s1 /\ client_holds s1 mdt pend).
  { intros t s1 He. exists t. split; [done|by eapply client_holds_extends]. }
  assert (Hwhy : forall rc t, ack_fails s (request mdt fini_request) /\ rc < 0 \/
    (exists pk, exchanged s (request mdt fini_request) pk t /\ rc = get_retcode pk) ->
    ack_fails s (request mdt fini_request) \/
    exists pk t, exchanged s (request mdt fini_request) pk t /\ rc = get_retcode pk).
  { intros rc t [[? _]|(pk & ? & ?)]; [by left|right; by exists pk, t]. }
  intros rc s1 Hrc. destruct (Z.ltb_spec rc 0); revert Hrc; wp_steps.
  { intros (t & He & _ & Hcase). left. split_and!; [done|by eapply Hkeep|]. apply (Hwhy rc t).
    destruct Hcase as [[? ?]|(pk & ? & _ & ?)]; [by left|right; by exists pk]. }
  intros Hrc. eapply wp_mono; [exact Hrc|cbn beta|done]. intros rc2 s2 (t & He & _ & Hcase).
  destruct (Z.ltb_spec rc2 0); wp_steps.
  { left. split_and!; [done|by eapply Hkeep|]. apply (Hwhy rc2 t).
    destruct Hcase as [[? ?]|(pk & ? & _ & ?)]; [by left|right; by exists pk]. }
  apply pzd_destroy_spec; [by rewrite He|]. intros t3 s3 Hf3 _ ->. unfold store_pzd. wp_steps.
  right. split; [done|]. split; [done|]. split.
  - exists p. split; [done|]. rewrite He. cbn. by destruct (rec_buff p).
  - destruct Hcase as [[? _]|(pk & (Hf & _ & Hh) & _ & ->)]; [lia|]. exists (t ++ t3), pk.
    split_and!; [|by rewrite frames_of_app, Hf, Hf3|done|done].
    rewrite He. cbn. by rewrite app_assoc.
Qed.

(** An end that the server accepts releases the sockets, the packet and the
    cache; otherwise the client keeps all its records. *)
Theorem px_fini_releases n s mdt pend :
  client_holds s mdt pend -> one_frame_reply s (request mdt fini_request) ->
  wp (px_changelog_fini (S n)) (fun rc s' =>
       (rc < 0 /\ (exists t, extends s t s' /\ client_holds s' mdt pend) /\
          (ack_fails s (request mdt fini_request) \/
           exists pk t, exchanged s (request mdt fini_request) pk t /\ rc = get_retcode pk)) \/
       (0 <= rc /\ finished s mdt rc s'))
     safe s.
Proof. apply px_fini_spec. Qed.

(** A device name of 128 characters passes the length check, and its
    terminating NUL is written past the end of the field. *)
Theorem px_start_name_overflow flags mdt startrec s :
  (forall t c, 0 <= w_rc t c) -> length mdt = 128%nat ->
  px_changelog_start flags mdt startrec s = Fault OutOfBounds.
Proof.
  intros Hup Hl. apply wp_fault. unfold px_changelog_start. wp_steps. rewrite wp_alloc.
  rewrite (proj2 (Z.leb_le _ _)) by apply Hup. cbn [negb]. unfold pzd_init. wp_steps.
  rewrite wp_ext, (proj2 (Z.ltb_ge _ _)) by apply Hup. wp_steps.
  rewrite wp_ext, (proj2 (Z.ltb_ge _ _)) by apply Hup. unfold pzd_fill. rewrite Hl. by wp_steps.
Qed.
End others.

(** ** The theorems at a concrete client *)

(** A server that answers every request with [pk]. *)
Definition demo_server (pk : bytes) : World := {|
  w_rc _ _ := 0; w_clock _ := (0, 0); w_rec _ := []; w_frame _ := (pk, false);
  w_revents _ := 0 |}.

Definition demo_mdt : bytes := of_str "mdt0".
Definition demo_packet : bytes := enqueue_packet (demo_bucket 0 0).
Definition demo_ack : bytes := enc_ack (ack_message 0).

(** A connected client without records, and one that holds a record. *)
Definition demo_pzd : px_zmq_data :=
  mkPzd true true None (Some (replicate 256 None)) 0 0 demo_mdt.
Definition demo_idle : client := mkCl (Some demo_pzd) ∅ 1 [].
Definition demo_full : client :=
  mkCl (Some (mkPzd true true (Some 1%positive) (Some [Some (mkRec 1 12)]) 0 1 demo_mdt))
    {[1%positive := demo_packet]} 2 [].

Lemma demo_idle_holds : client_holds demo_idle demo_mdt [].
Proof.
  apply (holds_none _ _ demo_pzd (replicate 256 None)); try done.
  split; [|done]. cbn. intros b [x Hx]. by rewrite lookup_empty in Hx.
Qed.

Lemma demo_full_holds : client_holds demo_full demo_mdt [demo_rec 0].
Proof.
  eexists. split_and!; [done|done| | |].
  - split; cbn.
    + intros b [x [<- _]%lookup_singleton_Some]. done.
    + intros b [= <-]. rewrite lookup_singleton_eq. eauto.
  - apply Forall_singleton. done.
  - eexists. split_and!; [done|done|done|done|]. right. exists 1%positive, demo_packet.
    split_and!; [done|apply lookup_singleton_eq|]. intros [|i] r Hr; [|done].
    cbn in Hr. simplify_eq. exists 12. split; [done|]. exists (take 12 demo_packet), [].
    by vm_compute.
Qed.

Lemma demo_answered : @dequeue_answered (demo_server demo_packet) demo_layout demo_idle demo_mdt.
Proof.
  intros t _. split; [|done]. apply reply_records; [done| |done].
  apply Forall_singleton. apply demo_rec_ok.
Qed.

Lemma px_delivers_in_order_witness :
  @wp _ _ (@recv_many (demo_server demo_packet) demo_layout 1 1)
    (fun os s' => client_holds s' demo_mdt [] /\ cl_trace s' = [] /\
       cl_bufs s' = cl_bufs demo_full /\
       Forall2 (fun o r => fst o = 0 /\ exists x, snd o = Some x /\ reads s' x r) os [demo_rec 0])
    safe demo_full.
Proof.
  exact (@px_delivers_in_order (demo_server demo_packet) demo_layout 1
    demo_full demo_mdt [demo_rec 0] demo_full_holds).
Defined.

Lemma px_recv_refills_witness :
  @wp _ _ (@px_changelog_recv (demo_server demo_packet) demo_layout 1)
    (fun o s' => exists s1, @dequeued (demo_server demo_packet) demo_layout demo_idle demo_mdt (fst o) s1 /\
       (fst o <> 0 /\ snd o = None /\ s' = s1 \/
        exists bk r rs, wire_rec <$> bk_recs bk = r :: rs /\ packable bk /\
          @server_sends (demo_server demo_packet) demo_idle demo_mdt (enqueue_packet bk) /\
          client_holds s1 demo_mdt (r :: rs) /\ advanced s1 o r s' /\
          client_holds s' demo_mdt rs)) safe demo_idle.
Proof.
  exact (@px_recv_refills (demo_server demo_packet) demo_layout demo_layout_laws 0
    demo_idle demo_mdt demo_idle_holds demo_answered).
Defined.

Lemma px_free_keeps_pending_witness :
  wp px_changelog_free (fun rc s' => rc = 0 /\ client_holds s' demo_mdt [demo_rec 0] /\
       cl_trace s' = cl_trace demo_full /\
       ([demo_rec 0] <> [] -> s' = demo_full) /\
       ([demo_rec 0] = [] -> exists p, ccc_ptr demo_full = Some p /\
          cl_bufs s' = match rec_buff p with
                       | Some b => delete b (cl_bufs demo_full)
                       | None => cl_bufs demo_full
                       end)) safe demo_full.
Proof. apply px_free_keeps_pending. exact demo_full_holds. Defined.

Lemma px_empty_packet_refused_witness :
  @px_reply (demo_server demo_packet) demo_layout demo_pzd 1 (enqueue_packet (new_bucket 0 2)) demo_idle
    = Ok ((- EINVAL, demo_pzd), demo_idle).
Proof.
  apply (@px_empty_packet_refused (demo_server demo_packet) demo_layout demo_layout_laws).
  reflexivity.
Defined.

(** The client after a first record and a packet for which the cache could not
    grow. *)
Definition demo_lost : px_zmq_data := mkPzd true true (Some 1%positive) None 1 1 demo_mdt.

Lemma px_lost_cache_deref_witness :
  @px_reply (demo_server demo_packet) demo_layout demo_lost 2 demo_packet demo_idle = Fault NullDeref.
Proof.
  apply (@px_lost_cache_deref (demo_server demo_packet) demo_layout demo_layout_laws);
    [reflexivity|discriminate| |reflexivity|].
  - apply Forall_singleton. apply demo_rec_ok.
  - vm_compute. discriminate.
Defined.

Lemma px_clear_acks_witness :
  @wp _ _ (@px_changelog_clear (demo_server demo_ack) 1 demo_mdt (of_str "cl1") 7)
    (fun rc s' => exists t, extends demo_idle t s' /\ client_holds s' demo_mdt [] /\
       (@nil bytes <> [] -> rc = 0 /\ t = []) /\
       (@nil bytes = [] ->
          rc < 0 /\ @ack_fails (demo_server demo_ack) demo_idle
            (request demo_mdt (enc_clear (cl_clear_pack demo_mdt (of_str "cl1") 7))) \/
          exists body pk, @exchanged (demo_server demo_ack) demo_idle (request demo_mdt body) pk t /\
          px_rpc_get_id body = Some (of_str "cl1") /\ px_rpc_get_mdtname body = Some demo_mdt /\
          get_clear_index body = 7 /\ get_op_type body = op_code RPC_OP_CLEAR /\
          rc = get_retcode pk)) safe demo_idle.
Proof.
  apply (@px_clear_acks (demo_server demo_ack) demo_layout); [exact demo_idle_holds| | | |].
  - apply (bool_decide_unpack _). vm_compute. exact I.
  - apply (bool_decide_unpack _). vm_compute. exact I.
  - apply (bool_decide_unpack _). vm_compute. exact I.
  - intros t _. reflexivity.
Defined.

Definition demo_new : client := mkCl None ∅ 1 [].

Lemma px_start_registers_witness :
  @wp _ _ (@px_changelog_start (demo_server demo_ack) 0 demo_mdt 0)
    (fun rc s' => exists t,
       cl_trace s' = [] ++ t /\ cl_bufs s' = ∅ /\
       (rc < 0 /\ ccc_ptr s' = None /\
          (@call_fails (demo_server demo_ack) \/ @too_short (demo_server demo_ack) demo_new
             (request demo_mdt (enc_register (cl_start_pack 0 demo_mdt 0)))) \/
        client_holds s' demo_mdt [] /\ exists body pk more, frames_of t = request demo_mdt body /\
          @rx (demo_server demo_ack) [] t = [(pk, more)] /\ rc = get_retcode pk /\
          cstr (get_reg_mdtname body) = Some demo_mdt /\ get_start body = u64 0 /\
          get_op_type body = op_code RPC_OP_START)) safe demo_new.
Proof.
  apply (@px_start_registers (demo_server demo_ack) demo_layout 0 demo_mdt 0 demo_new).
  - apply (bool_decide_unpack _). vm_compute. exact I.
  - reflexivity.
  - cbn. intros b [x Hx]. by rewrite lookup_empty in Hx.
Defined.

Lemma px_fini_releases_witness :
  @wp _ _ (@px_changelog_fini (demo_server demo_ack) 1) (fun rc s' =>
       (rc < 0 /\ (exists t, extends demo_full t s' /\ client_holds s' demo_mdt [demo_rec 0]) /\
          (@ack_fails (demo_server demo_ack) demo_full (request demo_mdt fini_request) \/
           exists pk t, @exchanged (demo_server demo_ack) demo_full (request demo_mdt fini_request) pk t /\
             rc = get_retcode pk)) \/
       (0 <= rc /\ @finished (demo_server demo_ack) demo_full demo_mdt rc s')) safe demo_full.
Proof.
  apply (@px_fini_releases (demo_server demo_ack) demo_layout); [exact demo_full_holds|].
  intros t _. reflexivity.
Defined.

Lemma px_start_name_overflow_witness :
  @px_changelog_start (demo_server demo_ack) 0 (replicate 128 x61) 0 demo_new = Fault OutOfBounds.
Proof.
  apply (@px_start_name_overflow (demo_server demo_ack)); [|reflexivity].
  intros t c. apply Z.le_refl.
Defined.
