(* ===== verification/ClientProps.v ===== *)
(** * The properties of the client library *)
From S2P Require Import Prelude World Idl LcapNet RpcUtils PxClient Client ReaderSpec PxSpec PxProps Demo.
Local Open Scope Z_scope.

Section props.
Context `{World, ChangelogRecLaws}.
Implicit Types (s : user).

Definition direct (flags : Z) : Prop := Z.land flags LCAP_CL_DIRECT <> 0.

(** The allocation of the context, and the START of a proxy client. *)
Definition ctx_call s : extcall * Z := (Alloc 16, w_rc (s_trace s) (Alloc 16)).
Definition start_frames (flags : Z) (mdt : bytes) (startrec : Z) : list (bytes * bool) :=
  request mdt (enc_register (cl_start_pack flags mdt startrec)).

(** The user after a start: without memory for the context, as before;
    connected to Lustre; not connected, because a call failed or the answer
    was no code; or connected to the proxy, with the code of its answer. *)
Inductive start_outcome (flags : Z) (mdt : bytes) (startrec : Z) s : Z -> user -> Prop :=
| start_no_context s' :
    snd (ctx_call s) < 0 -> extends s [ctx_call s] s' -> us_ctx s' = us_ctx s ->
    start_outcome flags mdt startrec s (- ENOMEM) s'
| start_direct rc s' :
    0 <= snd (ctx_call s) -> direct flags ->
    s_trace s' = s_trace s ++ [ctx_call s; (LlapiChangelogStart (flags_translate flags) mdt startrec, rc)] ->
    us_ctx s' = (if rc <? 0 then None else Some cl_ops_null) ->
    start_outcome flags mdt startrec s rc s'
| start_failed rc s' :
    0 <= snd (ctx_call s) -> ~ direct flags ->
    call_fails \/ too_short (us_cl s) (start_frames flags mdt startrec) ->
    rc < 0 -> us_ctx s' = None -> ccc_ptr (us_cl s') = None ->
    start_outcome flags mdt startrec s rc s'
| start_proxy t pk more s' :
    0 <= snd (ctx_call s) -> ~ direct flags ->
    s_trace s' = s_trace s ++ t -> frames_of t = start_frames flags mdt startrec ->
    rx (s_trace s) t = [(pk, more)] ->
    us_ctx s' = (if get_retcode pk <? 0 then None else Some cl_ops_proxy) ->
    client_holds (us_cl s') mdt [] ->
    start_outcome flags mdt startrec s (get_retcode pk) s'.

(** A context is left exactly by a code that is not negative. *)
Lemma start_outcome_ctx flags mdt startrec s rc s' :
  0 <= snd (ctx_call s) -> start_outcome flags mdt startrec s rc s' ->
  is_Some (us_ctx s') <-> 0 <= rc.
Proof.
  assert (Hif : forall z (o : lcap_cl_operations), is_Some (if z <? 0 then None else Some o) <-> 0 <= z).
  { intros z o. destruct (Z.ltb_spec z 0); split; [by intros []|lia|done|by eexists]. }
  intros Ha [| |? ? ? ? ? ? ->|]; [lia| | |].
  - by etransitivity; [|apply Hif]; match goal with H : us_ctx _ = _ |- _ => rewrite H end.
  - split; [by intros []|lia].
  - by etransitivity; [|apply Hif]; match goal with H : us_ctx _ = _ |- _ => rewrite H end.
Qed.

Lemma wp_in_client {A} (m : M client A) (Q : A -> user -> Prop) E s :
  wp (in_client m) Q E s <-> wp m (fun a c => Q a (mkUser (us_ctx s) c)) E (us_cl s).
Proof. exact (wp_zoom us_cl (fun c s => mkUser (us_ctx s) c) m Q E s). Qed.

(** C37: For a device name of less than 128 characters, a start of the client
    library without memory for the context returns -ENOMEM and leaves the
    pointer of the user as it was. Otherwise it leaves a context exactly
    when its code is not negative, made with the operations that the flags
    select. The direct client makes one call, with the translated flags, and
    returns its code. The proxy client either fails, because a call failed
    or the answer is no code, with its structure released; or it returns the
    code of the answer to its START, and its connected structure is left
    behind even if that is an error and there is no context that leads to
    it. *)
Theorem lcap_start_outcomes flags mdt startrec s :
  no_nul mdt -> Z.of_nat (length mdt) < 128 ->
  (forall b, is_Some (cl_bufs (us_cl s) !! b) -> (b < cl_next (us_cl s))%positive) ->
  wp (lcap_changelog_start flags mdt startrec) (fun rc s' =>
       start_outcome flags mdt startrec s rc s' /\
       (0 <= snd (ctx_call s) -> is_Some (us_ctx s') <-> 0 <= rc)) safe s.
Proof.
  intros Hm Hl Hlt.
  eapply (wp_mono _ (start_outcome flags mdt startrec s)); [|by eauto using start_outcome_ctx|done].
  unfold lcap_changelog_start. wp_steps. rewrite wp_alloc.
  destruct (Z.leb_spec 0 (w_rc (s_trace s) (Alloc 16))) as [Ha|Ha]; cbn [negb]; wp_steps;
    [|by apply start_no_context; [|apply extends_logged|]].
  rewrite wp_in_client. wp_steps.
  set (s1 := mkUser _ _). destruct (Z.eqb_spec (Z.land flags LCAP_CL_DIRECT) 0) as [Hd|Hd];
    cbn [cco_start].
  - rewrite wp_in_client.
    eapply wp_mono; [by apply (px_start_spec flags mdt startrec (us_cl s1))|cbn beta|done].
    intros rc c (t & Ht & _ & Hcase). unfold set_ctx. wp_steps.
    change (cl_trace (us_cl s1)) with (s_trace s ++ [ctx_call s]) in *.
    destruct Hcase as [(Hrc & Hp & Hwhy)|(Hh & pk & more & Hf & _ & Hx & ->)].
    + rewrite (proj2 (Z.ltb_lt _ _)) by done. apply start_failed; [done|by intros ?| |done..].
      destruct Hwhy as [|(t1 & Hf1 & Hl1)]; [by left|right].
      exists (ctx_call s :: t1). split; [done|]. by rewrite cons_middle, app_assoc.
    + apply (start_proxy _ _ _ _ (ctx_call s :: t) pk more); [done|by intros ?| |done| |done..].
      * by rewrite cons_middle, app_assoc.
      * change (ctx_call s :: t) with ([ctx_call s] ++ t). by rewrite rx_app.
  - unfold lu_changelog_start, set_ctx. rewrite wp_ext. wp_steps.
    eapply start_direct; [done|done| |done]. cbn. rewrite <- app_assoc. done.
Qed.

Lemma land_pow2 a k :
  0 <= k -> (Z.land a (2 ^ k) =? 0) = negb (Z.testbit a k).
Proof.
  intros Hk. assert (Z.land a (2 ^ k) = if Z.testbit a k then 2 ^ k else 0) as ->.
  { apply Z.bits_inj'. intros i Hi. rewrite Z.land_spec, Z.pow2_bits_eqb by done.
    destruct (Z.eqb_spec k i) as [<-|Hne].
    - rewrite andb_true_r. destruct (Z.testbit a k) eqn:Ha; [|by rewrite Z.bits_0].
      by rewrite Z.pow2_bits_true.
    - rewrite andb_false_r. destruct (Z.testbit a k); [|by rewrite Z.bits_0].
      by rewrite Z.pow2_bits_false. }
  destruct (Z.testbit a k); [|done]. apply Z.eqb_neq. pose proof (Z.pow_pos_nonneg 2 k). lia.
Qed.

(** The flags for Lustre are exactly the unions of the Lustre flags that
    correspond to the bits FOLLOW, BLOCK and JOBID of the flags of the
    library; other bits have no effect. *)
Theorem flags_translate_bits flags i :
  Z.testbit (flags_translate flags) i =
    (Z.testbit flags 0 && Z.testbit CHANGELOG_FLAG_FOLLOW i) ||
    (Z.testbit flags 1 && Z.testbit CHANGELOG_FLAG_BLOCK i) ||
    (Z.testbit flags 3 && Z.testbit CHANGELOG_FLAG_JOBID i).
Proof.
  unfold flags_translate. change LCAP_CL_FOLLOW with (2 ^ 0). change LCAP_CL_BLOCK with (2 ^ 1).
  change LCAP_CL_JOBID with (2 ^ 3). rewrite !land_pow2 by done.
  destruct (Z.testbit flags 0), (Z.testbit flags 1), (Z.testbit flags 3); cbn [negb andb];
    rewrite ?Z.lor_spec, ?Z.bits_0; by rewrite ?orb_false_r, ?orb_false_l.
Qed.

End props.

(** ** On a new user *)

Lemma lcap_start_outcomes_witness :
  @wp _ _ (@lcap_changelog_start (demo_server demo_ack) demo_layout LCAP_CL_JOBID demo_mdt 0)
    (fun rc s' =>
       @start_outcome (demo_server demo_ack) demo_layout LCAP_CL_JOBID demo_mdt 0
         (mkUser None demo_new) rc s' /\
       (0 <= snd (@ctx_call (demo_server demo_ack) (mkUser None demo_new)) ->
        is_Some (us_ctx s') <-> 0 <= rc))
    safe (mkUser None demo_new).
Proof.
  apply (@lcap_start_outcomes (demo_server demo_ack) demo_layout LCAP_CL_JOBID demo_mdt 0
    (mkUser None demo_new)).
  - apply (bool_decide_unpack _). vm_compute. exact I.
  - reflexivity.
  - cbn. intros b [x Hx]. by rewrite lookup_empty in Hx.
Defined.
