(* ===== verification/ToolProps.v ===== *)
(** * The properties of the command line client *)
From S2P Require Import Prelude World Idl LcapNet RpcUtils PxClient Client Tool ReaderInv ReaderSpec PxSpec PxProps ClientProps Demo.
Local Open Scope Z_scope.

Section props.
Context `{World, ChangelogRecLaws}.
Implicit Types (s : user).

(** The user of a proxy client that holds [pend]. *)
Definition user_holds s (mdt : bytes) (pend : list bytes) : Prop :=
  us_ctx s = Some cl_ops_proxy /\ client_holds (us_cl s) mdt pend.

(** The turns that take the records of a packet. *)
Fixpoint tool_turns (k frames : nat) (mdt : bytes) : M user (Z + option Z) :=
  match k with
  | O => mret (inr None)
  | S k =>
      r ← tool_turn frames mdt;
      match r with
      | inr None => tool_turns k frames mdt
      | _ => mret r
      end
  end.

(** The CLEAR of a record. *)
Definition clear_of (mdt r : bytes) : bytes :=
  enc_clear (cl_clear_pack mdt tool_reader (s64 (cr_index r))).

Lemma reads_index s x r :
  reads (us_cl s) x r -> whole_rec r ->
  wp (record_index (in_packet x)) (fun idx s' => s' = s /\ idx = s64 (cr_index r)) safe s.
Proof.
  intros [rest Hx] [Hs _]. cbn [record_index]. wp_steps. rewrite wp_in_client.
  unfold wp. rewrite Hx. cbn. destruct (crl_header r rest Hs) as (-> & _). by destruct s.
Qed.

(** Rules for the operations on a proxy context. *)
Lemma wp_proxy_clear n mdt id idx s (Q : Z -> user -> Prop) E :
  us_ctx s = Some cl_ops_proxy ->
  wp (px_changelog_clear n mdt id idx) (fun rc c => Q rc (mkUser (us_ctx s) c)) E (us_cl s) ->
  wp (lcap_changelog_clear n mdt id idx) Q E s.
Proof.
  intros Hc HQ. unfold lcap_changelog_clear, ctx_ops. wp_steps. rewrite Hc. wp_steps.
  by apply wp_in_client.
Qed.

Lemma wp_proxy_free s (Q : Z -> user -> Prop) E :
  us_ctx s = Some cl_ops_proxy ->
  wp px_changelog_free (fun rc c => Q rc (mkUser (us_ctx s) c)) E (us_cl s) ->
  wp lcap_changelog_free Q E s.
Proof.
  intros Hc HQ. unfold lcap_changelog_free, ctx_ops. wp_steps. rewrite Hc. wp_steps.
  by apply wp_in_client.
Qed.

Lemma wp_proxy_recv n s (Q : Z * option received_rec -> user -> Prop) E :
  us_ctx s = Some cl_ops_proxy ->
  wp (px_changelog_recv n)
    (fun o c => Q (fst o, in_packet <$> snd o) (mkUser (us_ctx s) c)) E (us_cl s) ->
  wp (lcap_changelog_recv n) Q E s.
Proof.
  intros Hc HQ. unfold lcap_changelog_recv, ctx_ops. wp_steps. rewrite Hc. wp_steps.
  cbn [cco_recv]. rewrite wp_bind, wp_in_client. exact HQ.
Qed.

(** The CLEAR of the record [r] went out after the state [s], at most, and the
    tool goes on if its answer is no error code, and exits with 1 otherwise. *)
Inductive acked_by s (mdt r : bytes) (t : trace) : option Z -> Prop :=
| ack_taken pk :
    exchanged (us_cl s) (request mdt (clear_of mdt r)) pk t -> 0 <= get_retcode pk ->
    acked_by s mdt r t None
| ack_refused pk :
    exchanged (us_cl s) (request mdt (clear_of mdt r)) pk t -> get_retcode pk < 0 ->
    acked_by s mdt r t (Some 1)
| ack_failed :
    ack_fails (us_cl s) (request mdt (clear_of mdt r)) ->
    frames_of t `prefix_of` request mdt (clear_of mdt r) -> acked_by s mdt r t (Some 1).

Lemma one_frame_same s s1 fs :
  s_trace s1 = s_trace s -> one_frame_reply (us_cl s) fs -> one_frame_reply (us_cl s1) fs.
Proof. intros Ht Hone t Hf. change (cl_trace (us_cl s1)) with (s_trace s1). rewrite Ht. by apply Hone. Qed.

(** What a turn does with a record: nothing but the last of a packet is
    acknowledged, and that one once. *)
Definition acked (s0 : user) (mdt r : bytes) (rs : list bytes) (o : option Z) (s' : user) : Prop :=
  (rs <> [] /\ o = None /\ s' = s0) \/
  (rs = [] /\ user_holds s' mdt [] /\
     exists t, s_trace s' = s_trace s0 ++ t /\ acked_by s0 mdt r t o).

Lemma tool_record_spec n s mdt x r rs :
  user_holds s mdt rs -> reads (us_cl s) x r -> whole_rec r ->
  (rs = [] -> one_frame_reply (us_cl s) (request mdt (clear_of mdt r))) ->
  wp (tool_record (S n) mdt (in_packet x)) (acked s mdt r rs) safe s.
Proof.
  intros [Hc Hh] Hx Hr Hone. unfold tool_record. wp_steps.
  eapply wp_mono; [by apply reads_index|cbn beta|done]. intros idx ? [-> ->]. wp_steps.
  apply wp_proxy_clear; [done|].
  eapply wp_mono; [by apply px_clear_spec|cbn beta|done].
  intros rc c (t & He & Hh' & Hpre & Hp & Hn). destruct (decide (rs = [])) as [->|Hne].
  - pose proof (extends_trace _ _ _ He : cl_trace c = cl_trace (us_cl s) ++ t) as Ht.
    destruct (Z.ltb_spec rc 0) as [Hrc|Hrc].
    { wp_steps. right. split; [done|]. split; [done|]. exists t. split; [exact Ht|].
      destruct (Hn eq_refl) as [[_ ?]|(pk & -> & ?)]; [by apply ack_failed|by eapply ack_refused]. }
    destruct (Hn eq_refl) as [[? _]|(pk & -> & Hex)]; [lia|]. wp_steps.
    apply wp_proxy_free; [done|].
    eapply wp_mono; [by apply px_free_spec|cbn beta|done]. intros rc2 c2 (-> & Hh2 & Htr & _).
    cbn [Z.ltb Z.compare]. wp_steps. right. split; [done|]. split; [done|]. exists t.
    split; [by etransitivity; [exact Htr|]|by eapply ack_taken].
  - destruct (Hp Hne) as [-> ->]. apply extends_nil in He as ->. cbn [Z.ltb Z.compare]. wp_steps.
    apply wp_proxy_free; [done|].
    eapply wp_mono; [by apply px_free_spec|cbn beta|done]. intros rc2 c2 (-> & _ & _ & Hsame & _).
    cbn [Z.ltb Z.compare]. wp_steps. left. rewrite (Hsame Hne). by destruct s.
Qed.

(** The receive of a turn, and what the turn makes of it. *)
Lemma tool_recv n s mdt r rs :
  user_holds s mdt (r :: rs) ->
  exists x s1, lcap_changelog_recv n s = Ok ((0, Some (in_packet x)), s1) /\
    user_holds s1 mdt rs /\ s_trace s1 = s_trace s /\ reads (us_cl s1) x r.
Proof.
  intros [Hc Hh].
  assert (Hw : wp (lcap_changelog_recv n) (fun o s1 => exists x, o = (0, Some (in_packet x)) /\
    user_holds s1 mdt rs /\ s_trace s1 = s_trace s /\ reads (us_cl s1) x r) safe s).
  { apply wp_proxy_recv; [done|]. eapply wp_mono; [by apply px_recv_pending_spec|cbn beta|done].
    intros [rc o] c [(Hb & Ht & Hrc & x & Ho & Hx) Hh1]. cbn [fst snd] in *. subst rc o.
    exists x. split_and!; [done|done|done|by apply (reads_bufs (us_cl s))]. }
  apply wp_safe in Hw as (o & s1 & Heq & x & -> & Hw). by exists x, s1.
Qed.

Lemma tool_turn_eq n mdt s x s1 o s2 :
  lcap_changelog_recv n s = Ok ((0, Some x), s1) -> tool_record n mdt x s1 = Ok (o, s2) ->
  tool_turn n mdt s = Ok (inr o, s2).
Proof.
  intros Hrecv Hrec. apply wp_eq. unfold tool_turn. rewrite wp_bind. unfold wp at 1. rewrite Hrecv.
  cbn [fst snd Z.eqb negb]. wp_steps. unfold wp. by rewrite Hrec.
Qed.

(** The tool receives [recs] one after the other, each readable when it is
    processed, and goes on after each without any call. *)
Inductive takes (n : nat) (mdt : bytes) : user -> list bytes -> user -> Prop :=
| takes_none s : takes n mdt s [] s
| takes_next s r rs x s1 s2 s' :
    lcap_changelog_recv n s = Ok ((0, Some (in_packet x)), s1) -> reads (us_cl s1) x r ->
    tool_record n mdt (in_packet x) s1 = Ok (None, s2) -> s_trace s2 = s_trace s ->
    takes n mdt s2 rs s' -> takes n mdt s (r :: rs) s'.

(** C24: The loop of the command line client takes the records of a packet in
    order, each readable when it is processed, and makes no call before the
    last one; then it sends one CLEAR, with the index of that record, and
    nothing else. It goes on, with nothing pending, exactly if the answer is
    no error code; it exits with 1 if the answer is an error code, or if
    there is none because a call failed or the answer is no code. Answers
    are of one frame. *)
Theorem tool_acks_packet_once n s mdt recs r :
  user_holds s mdt (recs ++ [r]) ->
  one_frame_reply (us_cl s) (request mdt (clear_of mdt r)) ->
  exists o s' s1 x s2 t,
    tool_turns (length (recs ++ [r])) (S n) mdt s = Ok (inr o, s') /\
    takes (S n) mdt s recs s1 /\ s_trace s2 = s_trace s /\
    lcap_changelog_recv (S n) s1 = Ok ((0, Some (in_packet x)), s2) /\ reads (us_cl s2) x r /\
    tool_record (S n) mdt (in_packet x) s2 = Ok (o, s') /\
    user_holds s' mdt [] /\ s_trace s' = s_trace s ++ t /\ acked_by s2 mdt r t o.
Proof.
  revert s. induction recs as [|r1 recs IH]; intros s Hs Hone; cbn [app length tool_turns] in *;
    pose proof Hs as [_ (p & _ & _ & _ & [Hr _]%Forall_cons & _)];
    destruct (tool_recv (S n) s mdt _ _ Hs) as (x & s1 & Hrecv & Hs1 & Ht & Hx).
  - destruct (proj1 (wp_safe _ _ _) (tool_record_spec n s1 mdt x r [] Hs1 Hx Hr
      (fun _ => one_frame_same _ _ _ Ht Hone))) as (o & s2 & Hrec & [[? _]|(_ & Hs2 & t & Ht2 & Ha)]);
      [done|].
    exists o, s2, s, x, s1, t. split_and!; try done; [|by constructor|by rewrite <- Ht].
    apply wp_eq. rewrite wp_bind. unfold wp at 1. rewrite (tool_turn_eq _ _ _ _ _ _ _ Hrecv Hrec).
    by destruct o.
  - destruct (proj1 (wp_safe _ _ _) (tool_record_spec n s1 mdt x r1 (recs ++ [r]) Hs1 Hx Hr
      ltac:(by destruct recs))) as (o & s2 & Hrec & [(_ & -> & ->)|(? & _)]); [|by destruct recs].
    destruct (IH s1 Hs1 (one_frame_same _ _ _ Ht Hone))
      as (o & s' & s3 & y & s4 & t & Hrun & Htk & Ht4 & Hr4 & Hx4 & Hc4 & Hu4 & Ht' & Ha).
    exists o, s', s3, y, s4, t. split_and!; try done; [|by econstructor|by rewrite Ht4|by rewrite <- Ht].
    apply wp_eq. rewrite wp_bind. unfold wp at 1. rewrite (tool_turn_eq _ _ _ _ _ _ _ Hrecv Hrec).
    by apply wp_eq.
Qed.

(** ** The arguments *)

Lemma tool_options_d opts flags s :
  option_unknown ∉ opts ->
  tool_options opts flags s =
    Ok (if bool_decide (option_d ∈ opts) then Z.lor flags LCAP_CL_DIRECT else flags, s).
Proof.
  revert flags. induction opts as [|[] opts IH]; intros flags Hn; cbn [tool_options]; [done| |].
  - apply not_elem_of_cons in Hn as [_ Hn]. rewrite IH by done. rewrite (bool_decide_eq_true_2 (_ ∈ _ :: _)) by left.
    case_bool_decide; [|done]. by rewrite <- Z.lor_assoc, Z.lor_diag.
  - by destruct Hn; left.
Qed.

(** The arguments of the command line client: without a device it exits with 1
    and calls nothing; an unknown option is undefined behaviour; otherwise it
    follows the first device, directly if [-d] was given. *)
Theorem tool_arguments turns frames ac opts args s :
  2 <= ac ->
  (option_unknown ∈ opts -> tool_main turns frames ac opts args s = Fault OutOfBounds) /\
  (option_unknown ∉ opts -> args = [] -> tool_main turns frames ac opts args s = Ok (1, s)) /\
  (forall mdt rest, option_unknown ∉ opts -> args = mdt :: rest ->
     tool_main turns frames ac opts args s =
       tool_session turns frames
         (Z.lor (Z.lor LCAP_CL_BLOCK LCAP_CL_JOBID)
            (if bool_decide (option_d ∈ opts) then LCAP_CL_DIRECT else 0)) mdt s).
Proof.
  intros Hac. unfold tool_main. rewrite (proj2 (Z.ltb_ge _ _)) by done. unfold mbind, M_bind. split_and!.
  - generalize (Z.lor LCAP_CL_BLOCK LCAP_CL_JOBID). induction opts as [|[] opts IH]; intros flags Hin.
    + by apply elem_of_nil in Hin.
    + cbn [tool_options]. apply IH. by apply elem_of_cons in Hin as [|].
    + done.
  - intros Hn ->. by rewrite tool_options_d.
  - intros mdt rest Hn ->. rewrite tool_options_d by done. case_bool_decide; [done|].
    by rewrite Z.lor_0_r.
Qed.
End props.

(** ** On a packet of one record *)

Definition demo_user : user := mkUser (Some cl_ops_proxy) demo_full.

Lemma tool_acks_packet_once_witness :
  exists o s' s1 x s2 t,
    @tool_turns (demo_server demo_ack) demo_layout 1 1 demo_mdt demo_user = Ok (inr o, s') /\
    @takes (demo_server demo_ack) demo_layout 1 demo_mdt demo_user [] s1 /\ s_trace s2 = [] /\
    @lcap_changelog_recv (demo_server demo_ack) demo_layout 1 s1 = Ok ((0, Some (in_packet x)), s2) /\
    @reads demo_layout (us_cl s2) x (demo_rec 0) /\
    @tool_record (demo_server demo_ack) demo_layout 1 demo_mdt (in_packet x) s2 = Ok (o, s') /\
    @user_holds demo_layout s' demo_mdt [] /\ s_trace s' = t /\
    @acked_by (demo_server demo_ack) demo_layout s2 demo_mdt (demo_rec 0) t o.
Proof.
  apply (@tool_acks_packet_once (demo_server demo_ack) demo_layout demo_layout_laws 0 demo_user
    demo_mdt [] (demo_rec 0)).
  - split; [reflexivity|exact demo_full_holds].
  - intros t _. reflexivity.
Defined.

Lemma tool_arguments_witness :
  @tool_main (demo_server demo_ack) demo_layout 1 1 2 [option_unknown] [] demo_user = Fault OutOfBounds.
Proof.
  apply (proj1 (@tool_arguments (demo_server demo_ack) demo_layout 1 1 2 [option_unknown] [] demo_user
    ltac:(lia))). left.
Defined.
