(* ===== verification/Routing.v ===== *)
(** * The path of a request

    Between a client and a reader a message crosses two 0MQ sockets and the
    broker. [ZmqSockets] states what 0MQ documents of the frames that its
    sockets add and remove; the theorems compose it with the broker, with the
    code that reads a message into a request and with the replies of a reader. *)
From S2P Require Import Prelude World Queue Idl LcapNet RpcUtils Config Broker PxClient Reader ReaderRep ReaderInv ReaderBuckets ReaderRpc ReaderSpec Demo ReaderHandlers ReaderMain PxSpec.
Local Open Scope Z_scope.

(** Frames of a message, without the flag that more follow. *)
Class ZmqSockets := {
  (** What a REQ socket puts on the wire, and what it gives to its user. *)
  req_out : list bytes -> list bytes;
  req_in : list bytes -> option (list bytes);
  (** What the user of a ROUTER socket gets from a peer, and the peer that a
      message goes to, with what the peer gets. *)
  router_in : conn_id -> list bytes -> list bytes;
  router_out : list bytes -> option (conn_id * list bytes);
}.

Class ZmqSocketsLaws `{ZmqSockets} : Prop := {
  req_out_delimiter : forall fs, req_out fs = [] :: fs;
  req_in_delimiter : forall fs, req_in ([] :: fs) = Some fs;
  router_in_identity : forall cid fs, router_in cid fs = cid :: fs;
  router_out_identity : forall cid fs, cid <> [] -> router_out (cid :: fs) = Some (cid, fs);
}.

Section broker.
Context `{World}.
Implicit Types (s : lcap_ctx) (req : lcapnet_request).

Lemma brokered_up cfg rcid remote forward body rc rcid' t i :
  brokered cfg rcid remote forward body RPC_OP_SIGNAL rc rcid' t ->
  sizeof_signal <= Z.of_nat (length body) -> get_sig_ret body = 0 ->
  index_of (Z.to_nat (ccf_mdtcount cfg)) 0 (ccf_mdt cfg) (get_sig_mdtname body) = Some i ->
  rc = 0 /\ rcid' = <[i := Some remote]> rcid \/
  rc = - ENOMEM /\ rcid' = rcid /\ out_of_memory.
Proof.
  intros Hb Hl Hr Hi. inversion Hb as [op rc1 t1 Ho|op Ho Hs|op rc1 t1 Ho|j t1 _ _ Hj|j t1| |];
    subst; try congruence.
  - by destruct Ho as [|[|[|]]].
  - change (rpc_expected_length _) with sizeof_signal in Hs. lia.
  - by destruct Ho.
  - left. split; [done|]. congruence.
  - by right.
Qed.

(** C11: The broker implements its step relation on every request: a valid
    operation goes to the handler of its kind, everything else is refused,
    an error code goes back to the sender, and the table of readers stays
    well formed. The only faults are those of three messages of the log: a
    SIGNAL of a reader that is up, with the name of no device and no NUL in
    its 128 bytes, is read past its end; the code of a SIGNAL of a reader
    that failed is negated, which overflows for -2^31; and, when the daemon
    logs at the debug level, the operation code of a body that is shorter
    than one is read. *)
Theorem broker_refines s req remote forward :
  ctx_ok s -> lr_remote req = Some remote -> lr_forward req = Some forward ->
  wp (lcapd_process_request req) (fun rc s' =>
       processed remote forward (lr_body req) s rc s' /\ ctx_ok s')
     (request_fault (cc_config s) (lr_body req)) s.
Proof.
  intros Hok Hr Hf. eapply wp_mono; [by apply lcapd_process_request_spec| |done].
  intros rc s' Hp. split; [done|]. by destruct (processed_ok _ _ _ _ _ _ Hok Hp).
Qed.

(** The slot of a name is the first one that has it. *)
Lemma index_of_at n i mdts mdt j :
  index_of n i mdts mdt = Some j ->
  (i <= j)%nat /\ exists dev, mdts !! j = Some (Some dev) /\ strcmp_eq mdt dev = Some true.
Proof.
  revert i. induction n as [|n IH]; intros i; cbn [index_of]; [done|].
  destruct (mdts !! i) as [[dev|]|] eqn:Hi; try done.
  case_bool_decide as Hb; [intros [= <-]; split; [done|by exists dev]|].
  intros (Hle & Hdev)%IH. split; [lia|done].
Qed.

Lemma index_of_first n i mdts mdt dev j :
  no_nul dev -> cstr mdt = Some dev -> (i <= j < i + n)%nat ->
  mdts !! j = Some (Some dev) -> (forall k, (k < j)%nat -> exists d, mdts !! k = Some (Some d) /\ no_nul d /\ d <> dev) ->
  index_of n i mdts mdt = Some j.
Proof.
  intros Hd Hm Hj Hat Hlow. revert i Hj. induction n as [|n IH]; intros i Hj; [lia|].
  cbn [index_of]. destruct (decide (i = j)) as [->|Hne].
  - rewrite Hat, bool_decide_eq_true_2; [done|]. by apply strcmp_eq_cstr.
  - destruct (Hlow i ltac:(lia)) as (d & -> & Hnd & Hdd).
    rewrite bool_decide_eq_false_2; [apply IH; lia|].
    rewrite strcmp_eq_cstr by done. congruence.
Qed.

(** ** Hops *)

Context `{ZmqSocketsLaws}.

(** A client's message as the broker gets it, and a reader's. *)
Definition from_client (cid : conn_id) (fs : list (bytes * bool)) : lcapnet_request :=
  request_of false (router_in cid (req_out fs.*1)).
Definition from_reader (rid : conn_id) (fs : list (bytes * bool)) : lcapnet_request :=
  request_of false (router_in rid fs.*1).

Lemma from_client_request cid mdt body :
  cid <> [] -> mdt <> [] -> body <> [] ->
  from_client cid (request mdt body) =
    {| lr_flags := 0; lr_remote := Some cid; lr_forward := Some mdt; lr_body := body |}.
Proof.
  intros Hc Hm Hb. unfold from_client, request. cbn [fmap list_fmap fst].
  rewrite req_out_delimiter, router_in_identity. unfold request_of, nonempty.
  rewrite filter_cons_True, filter_cons_False, !filter_cons_True by auto. cbn.
  by rewrite app_nil_r.
Qed.

Lemma from_reader_envelope rid cid body :
  rid <> [] -> cid <> [] -> body <> [] ->
  from_reader rid (envelope None cid body) =
    {| lr_flags := 0; lr_remote := Some rid; lr_forward := Some cid; lr_body := body |}.
Proof.
  intros Hr Hc Hb. unfold from_reader, envelope. cbn [fmap list_fmap fst app].
  rewrite router_in_identity. unfold request_of, nonempty.
  rewrite !filter_cons_True, filter_cons_False, !filter_cons_True by auto. cbn.
  by rewrite app_nil_r.
Qed.

Lemma from_reader_signal rid dev body :
  rid <> [] -> dev <> [] -> body <> [] ->
  from_reader rid [([], true); (dev, true); (body, false)] =
    {| lr_flags := 0; lr_remote := Some rid; lr_forward := Some dev; lr_body := body |}.
Proof.
  intros Hr Hc Hb. unfold from_reader. cbn [fmap list_fmap fst app].
  rewrite router_in_identity. unfold request_of, nonempty.
  rewrite filter_cons_True, filter_cons_False, !filter_cons_True by auto. cbn.
  by rewrite app_nil_r.
Qed.

Lemma nonempty_body (body : bytes) : sizeof_hdr <= Z.of_nat (length body) -> body <> [].
Proof. by intros Hl ->. Qed.

(** The message went on as [fs], or, when a send is refused, the sender is told
    so. *)
Definition forwarded s (sender : conn_id) (fs : list (bytes * bool)) (rc : Z) (s' : lcap_ctx) : Prop :=
  cc_rcid s' = cc_rcid s /\ ctx_ok s' /\ exists t0 t, cc_trace s' = cc_trace s ++ t0 ++ t /\
    (rc = 0 /\ t = [] /\ frames_of t0 = fs \/
     send_refused /\ exists e, e < 0 /\ sent (envelope None sender (enc_ack (ack_message e))) rc t).

Lemma forward_spec s req sender target fs op :
  ctx_ok s -> lr_remote req = Some sender -> lr_forward req = Some target ->
  get_op_type (lr_body req) = op_code op ->
  op <> RPC_OP_SIGNAL -> rpc_expected_length (op_code op) <= lr_body_len req ->
  fs = envelope (match op with RPC_OP_ENQUEUE | RPC_OP_ACK => None | _ => Some target end)
         (match op with RPC_OP_ENQUEUE | RPC_OP_ACK => target | _ => sender end) (lr_body req) ->
  wp (lcapd_process_request req) (forwarded s sender fs) safe s.
Proof.
  intros Hok Hr Hf Hop Hns Hl Hfs. eapply wp_mono; [by apply lcapd_process_request_spec| |].
  2: { intros f. apply no_request_fault; [|left; rewrite Hop; by destruct op].
       unfold lr_body_len in Hl. destruct op; cbn in Hl; unfold sizeof_register, sizeof_dequeue,
         sizeof_clear, sizeof_fini, sizeof_enqueue, sizeof_ack, sizeof_signal in Hl; lia. }
  intros rc s' Hproc. destruct (processed_ok _ _ _ _ _ _ Hok Hproc) as [Hok' _].
  destruct Hproc as (rc0 & rcid & t0 & t & -> & Hd & Hrep).
  assert (Hb : brokered (cc_config s) (cc_rcid s) sender target (lr_body req) op rc0 rcid t0).
  { pose proof (op_of_code_code op) as Hcode. rewrite <- Hop in Hcode.
    destruct Hd as [Hs|_ Hbad|op' rc0 rcid t0 _ Hop' Hb]; [|congruence|congruence].
    unfold lr_body_len in Hl. unfold sizeof_hdr in Hs. destruct op; cbn in Hl; try done;
      unfold sizeof_register, sizeof_dequeue, sizeof_clear, sizeof_fini, sizeof_enqueue,
        sizeof_ack in Hl; lia. }
  assert (Hs : rcid = cc_rcid s /\ sent fs rc0 t0).
  { unfold lr_body_len in Hl. destruct Hb as [op rc0 t0 Ho _ Hs|op Ho Hlt|op rc0 t0 Ho Hs| | | |];
      try done; try lia; (split; [done|]); subst fs.
    - by destruct Ho as [->|[->|[->| ->]]].
    - by destruct Ho as [->| ->]. }
  destruct Hs as [-> Hs]. split; [done|]. split; [done|]. exists t0, t. split; [done|].
  destruct Hrep as [Hrep|(Hge & -> & ->)].
  { right. split; [|by exists rc0]. by destruct Hs as [[-> _]|(_ & ? & _)]; [lia|]. }
  left. by destruct Hs as [[-> ?]|[? _]]; [|lia].
Qed.

(** A request that a client sends through its REQ socket leaves the broker
    for the reader of the named device, which reads from the frames exactly
    the identity of the client and the RPC; or the client is sent an error
    code. *)
Theorem client_request_reaches_reader s cid mdt body op :
  ctx_ok s -> cid <> [] -> mdt <> [] ->
  op = RPC_OP_START \/ op = RPC_OP_DEQUEUE \/ op = RPC_OP_CLEAR \/ op = RPC_OP_FINI ->
  get_op_type body = op_code op -> rpc_expected_length (op_code op) <= Z.of_nat (length body) ->
  wp (lcapd_process_request (from_client cid (request mdt body)))
     (fun rc s' => exists fs hop, forwarded s cid fs rc s' /\
        router_out fs.*1 = Some (mdt, hop) /\
        request_of true hop = {| lr_flags := 1; lr_remote := None; lr_forward := Some cid;
                                 lr_body := body |}) safe s.
Proof.
  intros Hok Hc Hm Ho Hop Hl.
  assert (Hb : body <> []).
  { apply nonempty_body. destruct Ho as [->|[->|[->| ->]]]; cbn in Hl;
      unfold sizeof_hdr, sizeof_register, sizeof_dequeue, sizeof_clear, sizeof_fini in *; lia. }
  rewrite (from_client_request _ _ _ Hc Hm Hb).
  eapply wp_mono; [eapply (forward_spec _ _ cid mdt _ op Hok); try done| |done].
  { by destruct Ho as [->|[->|[->| ->]]]. }
  intros rc s' Hf. exists (envelope (Some mdt) cid body), [[]; cid; []; body]. split_and!.
  - by destruct Ho as [->|[->|[->| ->]]].
  - by apply router_out_identity.
  - unfold request_of, nonempty.
    rewrite filter_cons_False, filter_cons_True, filter_cons_False, filter_cons_True by auto.
    cbn. by rewrite app_nil_r.
Qed.

(** An ENQUEUE or ACK that a reader addresses to a client leaves the broker
    for that client, whose REQ socket delivers exactly the RPC in one frame;
    or the reader is sent an error code. *)
Theorem reader_reply_reaches_client s rid cid pk op :
  ctx_ok s -> rid <> [] -> cid <> [] -> op = RPC_OP_ENQUEUE \/ op = RPC_OP_ACK ->
  get_op_type pk = op_code op -> rpc_expected_length (op_code op) <= Z.of_nat (length pk) ->
  wp (lcapd_process_request (from_reader rid (envelope None cid pk)))
     (fun rc s' => exists fs hop, forwarded s rid fs rc s' /\
        router_out fs.*1 = Some (cid, hop) /\ req_in hop = Some [pk]) safe s.
Proof.
  intros Hok Hr Hc Ho Hop Hl.
  assert (Hb : pk <> []).
  { apply nonempty_body. destruct Ho as [->| ->]; cbn in Hl;
      unfold sizeof_hdr, sizeof_enqueue, sizeof_ack in *; lia. }
  rewrite (from_reader_envelope _ _ _ Hr Hc Hb).
  eapply wp_mono; [eapply (forward_spec _ _ rid cid _ op Hok); try done| |done].
  { by destruct Ho as [->| ->]. }
  intros rc s' Hf. exists (envelope None cid pk), [[]; pk]. split_and!.
  - by destruct Ho as [->| ->].
  - by apply router_out_identity.
  - apply req_in_delimiter.
Qed.

(** A code that a reader reports: an [int] that has an opposite. *)
Definition reader_code (code : Z) : Prop := - 2 ^ 31 < code < 2 ^ 31.

Lemma reader_code_opposite code : reader_code code -> s32 (u64 code) <> - 2 ^ 31.
Proof.
  unfold reader_code. intros Hc. assert (s32 (u64 code) = code) as ->; [|lia].
  rewrite <- (to_s_id 32 code) at 2 by (done || unfold in_s; lia).
  unfold s32, u64, to_s, to_u. by rewrite Z.mod_mod_divide by (by exists (2 ^ 32)).
Qed.

(** A SIGNAL, as the broker takes it. *)
Lemma signal_spec s rid dev code :
  ctx_ok s -> rid <> [] -> dev <> [] -> no_nul dev -> Z.of_nat (length dev) < sizeof_mdtname ->
  reader_code code ->
  wp (lcapd_process_request
        (from_reader rid [([], true); (dev, true); (enc_signal (signal_message code dev), false)]))
     (fun rc s' => ctx_ok s' /\ cc_config s' = cc_config s /\ exists rc0 t0 t,
        brokered (cc_config s) (cc_rcid s) rid dev (enc_signal (signal_message code dev))
          RPC_OP_SIGNAL rc0 (cc_rcid s') t0 /\ cc_trace s' = cc_trace s ++ t0 ++ t /\
        (rc0 < 0 /\ sent (envelope None rid (enc_ack (ack_message rc0))) rc t \/
         0 <= rc0 /\ rc = rc0 /\ t = [])) safe s.
Proof.
  intros Hok Hr Hdev Hnul Hlen Hcode.
  destruct (signal_fields dev code Hlen) as (Hsize & Hop & Hret & Hname).
  assert (Hb : enc_signal (signal_message code dev) <> []).
  { apply nonempty_body. rewrite Hsize. unfold sizeof_hdr, sizeof_signal. lia. }
  rewrite (from_reader_signal _ _ _ Hr Hdev Hb).
  eapply wp_mono; [by apply (lcapd_process_request_spec s _ rid dev)| |]; cbn [lr_body].
  2: { intros f. apply no_request_fault; [rewrite Hsize; by unfold sizeof_signal|].
       right. rewrite (Hname Hnul), Hret. split; [done|by apply reader_code_opposite]. }
  intros rc s' Hp. split; [by eapply processed_ok|].
  destruct Hp as (rc0 & rcid & t0 & t & Hst & Hd & Hrep). unfold ctx_step in Hst. subst s'.
  split; [done|]. exists rc0, t0, t. split_and!; [|done|done]. cbn [cc_rcid].
  destruct Hd as [Hs|_ Hbad|op' rc1 rcid1 t1 _ Hop' Hbr].
  - rewrite Hsize in Hs. done.
  - by rewrite Hop in Hbad.
  - rewrite Hop in Hop'. by injection Hop' as <-.
Qed.

(** The slot of a device that no earlier one has the name of. *)
Lemma signal_slot s dev code i :
  ctx_ok s -> no_nul dev -> Z.of_nat (length dev) < sizeof_mdtname ->
  Z.of_nat i < ccf_mdtcount (cc_config s) -> ccf_mdt (cc_config s) !! i = Some (Some dev) ->
  (forall k, (k < i)%nat -> ccf_mdt (cc_config s) !! k <> Some (Some dev)) ->
  index_of (Z.to_nat (ccf_mdtcount (cc_config s))) 0 (ccf_mdt (cc_config s))
    (get_sig_mdtname (enc_signal (signal_message code dev))) = Some i.
Proof.
  intros Hok Hnul Hlen Hi Hat Hlow. destruct (signal_fields dev code Hlen) as (_ & _ & _ & Hname).
  apply (index_of_first _ _ _ _ dev); [done|by apply Hname|lia|done|]. intros k Hk.
  destruct (ck_names _ Hok k ltac:(lia)) as (d & Hd' & Hnd & _). exists d. split_and!; [done|done|].
  intros ->. by apply (Hlow k Hk).
Qed.

(** The SIGNAL of a reader that came up stores its identity in the slot of
    its device, and in no other; if the memory for the identity cannot be
    allocated the table is unchanged and the reader is sent -ENOMEM. *)
Theorem reader_signal_registers s rid dev i :
  ctx_ok s -> rid <> [] -> dev <> [] -> no_nul dev -> Z.of_nat (length dev) < sizeof_mdtname ->
  Z.of_nat i < ccf_mdtcount (cc_config s) -> ccf_mdt (cc_config s) !! i = Some (Some dev) ->
  (forall k, (k < i)%nat -> ccf_mdt (cc_config s) !! k <> Some (Some dev)) ->
  wp (lcapd_process_request
        (from_reader rid [([], true); (dev, true); (enc_signal (signal_message 0 dev), false)]))
     (fun rc s' => rc = 0 /\ cc_rcid s' = <[i := Some rid]> (cc_rcid s) \/
        cc_rcid s' = cc_rcid s /\ exists t0 t, cc_trace s' = cc_trace s ++ t0 ++ t /\
          sent (envelope None rid (enc_ack (ack_message (- ENOMEM)))) rc t) safe s.
Proof.
  intros Hok Hr Hdev Hnul Hlen Hi Hat Hlow.
  destruct (signal_fields dev 0 Hlen) as (Hsize & _ & Hret & _).
  eapply wp_mono; [by apply signal_spec; [..|unfold reader_code]|cbn beta|done].
  intros rc s' (_ & _ & rc0 & t0 & t & Hbr & Ht & Hrep).
  destruct (brokered_up _ _ _ _ _ _ _ _ i Hbr) as [[-> Heq]|(-> & Heq & _)];
    [lia|exact Hret|by apply signal_slot|left|right].
  - destruct Hrep as [[? _]|(_ & -> & _)]; [lia|done].
  - split; [done|]. exists t0, t. split; [done|].
    destruct Hrep as [[_ Hs]|[Hge _]]; [done|]. unfold ENOMEM in Hge. lia.
Qed.
End broker.

(** ** What a reader answers *)

Section contract.
Context `{World, ChangelogRec}.
Implicit Types (s : rstate) (v : view).

(** The answers that a client expects, and the packet of an empty bucket. *)
Definition reply_or_empty (pk : bytes) : Prop :=
  reader_reply pk \/ exists bk, bk_recs bk = [] /\ pk = enqueue_packet bk.

Lemma packet_reply s v b bk l1 l2 due :
  represents s v -> v_bks v = l1 ++ (b, set_expiry due bk) :: l2 ->
  reply_or_empty (enqueue_packet bk).
Proof.
  intros [[_ He] _] Hb. pose proof (ei_bounds _ _ _ He) as Hall. rewrite Hb in Hall.
  apply Forall_app in Hall as [_ [Hok _]%Forall_cons]. cbn [snd] in Hok.
  destruct (bk_recs bk) as [|r rs] eqn:Hrs; [right; by exists bk|]. left.
  destruct (ei_cfg _ _ _ He) as ((Hb0 & Hm0 & Hc0) & _). unfold capacity in Hc0.
  pose proof (length_bk_recs _ _ Hok) as Hlen. pose proof (bo_count _ _ Hok).
  assert (Hbk : bk_recs (set_expiry due bk) = bk_recs bk) by done.
  apply reply_records; [by rewrite Hrs|rewrite <- Hbk; apply Hok|].
  rewrite <- Hbk, Hlen. nia.
Qed.

Lemma error_reply rc :
  rc = - EPROTO \/ rc = - ENOMEM \/ rc = 1 -> reply_or_empty (enc_ack (ack_message rc)).
Proof.
  intros Hrc. left. apply reply_error; unfold EPROTO, ENOMEM, in_s in *; lia.
Qed.

(** [pk] was sent to [cid] between [s] and [s'], or 0MQ refused a part of it. *)
Definition replies_with (cid : conn_id) (pk : bytes) s s' : Prop :=
  exists ta tp tb e, r_trace s' = r_trace s ++ ta ++ tp ++ tb /\ frames_of ta = [] /\
    sent (envelope None cid pk) e tp /\ (e = 0 -> frames_of tb = []).

(** What a DEQUEUE is answered, before the codes are sent. *)
Lemma served_dequeue_reply s v batch cid body rc0 t0 v' :
  represents s v' -> served batch cid body RPC_OP_DEQUEUE v rc0 t0 v' ->
  (reply_or_empty (enc_ack (ack_message rc0)) /\ frames_of t0 = [] /\ (rc0 < 0 \/ rc0 = 1)) \/
  exists bk, reply_or_empty (enqueue_packet bk) /\ sent (envelope None cid (enqueue_packet bk)) rc0 t0.
Proof.
  intros Hv Hs. inversion Hs; subst; try (left; split_and!;
    [apply error_reply; tauto|by (done || match goal with Hq : silent _ |- _ => apply Hq end)
    |unfold EPROTO, ENOMEM; lia]); try (by intuition congruence).
  right. eexists. split; [by eapply packet_reply|done].
Qed.

(** C22: The answer of a reader to a DEQUEUE is one that the client expects - a
    code, or a packet of at least one whole record - or the packet of an
    empty bucket, the one case that the client refuses. *)
Theorem reader_honours_contract s v req cid rc s' :
  represents s v -> lr_forward req = Some cid ->
  get_op_type (lr_body req) = op_code RPC_OP_DEQUEUE ->
  changelog_reader_rpc_hdl req s = Ok (rc, s') ->
  exists pk, reply_or_empty pk /\ replies_with cid pk s s'.
Proof.
  intros Hv Hf Hop Hrun. pose proof (changelog_reader_rpc_hdl_spec _ _ _ _ Hv Hf) as Hwp.
  apply (wp_Ok _ _ _ _ _ _ Hwp) in Hrun as (rc0 & t0 & t & v' & Ht & _ & Hd & Hrep & Hv' & _).
  assert (Hcase : (reply_or_empty (enc_ack (ack_message rc0)) /\ frames_of t0 = [] /\
      (rc0 < 0 \/ rc0 = 1)) \/
    exists bk, reply_or_empty (enqueue_packet bk) /\
      sent (envelope None cid (enqueue_packet bk)) rc0 t0).
  { destruct Hd as [v1 _|v1 _ Hbad|op v1 rc0 t0 v' _ Ho Hs].
    - left. split_and!; [apply error_reply; tauto|done|unfold EPROTO; lia].
    - by rewrite Hop in Hbad.
    - rewrite Hop in Ho. injection Ho as <-. by eapply served_dequeue_reply. }
  destruct Hcase as [(Hg & Hf0 & Hrc)|(bk & Hg & Hs)].
  - exists (enc_ack (ack_message rc0)). split; [done|].
    destruct Hrep as [rc t1 _ Hs|Hge Hne]; [|lia]. exists t0, t1, [], rc.
    split_and!; [by rewrite app_nil_r|done|done|done].
  - exists (enqueue_packet bk). split; [done|]. destruct Hrep as [rc t1 Hrc _|Hge Hne].
    + exists [], t0, t1, rc0. split_and!; [done|done|done|]. destruct Hs as [[-> _]|[? _]]; lia.
    + exists [], t0, [], rc0. split_and!; [by rewrite app_nil_r|done|done|done].
Qed.
End contract.

(** ** The theorems at a concrete broker *)

#[export] Instance demo_sockets : ZmqSockets := {|
  req_out fs := [] :: fs;
  req_in fs := match fs with [] :: fs => Some fs | _ => None end;
  router_in cid fs := cid :: fs;
  router_out fs := match fs with
                   | [] | [] :: _ => None
                   | cid :: fs => Some (cid, fs)
                   end;
|}.

#[export] Instance demo_sockets_laws : ZmqSocketsLaws.
Proof. split; try done. by intros [|b cid] fs. Qed.

Definition demo_ctx : lcap_ctx := mkCtx demo_cfg true true (replicate 128 None) rdr_null [].
Definition demo_rid : conn_id := of_str "mdt0".
Definition demo_dequeue_body : bytes := enc_dequeue cl_dequeue_pack.
Definition calm : World := quiet_world 0.
#[local] Existing Instance calm.

Lemma demo_ctx_ok : ctx_ok demo_ctx.
Proof.
  split; [done|done|]. intros [|i] Hi; [|cbn in Hi; lia]. exists (of_str "mdt0").
  split_and!; [done| |done]. by apply (bool_decide_unpack _).
Qed.

Lemma broker_refines_witness :
  @wp _ _ (@lcapd_process_request calm (from_client demo_cid (request (of_str "mdt0") demo_dequeue_body)))
    (fun rc s' => processed demo_cid (of_str "mdt0") demo_dequeue_body demo_ctx rc s' /\ ctx_ok s')
    (request_fault (cc_config demo_ctx) demo_dequeue_body) demo_ctx.
Proof. apply (@broker_refines calm demo_ctx); [exact demo_ctx_ok|reflexivity|reflexivity]. Defined.

Lemma client_request_reaches_reader_witness :
  @wp _ _ (@lcapd_process_request calm (from_client demo_cid (request (of_str "mdt0") demo_dequeue_body)))
     (fun rc s' => exists fs hop, forwarded demo_ctx demo_cid fs rc s' /\
        router_out fs.*1 = Some (of_str "mdt0", hop) /\
        request_of true hop = {| lr_flags := 1; lr_remote := None; lr_forward := Some demo_cid;
                                 lr_body := demo_dequeue_body |}) safe demo_ctx.
Proof.
  apply (@client_request_reaches_reader calm demo_sockets demo_sockets_laws demo_ctx demo_cid
    (of_str "mdt0") demo_dequeue_body RPC_OP_DEQUEUE);
    [exact demo_ctx_ok|discriminate|discriminate|tauto|reflexivity|].
  vm_compute. discriminate.
Defined.

Lemma reader_reply_reaches_client_witness :
  @wp _ _ (@lcapd_process_request calm
             (from_reader demo_rid (envelope None demo_cid (enc_ack (ack_message 1)))))
     (fun rc s' => exists fs hop, forwarded demo_ctx demo_rid fs rc s' /\
        router_out fs.*1 = Some (demo_cid, hop) /\
        req_in hop = Some [enc_ack (ack_message 1)]) safe demo_ctx.
Proof.
  apply (@reader_reply_reaches_client calm demo_sockets demo_sockets_laws demo_ctx demo_rid
    demo_cid (enc_ack (ack_message 1)) RPC_OP_ACK);
    [exact demo_ctx_ok|discriminate|discriminate|tauto|reflexivity|].
  vm_compute. discriminate.
Defined.

Lemma reader_signal_registers_witness :
  @wp _ _ (@lcapd_process_request calm (from_reader demo_rid
             [([], true); (of_str "mdt0", true);
              (enc_signal (signal_message 0 (of_str "mdt0")), false)]))
     (fun rc s' => rc = 0 /\ cc_rcid s' = <[0%nat := Some demo_rid]> (cc_rcid demo_ctx) \/
        cc_rcid s' = cc_rcid demo_ctx /\ exists t0 t, cc_trace s' = cc_trace demo_ctx ++ t0 ++ t /\
          sent (envelope None demo_rid (enc_ack (ack_message (- ENOMEM)))) rc t) safe demo_ctx.
Proof.
  apply (@reader_signal_registers calm demo_sockets demo_sockets_laws demo_ctx demo_rid
    (of_str "mdt0") 0); [exact demo_ctx_ok|discriminate|discriminate| |reflexivity|reflexivity
    |reflexivity|intros k Hk; lia].
  apply (bool_decide_unpack _). vm_compute. exact I.
Defined.

(** The demo reader answers the demo client. *)
Lemma reader_honours_contract_witness :
  exists rc s' pk, @changelog_reader_rpc_hdl (demo_world 0 0) demo_layout demo_dequeue
      (demo_reader (demo_bucket 0 0) None (Some 1%positive)) = Ok (rc, s') /\
    reply_or_empty pk /\
    @replies_with (demo_world 0 0) demo_cid pk (demo_reader (demo_bucket 0 0) None (Some 1%positive)) s'.
Proof.
  destruct (@changelog_reader_rpc_hdl (demo_world 0 0) demo_layout demo_dequeue
    (demo_reader (demo_bucket 0 0) None (Some 1%positive))) as [[rc s']|f] eqn:Hrun;
    [|exfalso; revert Hrun; vm_compute; discriminate].
  exists rc, s'. destruct (@reader_honours_contract (demo_world 0 0) demo_layout
    (demo_reader (demo_bucket 0 0) None (Some 1%positive))
    (demo_view (demo_bucket 0 0) None (Some 1%positive)) demo_dequeue demo_cid rc s')
    as (pk & Hg & Hr); [auto|reflexivity|reflexivity|exact Hrun|].
  exists pk. split; [reflexivity|]. split; [exact Hg|exact Hr].
Defined.
