(* ===== verification/System.v ===== *)
(** * Client, broker and reader together

    A request of a client goes through the broker to the reader of its device
    and the answer comes back. Each of the three has its own libraries, so its
    own [World]: [Wb] is the broker's, [Wr] the reader's. The broker and the
    reader answer one request at a time; between two requests the reader reads
    records. *)
From S2P Require Import Prelude World Queue Idl LcapNet RpcUtils Effects Config Broker PxClient Reader ReaderRep ReaderInv ReaderBuckets ReaderRpc ReaderEnqueue ReaderSpec ReaderHandlers ReaderMain ReaderRun PxSpec PxProps Routing.
Local Open Scope Z_scope.

Section emitted.
Context `{HasTraceLaws St}.

(** The frames that a piece of code sends. *)
Definition emitted {A} (m : M St A) : M St (list (bytes * bool)) := fun s =>
  match m s with
  | Ok (_, s') => Ok (frames_of (drop (length (s_trace s)) (s_trace s')), s')
  | Fault f => Fault f
  end.

Lemma wp_emitted {A} (m : M St A) (Q : list (bytes * bool) -> St -> Prop) E s :
  wp m (fun _ s' => exists t, s_trace s' = s_trace s ++ t /\ Q (frames_of t) s') E s ->
  wp (emitted m) Q E s.
Proof.
  unfold wp, emitted. destruct (m s) as [[a s']|f]; [|done]. intros (t & -> & HQ).
  by rewrite drop_app_length.
Qed.

Lemma emitted_Ok {A} (m : M St A) (a : A) s s' t :
  m s = Ok (a, s') -> s_trace s' = s_trace s ++ t -> emitted m s = Ok (frames_of t, s').
Proof. unfold emitted. intros -> ->. by rewrite drop_app_length. Qed.
End emitted.

Record system := mkSys { sy_ctx : lcap_ctx; sy_reader : rstate }.

Section system.
Context (Wb Wr : World) `{ChangelogRec, ZmqSocketsLaws}.
Implicit Types (y : system) (v : view) (op : rpc_op_type).

Definition on_broker {A} (m : M lcap_ctx A) : M system A :=
  zoom sy_ctx (fun c y => mkSys c (sy_reader y)) m.
Definition on_reader {A} (m : M rstate A) : M system A :=
  zoom sy_reader (fun s y => mkSys (sy_ctx y) s) m.

(** The answer of the reader, if it sends one, goes to the client [cid]. *)
Definition answer_path (cid dev : conn_id) (back : list (bytes * bool))
    : M system (option (list bytes)) :=
  if bool_decide (back = []) then mret None
  else
    down ← on_broker (emitted (@lcapd_process_request Wb (from_reader dev back)));
    mret (match router_out down.*1 with
          | Some (dst, hop) => if bool_decide (dst = cid) then req_in hop else None
          | None => None
          end).

(** The client [cid] sends the RPC [body] for the device [dev]: the frames that
    its REQ socket hands out as the reply, [None] if there is none. A ROUTER
    socket drops what it has no peer for. *)
Definition exchange (cid dev : conn_id) (body : bytes) : M system (option (list bytes)) :=
  up ← on_broker (emitted (@lcapd_process_request Wb (from_client cid (request dev body))));
  ident ← gets (re_ident ∘ r_env ∘ sy_reader);
  match router_out up.*1 with
  | Some (dst, hop) =>
      if bool_decide (ident = Some dst) then
        back ← on_reader (emitted (@changelog_reader_rpc_hdl Wr _ (request_of true hop)));
        answer_path cid dst back
      else mret None
  | None => mret None
  end.

(** The reader alone, asked by [cid]: the last frame that it sends back. *)
Definition ask_reader (cid : conn_id) (body : bytes) : M rstate (option (list bytes)) :=
  back ← emitted (@changelog_reader_rpc_hdl Wr _ {| lr_flags := 1; lr_remote := None;
                    lr_forward := Some cid; lr_body := body |});
  mret ((fun pk => [pk]) <$> last back.*1).

Definition for_reader op : Prop :=
  op = RPC_OP_START \/ op = RPC_OP_DEQUEUE \/ op = RPC_OP_CLEAR \/ op = RPC_OP_FINI.

(** A well-formed RPC of a client. *)
Definition rpc_of op (body : bytes) : Prop :=
  for_reader op /\ get_op_type body = op_code op /\
  rpc_expected_length (op_code op) <= Z.of_nat (length body).

(** The system is ready: the broker is set up, the reader serves [dev] and its
    view is [v]. *)
Record ready (dev : conn_id) y v : Prop := {
  rd_ctx : ctx_ok (sy_ctx y);
  rd_repr : @represents _ (sy_reader y) v;
  rd_ident : re_ident (r_env (sy_reader y)) = Some dev;
}.

(** What a client is answered: a code of the reader, or the packet of a bucket. *)
Inductive reply_body : bytes -> Prop :=
| reply_ack rc : reply_body (enc_ack (ack_message rc))
| reply_packet recs : reply_body (packet_of recs).

Lemma reply_body_fields pk :
  reply_body pk -> exists op, (op = RPC_OP_ENQUEUE \/ op = RPC_OP_ACK) /\
    get_op_type pk = op_code op /\ rpc_expected_length (op_code op) <= Z.of_nat (length pk).
Proof.
  intros [rc|recs].
  - exists RPC_OP_ACK. split; [by right|]. split; [by apply get_op_type_hdr|].
    by rewrite length_ack.
  - exists RPC_OP_ENQUEUE. split; [by left|]. split; [by apply get_op_type_hdr|].
    unfold packet_of, enc_enqueue. cbn [enq_hdr enq_count enq_records].
    rewrite !length_app, length_le_enc. pose proof (length_enc_hdr
      {| op_type := op_code RPC_OP_ENQUEUE; reserved := 0 |}) as Hh. unfold sizeof_hdr in Hh. cbn.
    unfold sizeof_enqueue. lia.
Qed.

(** ** The way back *)

Lemma answer_path_spec cid dev y v back :
  ~ @send_refused Wb -> ready dev y v -> cid <> [] -> dev <> [] ->
  back = [] \/ (exists pk, back = envelope None cid pk /\ reply_body pk) ->
  wp (answer_path cid dev back) (fun r y' => ready dev y' v /\ sy_reader y' = sy_reader y /\
        (back = [] /\ r = None \/ exists pk, back = envelope None cid pk /\ r = Some [pk])) safe y.
Proof.
  intros Hok Hy Hc Hd Hback. unfold answer_path.
  destruct Hback as [->|(pk & -> & Hpk)]; [by wp_steps; split_and!; [..|left]|].
  rewrite bool_decide_eq_false_2 by done. unfold on_broker. wp_steps. apply wp_emitted.
  destruct (reply_body_fields pk Hpk) as (op & Ho & Hop & Hlen).
  eapply wp_mono; [by apply (reader_reply_reaches_client (sy_ctx y) dev cid pk op (rd_ctx _ _ _ Hy))| |done].
  intros rc b' (fs & hop & (_ & Hctx & t0 & t & Ht & Hcase) & Hout & Hin).
  destruct Hcase as [(_ & -> & Hf)|[? _]]; [|done]. exists t0. rewrite app_nil_r in Ht.
  split; [exact Ht|]. rewrite Hf, Hout, bool_decide_eq_true_2 by done. wp_steps.
  split; [by constructor; [|apply Hy..]|]. split; [done|]. right. exists pk. by rewrite Hin.
Qed.

(** ** An exchange *)

(** What the client gets for its RPC, and what becomes of the reader. *)
Inductive answers (batch : Z) (cid : conn_id) (body : bytes) op v
    : option (list bytes) -> view -> Prop :=
| answers_code rc t v' :
    @served Wr _ batch cid body op v rc t v' -> rc < 0 \/ rc = 1 -> frames_of t = [] ->
    answers batch cid body op v (Some [enc_ack (ack_message rc)]) v'
| answers_message t v' pk :
    @served Wr _ batch cid body op v 0 t v' -> frames_of t = envelope None cid pk ->
    reply_body pk -> answers batch cid body op v (Some [pk]) v'
| answers_nothing t v' :
    @served Wr _ batch cid body op v 0 t v' -> op = RPC_OP_CLEAR -> frames_of t = [] ->
    answers batch cid body op v None v'.

Context (Hb : ~ @send_refused Wb) (Hr : ~ @send_refused Wr).

Lemma sent_whole fs rc t : @sent Wr fs rc t -> rc = 0 /\ frames_of t = fs.
Proof. by intros [?|(_ & ? & _)]. Qed.

(** How the handlers of the reader answer, when no frame is refused. *)
Lemma served_answers batch cid body op v rc t v' :
  for_reader op -> @served Wr _ batch cid body op v rc t v' ->
  (rc < 0 \/ rc = 1) /\ frames_of t = [] \/
  rc = 0 /\ (exists pk, frames_of t = envelope None cid pk /\ reply_body pk) \/
  rc = 0 /\ frames_of t = [] /\ op = RPC_OP_CLEAR.
Proof.
  intros Hop Hs.
  assert (Hneg : forall e, e = - EINVAL \/ e = - EALREADY \/ e = - ENOMEM \/ e = - EPROTO -> e < 0 \/ e = 1).
  { unfold EINVAL, EALREADY, ENOMEM, EPROTO. lia. }
  assert (Hsent : forall e f, @sent Wr (envelope None cid e) rc f -> reply_body e ->
    (rc < 0 \/ rc = 1) /\ frames_of f = [] \/
    rc = 0 /\ (exists pk, frames_of f = envelope None cid pk /\ reply_body pk) \/
    rc = 0 /\ frames_of f = [] /\ op = RPC_OP_CLEAR).
  { intros e f [-> Hf]%sent_whole He. right. left. eauto. }
  destruct Hs; try (left; split; [apply Hneg; tauto|done]);
    try (left; split; [apply Hneg; tauto|by match goal with Hs : silent _ |- _ => apply Hs end]);
    try (left; split; [tauto|by match goal with Hs : silent _ |- _ => apply Hs end]);
    try (eapply Hsent; [eassumption|constructor]); try (by right; right).
Qed.

(** The frames that the reader sends for an RPC are those of its answer. *)
Lemma reader_back cid body op s v rc s' :
  rpc_of op body -> @answered Wr _ cid body s v rc s' ->
  exists v' t r, s_trace s' = s_trace s ++ t /\ answers (batch_of s) cid body op v r v' /\
    @represents _ s' v' /\ static (r_env s) (r_env s') /\
    match r with
    | Some pks => exists pk, pks = [pk] /\ frames_of t = envelope None cid pk /\ reply_body pk
    | None => frames_of t = []
    end.
Proof.
  intros (Hop & Hcode & Hlen) (rc0 & t0 & t & v' & Ht & _ & Hd & Hrep & Hv' & Hst).
  assert (Hsd : sizeof_hdr <= Z.of_nat (length body)).
  { destruct Hop as [->|[->|[->| ->]]]; cbn in Hlen;
      unfold sizeof_hdr, sizeof_register, sizeof_dequeue, sizeof_clear, sizeof_fini in *; lia. }
  assert (Hs : @served Wr _ (batch_of s) cid body op v rc0 t0 v').
  { pose proof (op_of_code_code op) as Hco. rewrite <- Hcode in Hco.
    destruct Hd as [|? _ Hbad|op' ? ? ? ? _ Hop' Hs]; [lia|congruence|].
    by replace op with op' by congruence. }
  destruct (served_answers _ _ _ _ _ _ _ _ Hop Hs) as [[Hrc Hf]|[[-> (pk & Hf & Hpk)]|(-> & Hf & Hclr)]].
  - destruct Hrep as [rc t1 _ [_ Hf1]%sent_whole|]; [|lia].
    exists v', (t0 ++ t1), (Some [enc_ack (ack_message rc0)]).
    split_and!; [done|by econstructor|done|done|]. eexists. split_and!; [done| |constructor].
    by rewrite frames_of_app, Hf, Hf1.
  - destruct Hrep as [rc t1 Hrc _|]; [lia|]. exists v', t0, (Some [pk]).
    split_and!; [done|by econstructor|done|done|]. by exists pk.
  - destruct Hrep as [rc t1 Hrc _|]; [lia|]. exists v', t0, None.
    split_and!; [done|by econstructor|done|done|done].
Qed.

(** A whole request faults only in a CLEAR. *)
Lemma rpc_long op body : rpc_of op body -> 4 <= Z.of_nat (length body).
Proof.
  intros ([->|[->|[->| ->]]] & _ & Hlen); cbn in Hlen;
    unfold sizeof_hdr, sizeof_register, sizeof_dequeue, sizeof_clear, sizeof_fini in *; lia.
Qed.

Lemma rpc_of_fault cfg op body f :
  rpc_of op body -> rpc_fault cfg body f -> op = RPC_OP_CLEAR /\ f = UseAfterFree.
Proof.
  intros Hrpc Hf. pose proof Hrpc as (_ & Hcode & _).
  apply rpc_fault_long in Hf as [Hfc ->]; [split; [|done]|by eapply rpc_long].
  pose proof (op_of_code_code op) as Hco. rewrite <- Hcode in Hco. congruence.
Qed.

Lemma ask_reader_spec cid body op s v :
  @represents _ s v -> rpc_of op body ->
  wp (ask_reader cid body) (fun r s' => exists v', @represents _ s' v' /\
        static (r_env s) (r_env s') /\ answers (batch_of s) cid body op v r v')
     (fun f => op = RPC_OP_CLEAR /\ f = UseAfterFree) s.
Proof.
  intros Hv Hrpc. pose proof Hrpc as (_ & Hcode & _). unfold ask_reader. wp_steps. apply wp_emitted.
  eapply wp_mono; [by apply (@changelog_reader_rpc_hdl_spec Wr _ _ v _ cid)|cbn beta; cbn [lr_body]|].
  - intros rc s' Ha.
    destruct (reader_back _ _ _ _ _ _ _ Hrpc Ha) as (v' & t & r & Ht & Hans & Hv' & Hst & Hback).
    exists t. split; [exact Ht|]. wp_steps. exists v'. split_and!; [done..|].
    destruct r as [pks|]; [destruct Hback as (pk & -> & -> & _)|rewrite Hback]; exact Hans.
  - cbn [lr_body]. intros f. by apply rpc_of_fault.
Qed.

(** A request of a client is served by the reader of its device and the answer
    comes back to that client, in one frame, whatever the broker has done
    before: the client gets what the reader alone would answer. The only fault
    is the use after free of CLEAR. *)
Lemma exchange_alone cid dev body op y v :
  ready dev y v -> cid <> [] -> dev <> [] -> rpc_of op body ->
  wp (exchange cid dev body) (fun r y' =>
        ask_reader cid body (sy_reader y) = Ok (r, sy_reader y') /\
        exists v', ready dev y' v' /\ static (r_env (sy_reader y)) (r_env (sy_reader y')) /\
          answers (batch_of (sy_reader y)) cid body op v r v')
     (fun f => ask_reader cid body (sy_reader y) = Fault f /\ op = RPC_OP_CLEAR /\ f = UseAfterFree) y.
Proof.
  intros [Hctx Hv Hid] Hc Hd Hrpc. pose proof Hrpc as (Hop & Hcode & Hlen).
  unfold exchange. wp_steps. unfold on_broker at 1. wp_steps. apply wp_emitted.
  eapply wp_mono; [by apply (client_request_reaches_reader (sy_ctx y) cid dev body op)|cbn beta|done].
  intros rc b1 (fs & hop & (_ & Hctx1 & t0 & t & Ht & Hcase) & Hout & Hreq).
  destruct Hcase as [(_ & -> & Hf)|[? _]]; [|done]. rewrite app_nil_r in Ht. exists t0.
  split; [exact Ht|]. cbn beta. rewrite Hf, Hout. wp_steps. cbn [compose sy_reader]. rewrite Hid.
  rewrite bool_decide_eq_true_2, Hreq by done. wp_steps. unfold on_reader. wp_steps.
  apply wp_emitted. cbn [sy_reader].
  eapply wp_mono; [apply wp_self; by apply (@changelog_reader_rpc_hdl_spec Wr _ _ v _ cid)|cbn beta; cbn [lr_body]|].
  2: { cbn [lr_body]. intros f (Hrun & Hfc). unfold ask_reader, emitted, mbind, M_bind. rewrite Hrun.
       split; [done|]. by eapply rpc_of_fault. }
  intros rc2 s2 [Hrun Ha]. destruct (reader_back _ _ _ _ _ _ _ Hrpc Ha)
    as (v' & t2 & r & Ht2 & Hans & Hv' & Hst & Hback).
  exists t2. split; [exact Ht2|]. apply (emitted_Ok _ _ _ _ t2) in Hrun; [|exact Ht2].
  assert (Hready : ready dev (mkSys b1 s2) v').
  { constructor; [done|done|]. cbn. destruct Hst as (_ & _ & _ & _ & _ & _ & ->). exact Hid. }
  eapply wp_mono; [apply (answer_path_spec _ _ _ _ (frames_of t2) Hb Hready Hc Hd)|cbn beta|done].
  { destruct r as [pks|]; [right|by left]. destruct Hback as (pk & _ & Hf2 & Hpk). by exists pk. }
  intros r' y' (Hy' & Heq & Hres). rewrite Heq.
  assert (r' = r /\ r = (fun pk => [pk]) <$> last (frames_of t2).*1) as [-> Hlast].
  { destruct r as [pks|].
    - destruct Hback as (pk & -> & Hf2 & _). rewrite Hf2 in Hres |- *.
      by destruct Hres as [[? _]|(pk' & [= <-] & ->)].
    - rewrite Hback in Hres |- *. by destruct Hres as [[_ ->]|(pk' & Hbad & _)]. }
  split; [|by exists v'].
  unfold ask_reader, mbind, M_bind. by rewrite Hrun, Hlast.
Qed.

Lemma exchange_spec cid dev body op y v :
  ready dev y v -> cid <> [] -> dev <> [] -> rpc_of op body ->
  wp (exchange cid dev body) (fun r y' => exists v', ready dev y' v' /\
        static (r_env (sy_reader y)) (r_env (sy_reader y')) /\
        answers (batch_of (sy_reader y)) cid body op v r v')
     (fun f => op = RPC_OP_CLEAR /\ f = UseAfterFree) y.
Proof.
  intros Hy Hc Hd Hrpc. eapply wp_mono; [by apply exchange_alone|by intros ? ? [_ ?]|by intros ? [_ ?]].
Qed.
End system.

(** ** A receive, from the client to the reader and back *)

Section unique.
Context `{ChangelogRecLaws}.

(** A sequence of whole records is cut in one way. *)
Lemma concat_whole_inj rs rs' :
  Forall whole_rec rs -> Forall whole_rec rs' -> length rs = length rs' ->
  concat rs = concat rs' -> rs = rs'.
Proof.
  intros Hw. revert rs'. induction Hw as [|r rs [Hl Hr] Hw IH]; intros [|r' rs'] Hw' Hlen Heq;
    try done. apply Forall_cons in Hw' as [[Hl' Hr'] Hw']. cbn [concat] in Heq.
  assert (Hsame : length r = length r').
  { pose proof (rec_fields r (concat rs) Hl) as H1. pose proof (rec_fields r' (concat rs') Hl') as H2.
    rewrite Heq in H1. lia. }
  apply app_inj_1 in Heq as [-> Heq]; [|done]. f_equal. apply IH; [done| |done].
  cbn in Hlen. lia.
Qed.

(** A packet tells the records that were put into it. *)
Lemma packet_inj bk bk' :
  packable bk -> packable bk' -> enqueue_packet bk = enqueue_packet bk' ->
  wire_rec <$> bk_recs bk = wire_rec <$> bk_recs bk'.
Proof.
  intros [Hok Hl] [Hok' Hl'] Heq.
  destruct (enqueue_fields bk Hl) as [_ Hc]. destruct (enqueue_fields bk' Hl') as [_ Hc'].
  rewrite Heq, Hc' in Hc. apply concat_whole_inj; [by apply wire_recs_whole..| |].
  - rewrite !length_fmap. lia.
  - unfold enqueue_packet, enc_enqueue in Heq. cbn [enq_hdr enq_count enq_records] in Heq.
    apply app_inv_head in Heq. apply app_inj_1 in Heq as [_ Heq]; [done|].
    by rewrite !length_le_enc.
Qed.
End unique.

Section receive.
Context (Wc Wb Wr : World) `{ChangelogRecLaws, ZmqSocketsLaws}.
Implicit Types (y : system) (v : view) (c : client).

(** The client [cid] holds the bucket [b], which was sent as [bk]. *)
Definition bound (cid : conn_id) v (b : loc) (bk : lcap_rec_bucket) : Prop :=
  exists k cs due, (k, cs) ∈ v_cls v /\ cs_ident cs = cid /\ cs_bucket cs = Some b /\
    (b, set_expiry due bk) ∈ v_bks v.

Lemma bucket_packable s v b bk due :
  @represents _ s v -> (b, set_expiry due bk) ∈ v_bks v -> packable bk.
Proof.
  intros [[_ He] _] Hin. pose proof (ei_bounds _ _ _ He) as Hall.
  rewrite Forall_forall in Hall. specialize (Hall _ Hin). cbn [snd] in Hall.
  destruct (ei_cfg _ _ _ He) as ((Hb0 & Hm0 & Hc0) & _). unfold capacity in Hc0.
  pose proof (length_bk_recs _ _ Hall) as Hlen. pose proof (bo_count _ _ Hall).
  split; [apply (bo_recs _ _ Hall)|]. change (bk_recs (set_expiry due bk)) with (bk_recs bk) in Hlen.
  rewrite Hlen. nia.
Qed.

(** The reply to a DEQUEUE. *)
Lemma answers_dequeue s batch cid body v pk v' :
  ~ @send_refused Wr -> @represents _ s v' -> answers Wr batch cid body RPC_OP_DEQUEUE v (Some [pk]) v' ->
  reply_or_empty pk /\
  ((exists rc, pk = enc_ack (ack_message rc)) \/
   exists b bk, pk = enqueue_packet bk /\ bound cid v' b bk).
Proof.
  intros Hsr Hv Hans. remember (Some [pk]) as r eqn:Hr.
  destruct Hans as [rc t v' Hs Hrc Hf|t v' pk' Hs Hf Hpk|]; simplify_eq.
  - split; [|left; by exists rc].
    destruct (@served_dequeue_reply Wr _ _ _ _ _ _ _ _ _ Hv Hs) as [(Hok & _)|(bk & _ & Hsent)]; [done|].
    destruct Hsent as [[-> _]|(_ & Href & _)]; [lia|done].
  - pose proof (served_dequeue_0 _ _ _ _ _ _ Hs) as (k & cs & k1 & k2 & now & now' & l1 & b & bk
      & l2 & new & (_ & _ & Hid) & _ & _ & Hf' & ->).
    rewrite Hf in Hf'. unfold envelope in Hf'. cbn [app] in Hf'. simplify_eq.
    split; [by eapply packet_reply|]. right. exists b, bk. split; [done|].
    exists k, (set_cs_bucket (Some b) cs), (deadline now'). cbn [v_cls v_bks].
    split_and!; [apply elem_of_app; right; by left|done|done|apply elem_of_app; right; by left].
Qed.

(** What the client's REQ socket hands out after a DEQUEUE is what an exchange
    with the broker and the reader yields. *)
Definition wired (cid dev : conn_id) c y : Prop :=
  forall t pks y', frames_of t = request dev (enc_dequeue cl_dequeue_pack) ->
    exchange Wb Wr cid dev (enc_dequeue cl_dequeue_pack) y = Ok (Some pks, y') ->
    exists pk, pks = [pk] /\ @w_frame Wc (cl_trace c ++ t) = (pk, false).

Lemma dequeue_rpc : rpc_of RPC_OP_DEQUEUE (enc_dequeue cl_dequeue_pack).
Proof.
  split; [by right; left|]. split; [by apply get_op_type_hdr|]. done.
Qed.

(** What a receive delivers from the bucket that the reader keeps for [cid]. *)
Definition delivered (cid dev : conn_id) v (o : Z * option rec_ptr) c' : Prop :=
  exists r rs b bk, fst o = 0 /\ bound cid v b bk /\ wire_rec <$> bk_recs bk = r :: rs /\
    (exists x, snd o = Some x /\ reads c' x r) /\ client_holds c' dev rs.

Lemma recv_spec n cid dev c y v pk y' :
  ~ @send_refused Wb -> ~ @send_refused Wr -> ready dev y v -> cid <> [] -> dev <> [] ->
  client_holds c dev [] -> wired cid dev c y ->
  exchange Wb Wr cid dev (enc_dequeue cl_dequeue_pack) y = Ok (Some [pk], y') ->
  pk <> packet_of [] ->
  exists v', ready dev y' v' /\
    wp (@px_changelog_recv Wc _ (S n)) (fun o c' => delivered cid dev v' o c' \/
          fst o <> 0 /\ snd o = None) safe c.
Proof.
  intros Hb Hr Hy Hcid Hdev Hc Hwire Hex Hne.
  pose proof (wp_Ok _ _ _ _ _ _ (exchange_spec Wb Wr Hb Hr _ _ _ _ _ _ Hy Hcid Hdev dequeue_rpc) Hex)
    as (v' & Hy' & _ & Hans).
  exists v'. split; [done|]. destruct (answers_dequeue _ _ _ _ _ _ _ Hr (rd_repr _ _ _ Hy') Hans) as [Hrep Hcase].
  assert (Hgood : reader_reply pk).
  { destruct Hrep as [?|(bk & Hemp & ->)]; [done|]. destruct Hne.
    change (packet_of (bk_recs bk) = packet_of []). by rewrite Hemp. }
  assert (Hsrv : forall pk', @server_sends Wc c dev pk' -> pk' = pk).
  { intros pk' (t & Ht & Hw). destruct (Hwire _ _ _ Ht Hex) as (pk2 & [= <-] & Hw2). congruence. }
  assert (Hdeq : @dequeue_answered Wc _ c dev).
  { intros t Ht. destruct (Hwire _ _ _ Ht Hex) as (pk2 & [= <-] & ->). done. }
  eapply wp_mono; [by apply (@px_recv_refill_spec Wc _ _ n c dev)|cbn beta|done].
  intros o c' (s1 & Hd & [(Ho & Hno & _)|(bk & r & rs & Hbk & Hpack & Hss & Hs1 & (Hbufs & _ & Ho & x & Hx & Hrd) & Hc')]);
    [by right|]. left.
  pose proof (Hsrv _ Hss) as Hss'. destruct Hcase as [[rc ->]|(b & bk' & -> & Hbound)].
  { apply (f_equal get_op_type) in Hss'. unfold enqueue_packet, enc_enqueue, enc_ack in Hss'.
    by rewrite !get_op_type_hdr in Hss'. }
  exists r, rs, b, bk'. split_and!; [done|done| |by exists x; split; [|by apply (reads_bufs s1)]|done].
  pose proof Hbound as (k & cs & due & _ & _ & _ & Hin).
  pose proof (bucket_packable _ _ _ _ _ (rd_repr _ _ _ Hy') Hin) as Hpk'.
  by rewrite <- (packet_inj bk bk' Hpack Hpk' Hss').
Qed.
End receive.

(** ** Runs of the system *)

Section runs.
Context (Wb Wr : World) `{ChangelogRec, ZmqSocketsLaws} (dev : conn_id).
Implicit Types (y : system) (v : view).

(** A step: an exchange of a client with the reader of [dev], or a batch that
    the reader reads. *)
Inductive sys_step y : option (conn_id * option (list bytes)) -> system -> Prop :=
| sys_exchange cid op body r y' :
    cid <> [] -> rpc_of op body -> exchange Wb Wr cid dev body y = Ok (r, y') ->
    sys_step y (Some (cid, r)) y'
| sys_read fuel rc s' :
    @changelog_reader_enqueue Wr _ fuel (sy_reader y) = Ok (rc, s') ->
    sys_step y None (mkSys (sy_ctx y) s').

(** A run and its history: who got which reply. *)
Inductive sys_run y : list (conn_id * option (list bytes)) -> system -> Prop :=
| run_nil : sys_run y [] y
| run_snoc hs y' h y'' :
    sys_run y hs y' -> sys_step y' h y'' -> sys_run y (hs ++ option_list h) y''.

(** The ENQUEUE packets that the clients got, in the order of the replies. *)
Definition got_packets (hs : list (conn_id * option (list bytes))) : list bytes :=
  filter (fun p => get_op_type p = op_code RPC_OP_ENQUEUE) (concat (default [] <$> hs.*2)).

Lemma got_packets_app hs1 hs2 : got_packets (hs1 ++ hs2) = got_packets hs1 ++ got_packets hs2.
Proof. unfold got_packets. by rewrite !fmap_app, concat_app, filter_app. Qed.

(** A new reader, connected to a broker. *)
Definition fresh_system y : Prop :=
  exists b idx batch, ready dev y (mkView [(b, new_bucket idx batch)] [] (Some b)).

Context (Hb : ~ @send_refused Wb) (Hr : ~ @send_refused Wr) (Hdev : dev <> []).

Lemma answers_orderly (t0 : Z) batch cid body op v r v' sent pend :
  @punctual Wr t0 -> distinct v -> orderly t0 v sent pend -> answers Wr batch cid body op v r v' ->
  sends_next t0 sent v' (got_packets [(cid, r)]).
Proof.
  intros Hpu Hdis Ho Hans.
  assert (Hgo : forall rc t w ps, @served Wr _ batch cid body op v rc t w ->
    packets (frames_of t) = ps -> sends_next t0 sent w ps).
  { intros rc t w ps Hs <-. by eapply (@served_orderly Wr). }
  destruct Hans as [rc t v' Hs Hrc Hf|t v' pk Hs Hf Hpk|t v' Hs _ Hf];
    (eapply Hgo; [exact Hs|by rewrite Hf]).
Qed.

Lemma step_orderly (t0 : Z) y v sent pend rss hs h y' :
  @upstream_ok Wr _ -> @punctual Wr t0 -> sys_step y h y' -> ready dev y v ->
  orderly t0 v sent pend -> got_packets hs = packet_of <$> rss -> sublist rss (all_recs sent) ->
  exists v' sent' pend' rss', ready dev y' v' /\ orderly t0 v' sent' pend' /\
    got_packets (hs ++ option_list h) = packet_of <$> rss' /\ sublist rss' (all_recs sent').
Proof.
  intros Hup Hpu Hst Hy Ho Hps Hsub. rewrite got_packets_app, Hps.
  destruct Hst as [cid op body r y' Hcid Hrpc Hex|fuel rc s' Hrun].
  - pose proof (wp_Ok _ _ _ _ _ _ (exchange_spec Wb Wr Hb Hr _ _ _ _ _ _ Hy Hcid Hdev Hrpc) Hex)
      as (v' & Hy' & _ & Hans). exists v'.
    destruct (answers_orderly t0 _ _ _ _ _ _ _ _ _ Hpu (represents_distinct _ _ (rd_repr _ _ _ Hy)) Ho Hans)
      as (sent' & pend' & Ho' & Hcase). exists sent', pend'.
    change (option_list (Some (cid, r))) with [(cid, r)].
    destruct Hcase as [[Heq ->]|(recs & Heq & [->| ->])].
    + exists rss. by rewrite Heq, app_nil_r.
    + exists rss. rewrite Heq, app_nil_r. split_and!; [done..|]. by apply sublist_inserts_r.
    + exists (rss ++ [recs]). rewrite Heq, fmap_app. split_and!; [done..|]. by apply sublist_app.
  - pose proof (wp_Ok _ _ _ _ _ _ (@enqueue_spec Wr _ Hup fuel _ _ _ (proj1 (rd_repr _ _ _ Hy))) Hrun)
      as (t & bks & recs & lost & _ & _ & Hinv & Hk & Hg & _).
    destruct (orderly_read _ _ _ _ _ _ Ho Hg) as [pend' Ho'].
    exists (mkView bks (v_cls v) (v_deliver v)), sent, pend', rss.
    change (got_packets (option_list None)) with (@nil bytes). rewrite app_nil_r. split_and!; [|done..]. destruct Hk as (_ & _ & Hd & _ & Hid).
    constructor; [apply Hy|split; [exact Hinv|]|].
    + cbn. rewrite Hd. apply (rd_repr _ _ _ Hy).
    + cbn. rewrite Hid. apply Hy.
Qed.

Lemma run_orderly (t0 : Z) y hs y' :
  @upstream_ok Wr _ -> @punctual Wr t0 -> fresh_system y -> sys_run y hs y' ->
  exists v sent pend rss, ready dev y' v /\ orderly t0 v sent pend /\
    got_packets hs = packet_of <$> rss /\ sublist rss (all_recs sent).
Proof.
  intros Hup Hpu (b & idx & batch & Hy) Hrun. induction Hrun as [|hs y1 h y2 _ IH Hst].
  - exists (mkView [(b, new_bucket idx batch)] [] (Some b)), [], [(b, new_bucket idx batch)], [].
    split_and!; [done|apply orderly_starting|done|done].
  - destruct IH as (v & sent & pend & rss & Hy1 & Ho & Hps & Hsub).
    by eapply step_orderly.
Qed.

(** The DEQUEUE of an idle client when a bucket is due: it gets that bucket. *)
Lemma served_due (t0 : Z) s batch cid body v rc t v' sent pend k cs k1 k2 b bk :
  @punctual Wr t0 -> @represents _ s v -> orderly t0 v sent ((b, bk) :: pend) ->
  sizeof_dequeue <= Z.of_nat (length body) ->
  holds v cid k cs k1 k2 -> cs_bucket cs = None -> v_deliver v = Some b ->
  @served Wr _ batch cid body RPC_OP_DEQUEUE v rc t v' ->
  rc = 0 /\ frames_of t = envelope None cid (enqueue_packet bk) /\ bound cid v' b bk.
Proof.
  intros Hpu Hv Ho Hlen Hh Hcs Hd Hs. pose proof (represents_distinct _ _ Hv) as Hdis.
  inversion Hs as [ | | | |v1 Hbad|v1 c1 cs1 j1 j2 b1 _ Hh1 Hcs1|v1 c1 cs1 j1 j2 now t1 _ _ _ Hch
    |v1 c1 cs1 j1 j2 now l1 b1 bk1 t1 _ _ _ _ Hoom|v1 c1 cs1 j1 j2 now l1 b1 bk1 l2 new t1 _ _ _ _ _ Hoom
    |v1 c1 cs1 j1 j2 now now' l1 b1 bk1 l2 new rc1 t1 _ Hh1 _ Hch _ _ Hsent| | | | | | |op v1 Hbad]; subst.
  - destruct Hbad as [?|Hno]; [lia|]. destruct Hh as (_ & Hc & _). congruence.
  - destruct (holds_unique _ _ _ _ _ _ _ _ _ _ _ Hv Hh Hh1) as [<- <-]. congruence.
  - by inversion Hch; congruence.
  - by destruct (pu_memory _ Hpu).
  - by destruct (pu_memory _ Hpu).
  - destruct (orderly_chosen _ _ _ _ _ _ _ _ _ Hpu Ho Hdis Hch) as [-> [= -> -> ->]].
    apply (sent_whole Wr Hr) in Hsent as [-> Hf]. split_and!; [done|done|].
    exists c1, (set_cs_bucket (Some b1) cs1), (deadline now'). cbn [v_cls v_bks].
    destruct Hh1 as (_ & _ & Hid).
    split_and!; [apply elem_of_app; right; by left|done|done|apply elem_of_app; right; by left].
  - by destruct Hbad as [|[|]].
Qed.

Lemma exchange_due (t0 : Z) cid y v sent pend k cs k1 k2 b bk :
  @punctual Wr t0 -> ready dev y v -> orderly t0 v sent ((b, bk) :: pend) -> cid <> [] ->
  holds v cid k cs k1 k2 -> cs_bucket cs = None -> v_deliver v = Some b ->
  wp (exchange Wb Wr cid dev (enc_dequeue cl_dequeue_pack))
     (fun r y' => r = Some [enqueue_packet bk] /\ exists v', ready dev y' v' /\ bound cid v' b bk)
     safe y.
Proof.
  intros Hpu Hy Ho Hcid Hh Hcs Hd.
  assert (Hdue := served_due t0 (sy_reader y) (batch_of (sy_reader y)) cid (enc_dequeue cl_dequeue_pack) v).
  eapply wp_mono; [by apply (exchange_spec Wb Wr Hb Hr cid dev _ _ y v Hy Hcid Hdev dequeue_rpc)|cbn beta|by intros f [? _]].
  intros r y' (v' & Hy' & _ & Hans). destruct Hans as [rc t v' Hs Hrc _|t v' pk Hs Hf _|t v' Hs ? _]; [| |done].
  - destruct (Hdue _ _ _ _ _ _ _ _ _ _ _ Hpu (rd_repr _ _ _ Hy) Ho ltac:(done) Hh Hcs Hd Hs) as (-> & _). lia.
  - destruct (Hdue _ _ _ _ _ _ _ _ _ _ _ Hpu (rd_repr _ _ _ Hy) Ho ltac:(done) Hh Hcs Hd Hs) as (_ & Hf' & Hbd).
    rewrite Hf in Hf'. unfold envelope in Hf'. cbn [app] in Hf'. simplify_eq.
    split; [done|]. by exists v'.
Qed.
End runs.
