(* ===== verification/SystemProps.v ===== *)
(** * The properties of the whole system

    A client, the broker and the reader together: every request is answered, a
    receive delivers what the reader keeps for that client, and the records
    that all the clients get are the upstream records, in order. *)
From S2P Require Import Prelude World Queue Idl LcapNet RpcUtils Effects Config Broker PxClient Reader ReaderRep ReaderInv ReaderBuckets ReaderRpc ReaderEnqueue ReaderSpec Demo ReaderHandlers ReaderMain ReaderRun PxSpec PxProps Routing System.
Local Open Scope Z_scope.

Section props.
Context (Wb Wr : World) `{ChangelogRec, ZmqSocketsLaws} (dev : conn_id).
Implicit Types (y : system) (v : view).
Context (Hb : ~ @send_refused Wb) (Hr : ~ @send_refused Wr) (Hdev : dev <> []).

(** C5: Every well-formed request of a client, sent through the broker to the
    reader of its device, is served there as specified, and the client gets
    back exactly one frame - the code or the packet of that service - except
    for a CLEAR without a bucket; the system stays ready for the next
    request. The only fault is the use after free of CLEAR. *)
Theorem exchange_answered cid body op y v :
  ready dev y v -> cid <> [] -> rpc_of op body ->
  wp (exchange Wb Wr cid dev body) (fun r y' => exists v', ready dev y' v' /\
        static (r_env (sy_reader y)) (r_env (sy_reader y')) /\
        answers Wr (batch_of (sy_reader y)) cid body op v r v')
     (fun f => op = RPC_OP_CLEAR /\ f = UseAfterFree) y.
Proof. intros Hy Hc. by apply exchange_spec. Qed.

(** C10: When a bucket is due and no bucket that was sent has expired - the
    clock stays within one acknowledgement timeout and the memory of the
    reader does not run out -, the DEQUEUE of an idle client that is
    registered ends, without any fault, with the packet of that bucket, and
    the reader keeps the bucket for that client. No send of the broker or of
    the reader is refused. *)
Theorem idle_client_gets_next (t0 : Z) cid y v sent pend k cs k1 k2 b bk :
  @punctual Wr t0 -> ready dev y v -> orderly t0 v sent ((b, bk) :: pend) -> cid <> [] ->
  holds v cid k cs k1 k2 -> cs_bucket cs = None -> v_deliver v = Some b ->
  wp (exchange Wb Wr cid dev (enc_dequeue cl_dequeue_pack))
     (fun r y' => r = Some [enqueue_packet bk] /\ exists v', ready dev y' v' /\ bound cid v' b bk)
     safe y.
Proof. by apply exchange_due. Qed.

(** In every run of a new system that is shorter than the acknowledgement
    timeout, with enough memory - clients that register, ask, acknowledge
    and leave in any order, between batches that the reader reads - the
    ENQUEUE packets that the clients get carry, together, the upstream
    records in order, none twice; no two clients hold the same bucket. *)
Theorem clients_share_the_stream (t0 : Z) y hs y' :
  @upstream_ok Wr _ -> @punctual Wr t0 -> fresh_system dev y -> sys_run Wb Wr dev y hs y' ->
  exists v rss, ready dev y' v /\ NoDup (held (v_cls v)) /\
    got_packets hs = packet_of <$> rss /\ sublist (concat rss) (stream (v_bks v)).
Proof.
  intros Hup Hpu Hy Hrun.
  destruct (run_orderly Wb Wr dev Hb Hr Hdev t0 y hs y' Hup Hpu Hy Hrun)
    as (v & sent & pend & rss & Hy' & Ho & Hps & Hsub).
  exists v, rss. split_and!; [done|apply (or_once _ _ _ _ Ho)|done|].
  rewrite (orderly_stream _ _ _ _ Ho). apply sublist_inserts_r. by apply sublist_concat.
Qed.
End props.

(** A receive of a client that has nothing pending, in a system where its
    socket hands out what the broker and the reader answer, delivers the
    first record of the bucket that the reader now keeps for that client and
    holds the others, whole and in order, unless a call fails or the answer
    is a code; no fault. *)
Theorem recv_gets_bucket (Wc Wb Wr : World) `{ChangelogRecLaws, ZmqSocketsLaws}
    n cid dev (c : client) y v pk y' :
  ~ @send_refused Wb -> ~ @send_refused Wr -> ready dev y v -> cid <> [] -> dev <> [] ->
  client_holds c dev [] -> wired Wc Wb Wr cid dev c y ->
  exchange Wb Wr cid dev (enc_dequeue cl_dequeue_pack) y = Ok (Some [pk], y') ->
  pk <> packet_of [] ->
  exists v', ready dev y' v' /\
    wp (@px_changelog_recv Wc _ (S n)) (fun o c' => delivered cid dev v' o c' \/
          fst o <> 0 /\ snd o = None) safe c.
Proof. by apply recv_spec. Qed.

(** ** A concrete system *)

Definition Wb : World := quiet_world 0.
Definition Wr : World := demo_world 5 0.
Definition demo_dev : conn_id := of_str "mdt0".

Lemma demo_no_refusal : ~ @send_refused Wb /\ ~ @send_refused Wr.
Proof. split; intros (t & f & m & Hz); by change (0 < 0) in Hz. Qed.

Lemma demo_punctual_reader : @punctual Wr 5.
Proof.
  split; [intros t; change (5 <= 5 <= 15); lia|]. intros (t & sz & Hz). by change (0 < 0) in Hz.
Qed.

(** The bucket of the record 0 is due, the demo client is idle. *)
Definition demo_system : system :=
  mkSys demo_ctx (demo_reader (demo_bucket 0 0) None (Some 1%positive)).
Definition due_view : view := demo_view (demo_bucket 0 0) None (Some 1%positive).

Lemma demo_ready : ready demo_dev demo_system due_view.
Proof. constructor; [exact demo_ctx_ok|apply demo_represents; auto|reflexivity]. Qed.

Lemma demo_orderly :
  orderly 5 due_view [] [(1%positive, demo_bucket 0 0); (2%positive, new_bucket 1 2)].
Proof.
  constructor; cbn; try done; [by left|apply NoDup_nil_2].
Qed.

Lemma exchange_answered_witness :
  wp (exchange Wb Wr demo_cid demo_dev (enc_dequeue cl_dequeue_pack))
     (fun r y' => exists v', ready demo_dev y' v' /\
        static (r_env (sy_reader demo_system)) (r_env (sy_reader y')) /\
        answers Wr (batch_of (sy_reader demo_system)) demo_cid (enc_dequeue cl_dequeue_pack)
          RPC_OP_DEQUEUE due_view r v')
     (fun f => RPC_OP_DEQUEUE = RPC_OP_CLEAR /\ f = UseAfterFree) demo_system.
Proof.
  apply (exchange_answered Wb Wr demo_dev (proj1 demo_no_refusal) (proj2 demo_no_refusal));
    [discriminate|exact demo_ready|discriminate|exact dequeue_rpc].
Defined.

Lemma idle_client_gets_next_witness :
  wp (exchange Wb Wr demo_cid demo_dev (enc_dequeue cl_dequeue_pack))
     (fun r y' => r = Some [enqueue_packet (demo_bucket 0 0)] /\
        exists v', ready demo_dev y' v' /\ bound demo_cid v' 1%positive (demo_bucket 0 0))
     safe demo_system.
Proof.
  apply (idle_client_gets_next Wb Wr demo_dev (proj1 demo_no_refusal) (proj2 demo_no_refusal)
    ltac:(discriminate) 5 demo_cid demo_system due_view [] [(2%positive, new_bucket 1 2)]
    3%positive (mkClient 0 None demo_cid) [] []);
    [exact demo_punctual_reader|exact demo_ready|exact demo_orderly|discriminate| |done|done].
  by split_and!.
Defined.

Lemma recv_gets_bucket_witness :
  exists y' v', exchange Wb Wr demo_cid demo_dev (enc_dequeue cl_dequeue_pack) demo_system =
      Ok (Some [demo_packet], y') /\ ready demo_dev y' v' /\
    @wp _ _ (@px_changelog_recv (demo_server demo_packet) _ 1)
      (fun o c' => delivered demo_cid demo_dev v' o c' \/ fst o <> 0 /\ snd o = None)
      safe demo_idle.
Proof.
  assert (Hex : exists y', exchange Wb Wr demo_cid demo_dev (enc_dequeue cl_dequeue_pack) demo_system =
    Ok (Some [demo_packet], y')).
  { vm_compute. eexists. reflexivity. }
  destruct Hex as [y' Hex].
  destruct (recv_gets_bucket (demo_server demo_packet) Wb Wr 0 demo_cid demo_dev demo_idle demo_system
    due_view demo_packet y' (proj1 demo_no_refusal) (proj2 demo_no_refusal) demo_ready
    ltac:(discriminate) ltac:(discriminate) demo_idle_holds) as (v' & Hy' & Hrun).
  - intros t pks y2 _ Hex2. rewrite Hex in Hex2. injection Hex2 as <- _. exists demo_packet. split; reflexivity.
  - exact Hex.
  - intros Hp. vm_compute in Hp. discriminate.
  - exists y', v'. split; [exact Hex|]. split; [exact Hy'|exact Hrun].
Defined.

(** A run: a new reader reads two records, a client registers and asks. *)
Definition after {A S} (r : res (A * S)) (d : S) : S :=
  match r with Ok (_, s) => s | Fault _ => d end.

Definition unborn : rstate := mkSt (zero_env demo_cfg 0) ∅ ∅ ∅ 1 [].
Definition born : rstate := after (@changelog_reader_init Wr demo_cfg 0 unborn) unborn.
Definition filled : rstate := after (@changelog_reader_enqueue Wr _ 5 born) born.
Definition sys0 : system := mkSys demo_ctx born.
Definition sys1 : system := mkSys demo_ctx filled.
Definition demo_register : bytes := enc_register (cl_start_pack 0 demo_dev 0).
Definition sys2 : system := after (exchange Wb Wr demo_cid demo_dev demo_register sys1) sys1.
Definition sys3 : system :=
  after (exchange Wb Wr demo_cid demo_dev (enc_dequeue cl_dequeue_pack) sys2) sys2.

Lemma born_fresh : fresh_system demo_dev sys0.
Proof.
  assert (Hcfg : cfg_ok demo_cfg 0) by (split; [done|split; by eexists]).
  assert (Hrun : @changelog_reader_init Wr demo_cfg 0 unborn = Ok (0, born)) by (vm_compute; reflexivity).
  pose proof (@changelog_reader_init_spec Wr _ unborn demo_cfg 0 ltac:(by repeat split) Hcfg) as Hwp.
  apply (wp_Ok _ _ _ _ _ _ Hwp) in Hrun as (_ & _ & Hs).
  destruct (Hs eq_refl) as (_ & b & Hinv & Hd).
  exists b, 0, (ccf_rec_batch_count demo_cfg).
  constructor; [exact demo_ctx_ok|split; [exact Hinv|exact Hd]|vm_compute; reflexivity].
Qed.

Lemma register_rpc : rpc_of RPC_OP_START demo_register.
Proof. split; [by left|]. split; [vm_compute; reflexivity|by vm_compute]. Qed.

Lemma demo_run : exists hs,
  sys_run Wb Wr demo_dev sys0 hs sys3 /\
  got_packets hs = [packet_of [demo_rec 0; demo_rec 1]].
Proof.
  assert (H1 : exists rc, @changelog_reader_enqueue Wr _ 5 born = Ok (rc, filled)).
  { eexists. vm_compute. reflexivity. }
  assert (H2 : exists r, exchange Wb Wr demo_cid demo_dev demo_register sys1 = Ok (r, sys2) /\
    got_packets [(demo_cid, r)] = []).
  { eexists. split; vm_compute; reflexivity. }
  assert (H3 : exists r, exchange Wb Wr demo_cid demo_dev (enc_dequeue cl_dequeue_pack) sys2 =
      Ok (r, sys3) /\ got_packets [(demo_cid, r)] = [packet_of [demo_rec 0; demo_rec 1]]).
  { eexists. split; vm_compute; reflexivity. }
  destruct H1 as [rc H1], H2 as (r2 & H2 & Hp2), H3 as (r3 & H3 & Hp3).
  exists ((([] ++ option_list None) ++ option_list (Some (demo_cid, r2))) ++ option_list (Some (demo_cid, r3))).
  split.
  - eapply run_snoc; [eapply run_snoc; [eapply run_snoc; [apply run_nil|]|]|].
    + eapply sys_read. exact H1.
    + eapply sys_exchange; [discriminate|exact register_rpc|exact H2].
    + eapply sys_exchange; [discriminate|exact dequeue_rpc|exact H3].
  - rewrite !got_packets_app. change (option_list (Some ?x)) with [x]. by rewrite Hp2, Hp3.
Qed.

Lemma clients_share_the_stream_witness :
  exists hs v rss, sys_run Wb Wr demo_dev sys0 hs sys3 /\
    packet_of <$> rss = [packet_of [demo_rec 0; demo_rec 1]] /\
    NoDup (held (v_cls v)) /\ sublist (concat rss) (stream (v_bks v)).
Proof.
  destruct demo_run as (hs & Hrun & Hps). exists hs.
  destruct (clients_share_the_stream Wb Wr demo_dev (proj1 demo_no_refusal) (proj2 demo_no_refusal)
    ltac:(discriminate) 5 sys0 hs sys3 (demo_upstream_ok 5 0) demo_punctual_reader born_fresh Hrun)
    as (v & rss & _ & Hnd & Hgot & Hsub).
  exists v, rss. rewrite <- Hgot. split; [exact Hrun|]. split; [exact Hps|]. by split.
Defined.
