(* ===== verification/Network.v ===== *)
(** * Several requests under way

    The clients, the broker and a reader as a network of queues: a request is
    sent, received by the broker, received by the reader, and its answer takes
    the same way back, each as a step of its own, in any interleaving with the
    other requests and with the batches that the reader reads. Every connection
    keeps the order of its messages; the connections of the clients are
    independent of each other. *)
From S2P Require Import Prelude World Queue Idl LcapNet RpcUtils Effects Config Broker PxClient Reader ReaderRep ReaderInv ReaderBuckets ReaderRpc ReaderEnqueue ReaderSpec ReaderHandlers ReaderMain ReaderRun PxSpec Routing System.
Local Open Scope Z_scope.

(** What happens to the request of a client: it is sent, the reader serves it
    with an answer or with none, the client receives the answer. *)
Inductive net_action :=
| invoke (body : bytes)
| serve (body : bytes) (answer : option (list bytes))
| receive (answer : list bytes).

#[export] Instance net_action_eq_dec : EqDecision net_action.
Proof. solve_decision. Defined.

Abbreviation net_event := (conn_id * net_action)%type.

(** The clients see the sending and the receipt only. *)
Definition visible (e : net_event) : bool :=
  match e.2 with serve _ _ => false | _ => true end.
Definition erase (h : list net_event) : list net_event := filter (fun e => visible e = true) h.

Lemma erase_snoc h e : erase (h ++ [e]) = erase h ++ (if visible e then [e] else []).
Proof.
  unfold erase. rewrite filter_app. f_equal.
  destruct (visible e) eqn:He; [by rewrite filter_cons_True|].
  rewrite filter_cons_False; [done|]. by rewrite He.
Qed.

(** ** The phases of a client *)

Inductive phase :=
| idle
| asking (body : bytes)
| served_with (answer : option (list bytes)).

#[export] Instance phase_eq_dec : EqDecision phase.
Proof. solve_decision. Defined.

(** A request is served once, after it was sent; what is received is what it
    was served with. [None]: the events do not fit. *)
Definition advance (p : phase) (a : net_action) : option phase :=
  match p, a with
  | idle, invoke body => Some (asking body)
  | asking body, serve body' ans => if bool_decide (body = body') then Some (served_with ans) else None
  | served_with (Some ans), receive ans' => if bool_decide (ans = ans') then Some idle else None
  | _, _ => None
  end.

Definition advance_of (cid : conn_id) (p : phase) (e : net_event) : option phase :=
  if bool_decide (e.1 = cid) then advance p e.2 else Some p.

Definition phase_of (cid : conn_id) (h : list net_event) : option phase :=
  foldl (fun p e => p ≫= fun p => advance_of cid p e) (Some idle) h.

Lemma phase_of_snoc cid h e :
  phase_of cid (h ++ [e]) = phase_of cid h ≫= fun p => advance_of cid p e.
Proof. unfold phase_of. by rewrite foldl_app. Qed.

Lemma phase_of_other cid h c a : c <> cid -> phase_of cid (h ++ [(c, a)]) = phase_of cid h.
Proof.
  intros Hc. rewrite phase_of_snoc. unfold advance_of. cbn.
  rewrite bool_decide_eq_false_2 by done. by destruct (phase_of cid h).
Qed.

Lemma phase_of_self cid h p a :
  phase_of cid h = Some p -> phase_of cid (h ++ [(cid, a)]) = advance p a.
Proof.
  intros Hp. rewrite phase_of_snoc, Hp. cbn. unfold advance_of. cbn.
  by rewrite bool_decide_eq_true_2.
Qed.

(** ** The network *)

(** The messages that a sequence of frames is. *)
Fixpoint split_messages (fs : list (bytes * bool)) : list (list (bytes * bool)) :=
  match fs with
  | [] => []
  | (f, more) :: fs =>
      match split_messages fs, more with
      | m :: ms, true => ((f, more) :: m) :: ms
      | ms, _ => [(f, more)] :: ms
      end
  end.

Lemma split_envelope src dst msg : split_messages (envelope src dst msg) = [envelope src dst msg].
Proof. by destruct src. Qed.

#[export] Instance byte_countable : Countable byte :=
  inj_countable Byte.to_N Byte.of_N Byte.of_to_N.

Record network := mkNet {
  n_ctx : lcap_ctx;
  n_reader : rstate;
  n_up : list (conn_id * list (bytes * bool));  (** from a client to the broker *)
  n_down : list (list bytes);                   (** from the broker to the reader *)
  n_back : list (list (bytes * bool));          (** from the reader to the broker *)
  n_mail : list (conn_id * list bytes);         (** from the broker to a client *)
  n_waiting : gset conn_id;                     (** REQ sockets that wait for a reply *)
  n_log : list net_event;                       (** what the clients did *)
}.

Definition set_sides (c : lcap_ctx) (s : rstate) (n : network) : network :=
  mkNet c s (n_up n) (n_down n) (n_back n) (n_mail n) (n_waiting n) (n_log n).
Definition set_up up (n : network) : network :=
  mkNet (n_ctx n) (n_reader n) up (n_down n) (n_back n) (n_mail n) (n_waiting n) (n_log n).
Definition set_down down (n : network) : network :=
  mkNet (n_ctx n) (n_reader n) (n_up n) down (n_back n) (n_mail n) (n_waiting n) (n_log n).
Definition set_back back (n : network) : network :=
  mkNet (n_ctx n) (n_reader n) (n_up n) (n_down n) back (n_mail n) (n_waiting n) (n_log n).
Definition set_mail mail (n : network) : network :=
  mkNet (n_ctx n) (n_reader n) (n_up n) (n_down n) (n_back n) mail (n_waiting n) (n_log n).
Definition set_client waiting log (n : network) : network :=
  mkNet (n_ctx n) (n_reader n) (n_up n) (n_down n) (n_back n) (n_mail n) waiting log.

(** Who moves. [i] chooses among the clients. *)
Inductive net_move :=
| Ask (cid : conn_id) (body : bytes)
| ToBroker (i : nat)
| ToReader
| FromReader
| ToClient (i : nat)
| Batch (fuel : nat).

Section network.
Context (Wb Wr : World) `{ChangelogRec, ZmqSocketsLaws} (dev : conn_id).

Definition net_broker {A} (m : M lcap_ctx A) : M network A :=
  zoom n_ctx (fun c n => set_sides c (n_reader n) n) m.
Definition net_reader {A} (m : M rstate A) : M network A :=
  zoom n_reader (fun s n => set_sides (n_ctx n) s n) m.

(** The ROUTER socket sends a message to the peer that its first frame names;
    the reader is the peer of its own identity. *)
Definition route (n : network) (fs : list (bytes * bool)) : network :=
  match router_out fs.*1 with
  | Some (dst, hop) =>
      if bool_decide (re_ident (r_env (n_reader n)) = Some dst) then set_down (n_down n ++ [hop]) n
      else set_mail (n_mail n ++ [(dst, hop)]) n
  | None => n
  end.

Definition broker_turn (req : lcapnet_request) : M network unit :=
  fs ← net_broker (emitted (@lcapd_process_request Wb req));
  modify (fun n => foldl route n (split_messages fs)).

(** A REQ socket that waits for its reply refuses to send. A move that is not
    possible does nothing. *)
Definition net_exec (e : net_move) : M network unit :=
  n ← gets id;
  match e with
  | Ask cid body =>
      if decide (cid ∈ n_waiting n) then mret tt
      else modify (fun n => set_client (n_waiting n ∪ {[ cid ]}) (n_log n ++ [(cid, invoke body)])
                              (set_up (n_up n ++ [(cid, request dev body)]) n))
  | ToBroker i =>
      match n_up n !! i with
      | None => mret tt
      | Some (cid, fs) =>
          modify (fun n => set_up (delete i (n_up n)) n);;
          broker_turn (from_client cid fs)
      end
  | ToReader =>
      match n_down n with
      | [] => mret tt
      | hop :: down =>
          modify (set_down down);;
          fs ← net_reader (emitted (@changelog_reader_rpc_hdl Wr _ (request_of true hop)));
          modify (fun n => set_back (n_back n ++ split_messages fs) n)
      end
  | FromReader =>
      match n_back n with
      | [] => mret tt
      | fs :: back => modify (set_back back);; broker_turn (from_reader dev fs)
      end
  | ToClient i =>
      match n_mail n !! i with
      | None => mret tt
      | Some (cid, hop) =>
          modify (fun n => set_mail (delete i (n_mail n)) n);;
          match req_in hop with
          | Some ans => modify (fun n => set_client (n_waiting n ∖ {[ cid ]})
                                           (n_log n ++ [(cid, receive ans)]) n)
          | None => mret tt
          end
      end
  | Batch fuel => net_reader (@changelog_reader_enqueue Wr _ fuel);; mret tt
  end.

Fixpoint net_run (es : list net_move) : M network unit :=
  match es with
  | [] => mret tt
  | e :: es => net_exec e;; net_run es
  end.

(** ** The sequential reader

    [linear batch v0 h v]: the requests that [h] serves, one at a time and in
    this order, with batches read in between, lead from [v0] to [v]. *)
Inductive linear (batch : Z) (v0 : view) : list net_event -> view -> Prop :=
| linear_start : linear batch v0 [] v0
| linear_client h v e :
    linear batch v0 h v -> visible e = true -> linear batch v0 (h ++ [e]) v
| linear_serve h v cid op body r v' :
    linear batch v0 h v -> rpc_of op body -> answers Wr batch cid body op v r v' -> distinct v' ->
    linear batch v0 (h ++ [(cid, serve body r)]) v'
| linear_read h v recs bks :
    linear batch v0 h v -> grown (v_bks v) recs bks -> NoDup bks.*1 ->
    linear batch v0 h (mkView bks (v_cls v) (v_deliver v)).
End network.

(** ** The invariant *)

(** [w] waits, [h] happened, and each pair of [pend] is a client with a request
    and its phase. *)
Record clients (dev : conn_id) (w : gset conn_id) (h : list net_event)
    (pend : list (conn_id * phase)) : Prop := {
  cl_once : NoDup pend.*1;
  cl_phase : forall cid p, (cid, p) ∈ pend -> phase_of cid h = Some p;
  cl_idle : forall cid, cid ∉ pend.*1 -> phase_of cid h = Some idle;
  cl_wait : forall cid, cid ∈ w <-> cid ∈ pend.*1;
  cl_names : forall cid, cid ∈ w -> cid <> [] /\ cid <> dev;
}.

Section clients.
Context (dev : conn_id).
Implicit Types (w : gset conn_id) (h : list net_event) (pend : list (conn_id * phase)).

Lemma clients_none : clients dev ∅ [] [].
Proof. constructor; [apply NoDup_nil_2|set_solver..]. Qed.

Lemma clients_perm w h pend pend' : pend ≡ₚ pend' -> clients dev w h pend -> clients dev w h pend'.
Proof.
  intros Hp [H1 H2 H3 H4 H5]. constructor.
  - by rewrite <- Hp.
  - intros cid p. rewrite <- Hp. apply H2.
  - intros cid. rewrite <- Hp. apply H3.
  - intros cid. rewrite <- Hp. apply H4.
  - done.
Qed.

Lemma clients_ask w h pend cid body :
  clients dev w h pend -> cid ∉ w -> cid <> [] -> cid <> dev ->
  clients dev (w ∪ {[ cid ]}) (h ++ [(cid, invoke body)]) ((cid, asking body) :: pend).
Proof.
  intros [H1 H2 H3 H4 H5] Hw Hn Hd. assert (Hp : cid ∉ pend.*1) by by rewrite <- H4.
  constructor; rewrite ?fmap_cons.
  - by apply NoDup_cons.
  - intros c p [[= -> ->]|Hin]%elem_of_cons.
    + by rewrite (phase_of_self _ _ idle) by auto.
    + rewrite phase_of_other; [by apply H2|]. intros <-. apply Hp.
      by apply (list_elem_of_fmap_2 fst _ _ Hin).
  - intros c [Hc Hin]%not_elem_of_cons. rewrite phase_of_other by done. by apply H3.
  - intros c. rewrite elem_of_union, elem_of_singleton, elem_of_cons, H4. cbn. tauto.
  - intros c [?| ->%elem_of_singleton]%elem_of_union; [by apply H5|done].
Qed.

Lemma clients_serve w h pend cid body r :
  clients dev w h ((cid, asking body) :: pend) ->
  clients dev w (h ++ [(cid, serve body r)]) ((cid, served_with r) :: pend).
Proof.
  intros [H1 H2 H3 H4 H5]. rewrite fmap_cons in *. cbn [fst] in *.
  pose proof H1 as [Hp _]%NoDup_cons. constructor; rewrite ?fmap_cons; try done.
  - intros c p [[= -> ->]|Hin]%elem_of_cons.
    + rewrite (phase_of_self _ _ (asking body)) by (apply H2; by left).
      cbn. by rewrite bool_decide_eq_true_2.
    + rewrite phase_of_other; [apply H2; by right|]. intros <-. apply Hp.
      by apply (list_elem_of_fmap_2 fst _ _ Hin).
  - intros c Hc. pose proof Hc as [Hne _]%not_elem_of_cons. rewrite phase_of_other by done. by apply H3.
Qed.

Lemma clients_receive w h pend cid ans :
  clients dev w h ((cid, served_with (Some ans)) :: pend) ->
  clients dev (w ∖ {[ cid ]}) (h ++ [(cid, receive ans)]) pend.
Proof.
  intros [H1 H2 H3 H4 H5]. rewrite fmap_cons in *. cbn [fst] in *.
  apply NoDup_cons in H1 as [Hp H1]. constructor; try done.
  - intros c p Hin. rewrite phase_of_other; [apply H2; by right|]. intros <-. apply Hp.
    by apply (list_elem_of_fmap_2 fst _ _ Hin).
  - intros c Hc. destruct (decide (c = cid)) as [->|Hne].
    + rewrite (phase_of_self _ _ (served_with (Some ans))) by (apply H2; by left).
      cbn. by rewrite bool_decide_eq_true_2.
    + rewrite phase_of_other by done. apply H3. by apply not_elem_of_cons.
  - intros c. rewrite elem_of_difference, elem_of_singleton, H4, elem_of_cons.
    split; [tauto|]. intros Hin. split; [by right|]. by intros ->.
  - intros c [? _]%elem_of_difference. by apply H5.
Qed.
End clients.

(** ** The broker's part of the way *)

Section hops.
Context (Wb : World) `{ChangelogRec, ZmqSocketsLaws} (dev : conn_id).
Context (Hb : ~ @send_refused Wb) (Hdev : dev <> []).
Implicit Types (c : lcap_ctx) (n : network).

Lemma forwarded_emits c sender fs req :
  wp (@lcapd_process_request Wb req) (@forwarded Wb c sender fs) safe c ->
  wp (emitted (@lcapd_process_request Wb req)) (fun fs' c' => fs' = fs /\ ctx_ok c') safe c.
Proof.
  intros Hwp. apply wp_emitted. eapply wp_mono; [exact Hwp|cbn beta|done].
  intros rc c' (_ & Hc & t0 & t & Ht & [(_ & -> & Hf)|[? _]]); [|done].
  exists t0. rewrite app_nil_r in Ht. by split.
Qed.

Lemma rpc_length op body : rpc_of op body -> sizeof_hdr <= Z.of_nat (length body).
Proof.
  intros ([->|[->|[->| ->]]] & _ & Hl); cbn in Hl;
    unfold sizeof_hdr, sizeof_register, sizeof_dequeue, sizeof_clear, sizeof_fini in *; lia.
Qed.

Lemma reply_length pk : reply_body pk -> sizeof_hdr <= Z.of_nat (length pk).
Proof.
  intros (op & [->| ->] & _ & Hl)%reply_body_fields; cbn in Hl;
    unfold sizeof_hdr, sizeof_enqueue, sizeof_ack in *; lia.
Qed.

Lemma request_emitted c cid op body :
  ctx_ok c -> cid <> [] -> rpc_of op body ->
  wp (emitted (@lcapd_process_request Wb (from_client cid (request dev body))))
     (fun fs c' => fs = envelope (Some dev) cid body /\ ctx_ok c') safe c.
Proof.
  intros Hc Hcid Hrpc. pose proof (nonempty_body _ (rpc_length _ _ Hrpc)) as Hne.
  destruct Hrpc as (Hop & Hcode & Hl).
  rewrite (from_client_request _ _ _ Hcid Hdev Hne). eapply forwarded_emits.
  eapply (@forward_spec Wb c _ cid dev _ op); try done; by destruct Hop as [->|[->|[->| ->]]].
Qed.

Lemma reply_emitted c cid pk :
  ctx_ok c -> cid <> [] -> reply_body pk ->
  wp (emitted (@lcapd_process_request Wb (from_reader dev (envelope None cid pk))))
     (fun fs c' => fs = envelope None cid pk /\ ctx_ok c') safe c.
Proof.
  intros Hc Hcid Hpk. pose proof (nonempty_body _ (reply_length _ Hpk)) as Hne.
  destruct (reply_body_fields _ Hpk) as (op & Hop & Hcode & Hl).
  rewrite (from_reader_envelope _ _ _ Hdev Hcid Hne). eapply forwarded_emits.
  eapply (@forward_spec Wb c _ dev cid _ op); try done; by destruct Hop as [->| ->].
Qed.

(** Where the two messages go. *)
Lemma route_request n cid body :
  re_ident (r_env (n_reader n)) = Some dev ->
  route n (envelope (Some dev) cid body) = set_down (n_down n ++ [[[]; cid; []; body]]) n.
Proof.
  intros Hid. unfold route. cbn [envelope app fmap list_fmap fst].
  rewrite router_out_identity by done. by rewrite bool_decide_eq_true_2.
Qed.

Lemma route_reply n cid pk :
  re_ident (r_env (n_reader n)) = Some dev -> cid <> [] -> cid <> dev ->
  route n (envelope None cid pk) = set_mail (n_mail n ++ [(cid, [[]; pk])]) n.
Proof.
  intros Hid Hc Hne. unfold route. cbn [envelope app fmap list_fmap fst].
  rewrite router_out_identity by done. rewrite bool_decide_eq_false_2; [done|]. congruence.
Qed.

(** The broker handles one message: its context stays well formed, and the
    message is routed. *)
Lemma broker_turn_spec n req src dst msg :
  wp (emitted (@lcapd_process_request Wb req))
     (fun fs c' => fs = envelope src dst msg /\ ctx_ok c') safe (n_ctx n) ->
  wp (broker_turn Wb req) (fun _ n' => exists c', ctx_ok c' /\
        n' = route (set_sides c' (n_reader n) n) (envelope src dst msg)) safe n.
Proof.
  intros Hwp. unfold broker_turn, net_broker. wp_steps.
  eapply wp_mono; [exact Hwp|cbn beta|done]. intros fs c' [-> Hc].
  wp_steps. exists c'. split; [done|]. by rewrite split_envelope.
Qed.
End hops.

(** ** The invariant of the network *)

(** The requests and replies under way, and the CLEARs without an answer. *)
Record flight := mkFlight {
  f_up : list (conn_id * bytes);
  f_down : list (conn_id * bytes);
  f_back : list (conn_id * bytes);
  f_mail : list (conn_id * bytes);
  f_lost : list conn_id;
}.

Definition with_request (x : conn_id * bytes) : conn_id * phase := (x.1, asking x.2).
Definition with_reply (x : conn_id * bytes) : conn_id * phase := (x.1, served_with (Some [x.2])).
Definition unanswered (c : conn_id) : conn_id * phase := (c, served_with None).

Definition pending (f : flight) : list (conn_id * phase) :=
  (with_request <$> f_up f ++ f_down f) ++ (with_reply <$> f_back f ++ f_mail f) ++
  (unanswered <$> f_lost f).

(** The messages of [f] as they are on the connections. *)
Record carried (dev : conn_id) (n : network) (f : flight) : Prop := {
  ca_up : n_up n = (fun x => (x.1, request dev x.2)) <$> f_up f;
  ca_down : n_down n = (fun x => [[]; x.1; []; x.2]) <$> f_down f;
  ca_back : n_back n = (fun x => envelope None x.1 x.2) <$> f_back f;
  ca_mail : n_mail n = (fun x => (x.1, [[]; x.2])) <$> f_mail f;
}.

(** The replies that the reader sent and those that the clients received. *)
Definition replies_served (h : list net_event) : list bytes :=
  h ≫= fun e => match e.2 with serve _ (Some ans) => ans | _ => [] end.
Definition replies_got (h : list net_event) : list bytes :=
  h ≫= fun e => match e.2 with receive ans => ans | _ => [] end.

Lemma replies_served_snoc h e :
  replies_served (h ++ [e]) = replies_served h ++
    match e.2 with serve _ (Some ans) => ans | _ => [] end.
Proof. unfold replies_served. rewrite bind_app. cbn. by rewrite app_nil_r. Qed.

Lemma replies_got_snoc h e :
  replies_got (h ++ [e]) = replies_got h ++ match e.2 with receive ans => ans | _ => [] end.
Proof. unfold replies_got. rewrite bind_app. cbn. by rewrite app_nil_r. Qed.

(** The deliveries that the messages under way need at most. *)
Definition net_load (n : network) : nat :=
  4 * length (n_up n) + 3 * length (n_down n) + 2 * length (n_back n) + length (n_mail n).

Definition deliverable (e : net_move) (n : network) : Prop :=
  match e with
  | ToBroker i => (i < length (n_up n))%nat
  | ToReader => n_down n <> []
  | FromReader => n_back n <> []
  | ToClient i => (i < length (n_mail n))%nat
  | Ask _ _ | Batch _ => False
  end.

Definition is_clear (body : bytes) : Prop := op_of_code (get_op_type body) = Some RPC_OP_CLEAR.

(** The invariant is relative to what the clients ask: each request satisfies
    [P]. *)
Section invariant.
Context (Wb Wr : World) `{ChangelogRec, ZmqSocketsLaws} (dev : conn_id) (P : bytes -> Prop).
Implicit Types (n : network) (v : view) (h : list net_event) (f : flight).

Record net_inv v0 n v h f : Prop := {
  ni_ready : ready dev (mkSys (n_ctx n) (n_reader n)) v;
  ni_linear : linear Wr (batch_of (n_reader n)) v0 h v;
  ni_log : erase h = n_log n;
  ni_carried : carried dev n f;
  ni_clients : clients dev (n_waiting n) h (pending f);
  ni_requests : Forall (fun x => P x.2 /\ exists op, rpc_of op x.2) (f_up f ++ f_down f);
  ni_replies : Forall (fun x => reply_body x.2) (f_back f ++ f_mail f);
  ni_lost : f_lost f = [] \/ exists body, P body /\ is_clear body;
  ni_answers : replies_got (n_log n) ++ (f_back f ++ f_mail f).*2 ≡ₚ replies_served h;
}.

Definition net_ok v0 n : Prop := exists v h f, net_inv v0 n v h f.

(** What the clients ask is well formed, and none has the reader's name. *)
Definition asks_well (e : net_move) : Prop :=
  match e with
  | Ask cid body => cid <> [] /\ cid <> dev /\ P body /\ exists op, rpc_of op body
  | _ => True
  end.

(** After a move: the invariant, and progress if it delivered a message. *)
Definition moved v0 (e : net_move) n n' : Prop :=
  net_ok v0 n' /\ (deliverable e n -> (net_load n' < net_load n)%nat).

(** The use after free of a CLEAR. *)
Definition clear_fault (x : fault) : Prop :=
  x = UseAfterFree /\ exists body, P body /\ is_clear body.

End invariant.

(** ** Moving a message *)

Lemma pending_up u1 x u2 d b m l :
  pending (mkFlight (u1 ++ x :: u2) d b m l) ≡ₚ
  with_request x :: pending (mkFlight (u1 ++ u2) d b m l).
Proof.
  unfold pending. cbn [f_up f_down f_back f_mail f_lost]. rewrite <- !app_assoc. cbn [app].
  rewrite <- Permutation_middle. by rewrite fmap_cons.
Qed.

Lemma pending_down u d1 x d2 b m l :
  pending (mkFlight u (d1 ++ x :: d2) b m l) ≡ₚ
  with_request x :: pending (mkFlight u (d1 ++ d2) b m l).
Proof.
  unfold pending. cbn [f_up f_down f_back f_mail f_lost]. rewrite !(app_assoc u).
  rewrite <- Permutation_middle. by rewrite fmap_cons.
Qed.

Lemma pending_back u d b1 x b2 m l :
  pending (mkFlight u d (b1 ++ x :: b2) m l) ≡ₚ
  with_reply x :: pending (mkFlight u d (b1 ++ b2) m l).
Proof.
  unfold pending. cbn [f_up f_down f_back f_mail f_lost]. rewrite <- !(app_assoc b1). cbn [app].
  rewrite <- (Permutation_middle b1), fmap_cons. cbn [app]. by rewrite <- Permutation_middle.
Qed.

Lemma pending_mail u d b m1 x m2 l :
  pending (mkFlight u d b (m1 ++ x :: m2) l) ≡ₚ
  with_reply x :: pending (mkFlight u d b (m1 ++ m2) l).
Proof.
  unfold pending. cbn [f_up f_down f_back f_mail f_lost]. rewrite !(app_assoc b).
  rewrite <- (Permutation_middle (b ++ m1)), fmap_cons. cbn [app]. by rewrite <- Permutation_middle.
Qed.

Lemma pending_lost u d b m l c :
  pending (mkFlight u d b m (c :: l)) ≡ₚ unanswered c :: pending (mkFlight u d b m l).
Proof.
  unfold pending. cbn [f_up f_down f_back f_mail f_lost]. rewrite fmap_cons, !app_assoc.
  by rewrite <- Permutation_middle.
Qed.

Section moves.
Context (Wb Wr : World) `{ChangelogRec, ZmqSocketsLaws} (dev : conn_id) (P : bytes -> Prop).
Context (Hb : ~ @send_refused Wb) (Hr : ~ @send_refused Wr) (Hdev : dev <> []).
Implicit Types (n : network) (v : view) (h : list net_event) (f : flight).

Local Abbreviation ok := (net_ok Wr dev P).
Local Abbreviation exec := (net_exec Wb Wr dev).

Lemma moved_same v0 e n : ok v0 n -> ~ deliverable e n -> moved Wr dev P v0 e n n.
Proof. intros Hn Hd. by split. Qed.

Lemma ask_ok v0 n cid body :
  ok v0 n -> asks_well dev P (Ask cid body) ->
  wp (exec (Ask cid body)) (fun _ => moved Wr dev P v0 (Ask cid body) n) safe n.
Proof.
  intros Hok (Hn & Hd & HP & Hrpc). unfold net_exec. wp_steps.
  unfold id. case_decide as Hin; wp_steps; [apply moved_same; [done|intros []]|].
  destruct Hok as (v & h & f & [N1 N2 N3 [C1 C2 C3 C4] N5 N6 N7 N8 N9]).
  destruct f as [u d b m l]. cbn [f_up f_down f_back f_mail f_lost] in *. split; [|done].
  exists v, (h ++ [(cid, invoke body)]), (mkFlight (u ++ [(cid, body)]) d b m l). constructor; try done.
  - by apply linear_client.
  - by rewrite erase_snoc, N3.
  - constructor; try done. cbn. by rewrite C1, fmap_app.
  - eapply clients_perm; [symmetry; apply pending_up|]. rewrite app_nil_r. by apply clients_ask.
  - cbn [f_up f_down]. rewrite <- app_assoc. apply Forall_app in N6 as [Hu Hd'].
    apply Forall_app. split; [done|]. by constructor.
  - cbn [n_log set_client f_back f_mail]. by rewrite replies_got_snoc, replies_served_snoc, !app_nil_r.
Qed.

Lemma to_broker_ok v0 n i :
  ok v0 n -> wp (exec (ToBroker i)) (fun _ => moved Wr dev P v0 (ToBroker i) n) safe n.
Proof.
  intros Hok. unfold net_exec. wp_steps. unfold id.
  destruct (n_up n !! i) as [[cid fs]|] eqn:Hi; wp_steps.
  2: { apply moved_same; [done|]. cbn. apply lookup_ge_None in Hi. lia. }
  assert (Hlen : (i < length (n_up n))%nat) by by eapply lookup_lt_Some.
  destruct Hok as (v & h & f & Hinv). pose proof Hinv as [N1 N2 N3 [C1 C2 C3 C4] N5 N6 N7 N8 N9].
  rewrite C1, list_lookup_fmap in Hi. destruct (f_up f !! i) as [[c body]|] eqn:Hf; [|done].
  injection Hi as <- <-. destruct f as [u d b m l]. cbn [f_up f_down f_back f_mail f_lost] in *.
  pose proof (take_drop_middle _ _ _ Hf) as Hu. set (u1 := take i u) in *. set (u2 := drop (S i) u) in *.
  assert (Hdel : delete i u = u1 ++ u2) by by rewrite delete_take_drop.
  assert (Hcl := N5). rewrite <- Hu in Hcl. eapply clients_perm in Hcl; [|apply pending_up].
  destruct (cl_names _ _ _ _ Hcl c) as [Hn Hd]. { apply (cl_wait _ _ _ _ Hcl). by left. }
  rewrite <- Hu in N6. rewrite <- app_assoc in N6. cbn [app] in N6.
  apply Forall_app in N6 as [Hu1 [[HP [op Hrpc]] Hu2]%Forall_cons].
  eapply wp_mono; [eapply (broker_turn_spec Wb _ _ (Some dev) c body)|cbn beta|done].
  { apply (request_emitted Wb dev Hb Hdev _ _ op); [apply N1|done|exact Hrpc]. }
  intros _ n' (c' & Hc' & ->). rewrite route_request by (done || apply N1). split.
  2: { intros _. unfold net_load. cbn. rewrite length_app, length_delete by by apply lookup_lt_is_Some_2. cbn. lia. }
  exists v, h, (mkFlight (u1 ++ u2) (d ++ [(c, body)]) b m l). constructor; try done.
  - constructor; [exact Hc'|apply N1..].
  - constructor; cbn; try done.
    + rewrite C1, <- Hdel. by rewrite <- !list_fmap_delete.
    + by rewrite C2, fmap_app.
  - eapply clients_perm; [symmetry; apply pending_down|]. by rewrite app_nil_r.
  - cbn [f_up f_down]. rewrite <- app_assoc. apply Forall_app. split; [done|].
    rewrite app_assoc. apply Forall_app. split; [done|]. apply Forall_singleton. split; [done|]. by exists op.
Qed.

Lemma request_of_hop cid body :
  cid <> [] -> body <> [] ->
  request_of true [[]; cid; []; body] =
    {| lr_flags := 1; lr_remote := None; lr_forward := Some cid; lr_body := body |}.
Proof.
  intros Hc Hbody. unfold request_of, nonempty.
  rewrite filter_cons_False, filter_cons_True, filter_cons_False, filter_cons_True by auto.
  cbn. by rewrite app_nil_r.
Qed.

(** A request without an answer is a CLEAR. *)
Lemma unanswered_clear batch cid body op v v' :
  rpc_of op body -> answers Wr batch cid body op v None v' -> is_clear body.
Proof.
  intros (_ & Hcode & _) Hans. inversion Hans; subst. unfold is_clear. rewrite Hcode.
  apply op_of_code_code.
Qed.

Lemma to_reader_ok v0 n :
  ok v0 n -> wp (exec ToReader) (fun _ => moved Wr dev P v0 ToReader n) (clear_fault P) n.
Proof.
  intros Hok. unfold net_exec. wp_steps. unfold id.
  destruct (n_down n) as [|hop down] eqn:Hdn; wp_steps; [by apply moved_same; [|cbn; rewrite Hdn; intros []]|].
  destruct Hok as (v & h & [u d0 b m l] & [N1 N2 N3 [C1 C2 C3 C4] N5 N6 N7 N8 N9]).
  cbn [f_up f_down f_back f_mail f_lost] in *. rewrite Hdn in C2.
  destruct d0 as [|[cid body] d]; [done|]. injection C2 as -> ->. cbn [fst snd].
  unfold net_reader. wp_steps.
  eapply clients_perm in N5; [|apply (pending_down u [])]. cbn [app] in N5.
  destruct (cl_names _ _ _ _ N5 cid) as [Hn Hd]. { apply (cl_wait _ _ _ _ N5). by left. }
  apply Forall_app in N6 as [Hu [[HP [op Hrpc]] Hrest]%Forall_cons]. cbn [snd] in HP, Hrpc.
  rewrite (request_of_hop _ _ Hn (nonempty_body _ (rpc_length _ _ Hrpc))).
  apply wp_emitted. eapply wp_mono;
    [apply (@changelog_reader_rpc_hdl_spec Wr _ _ v _ cid); [apply N1|done]|cbn beta; cbn [lr_body]|].
  2: { cbn [lr_body]. intros x [Hx ->]%rpc_fault_long; [|exact (rpc_long _ _ Hrpc)].
       split; [done|]. by exists body. }
  intros rc s2 Ha. destruct (reader_back Wr Hr _ _ _ _ _ _ _ Hrpc Ha)
    as (v' & t & r & Ht & Hans & Hv' & Hst & Hback).
  exists t. split; [exact Ht|]. wp_steps. cbn [n_back set_sides set_down].
  assert (Hready : ready dev (mkSys (n_ctx n) s2) v').
  { destruct N1 as [Hc _ Hid]. constructor; [done|done|]. cbn in *.
    destruct Hst as (_ & _ & _ & _ & _ & _ & ->). exact Hid. }
  assert (Hlin : linear Wr (batch_of s2) v0 (h ++ [(cid, serve body r)]) v').
  { rewrite (static_batch _ _ Hst). eapply linear_serve; [exact N2|exact Hrpc|exact Hans|].
    by eapply represents_distinct. }
  apply clients_serve with (r := r) in N5.
  assert (Hlog : erase (h ++ [(cid, serve body r)]) = n_log n) by by rewrite erase_snoc, N3, app_nil_r.
  assert (Hreqs : Forall (fun x => P x.2 /\ exists op, rpc_of op x.2) (u ++ d)) by by apply Forall_app.
  destruct r as [pks|].
  - destruct Hback as (pk & -> & -> & Hpk). rewrite split_envelope. split.
    2: { intros _. unfold net_load. cbn. rewrite Hdn, length_app. cbn. lia. }
    exists v', (h ++ [(cid, serve body (Some [pk]))]), (mkFlight u d (b ++ [(cid, pk)]) m l).
    constructor; try done.
    + constructor; cbn; try done. by rewrite C3, fmap_app.
    + eapply clients_perm; [symmetry; apply pending_back|]. by rewrite app_nil_r.
    + cbn [f_back f_mail]. rewrite <- app_assoc. apply Forall_app in N7 as [N7 N7'].
      apply Forall_app. split; [done|]. by constructor.
    + cbn [n_log set_back set_sides set_down f_back f_mail]. rewrite replies_served_snoc, <- N9.
      cbn [snd]. rewrite <- !app_assoc, !fmap_app. apply Permutation_app_head.
      rewrite <- !app_assoc. apply Permutation_app_head. apply Permutation_app_comm.
  - rewrite Hback. split.
    2: { intros _. unfold net_load. cbn. rewrite Hdn, app_nil_r. cbn. lia. }
    exists v', (h ++ [(cid, serve body None)]), (mkFlight u d b m (cid :: l)). constructor; try done.
    + constructor; cbn; try done. by rewrite app_nil_r.
    + by eapply clients_perm; [symmetry; apply pending_lost|].
    + right. exists body. split; [done|]. by eapply unanswered_clear.
    + rewrite replies_served_snoc. cbn [snd]. rewrite (app_nil_r (replies_served h)). exact N9.
Qed.

Lemma from_reader_ok v0 n :
  ok v0 n -> wp (exec FromReader) (fun _ => moved Wr dev P v0 FromReader n) safe n.
Proof.
  intros Hok. unfold net_exec. wp_steps. unfold id.
  destruct (n_back n) as [|fs back] eqn:Hbk; wp_steps; [by apply moved_same; [|cbn; rewrite Hbk; intros []]|].
  destruct Hok as (v & h & [u d b0 m l] & [N1 N2 N3 [C1 C2 C3 C4] N5 N6 N7 N8 N9]).
  cbn [f_up f_down f_back f_mail f_lost] in *. rewrite Hbk in C3.
  destruct b0 as [|[cid pk] b]; [done|]. injection C3 as -> ->. cbn [fst snd].
  eapply clients_perm in N5; [|apply (pending_back u d [])]. cbn [app] in N5.
  destruct (cl_names _ _ _ _ N5 cid) as [Hn Hd]. { apply (cl_wait _ _ _ _ N5). by left. }
  cbn [app] in N7. apply Forall_cons in N7 as [Hpk N7]. cbn [snd] in Hpk.
  eapply wp_mono; [eapply (broker_turn_spec Wb _ _ None cid pk)|cbn beta|done].
  { apply (reply_emitted Wb dev Hb Hdev); [apply N1|done|exact Hpk]. }
  intros _ n' (c' & Hc' & ->). rewrite (route_reply dev) by (done || apply N1). split.
  2: { intros _. unfold net_load. cbn. rewrite Hbk, length_app. cbn. lia. }
  exists v, h, (mkFlight u d b (m ++ [(cid, pk)]) l). constructor; try done.
  - constructor; [exact Hc'|apply N1..].
  - constructor; cbn; try done. by rewrite C4, fmap_app.
  - eapply clients_perm; [symmetry; apply pending_mail|]. by rewrite app_nil_r.
  - cbn [f_back f_mail]. rewrite app_assoc. apply Forall_app. split; [done|]. by constructor.
  - cbn [n_log set_mail set_sides set_back f_back f_mail]. rewrite <- N9. cbn [app].
    apply Permutation_app_head. rewrite fmap_cons, app_assoc, fmap_app. cbn.
    by rewrite <- Permutation_cons_append.
Qed.

Lemma to_client_ok v0 n i :
  ok v0 n -> wp (exec (ToClient i)) (fun _ => moved Wr dev P v0 (ToClient i) n) safe n.
Proof.
  intros Hok. unfold net_exec. wp_steps. unfold id.
  destruct (n_mail n !! i) as [[cid hop]|] eqn:Hi; wp_steps.
  2: { apply moved_same; [done|]. cbn. apply lookup_ge_None in Hi. lia. }
  assert (Hlen : (i < length (n_mail n))%nat) by by eapply lookup_lt_Some.
  destruct Hok as (v & h & f & [N1 N2 N3 [C1 C2 C3 C4] N5 N6 N7 N8 N9]).
  rewrite C4, list_lookup_fmap in Hi. destruct (f_mail f !! i) as [[c pk]|] eqn:Hf; [|done].
  injection Hi as <- <-. destruct f as [u d b m l]. cbn [f_up f_down f_back f_mail f_lost] in *.
  pose proof (take_drop_middle _ _ _ Hf) as Hm. set (m1 := take i m) in *. set (m2 := drop (S i) m) in *.
  assert (Hdel : delete i m = m1 ++ m2) by by rewrite delete_take_drop.
  rewrite <- Hm in N5, N7, N9. eapply clients_perm in N5; [|apply pending_mail].
  cbn [snd]. rewrite req_in_delimiter. wp_steps. cbn [n_waiting n_log set_mail]. split.
  2: { intros _. unfold net_load. cbn. rewrite length_delete by by apply lookup_lt_is_Some_2. lia. }
  exists v, (h ++ [(c, receive [pk])]), (mkFlight u d b (m1 ++ m2) l). constructor; try done.
  - by apply linear_client.
  - by rewrite erase_snoc, N3.
  - constructor; cbn; try done. by rewrite C4, <- Hdel, list_fmap_delete.
  - by apply clients_receive.
  - cbn [f_back f_mail]. apply Forall_app in N7 as [N7 [N7' [_ N7'']%Forall_cons]%Forall_app].
    by repeat (apply Forall_app; split).
  - cbn [n_log set_client f_back f_mail]. rewrite replies_got_snoc, replies_served_snoc, app_nil_r, <- N9.
    cbn [snd]. rewrite <- app_assoc. apply Permutation_app_head.
    rewrite !(app_assoc b), !fmap_app, fmap_cons. cbn. by rewrite Permutation_middle.
Qed.

Lemma batch_ok v0 n fuel :
  @upstream_ok Wr _ -> ok v0 n ->
  wp (exec (Batch fuel)) (fun _ => moved Wr dev P v0 (Batch fuel) n) (eq OutOfFuel) n.
Proof.
  intros Hup (v & h & f & [[Hc [Hinv Hd] Hid] N2 N3 N4 N5 N6 N7 N8 N9]). unfold net_exec. wp_steps.
  unfold net_reader. wp_steps.
  eapply wp_mono; [by apply (@enqueue_spec Wr _ Hup)|cbn beta|auto].
  intros rc s' (t & bks & recs & lost & _ & _ & Hinv' & Hk & Hg & _). wp_steps.
  destruct Hk as (Hcfg & _ & Hd' & _ & Hid'). cbn in *.
  assert (Hv' : @represents _ s' (mkView bks (v_cls v) (v_deliver v))).
  { split; [exact Hinv'|]. cbn. by rewrite Hd'. }
  split; [|done]. exists (mkView bks (v_cls v) (v_deliver v)), h, f. constructor; try done.
  - constructor; [done|exact Hv'|]. cbn. by rewrite Hid'.
  - cbn [n_reader set_sides]. unfold batch_of, cfg_of in *. rewrite Hcfg.
    eapply linear_read; [exact N2|exact Hg|]. exact (represents_distinct _ _ Hv').
  - destruct N4. by constructor.
Qed.
End moves.
