(* ===== verification/NetworkProps.v ===== *)
(** * The properties of the network

    With several requests under way the system behaves as if the reader served
    them one at a time; every request is answered, in whatever order the
    messages are delivered; and what the clients get is the upstream stream. *)
From S2P Require Import Prelude World Queue Idl LcapNet RpcUtils Effects Config Broker PxClient Reader ReaderRep ReaderInv ReaderBuckets ReaderRpc ReaderEnqueue ReaderSpec Demo ReaderHandlers ReaderMain ReaderRun PxSpec Routing System SystemProps Network.
Local Open Scope Z_scope.

(** A system without messages under way. *)
Definition quiet_net (y : system) (log : list net_event) : network :=
  mkNet (sy_ctx y) (sy_reader y) [] [] [] [] ∅ log.

(** What the clients ask in a schedule. *)
Definition well_asked (dev : conn_id) (es : list net_move) : Prop :=
  forall cid body, Ask cid body ∈ es -> cid <> [] /\ cid <> dev /\ exists op, rpc_of op body.
Definition asked (es : list net_move) (body : bytes) : Prop := exists cid, Ask cid body ∈ es.

(** The faults of a schedule: too small a bound on a batch, and the use after
    free of a CLEAR. *)
Definition run_fault (es : list net_move) (x : fault) : Prop :=
  x = OutOfFuel /\ (exists fuel, Batch fuel ∈ es) \/ clear_fault (asked es) x.

(** The ENQUEUE packets among the replies. *)
Definition enqueues (pks : list bytes) : list bytes :=
  filter (fun p => get_op_type p = op_code RPC_OP_ENQUEUE) pks.

Section runs.
Context (Wb Wr : World) `{ChangelogRec, ZmqSocketsLaws} (dev : conn_id).
Context (Hb : ~ @send_refused Wb) (Hr : ~ @send_refused Wr) (Hdev : dev <> []).
Context (Hup : @upstream_ok Wr _).
Implicit Types (n : network) (v : view) (h : list net_event) (P : bytes -> Prop).

Lemma net_exec_ok P v0 e n :
  net_ok Wr dev P v0 n -> asks_well dev P e ->
  wp (net_exec Wb Wr dev e) (fun _ => moved Wr dev P v0 e n)
     (fun x => x = OutOfFuel /\ (exists fuel, e = Batch fuel) \/ clear_fault P x) n.
Proof.
  intros Hn He. destruct e as [cid body|i| | |i|fuel].
  - eapply wp_mono; [by apply ask_ok|done|done].
  - eapply wp_mono; [by apply to_broker_ok|done|done].
  - eapply wp_mono; [by apply to_reader_ok|done|by right].
  - eapply wp_mono; [by apply from_reader_ok|done|done].
  - eapply wp_mono; [by apply to_client_ok|done|done].
  - eapply wp_mono; [by apply batch_ok|done|]. intros x <-. left. eauto.
Qed.

Lemma net_run_ok P v0 es n :
  net_ok Wr dev P v0 n -> Forall (asks_well dev P) es ->
  wp (net_run Wb Wr dev es) (fun _ => net_ok Wr dev P v0)
     (fun x => x = OutOfFuel /\ (exists fuel, Batch fuel ∈ es) \/ clear_fault P x) n.
Proof.
  intros Hn Hes. revert n Hn. induction Hes as [|e es He Hes IH]; intros n Hn; cbn [net_run]; wp_steps; [done|].
  eapply wp_mono; [by apply net_exec_ok|cbn beta|].
  - intros _ n' [Hn' _]. eapply wp_mono; [by apply IH|done|].
    intros x [[-> [fuel Hx]]|?]; [left; split; [done|exists fuel; by right]|by right].
  - intros x [[-> [fuel ->]]|?]; [left; split; [done|exists fuel; by left]|by right].
Qed.

Lemma quiet_ok P y v log :
  ready dev y v -> log = [] -> net_ok Wr dev P v (quiet_net y log).
Proof.
  intros Hy ->. exists v, [], (mkFlight [] [] [] [] []). constructor; try done.
  - by destruct Hy.
  - apply linear_start.
  - apply clients_none.
  - by left.
Qed.

Lemma well_asked_Forall P es :
  well_asked dev es -> (forall body, asked es body -> P body) -> Forall (asks_well dev P) es.
Proof.
  intros Hes HP. apply Forall_forall. intros [cid body| | | | |] Hin; try done.
  destruct (Hes _ _ Hin) as (? & ? & ?). split_and!; try done. apply HP. by exists cid.
Qed.

(** What the invariant says of the clients: the history of a sequential reader
    in which [n_log n] is what they see. *)
Lemma net_ok_linear P v0 n :
  net_ok Wr dev P v0 n -> exists v h,
    ready dev (mkSys (n_ctx n) (n_reader n)) v /\
    linear Wr (batch_of (n_reader n)) v0 h v /\ erase h = n_log n /\
    forall cid, exists p, phase_of cid h = Some p /\ (cid ∈ n_waiting n <-> p <> idle).
Proof.
  intros (v & h & f & [N1 N2 N3 _ [L1 L2 L3 L4 _] _ _ _ _]). exists v, h. split_and!; [done..|].
  intros cid. destruct (decide (cid ∈ (pending f).*1)) as [Hin|Hni].
  - pose proof Hin as ([c p] & -> & Hp)%list_elem_of_fmap. exists p. split; [by apply L2|].
    split; [intros _ ->|intros _; by apply L4].
    unfold pending in Hp. rewrite !elem_of_app, !list_elem_of_fmap in Hp.
    by destruct Hp as [([] & [=] & _)|[([] & [=] & _)|(? & [=] & _)]].
  - exists idle. split; [by apply L3|]. rewrite L4. by split.
Qed.

(** The network is linearizable: whatever the interleaving of the requests
    of several clients and of the messages in flight, what the clients see
    is the history of a reader that serves their requests one at a time,
    each between its sending and the receipt of its answer, and a client
    receives exactly what its request was served with. The only faults are
    the use after free of a CLEAR that was asked and the bound on a batch. *)
Theorem network_linearizable y v0 es :
  ready dev y v0 -> well_asked dev es ->
  wp (net_run Wb Wr dev es) (fun _ n => exists v h,
        ready dev (mkSys (n_ctx n) (n_reader n)) v /\
        linear Wr (batch_of (n_reader n)) v0 h v /\ erase h = n_log n /\
        forall cid, exists p, phase_of cid h = Some p /\ (cid ∈ n_waiting n <-> p <> idle))
     (run_fault es) (quiet_net y []).
Proof.
  intros Hy Hes. eapply wp_mono; [eapply (net_run_ok (asked es) v0); [by apply quiet_ok|by apply well_asked_Forall]| |done].
  cbn beta. intros _ n. apply net_ok_linear.
Qed.

(** ** Every request is answered *)

(** A scheduler that delivers some message as long as there is one. *)
Definition work_conserving (pick : network -> option net_move) : Prop :=
  forall n, match pick n with
            | Some e => deliverable e n
            | None => net_load n = 0%nat
            end.

Fixpoint net_deliver (pick : network -> option net_move) (k : nat) : M network unit :=
  match k with
  | O => mret tt
  | S k =>
      n ← gets id;
      match pick n with
      | None => mret tt
      | Some e => net_exec Wb Wr dev e;; net_deliver pick k
      end
  end.

Lemma deliverable_asks P e n : deliverable e n -> asks_well dev P e.
Proof. by destruct e. Qed.

Lemma net_deliver_ok P v0 pick k n :
  work_conserving pick -> (forall body, P body -> ~ is_clear body) ->
  net_ok Wr dev P v0 n -> (net_load n <= k)%nat ->
  wp (net_deliver pick k) (fun _ n' => net_ok Wr dev P v0 n' /\ net_load n' = 0%nat) safe n.
Proof.
  intros Hp HP. revert n. induction k as [|k IH]; intros n Hn Hk; cbn [net_deliver]; wp_steps.
  { split; [done|]. lia. }
  unfold id. pose proof (Hp n) as He. destruct (pick n) as [e|]; wp_steps; [|done].
  eapply wp_mono; [apply net_exec_ok; [exact Hn|by eapply deliverable_asks]|cbn beta|].
  - intros _ n' [Hn' Hlt]. apply IH; [done|]. specialize (Hlt He). lia.
  - intros x [[-> [fuel ->]]|(_ & body & HPb & Hc)]; [done|by destruct (HP body)].
Qed.

(** When nothing is under way, nobody waits. *)
Lemma net_ok_answered P v0 n :
  (forall body, P body -> ~ is_clear body) -> net_ok Wr dev P v0 n -> net_load n = 0%nat -> exists v h,
    ready dev (mkSys (n_ctx n) (n_reader n)) v /\
    linear Wr (batch_of (n_reader n)) v0 h v /\ erase h = n_log n /\
    n_waiting n = ∅ /\ net_load n = 0%nat /\ forall cid, phase_of cid h = Some idle.
Proof using Type.
  intros HP (v & h & [u d b m l] & [N1 N2 N3 [C1 C2 C3 C4] [L1 L2 L3 L4 _] _ _ N8 _]) Hload.
  cbn [f_up f_down f_back f_mail f_lost] in *.
  unfold net_load in Hload. rewrite C1, C2, C3, C4, !length_fmap in Hload.
  assert (u = [] /\ d = [] /\ b = [] /\ m = []) as (-> & -> & -> & ->).
  { split_and!; apply length_zero_iff_nil; lia. }
  destruct N8 as [->|(body & HPb & Hc)]; [|by destruct (HP body)].
  assert (Hnone : forall cid, cid ∉ (pending (mkFlight [] [] [] [] [])).*1) by by intros cid ?%elem_of_nil.
  exists v, h. split_and!; try done.
  - apply set_eq. intros cid. rewrite L4. split; [by intros ?%Hnone|by intros ?%elem_of_empty].
  - unfold net_load. by rewrite C1, C2, C3, C4.
  - intros cid. by apply L3.
Qed.

(** Every request is answered: after any schedule without a CLEAR, any
    scheduler that delivers a message as long as there is one leads, without
    a fault and in at most as many deliveries as the messages need, to a
    network in which no client waits and every client has received what its
    requests were served with. *)
Theorem network_answers_all pick y v0 es n :
  ready dev y v0 -> well_asked dev es -> (forall body, asked es body -> ~ is_clear body) ->
  net_run Wb Wr dev es (quiet_net y []) = Ok (tt, n) -> work_conserving pick ->
  wp (net_deliver pick (net_load n)) (fun _ n' => exists v h,
        ready dev (mkSys (n_ctx n') (n_reader n')) v /\
        linear Wr (batch_of (n_reader n')) v0 h v /\ erase h = n_log n' /\
        n_waiting n' = ∅ /\ net_load n' = 0%nat /\ forall cid, phase_of cid h = Some idle)
     safe n.
Proof.
  intros Hy Hes HP Hrun Hpick.
  assert (Hok : net_ok Wr dev (asked es) v0 n).
  { exact (wp_Ok _ _ _ _ _ _ (net_run_ok (asked es) v0 es _ (quiet_ok _ _ _ _ Hy eq_refl)
      (well_asked_Forall _ _ Hes (fun _ x => x))) Hrun). }
  eapply wp_mono; [eapply (net_deliver_ok (asked es) v0); try done|cbn beta|done].
  intros _ n' [Hn' Hload]. by apply (net_ok_answered (asked es)).
Qed.

(** ** What the clients get *)

Lemma enqueues_app a b : enqueues (a ++ b) = enqueues a ++ enqueues b.
Proof. apply filter_app. Qed.

Lemma linear_orderly (t0 : Z) batch v0 h v :
  @punctual Wr t0 -> distinct v0 -> (exists pend, orderly t0 v0 [] pend) -> linear Wr batch v0 h v ->
  distinct v /\ exists sent pend rss, orderly t0 v sent pend /\
    enqueues (replies_served h) = packet_of <$> rss /\ sublist rss (all_recs sent).
Proof.
  intros Hpu Hd0 [pend0 Ho0] Hlin.
  induction Hlin as [|h v e _ IH He|h v cid op body r v' _ IH _ Hans Hd|h v recs bks _ IH Hg Hd].
  - split; [done|]. by exists [], pend0, [].
  - destruct IH as [Hd (sent & pend & rss & Ho & Hps & Hsub)]. split; [done|]. exists sent, pend, rss.
    split_and!; try done. rewrite replies_served_snoc. destruct e as [c []]; try done; cbn;
      by rewrite app_nil_r.
  - destruct IH as [Hdv (sent & pend & rss & Ho & Hps & Hsub)]. split; [done|].
    destruct (answers_orderly Wr t0 _ _ _ _ _ _ _ _ _ Hpu Hdv Ho Hans) as (sent' & pend' & Ho' & Hcase).
    assert (Hnew : enqueues (replies_served (h ++ [(cid, serve body r)])) =
      (packet_of <$> rss) ++ got_packets [(cid, r)]).
    { rewrite replies_served_snoc, enqueues_app, Hps. f_equal. unfold got_packets, enqueues.
      destruct r; cbn; [by rewrite app_nil_r|done]. }
    exists sent', pend'. destruct Hcase as [[Heq Hp]|(recs & Heq & [Hp|Hp])]; rewrite Hp in Hnew.
    + exists rss. rewrite Hnew, Heq, app_nil_r. by split_and!.
    + exists rss. rewrite Hnew, Heq, app_nil_r. split_and!; [done..|]. by apply sublist_inserts_r.
    + exists (rss ++ [recs]). rewrite Hnew, Heq, fmap_app. split_and!; [done..|]. by apply sublist_app.
  - destruct IH as [_ (sent & pend & rss & Ho & Hps & Hsub)]. split; [done|].
    destruct (orderly_read _ _ _ _ _ _ Ho Hg) as [pend' Ho']. by exists sent, pend', rss.
Qed.

Lemma net_ok_stream (t0 : Z) P v0 n :
  @punctual Wr t0 -> distinct v0 -> (exists pend, orderly t0 v0 [] pend) -> net_ok Wr dev P v0 n ->
  exists v rss, ready dev (mkSys (n_ctx n) (n_reader n)) v /\ NoDup (held (v_cls v)) /\
    enqueues (replies_got (n_log n)) ⊆+ packet_of <$> rss /\
    sublist (concat rss) (stream (v_bks v)).
Proof.
  intros Hpu Hd Ho0 (v & h & f & [N1 N2 _ _ _ _ _ _ N9]).
  destruct (linear_orderly t0 _ _ _ _ Hpu Hd Ho0 N2) as [_ (sent & pend & rss & Ho & Hps & Hsub)].
  exists v, rss. split_and!; [done|apply (or_once _ _ _ _ Ho)| |].
  - rewrite <- Hps. unfold enqueues. rewrite <- N9, filter_app. by apply submseteq_inserts_r.
  - rewrite (orderly_stream _ _ _ _ Ho). apply sublist_inserts_r. by apply sublist_concat.
Qed.

(** In a schedule of a new system that is shorter than the acknowledgement
    timeout, with enough memory, however many requests are under way and in
    whatever order their messages are delivered: the ENQUEUE packets that
    the clients received are among the ones the reader sent, each received
    once, and these carry the upstream records in order, none twice; no two
    clients hold the same bucket. *)
Theorem network_shares_the_stream (t0 : Z) y es :
  @punctual Wr t0 -> fresh_system dev y -> well_asked dev es ->
  wp (net_run Wb Wr dev es) (fun _ n => exists v rss,
        ready dev (mkSys (n_ctx n) (n_reader n)) v /\ NoDup (held (v_cls v)) /\
        enqueues (replies_got (n_log n)) ⊆+ packet_of <$> rss /\
        sublist (concat rss) (stream (v_bks v)))
     (run_fault es) (quiet_net y []).
Proof.
  intros Hpu (b & idx & batch & Hy) Hes.
  eapply wp_mono; [eapply (net_run_ok (asked es)); [by apply quiet_ok|by apply well_asked_Forall]| |done].
  cbn beta. intros _ n. apply (net_ok_stream t0); [done|apply (represents_distinct _ _ (rd_repr _ _ _ Hy))|].
  exists [(b, new_bucket idx batch)]. apply orderly_starting.
Qed.

(** ** What a packet carries *)

(** [recs] is a contiguous piece of [all]. *)
Definition piece (recs all : list bytes) : Prop := exists pre post, all = pre ++ recs ++ post.

Lemma piece_stream (bks l1 l2 : bkt_list) b bk :
  bks = l1 ++ (b, bk) :: l2 -> piece (bk_recs bk) (stream bks).
Proof.
  intros ->. exists (stream l1), (stream l2). unfold stream.
  by rewrite fmap_app, fmap_cons, concat_app.
Qed.

Lemma piece_grows recs all more : piece recs all -> piece recs (all ++ more).
Proof.
  intros (pre & post & ->). exists pre, (post ++ more). by rewrite <- !app_assoc.
Qed.

(** The packet is the whole of a bucket. *)
Definition genuine (bks : bkt_list) (pk : bytes) : Prop :=
  exists recs, pk = packet_of recs /\ piece recs (stream bks).

Lemma genuine_grows bks bks' more pk :
  genuine bks pk -> stream bks' = stream bks ++ more -> genuine bks' pk.
Proof. intros (recs & -> & Hp) Hs. exists recs. split; [done|]. rewrite Hs. by apply piece_grows. Qed.

(** Whatever the clock shows and whatever fails. *)
Lemma served_genuine batch cid body op v rc t v' :
  @served Wr _ batch cid body op v rc t v' -> Forall (genuine (v_bks v')) (packets (frames_of t)).
Proof.
  intros Hs. destruct Hs;
    try (by rewrite packets_silent by done; apply Forall_nil_2);
    try (by erewrite packets_acked by done; apply Forall_nil_2).
  match goal with Hx : sent _ _ _ |- _ => apply packets_sent in Hx as -> end.
  destruct (bool_decide _); [|by apply Forall_nil_2].
  change (enqueue_packet bk) with (packet_of (bk_recs bk)). rewrite packets_packet.
  apply Forall_singleton. eexists. split; [done|].
  by apply (piece_stream _ l1 (l2 ++ new) b (set_expiry (deadline now') bk)).
Qed.

Lemma answers_genuine batch cid body op v r v' :
  answers Wr batch cid body op v r v' ->
  stream (v_bks v') = stream (v_bks v) /\
  Forall (genuine (v_bks v')) (enqueues (default [] r)).
Proof.
  intros [rc t v1 Hs Hrc Hf|t v1 pk Hs Hf Hpk|t v1 Hs _ Hf]; (split; [by eapply served_stream|]);
    try by apply Forall_nil_2.
  apply served_genuine in Hs. rewrite Hf in Hs. exact Hs.
Qed.

Lemma linear_genuine batch v0 h v :
  linear Wr batch v0 h v ->
  (exists more, stream (v_bks v) = stream (v_bks v0) ++ more) /\
  Forall (genuine (v_bks v)) (enqueues (replies_served h)).
Proof.
  intros Hlin. induction Hlin as [|h v e _ IH He|h v cid op body r v' _ IH _ Hans Hd|h v recs bks _ IH [Hg _] Hd].
  - split; [exists []; by rewrite app_nil_r|by apply Forall_nil_2].
  - destruct IH as [Hm Hall]. split; [done|]. rewrite replies_served_snoc.
    destruct e as [c []]; try done; cbn; by rewrite app_nil_r.
  - destruct IH as [[more Hm] Hall], (answers_genuine _ _ _ _ _ _ _ Hans) as [Hs Hnew].
    split; [exists more; by rewrite Hs|]. rewrite replies_served_snoc, enqueues_app.
    apply Forall_app. split.
    + eapply Forall_impl; [exact Hall|]. intros pk Hpk. eapply (genuine_grows _ _ []); [done|].
      by rewrite app_nil_r.
    + destruct r; done.
  - destruct IH as [[more Hm] Hall]. cbn [v_bks]. split.
    + exists (more ++ recs). by rewrite Hg, Hm, app_assoc.
    + eapply Forall_impl; [exact Hall|]. intros pk Hpk. by eapply genuine_grows.
Qed.

Lemma net_ok_genuine P v0 n :
  net_ok Wr dev P v0 n -> exists v more,
    ready dev (mkSys (n_ctx n) (n_reader n)) v /\
    stream (v_bks v) = stream (v_bks v0) ++ more /\
    Forall (genuine (v_bks v)) (enqueues (replies_got (n_log n))).
Proof.
  intros (v & h & f & [N1 N2 _ _ _ _ _ _ N9]).
  destruct (linear_genuine _ _ _ _ N2) as [[more Hm] Hall]. exists v, more. split_and!; [done|done|].
  unfold enqueues in Hall. rewrite <- N9, filter_app in Hall. by apply Forall_app in Hall as [? _].
Qed.

(** In every schedule, whatever the clocks show, however long it runs and
    even if memory runs out: each ENQUEUE packet that a client receives
    carries the whole of one bucket, a contiguous piece of the stream of
    records that the reader holds, and that stream only grows. Buckets that
    are served again bring whole packets again, never a part, a mixture or
    another order. *)
Theorem network_packets_genuine y v0 es :
  ready dev y v0 -> well_asked dev es ->
  wp (net_run Wb Wr dev es) (fun _ n => exists v more,
        ready dev (mkSys (n_ctx n) (n_reader n)) v /\
        stream (v_bks v) = stream (v_bks v0) ++ more /\
        Forall (genuine (v_bks v)) (enqueues (replies_got (n_log n))))
     (run_fault es) (quiet_net y []).
Proof.
  intros Hy Hes. eapply wp_mono;
    [eapply (net_run_ok (asked es) v0); [by apply quiet_ok|by apply well_asked_Forall]| |done].
  cbn beta. intros _ n. apply net_ok_genuine.
Qed.
End runs.

(** ** One request at a time *)

Section alone.
Context (Wb Wr : World) `{ChangelogRec, ZmqSocketsLaws} (dev : conn_id).
Context (Hb : ~ @send_refused Wb) (Hr : ~ @send_refused Wr) (Hdev : dev <> []).
Implicit Types (n : network) (v : view).

(** The moves of a request that is alone in the network, and their outcome. *)
Definition alone (cid : conn_id) (body : bytes) : list net_move :=
  [Ask cid body; ToBroker 0; ToReader; FromReader; ToClient 0].

Definition alone_outcome (cid : conn_id) (body : bytes) (log : list net_event)
    (r : option (list bytes)) (y : system) : network :=
  match r with
  | Some ans => quiet_net y (log ++ [(cid, invoke body); (cid, receive ans)])
  | None => set_client {[ cid ]} (log ++ [(cid, invoke body)]) (quiet_net y log)
  end.

(** How [exchange] runs. *)
Lemma exchange_runs cid body op y v :
  ready dev y v -> cid <> [] -> rpc_of op body ->
  exists c1, emitted (@lcapd_process_request Wb (from_client cid (request dev body))) (sy_ctx y) =
      Ok (envelope (Some dev) cid body, c1) /\
    match emitted (@changelog_reader_rpc_hdl Wr _ (request_of true [[]; cid; []; body])) (sy_reader y) with
    | Fault x => exchange Wb Wr cid dev body y = Fault x
    | Ok (back, s2) =>
        re_ident (r_env s2) = Some dev /\
        (back = [] /\ exchange Wb Wr cid dev body y = Ok (None, mkSys c1 s2) \/
         exists pk c2, back = envelope None cid pk /\
           emitted (@lcapd_process_request Wb (from_reader dev back)) c1 =
             Ok (envelope None cid pk, c2) /\
           exchange Wb Wr cid dev body y = Ok (Some [pk], mkSys c2 s2))
    end.
Proof.
  intros [Hctx Hv Hid] Hc Hrpc.
  destruct (proj1 (wp_safe _ _ _) (request_emitted Wb dev Hb Hdev _ _ _ _ Hctx Hc Hrpc))
    as (fs & c1 & E1 & -> & Hc1).
  exists c1. split; [exact E1|].
  assert (Hreq := request_of_hop cid body Hc (nonempty_body _ (rpc_length _ _ Hrpc))).
  unfold exchange, on_broker, on_reader, zoom, mbind, M_bind, gets. rewrite E1.
  cbn [envelope app fmap list_fmap fst]. rewrite router_out_identity by done. cbn [compose sy_reader].
  rewrite Hid, bool_decide_eq_true_2 by done.
  cbn [sy_reader sy_ctx]. destruct (emitted _ (sy_reader y)) as [[back s2]|x] eqn:E2; [|done].
  assert (Hwp : wp (emitted (@changelog_reader_rpc_hdl Wr _ (request_of true [[]; cid; []; body])))
    (fun back s2 => re_ident (r_env s2) = Some dev /\
       (back = [] \/ exists pk, back = envelope None cid pk /\ reply_body pk)) (fun _ => True) (sy_reader y)).
  { apply wp_emitted. rewrite Hreq.
    eapply wp_mono; [by apply (@changelog_reader_rpc_hdl_spec Wr _ _ v _ cid)|cbn beta; cbn [lr_body]|done].
    intros rc s3 Ha. destruct (reader_back Wr Hr _ _ _ _ _ _ _ Hrpc Ha)
      as (v' & t & r & Ht & _ & _ & (_ & _ & _ & _ & _ & _ & ->) & Hback).
    exists t. split_and!; [exact Ht|done|]. destruct r; [right|by left].
    destruct Hback as (pk & _ & ? & ?). by exists pk. }
  unfold wp in Hwp. rewrite E2 in Hwp. destruct Hwp as [Hid2 Hback]. split; [done|].
  destruct Hback as [->|(pk & -> & Hpk)]; [by left|right].
  destruct (proj1 (wp_safe _ _ _) (reply_emitted Wb dev Hb Hdev _ _ _ Hc1 Hc Hpk))
    as (fs & c2 & E3 & -> & Hc2).
  exists pk, c2. split_and!; [done|exact E3|]. unfold answer_path, on_broker, zoom, mbind, M_bind.
  rewrite bool_decide_eq_false_2 by done. cbn [sy_ctx]. rewrite E3.
  cbn [envelope app fmap list_fmap fst]. rewrite router_out_identity by done.
  by rewrite bool_decide_eq_true_2, req_in_delimiter.
Qed.

Lemma net_run_step e es n n' :
  net_exec Wb Wr dev e n = Ok (tt, n') -> net_run Wb Wr dev (e :: es) n = net_run Wb Wr dev es n'.
Proof. intros He. cbn [net_run]. unfold mbind, M_bind. by rewrite He. Qed.

Lemma net_run_stop e es n x :
  net_exec Wb Wr dev e n = Fault x -> net_run Wb Wr dev (e :: es) n = Fault x.
Proof. intros He. cbn [net_run]. unfold mbind, M_bind. by rewrite He. Qed.

Lemma broker_turn_run n req src dst msg c' :
  emitted (@lcapd_process_request Wb req) (n_ctx n) = Ok (envelope src dst msg, c') ->
  broker_turn Wb req n = Ok (tt, route (set_sides c' (n_reader n) n) (envelope src dst msg)).
Proof.
  intros E. unfold broker_turn, net_broker, zoom, modify, mbind, M_bind. rewrite E.
  by rewrite split_envelope.
Qed.

Lemma to_broker_run n cid fs :
  n_up n = [(cid, fs)] ->
  net_exec Wb Wr dev (ToBroker 0) n = broker_turn Wb (from_client cid fs) (set_up [] n).
Proof.
  intros E. unfold net_exec, mbind, M_bind, gets, modify, id. rewrite E. cbn -[broker_turn].
  by rewrite E.
Qed.

Lemma to_reader_run n hop :
  n_down n = [hop] ->
  net_exec Wb Wr dev ToReader n =
    match emitted (@changelog_reader_rpc_hdl Wr _ (request_of true hop)) (n_reader n) with
    | Ok (fs, s') => Ok (tt, set_back (n_back n ++ split_messages fs)
                               (set_sides (n_ctx n) s' (set_down [] n)))
    | Fault x => Fault x
    end.
Proof.
  intros E. unfold net_exec, net_reader, zoom, mbind, M_bind, gets, modify, id. rewrite E.
  cbn [n_reader set_down]. by destruct (emitted _ (n_reader n)) as [[]|].
Qed.

Lemma from_reader_run n fs :
  n_back n = [fs] ->
  net_exec Wb Wr dev FromReader n = broker_turn Wb (from_reader dev fs) (set_back [] n).
Proof. intros E. unfold net_exec, mbind, M_bind, gets, modify, id. by rewrite E. Qed.

Ltac net_simpl :=
  cbn [n_ctx n_reader n_up n_down n_back n_mail n_waiting n_log sy_ctx sy_reader quiet_net
       set_sides set_up set_down set_back set_mail set_client app].

(** The exchange of System is the run of the network in which a request is
    alone: the same faults, the same state of the broker and the reader, and
    the reply that the client receives. *)
Theorem exchange_is_schedule cid body op y v log :
  ready dev y v -> cid <> [] -> cid <> dev -> rpc_of op body ->
  net_run Wb Wr dev (alone cid body) (quiet_net y log) =
    match exchange Wb Wr cid dev body y with
    | Ok (r, y') => Ok (tt, alone_outcome cid body log r y')
    | Fault x => Fault x
    end.
Proof.
  intros Hy Hc Hcd Hrpc. destruct (exchange_runs _ _ _ _ _ Hy Hc Hrpc) as (c1 & E1 & E2).
  pose proof (rd_ident _ _ _ Hy) as Hid. unfold alone.
  erewrite net_run_step.
  2: { unfold net_exec, mbind, M_bind, gets, modify, mret, M_ret, id. cbn [n_waiting quiet_net].
       rewrite decide_False by set_solver. reflexivity. }
  erewrite net_run_step.
  2: { rewrite (to_broker_run _ cid (request dev body)) by done.
       rewrite (broker_turn_run _ _ (Some dev) cid body c1) by exact E1.
       rewrite route_request by (done || exact Hid). reflexivity. }
  net_simpl. destruct (emitted _ (sy_reader y)) as [[back s2]|x] eqn:E3; cycle 1.
  { rewrite E2. apply net_run_stop. rewrite (to_reader_run _ [[]; cid; []; body]) by done. net_simpl.
    by rewrite E3. }
  erewrite net_run_step.
  2: { rewrite (to_reader_run _ [[]; cid; []; body]) by done. net_simpl. rewrite E3. reflexivity. }
  destruct E2 as [Hid2 [[-> ->]|(pk & c2 & -> & E4 & ->)]].
  { cbn. unfold mbind, M_bind. cbn. unfold alone_outcome, quiet_net, set_client. cbn.
    by rewrite (left_id_L ∅ (∪)). }
  rewrite split_envelope. net_simpl.
  erewrite net_run_step.
  2: { rewrite (from_reader_run _ (envelope None cid pk)) by done.
       rewrite (broker_turn_run _ _ None cid pk c2) by exact E4.
       rewrite (route_reply dev) by done. reflexivity. }
  net_simpl. cbn [net_run]. unfold net_exec, mbind, M_bind, gets, modify, mret, M_ret, id.
  cbn [n_mail lookup list_lookup]. cbn. rewrite req_in_delimiter. cbn.
  unfold alone_outcome, quiet_net, set_client, set_mail. cbn. by rewrite <- app_assoc, (left_id_L ∅ (∪)), difference_diag_L.
Qed.
End alone.

(** ** A concrete network: two clients at the same time *)

Definition demo_cid2 : conn_id := of_str "other".
Definition demo_ask : list net_move :=
  [Ask demo_cid demo_register; Ask demo_cid2 demo_register; ToBroker 1; ToReader; FromReader;
   ToClient 0; Batch 5; Ask demo_cid2 (enc_dequeue cl_dequeue_pack); ToBroker 0; ToBroker 0].

Lemma demo_well_asked : well_asked demo_dev demo_ask.
Proof.
  intros cid body Hin. unfold demo_ask in Hin. rewrite !elem_of_cons, elem_of_nil in Hin.
  assert (Hreg : exists op, rpc_of op demo_register) by (exists RPC_OP_START; exact register_rpc).
  assert (Hdeq : exists op, rpc_of op (enc_dequeue cl_dequeue_pack))
    by (exists RPC_OP_DEQUEUE; exact dequeue_rpc).
  by destruct Hin as [Ha|[Ha|[?|[?|[?|[?|[?|[Ha|[?|[?|[]]]]]]]]]]]; try done; injection Ha as -> ->;
    (split_and!; [done|by apply (bool_decide_unpack _)|]).
Qed.

Lemma demo_no_clear body : asked demo_ask body -> ~ is_clear body.
Proof.
  intros [cid Hin]. unfold demo_ask in Hin. rewrite !elem_of_cons, elem_of_nil in Hin.
  by destruct Hin as [Ha|[Ha|[?|[?|[?|[?|[?|[Ha|[?|[?|[]]]]]]]]]]]; try done; injection Ha as -> ->;
    vm_compute.
Qed.

Lemma born_ready : exists v, ready demo_dev sys0 v.
Proof. destruct born_fresh as (b & idx & batch & Hy). by eexists. Qed.

(** Deliver the first message of the first connection that has one. *)
Definition first_move (n : network) : option net_move :=
  match n_up n, n_down n, n_back n, n_mail n with
  | _ :: _, _, _, _ => Some (ToBroker 0)
  | _, _ :: _, _, _ => Some ToReader
  | _, _, _ :: _, _ => Some FromReader
  | _, _, _, _ :: _ => Some (ToClient 0)
  | _, _, _, _ => None
  end.

Lemma first_move_conserves : work_conserving first_move.
Proof.
  intros n. unfold first_move, net_load.
  destruct (n_up n) eqn:H1, (n_down n) eqn:H2, (n_back n) eqn:H3, (n_mail n) eqn:H4;
    cbn; rewrite ?H1, ?H2, ?H3, ?H4; cbn; (lia || done).
Qed.

Lemma network_linearizable_witness :
  exists v0, wp (net_run Wb Wr demo_dev demo_ask) (fun _ n => exists v h,
        ready demo_dev (mkSys (n_ctx n) (n_reader n)) v /\
        linear Wr (batch_of (n_reader n)) v0 h v /\ erase h = n_log n /\
        forall cid, exists p, phase_of cid h = Some p /\ (cid ∈ n_waiting n <-> p <> idle))
     (run_fault demo_ask) (quiet_net sys0 []).
Proof.
  destruct born_ready as [v0 Hv0]. exists v0.
  apply (network_linearizable Wb Wr demo_dev (proj1 demo_no_refusal) (proj2 demo_no_refusal)
    ltac:(discriminate) (demo_upstream_ok 5 0) sys0 v0 demo_ask); [exact Hv0|exact demo_well_asked].
Defined.

(** Two requests are under way; all are answered. *)
Lemma network_answers_all_witness :
  exists v0 n, net_run Wb Wr demo_dev demo_ask (quiet_net sys0 []) = Ok (tt, n) /\
    net_load n = 6%nat /\
    wp (net_deliver Wb Wr demo_dev first_move (net_load n)) (fun _ n' => exists v h,
        ready demo_dev (mkSys (n_ctx n') (n_reader n')) v /\
        linear Wr (batch_of (n_reader n')) v0 h v /\ erase h = n_log n' /\
        n_waiting n' = ∅ /\ net_load n' = 0%nat /\ forall cid, phase_of cid h = Some idle)
     safe n.
Proof.
  destruct born_ready as [v0 Hv0]. exists v0.
  assert (Hrun : exists n, net_run Wb Wr demo_dev demo_ask (quiet_net sys0 []) = Ok (tt, n) /\
    net_load n = 6%nat).
  { eexists. split; vm_compute; reflexivity. }
  destruct Hrun as (n & Hrun & Hload). exists n. split; [exact Hrun|]. split; [exact Hload|].
  apply (network_answers_all Wb Wr demo_dev (proj1 demo_no_refusal) (proj2 demo_no_refusal)
    ltac:(discriminate) (demo_upstream_ok 5 0) first_move sys0 v0 demo_ask n Hv0 demo_well_asked);
    [exact demo_no_clear|exact Hrun|exact first_move_conserves].
Defined.

Lemma network_shares_the_stream_witness :
  wp (net_run Wb Wr demo_dev demo_ask) (fun _ n => exists v rss,
        ready demo_dev (mkSys (n_ctx n) (n_reader n)) v /\ NoDup (held (v_cls v)) /\
        enqueues (replies_got (n_log n)) ⊆+ packet_of <$> rss /\
        sublist (concat rss) (stream (v_bks v)))
     (run_fault demo_ask) (quiet_net sys0 []).
Proof.
  apply (network_shares_the_stream Wb Wr demo_dev (proj1 demo_no_refusal) (proj2 demo_no_refusal)
    ltac:(discriminate) (demo_upstream_ok 5 0) 5 sys0 demo_ask);
    [exact demo_punctual_reader|exact born_fresh|exact demo_well_asked].
Defined.

Lemma network_packets_genuine_witness :
  exists v0, wp (net_run Wb Wr demo_dev demo_ask) (fun _ n => exists v more,
        ready demo_dev (mkSys (n_ctx n) (n_reader n)) v /\
        stream (v_bks v) = stream (v_bks v0) ++ more /\
        Forall (genuine (v_bks v)) (enqueues (replies_got (n_log n))))
     (run_fault demo_ask) (quiet_net sys0 []).
Proof.
  destruct born_ready as [v0 Hv0]. exists v0.
  apply (network_packets_genuine Wb Wr demo_dev (proj1 demo_no_refusal) (proj2 demo_no_refusal)
    ltac:(discriminate) (demo_upstream_ok 5 0) sys0 v0 demo_ask); [exact Hv0|exact demo_well_asked].
Defined.

Lemma exchange_is_schedule_witness :
  net_run Wb Wr demo_dev (alone demo_cid demo_register) (quiet_net sys1 []) =
    match exchange Wb Wr demo_cid demo_dev demo_register sys1 with
    | Ok (r, y') => Ok (tt, alone_outcome demo_cid demo_register [] r y')
    | Fault x => Fault x
    end.
Proof.
  assert (Hy : exists v, ready demo_dev sys1 v).
  { destruct born_ready as [v0 [Hc [Hv Hd] Hid]].
    assert (Hrun : exists rc, @changelog_reader_enqueue Wr _ 5 born = Ok (rc, filled)).
    { eexists. vm_compute. reflexivity. }
    destruct Hrun as [rc Hrun].
    destruct (wp_Ok _ _ _ _ _ _ (@enqueue_spec Wr _ (demo_upstream_ok 5 0) 5 _ _ _ Hv) Hrun)
      as (t & bks & recs & lost & _ & _ & Hinv & (_ & _ & Hd' & _ & Hid') & _).
    exists (mkView bks (v_cls v0) (v_deliver v0)). constructor; [exact demo_ctx_ok| |].
    - split; [exact Hinv|]. change (re_deliver_next (r_env filled) = v_deliver v0). rewrite Hd'. exact Hd.
    - change (re_ident (r_env filled) = Some demo_dev). rewrite Hid'. exact Hid. }
  destruct Hy as [v Hy].
  apply (exchange_is_schedule Wb Wr demo_dev (proj1 demo_no_refusal) (proj2 demo_no_refusal)
    ltac:(discriminate) demo_cid demo_register RPC_OP_START sys1 v []);
    [exact Hy|discriminate|discriminate|exact register_rpc].
Defined.
