(* ===== verification/Session.v ===== *)
(** * A session of a client

    A user of the library that starts, receives records, reads and frees each,
    and ends, connected through the broker to the reader of its device: the
    sockets of the client hand out what [exchange] yields for the requests that
    it has sent. *)
From S2P Require Import Prelude World Queue Idl LcapNet RpcUtils Effects Config Broker PxClient Reader ReaderRep ReaderInv ReaderBuckets ReaderRpc ReaderEnqueue ReaderSpec Demo ReaderHandlers ReaderMain ReaderRun PxSpec PxProps Routing System SystemProps Network.
Local Open Scope Z_scope.

(** ** The user *)

Section user.
Context `{World, ChangelogRec}.

(** Receive, read and free [k] records: the codes and what was read. *)
Fixpoint take_records (k : nat) : M client (list (Z * option bytes)) :=
  match k with
  | O => mret []
  | S k =>
      o ← px_changelog_recv 1;
      r ← (match snd o with
           | Some x => r ← read_record x; mret (Some (wire_rec r))
           | None => mret None
           end) : M client (option bytes);
      px_changelog_free;;
      os ← take_records k;
      mret ((fst o, r) :: os)
  end.

Definition session (flags : Z) (mdtname : bytes) (startrec : Z) (k : nat)
    : M client (Z * list (Z * option bytes) * Z) :=
  rc ← px_changelog_start flags mdtname startrec;
  os ← take_records k;
  rf ← px_changelog_fini 1;
  mret (rc, os, rf).
End user.

(** ** The server behind the sockets of the client *)

Section server.
Context (Wb Wr : World) `{ChangelogRec, ZmqSocketsLaws} (cid : conn_id).

(** The system after the requests [ms], sent one after the other, and the reply
    to the last; [None] if one of them gets no reply of one frame. *)
Fixpoint replay (ms : list (list (bytes * bool))) (pk : bytes) (y : system)
    : option (bytes * system) :=
  match ms with
  | [] => Some (pk, y)
  | m :: ms =>
      match m with
      | [(dev, _); (body, _)] =>
          match exchange Wb Wr cid dev body y with
          | Ok (Some [pk'], y') => replay ms pk' y'
          | _ => None
          end
      | _ => None
      end
  end.

Definition after_requests (y : system) (fs : list (bytes * bool)) : option (bytes * system) :=
  replay (split_messages fs) [] y.

(** What the socket of the client hands out is the reply to its last request. *)
Definition connected (Wc : World) (y : system) : Prop :=
  forall t pk y', after_requests y (frames_of t) = Some (pk, y') -> @w_frame Wc t = (pk, false).

Lemma replay_app ms1 ms2 pk y :
  replay (ms1 ++ ms2) pk y =
    match replay ms1 pk y with Some (pk', y') => replay ms2 pk' y' | None => None end.
Proof.
  revert pk y. induction ms1 as [|m ms1 IH]; intros pk y; cbn [replay app]; [done|].
  destruct m as [|[dev ?] [|[body ?] [|]]]; try done.
  by destruct (exchange _ _ _ _ _ _) as [[[[|pk' [|]]|] y']|].
Qed.

Lemma split_messages_requests dev body fs :
  split_messages (request dev body ++ fs) = request dev body :: split_messages fs.
Proof. cbn. by destruct (split_messages fs). Qed.

(** The requests of the client, as messages. *)
Definition requests (dev : conn_id) (bodies : list bytes) : list (bytes * bool) :=
  concat (request dev <$> bodies).

Lemma split_requests dev bodies :
  split_messages (requests dev bodies) = request dev <$> bodies.
Proof.
  induction bodies as [|body bodies IH]; [done|]. unfold requests. rewrite fmap_cons. cbn [concat].
  rewrite split_messages_requests. unfold requests in IH. by rewrite IH.
Qed.

(** One more request. *)
Lemma after_requests_snoc dev bodies body y pk y1 pk1 y2 :
  after_requests y (requests dev bodies) = Some (pk, y1) ->
  exchange Wb Wr cid dev body y1 = Ok (Some [pk1], y2) ->
  after_requests y (requests dev (bodies ++ [body])) = Some (pk1, y2).
Proof.
  unfold after_requests. rewrite !split_requests, fmap_app, replay_app. intros -> Hex.
  cbn. by rewrite Hex.
Qed.

Lemma requests_snoc dev bodies body :
  requests dev (bodies ++ [body]) = requests dev bodies ++ request dev body.
Proof. unfold requests. by rewrite fmap_app, concat_app. Qed.
End server.

(** ** START and FINI, served *)

Section served.
Context (Wb Wr : World) `{ChangelogRec, ZmqSocketsLaws} (dev : conn_id).
Context (Hb : ~ @send_refused Wb) (Hr : ~ @send_refused Wr) (Hdev : dev <> []).
Implicit Types (y : system) (v : view).

(** The view with a new client. *)
Definition joined (cid : conn_id) (start : Z) (c : loc) v : view :=
  mkView (v_bks v) (v_cls v ++ [(c, mkClient start None cid)]) (v_deliver v).

Lemma exchange_start (t0 : Z) cid y v flags startrec :
  @punctual Wr t0 -> ready dev y v -> cid <> [] -> client_of cid (v_cls v) = None ->
  Z.of_nat (length dev) < 128 ->
  wp (exchange Wb Wr cid dev (enc_register (cl_start_pack flags dev startrec)))
     (fun r y' => r = Some [enc_ack (ack_message 0)] /\
        exists c start, ready dev y' (joined cid start c v)) safe y.
Proof.
  intros Hpu Hy Hcid Hnew Hl. set (body := enc_register _).
  assert (Hlen : Z.of_nat (length body) = sizeof_register).
  { apply length_enc_register. cbn [reg_mdtname cl_start_pack].
    rewrite length_take, length_app, length_replicate. lia. }
  assert (Hrpc : rpc_of RPC_OP_START body).
  { split; [by left|]. split; [by apply get_op_type_hdr|].
    change (rpc_expected_length _) with sizeof_register. lia. }
  eapply wp_mono; [by apply (exchange_spec Wb Wr Hb Hr cid dev body _ y v Hy Hcid Hdev Hrpc)|cbn beta|by intros f [? _]].
  intros r y' (v' & Hy' & _ & Hans).
  assert (Hgo : forall rc t, @served Wr _ (batch_of (sy_reader y)) cid body RPC_OP_START v rc t v' ->
    rc = 0 /\ frames_of t = envelope None cid (enc_ack (ack_message 0)) /\
    exists c start, v' = joined cid start c v).
  { intros rc t Hs. inversion Hs as [|v1 c t1 _ Hc| |v1 c rc1 t1 _ _ Hsent| | | | | | | | | | | | |op v1 Hbad]; subst.
    - lia.
    - congruence.
    - by destruct (pu_memory _ Hpu).
    - apply (sent_whole Wr Hr) in Hsent as [-> Hf]. split_and!; [done|done|by eexists _, _].
    - by destruct Hbad as [|[|]]. }
  destruct Hans as [rc t v' Hs Hrc _|t v' pk Hs Hf _|t v' Hs ? _]; [| |done].
  - destruct (Hgo _ _ Hs) as (-> & _). lia.
  - destruct (Hgo _ _ Hs) as (_ & Hf' & c & start & ->). rewrite Hf in Hf'.
    unfold envelope in Hf'. cbn [app] in Hf'. simplify_eq. split; [done|]. by eexists _, _.
Qed.

Lemma exchange_fini cid y v :
  ready dev y v -> cid <> [] -> is_Some (client_of cid (v_cls v)) ->
  wp (exchange Wb Wr cid dev fini_request)
     (fun r y' => r = Some [enc_ack (ack_message 0)] /\ exists v', ready dev y' v' /\
        client_of cid (v_cls v') = None /\ v_bks v' = v_bks v) safe y.
Proof.
  intros Hy Hcid [c0 Hc0].
  assert (Hrpc : rpc_of RPC_OP_FINI fini_request).
  { split; [by do 3 right|]. split; [by apply get_op_type_hdr|done]. }
  eapply wp_mono; [by apply (exchange_spec Wb Wr Hb Hr cid dev _ _ y v Hy Hcid Hdev Hrpc)|cbn beta|by intros f [? _]].
  intros r y' (v' & Hy' & _ & Hans).
  assert (Hgo : forall rc t, @served Wr _ (batch_of (sy_reader y)) cid fini_request RPC_OP_FINI v rc t v' ->
    rc = 0 /\ frames_of t = envelope None cid (enc_ack (ack_message 0)) /\
    client_of cid (v_cls v') = None /\ v_bks v' = v_bks v).
  { intros rc t Hs. inversion Hs as [| | | | | | | | | | | | | |v1 Hbad|v1 c cs k1 k2 rc1 t1 _ Hh Hsent|op v1 Hbad]; subst.
    - destruct Hbad as [Hbad|Hbad]; [by change (4 < 4) in Hbad|congruence].
    - apply (sent_whole Wr Hr) in Hsent as [-> Hf]. split_and!; [done|done| |done].
      cbn [v_cls]. apply client_of_None. destruct Hh as (Hk & _ & Hid).
      pose proof (ei_idents _ _ _ (proj2 (proj1 (rd_repr _ _ _ Hy)))) as Hnd.
      rewrite Hk, fmap_app, fmap_cons in Hnd. cbn [compose snd] in Hnd. rewrite Hid in Hnd.
      rewrite <- Permutation_middle in Hnd. apply NoDup_cons in Hnd as [Hni _].
      by rewrite fmap_app.
    - by destruct Hbad as [|[|]]. }
  destruct Hans as [rc t v' Hs Hrc _|t v' pk Hs Hf _|t v' Hs ? _]; [| |done].
  - destruct (Hgo _ _ Hs) as (-> & _). lia.
  - destruct (Hgo _ _ Hs) as (_ & Hf' & ? & ?). rewrite Hf in Hf'.
    unfold envelope in Hf'. cbn [app] in Hf'. simplify_eq. split; [done|]. by exists v'.
Qed.

(** A client that joins is registered and changes nothing else. *)
Lemma joined_holds cid start c v :
  client_of cid (v_cls v) = None ->
  holds (joined cid start c v) cid c (mkClient start None cid) (v_cls v) [].
Proof.
  intros Hn. split; [done|]. split; [|done]. cbn [joined v_cls].
  induction (v_cls v) as [|[c' cs'] k IH]; cbn in *; [by rewrite bool_decide_eq_true_2|].
  case_bool_decide; [done|by apply IH].
Qed.

Lemma joined_orderly (t0 : Z) cid start c v sent pend :
  orderly t0 v sent pend -> orderly t0 (joined cid start c v) sent pend.
Proof.
  intros [G1 G2 G3 G4 G5 G6].
  assert (Hh : held (v_cls (joined cid start c v)) = held (v_cls v)).
  { cbn [joined v_cls]. rewrite held_app, held_one. cbn. by rewrite app_nil_r. }
  constructor; rewrite ?Hh; done.
Qed.

Lemma bound_registered cid y v b bk :
  ready dev y v -> bound cid v b bk -> is_Some (client_of cid (v_cls v)).
Proof.
  intros _ (k & cs & due & Hin & Hid & _).
  destruct (client_of cid (v_cls v)) as [c|] eqn:Hc; [by eexists|].
  apply client_of_None in Hc. destruct Hc. apply list_elem_of_fmap. by exists (k, cs).
Qed.
End served.

(** ** The client's side *)

Section taken.
Context (Wc : World) `{ChangelogRecLaws}.
Implicit Types (s : client).

Lemma read_whole s x r :
  reads s x r -> whole_rec r ->
  wp (r' ← read_record x; mret (Some (wire_rec r'))) (fun o s' => o = Some r /\ s' = s) safe s.
Proof.
  intros [rest Hrd] [Hs Hl]. wp_steps. unfold wp at 1. rewrite Hrd. wp_steps. split; [|done].
  unfold wire_rec. rewrite (rec_fields r rest Hs), Hl, Nat2Z.id. by rewrite take_app_length.
Qed.

(** A record that was received, read and freed. *)
Lemma took_record s mdt o r rs k :
  (exists s0, advanced s0 o r s) -> whole_rec r -> client_holds s mdt rs ->
  (forall s1, client_holds s1 mdt rs -> cl_trace s1 = cl_trace s ->
     wp (take_records k) (fun os s' => os = (fun r => (0, Some r)) <$> rs /\
       client_holds s' mdt [] /\ cl_trace s' = cl_trace s) safe s1) ->
  wp (r0 ← (match snd o with
            | Some x => r0 ← read_record x; mret (Some (wire_rec r0))
            | None => mret None
            end) : M client (option bytes);
      px_changelog_free;;
      os ← take_records k;
      mret ((fst o, r0) :: os))
    (fun os s' => os = (fun r => (0, Some r)) <$> (r :: rs) /\
       client_holds s' mdt [] /\ cl_trace s' = cl_trace s) safe s.
Proof.
  intros (s0 & Hbufs & _ & Ho & x & Hx & Hrd) Hw Hs Hrest. rewrite Hx, Ho, wp_bind.
  eapply wp_mono; [apply (read_whole s x r); [by eapply reads_bufs|done]|cbn beta|done].
  intros ? ? [-> ->]. wp_steps.
  eapply wp_mono; [by apply px_free_spec|cbn beta|done].
  intros rc s1 (_ & Hs1 & Ht1 & _). wp_steps.
  eapply wp_mono; [by apply Hrest|cbn beta|done].
  intros os s2 (-> & Hs2 & Ht2). by wp_steps.
Qed.

Lemma take_pending s mdt pend :
  client_holds s mdt pend ->
  wp (take_records (length pend)) (fun os s' => os = (fun r => (0, Some r)) <$> pend /\
       client_holds s' mdt [] /\ cl_trace s' = cl_trace s) safe s.
Proof.
  revert s. induction pend as [|r rs IH]; intros s Hs; cbn [length take_records]; [by wp_steps|].
  rewrite wp_bind. eapply wp_mono; [by apply px_recv_pending_spec|cbn beta|done].
  intros o s1 [Hadv Hs1]. pose proof Hadv as (_ & Ht & _). rewrite <- Ht.
  eapply took_record; [by eexists| |done|].
  - destruct Hs as (p & _ & _ & _ & Hw & _). by apply Forall_cons in Hw as [? _].
  - intros s2 Hs2 Ht2. rewrite <- Ht2. by apply IH.
Qed.
End taken.

Section connected.
Context (Wc Wb Wr : World) `{ChangelogRecLaws, ZmqSocketsLaws} (cid dev : conn_id).
Implicit Types (s : client) (y : system).

(** The client has sent the RPCs [bodies], and the reply to [body], if that is
    its next one, is [pk]. *)
Definition next_reply s y (bodies : list bytes) (body pk : bytes) : Prop :=
  frames_of (cl_trace s) = requests dev bodies /\ connected Wb Wr cid Wc y /\
  exists y', after_requests Wb Wr cid y (requests dev (bodies ++ [body])) = Some (pk, y').

Lemma next_reply_frame s y bodies body pk t :
  next_reply s y bodies body pk -> frames_of t = request dev body ->
  @w_frame Wc (cl_trace s ++ t) = (pk, false).
Proof.
  intros (Hf & Hc & y' & Hy') Ht. eapply Hc.
  by rewrite frames_of_app, Hf, Ht, <- requests_snoc.
Qed.

Lemma next_reply_heard s y bodies body pk fm :
  next_reply s y bodies body pk -> @heard Wc s (request dev body) fm -> fm = (pk, false).
Proof. intros Hn (t & Ht & <-). by eapply next_reply_frame. Qed.

Context (Hwc : ~ @call_fails Wc).

Lemma start_session s y flags startrec :
  let body := enc_register (cl_start_pack flags dev startrec) in
  next_reply s y [] body (enc_ack (ack_message 0)) -> Z.of_nat (length dev) < 128 ->
  (forall b, is_Some (cl_bufs s !! b) -> (b < cl_next s)%positive) ->
  wp (@px_changelog_start Wc flags dev startrec) (fun rc s' => rc = 0 /\
        client_holds s' dev [] /\ frames_of (cl_trace s') = requests dev [body]) safe s.
Proof.
  intros body Hn Hl Hlt. pose proof Hn as [Hf _].
  eapply wp_mono; [by apply (@px_start_spec Wc)|cbn beta|done].
  intros rc s' (t & Ht & _ & [(_ & _ & Hwhy)|(Hh & pk & more & Hft & Hhd & _ & ->)]).
  - exfalso. destruct Hwhy as [?|(t1 & Hf1 & Hl1)]; [done|].
    rewrite (next_reply_frame _ _ _ _ _ _ Hn Hf1) in Hl1. cbn [fst] in Hl1.
    rewrite length_ack in Hl1. lia.
  - rewrite Hft in Hhd. pose proof (next_reply_heard _ _ _ _ _ _ Hn Hhd) as [= -> ->].
    split_and!; [by apply ack_fields|done|].
    rewrite Ht, frames_of_app, Hf, Hft. done.
Qed.

Lemma take_session s y bodies bk :
  let body := enc_dequeue cl_dequeue_pack in
  next_reply s y bodies body (enqueue_packet bk) -> client_holds s dev [] ->
  bk_recs bk <> [] -> packable bk ->
  Z.of_nat (length (enqueue_packet bk)) <= RECV_BUFFER_LENGTH ->
  wp (@take_records Wc _ (length (bk_recs bk))) (fun os s' =>
        os = (fun r => (0, Some r)) <$> (wire_rec <$> bk_recs bk) /\ client_holds s' dev [] /\
        frames_of (cl_trace s') = requests dev (bodies ++ [body])) safe s.
Proof.
  intros body Hn Hs Hne Hpb Hfit. pose proof Hn as [Hf _].
  assert (Hans : @dequeue_answered Wc _ s dev).
  { intros t Ht. rewrite (next_reply_frame _ _ _ _ _ _ Hn Ht). split; [|done].
    destruct Hpb. by constructor. }
  destruct (length (bk_recs bk)) as [|k] eqn:Hk.
  { by destruct Hne; apply length_zero_iff_nil. }
  cbn [take_records]. rewrite wp_bind.
  eapply wp_mono; [by apply (@px_recv_refill_spec Wc)|cbn beta|done].
  intros o s1 (s0 & Hd & Hcase).
  destruct Hcase as [(Ho & _ & _)|(bk' & r & rs & Hbk & Hpack & Hsrv & Hs0 & Hadv & Hs1)].
  - exfalso. destruct Hd as [bk' t s' _ _ _ _ _ _ _|rc t s' _ _ _ _ Hsrv _|rc t s' _ _ Hwhy _|t s' _ Hoom _].
    + done.
    + pose proof (f_equal fst (next_reply_heard _ _ _ _ _ _ Hn Hsrv)) as Hpk. cbn [fst] in Hpk.
      apply (f_equal get_op_type) in Hpk. unfold enqueue_packet, enc_enqueue, enc_ack in Hpk.
      by rewrite !get_op_type_hdr in Hpk.
    + destruct Hwhy as [?|(t1 & Hf1 & Hl1)]; [done|].
      rewrite (next_reply_frame _ _ _ _ _ _ Hn Hf1) in Hl1. cbn [fst] in Hl1. lia.
    + auto.
  - pose proof (f_equal fst (next_reply_heard _ _ _ _ _ _ Hn Hsrv)) as Hpk. cbn [fst] in Hpk.
    pose proof (packet_inj bk' bk Hpack Hpb Hpk) as Hsame.
    rewrite Hbk in Hsame. rewrite <- Hsame.
    assert (Hrs : length rs = k).
    { apply (f_equal length) in Hsame. rewrite length_fmap, Hk in Hsame. cbn in Hsame. lia. }
    assert (Ht1 : frames_of (cl_trace s1) = requests dev (bodies ++ [body])).
    { destruct Hadv as (_ & -> & Ho & _). rewrite Ho in Hd.
      rewrite requests_snoc, <- Hf. inversion Hd as [? t ? Ht Hft| | |]; subst; try done.
      by rewrite Ht, frames_of_app, Hft. }
    eapply wp_mono; [eapply (took_record Wc s1 dev o r rs k)|cbn beta|done].
    + by eexists.
    + destruct Hs0 as (p & _ & _ & _ & Hw & _). by apply Forall_cons in Hw as [? _].
    + done.
    + intros s2 Hs2 Ht2. rewrite <- Ht2, <- Hrs. by apply take_pending.
    + intros os s2 (-> & Hs2 & ->). by rewrite Ht1.
Qed.

Lemma fini_session s y bodies :
  next_reply s y bodies fini_request (enc_ack (ack_message 0)) -> client_holds s dev [] ->
  wp (@px_changelog_fini Wc 1) (fun rc s' => rc = 0 /\ ccc_ptr s' = Some pzd_zero /\
        frames_of (cl_trace s') = requests dev (bodies ++ [fini_request])) safe s.
Proof.
  intros Hn Hs. pose proof Hn as [Hf _].
  assert (Hack : get_retcode (enc_ack (ack_message 0)) = 0) by by apply ack_fields.
  eapply wp_mono; [apply (@px_fini_spec Wc _ 0 s dev [] Hs)|cbn beta|done].
  { intros t Ht. by rewrite (next_reply_frame _ _ _ _ _ _ Hn Ht). }
  intros rc s' [(Hneg & _ & Hwhy)|(_ & Hp & _ & t & pk & Ht & Hft & Hh & ->)].
  - exfalso. destruct Hwhy as [[?|[(t1 & Hf1 & Hl1)|(t1 & Hf1 & Hl1)]]|(pk & t & (_ & _ & Hh) & ->)]; [done|..].
    + rewrite (next_reply_frame _ _ _ _ _ _ Hn Hf1) in Hl1. cbn [fst] in Hl1.
      rewrite length_ack in Hl1. lia.
    + rewrite (next_reply_frame _ _ _ _ _ _ Hn Hf1) in Hl1. cbn [fst] in Hl1.
      rewrite length_ack in Hl1. lia.
    + pose proof (f_equal fst (next_reply_heard _ _ _ _ _ _ Hn Hh)) as Hpk. cbn [fst] in Hpk.
      rewrite Hpk in Hneg. lia.
  - pose proof (f_equal fst (next_reply_heard _ _ _ _ _ _ Hn Hh)) as Hpk. cbn [fst] in Hpk. subst pk.
    split_and!; [done|done|]. by rewrite Ht, frames_of_app, Hf, Hft, requests_snoc.
Qed.
End connected.

(** ** The whole session *)

Definition new_client : client := mkCl None ∅ 1 [].

Section whole.
Context (Wc Wb Wr : World) `{ChangelogRecLaws, ZmqSocketsLaws} (cid dev : conn_id).
Context (Hb : ~ @send_refused Wb) (Hr : ~ @send_refused Wr).
Implicit Types (y : system) (v : view).

(** The replies of the system to the three requests of a session. *)
Lemma session_replies (t0 : Z) y v sent pend b bk flags startrec :
  @punctual Wr t0 -> ready dev y v -> orderly t0 v sent ((b, bk) :: pend) ->
  v_deliver v = Some b -> client_of cid (v_cls v) = None -> cid <> [] -> dev <> [] ->
  Z.of_nat (length dev) < 128 ->
  let b1 := enc_register (cl_start_pack flags dev startrec) in
  let b2 := enc_dequeue cl_dequeue_pack in
  let ack := enc_ack (ack_message 0) in
  exists y1 y2 y3 v3 due,
    after_requests Wb Wr cid y (requests dev [b1]) = Some (ack, y1) /\
    after_requests Wb Wr cid y (requests dev [b1; b2]) = Some (enqueue_packet bk, y2) /\
    after_requests Wb Wr cid y (requests dev [b1; b2; fini_request]) = Some (ack, y3) /\
    ready dev y3 v3 /\ client_of cid (v_cls v3) = None /\ (b, set_expiry due bk) ∈ v_bks v3 /\
    packable bk.
Proof.
  intros Hpu Hy Ho Hd Hnew Hcid Hdev Hl b1 b2 ack.
  destruct (proj1 (wp_safe _ _ _) (exchange_start Wb Wr dev Hb Hr Hdev t0 cid y v flags startrec
    Hpu Hy Hcid Hnew Hl)) as (r1 & y1 & E1 & -> & c & start & Hy1).
  destruct (proj1 (wp_safe _ _ _) (exchange_due Wb Wr dev Hb Hr Hdev t0 cid y1 _ sent pend c _ _ _ b bk
    Hpu Hy1 (joined_orderly t0 cid start c v _ _ Ho) Hcid (joined_holds cid start c v Hnew) eq_refl Hd))
    as (r2 & y2 & E2 & -> & v2 & Hy2 & Hbd).
  destruct (proj1 (wp_safe _ _ _) (exchange_fini Wb Wr dev Hb Hr Hdev cid y2 v2 Hy2 Hcid
    (bound_registered dev cid y2 v2 b bk Hy2 Hbd))) as (r3 & y3 & E3 & -> & v3 & Hy3 & Hgone & Hbks).
  destruct Hbd as (k & cs & due & _ & _ & _ & Hin).
  exists y1, y2, y3, v3, due.
  assert (A1 : after_requests Wb Wr cid y (requests dev [b1]) = Some (ack, y1)).
  { by apply (after_requests_snoc Wb Wr cid dev [] b1 y [] y). }
  assert (A2 : after_requests Wb Wr cid y (requests dev [b1; b2]) = Some (enqueue_packet bk, y2)).
  { by apply (after_requests_snoc Wb Wr cid dev [b1] b2 y ack y1). }
  split_and!; [done|done| |done|done|by rewrite Hbks|].
  - by apply (after_requests_snoc Wb Wr cid dev [b1; b2] fini_request y (enqueue_packet bk) y2).
  - by eapply bucket_packable; [apply (rd_repr _ _ _ Hy2)|].
Qed.

(** C4: A whole session: a new client that starts, takes as many records as the
    next bucket holds and ends, gets exactly the records of that bucket, in
    order and each in full, without a fault; every code is 0; at its end its
    structure is cleared, the reader does not know it any more and still
    keeps the bucket, which was not acknowledged. This is for a client none
    of whose calls fails and whose sockets lead to the system, where no send
    of the broker or of the reader is refused, the bucket is due and not
    empty, its packet has at most RECV_BUFFER_LENGTH bytes (8 MB), the clock
    of the reader stays within one acknowledgement timeout, so that no
    bucket that was sent expires, the memory of the reader does not run out,
    and the device has a name of 1 to 127 characters. *)
Theorem session_gets_bucket (t0 : Z) y v sent pend b bk flags startrec :
  ~ @call_fails Wc -> connected Wb Wr cid Wc y -> cid <> [] -> dev <> [] ->
  Z.of_nat (length dev) < 128 ->
  @punctual Wr t0 -> ready dev y v -> orderly t0 v sent ((b, bk) :: pend) ->
  v_deliver v = Some b -> client_of cid (v_cls v) = None -> bk_recs bk <> [] ->
  Z.of_nat (length (enqueue_packet bk)) <= RECV_BUFFER_LENGTH ->
  wp (@session Wc _ flags dev startrec (length (bk_recs bk))) (fun o c =>
        o = (0, (fun r => (0, Some r)) <$> (wire_rec <$> bk_recs bk), 0) /\
        ccc_ptr c = Some pzd_zero /\
        exists pk y' v' due, after_requests Wb Wr cid y (frames_of (cl_trace c)) = Some (pk, y') /\
          ready dev y' v' /\ client_of cid (v_cls v') = None /\ (b, set_expiry due bk) ∈ v_bks v')
     safe new_client.
Proof.
  intros Hwc Hconn Hcid Hdev Hl Hpu Hy Ho Hd Hnew Hne Hfit.
  destruct (session_replies t0 y v sent pend b bk flags startrec Hpu Hy Ho Hd Hnew Hcid Hdev Hl)
    as (y1 & y2 & y3 & v3 & due & A1 & A2 & A3 & Hy3 & Hgone & Hin & Hpb).
  unfold session. rewrite wp_bind. eapply wp_mono.
  { apply (start_session Wc Wb Wr cid dev Hwc new_client y flags startrec); [|done|].
    - split_and!; [done|done|by eexists].
    - intros b0 [x Hx]. cbn in Hx. by rewrite lookup_empty in Hx. }
  2: done.
  cbn beta. intros rc s1 (-> & Hs1 & Ht1). rewrite wp_bind. eapply wp_mono.
  { apply (take_session Wc Wb Wr cid dev Hwc s1 y [enc_register (cl_start_pack flags dev startrec)] bk);
      [split_and!; [done|done|by eexists]|done..]. }
  2: done.
  cbn beta. intros os s2 (-> & Hs2 & Ht2). rewrite wp_bind. eapply wp_mono.
  { apply (fini_session Wc Wb Wr cid dev Hwc s2 y (([enc_register (cl_start_pack flags dev startrec)]) ++
      [enc_dequeue cl_dequeue_pack])); [split_and!; [done|done|by eexists]|done]. }
  2: done.
  cbn beta. intros rf s3 (-> & Hp3 & Ht3). wp_steps. split_and!; [done|done|].
  exists (enc_ack (ack_message 0)), y3, v3, due. split_and!; [|done|done|done].
  rewrite Ht3. exact A3.
Qed.
End whole.

(** ** A concrete session *)

(** The world of a client whose sockets lead to a system. *)
Definition server_world (Wb Wr : World) `{ChangelogRec, ZmqSockets} (cid : conn_id) (y : system) : World := {|
  w_rc _ _ := 0; w_clock _ := (0, 0); w_rec _ := [];
  w_frame t := (default [] (fst <$> after_requests Wb Wr cid y (frames_of t)), false);
  w_revents _ := 0 |}.

Lemma server_connected (Wb Wr : World) `{ChangelogRec, ZmqSockets} cid y :
  connected Wb Wr cid (server_world Wb Wr cid y) y /\ ~ @call_fails (server_world Wb Wr cid y).
Proof.
  split.
  - intros t pk y' Hy. cbn. by rewrite Hy.
  - intros (t & c & Hz). by change (0 < 0) in Hz.
Qed.

Definition demo_newcomer : conn_id := of_str "newcomer".

Lemma session_gets_bucket_witness :
  wp (@session (server_world Wb Wr demo_newcomer demo_system) _ 0 demo_dev 0 1) (fun o c =>
        o = (0, (fun r => (0, Some r)) <$> [demo_rec 0], 0) /\ ccc_ptr c = Some pzd_zero /\
        exists pk y' v' due,
          after_requests Wb Wr demo_newcomer demo_system (frames_of (cl_trace c)) = Some (pk, y') /\
          ready demo_dev y' v' /\ client_of demo_newcomer (v_cls v') = None /\
          (1%positive, set_expiry due (demo_bucket 0 0)) ∈ v_bks v')
     safe new_client.
Proof.
  destruct (server_connected Wb Wr demo_newcomer demo_system) as [Hc Hf].
  refine (session_gets_bucket (server_world Wb Wr demo_newcomer demo_system) Wb Wr demo_newcomer demo_dev
    (proj1 demo_no_refusal) (proj2 demo_no_refusal) 5 demo_system due_view []
    [(2%positive, new_bucket 1 2)] 1%positive (demo_bucket 0 0) 0 0 Hf Hc _ _ _
    demo_punctual_reader demo_ready demo_orderly _ _ _ _).
  all: try discriminate; try reflexivity.
Defined.
