(* ===== verification/Startup.v ===== *)
(** * The readers report to the broker

    Every reader of the daemon sends a SIGNAL when it is up, and another one
    with the code of its error when it stops. In whatever order these messages
    reach the broker, its table names exactly the readers whose last report was
    that they are up. *)
From S2P Require Import Prelude World Queue Idl LcapNet RpcUtils Effects Config Broker PxClient Reader ReaderRep ReaderInv ReaderBuckets ReaderRpc ReaderEnqueue ReaderSpec Demo ReaderHandlers ReaderMain ReaderRun PxSpec PxProps Routing System SystemProps.
Local Open Scope Z_scope.

Record fleet := mkFleet { fl_ctx : lcap_ctx; fl_readers : list rstate }.

Section fleet.
Context (Wb : World) (Wr : nat -> World) `{ZmqSocketsLaws}.
Implicit Types (f : fleet) (devs : list bytes) (rcid : list (option conn_id)).

Definition on_fleet_broker {A} (m : M lcap_ctx A) : M fleet A :=
  zoom fl_ctx (fun c f => mkFleet c (fl_readers f)) m.
Definition on_reader_at {A} (i : nat) (m : M rstate A) : M fleet A :=
  os ← gets (fun f => fl_readers f !! i);
  s ← unwrap OutOfBounds os;
  zoom (fun _ => s) (fun s' f => mkFleet (fl_ctx f) (<[i := s']> (fl_readers f))) m.

(** Reader [i] sends its SIGNAL with [code], and the broker handles it. *)
Definition report (i : nat) (code : Z) : M fleet unit :=
  orid ← gets (fun f => fl_readers f !! i ≫= re_ident ∘ r_env);
  rid ← unwrap NullDeref orid;
  fs ← on_reader_at i (emitted (@changelog_reader_signal (Wr i) code));
  on_fleet_broker (@lcapd_process_request Wb (from_reader rid fs));;
  mret tt.

Fixpoint reports (es : list (nat * Z)) : M fleet unit :=
  match es with
  | [] => mret tt
  | (i, code) :: es => report i code;; reports es
  end.

(** What the table should be. *)
Definition table_after devs (es : list (nat * Z)) rcid : list (option conn_id) :=
  foldl (fun rcid e => <[e.1 := if e.2 =? 0 then devs !! e.1 else None]> rcid) rcid es.

(** The readers of the configured devices [devs], which differ. *)
Record fleet_ok devs f : Prop := {
  fo_ctx : ctx_ok (fl_ctx f);
  fo_count : ccf_mdtcount (cc_config (fl_ctx f)) = Z.of_nat (length devs);
  fo_devs : forall i dev, devs !! i = Some dev -> ccf_mdt (cc_config (fl_ctx f)) !! i = Some (Some dev);
  fo_readers : forall i dev, devs !! i = Some dev -> exists s, fl_readers f !! i = Some s /\
    reader_device (r_env s) = Some dev /\ re_ident (r_env s) = Some dev;
  fo_distinct : NoDup devs;
  fo_named : [] ∉ devs;
  fo_table : forall i cid, cc_rcid (fl_ctx f) !! i = Some (Some cid) -> devs !! i = Some cid;
}.

Lemma slot_of_spec n i rcid cid :
  match slot_of n i rcid cid with
  | Some j => rcid !! j = Some (Some cid)
  | None => forall j, (i <= j < i + n)%nat -> rcid !! j <> Some (Some cid)
  end.
Proof.
  revert i. induction n as [|n IH]; intros i; cbn [slot_of]; [lia|].
  case_bool_decide as Hi; [done|]. specialize (IH (S i)).
  destruct (slot_of n (S i) rcid cid); [done|]. intros j Hj.
  destruct (decide (j = i)) as [->|]; [done|]. apply IH. lia.
Qed.

Lemma u64_zero code : reader_code code -> u64 code = 0 <-> code = 0.
Proof.
  intros Hin. split; [|by intros ->]. intros Hz.
  assert (in_s 64 code) by (unfold reader_code, in_s in *; lia).
  rewrite <- (to_s_to_u 64 code) by done. unfold u64 in Hz. by rewrite Hz.
Qed.

(** The slot of the reader that is down is cleared. *)
Lemma down_slot devs f i dev :
  fleet_ok devs f -> devs !! i = Some dev ->
  match slot_of (Z.to_nat (ccf_mdtcount (cc_config (fl_ctx f)))) 0 (cc_rcid (fl_ctx f)) dev with
  | Some j => <[j := None]> (cc_rcid (fl_ctx f))
  | None => cc_rcid (fl_ctx f)
  end = <[i := None]> (cc_rcid (fl_ctx f)).
Proof.
  intros Hf Hi. pose proof (slot_of_spec (Z.to_nat (ccf_mdtcount (cc_config (fl_ctx f)))) 0
    (cc_rcid (fl_ctx f)) dev) as Hs. pose proof (lookup_lt_Some _ _ _ Hi) as Hlt.
  destruct (slot_of _ _ _ _) as [j|].
  - apply (fo_table _ _ Hf) in Hs. by rewrite (NoDup_lookup _ _ _ _ (fo_distinct _ _ Hf) Hs Hi).
  - specialize (Hs i). rewrite (fo_count _ _ Hf), Nat2Z.id in Hs. specialize (Hs ltac:(lia)).
    destruct (lookup_lt_is_Some_2 (cc_rcid (fl_ctx f)) i) as [r Hr].
    { pose proof (ck_slots _ (fo_ctx _ _ Hf)). pose proof (ck_count _ (fo_ctx _ _ Hf)) as Hc.
      rewrite (fo_count _ _ Hf) in Hc. lia. }
    rewrite list_insert_id; [done|]. destruct r as [cid|]; [|done].
    pose proof (fo_table _ _ Hf _ _ Hr). congruence.
Qed.

Context (Hmem : ~ @out_of_memory Wb) (Hsend : forall i, ~ @send_refused (Wr i)).

Lemma report_spec devs f i code :
  fleet_ok devs f -> (i < length devs)%nat -> reader_code code ->
  wp (report i code) (fun _ f' => fleet_ok devs f' /\
        cc_rcid (fl_ctx f') = table_after devs [(i, code)] (cc_rcid (fl_ctx f))) safe f.
Proof.
  intros Hf Hi Hcode. destruct (lookup_lt_is_Some_2 devs i Hi) as [dev Hdev].
  destruct (fo_readers _ _ Hf i dev Hdev) as (s & Hs & Hname & Hid).
  destruct (ck_names _ (fo_ctx _ _ Hf) i) as (dev' & Hdev' & Hnul & Hlen).
  { rewrite (fo_count _ _ Hf). lia. }
  rewrite (fo_devs _ _ Hf i dev Hdev) in Hdev'. injection Hdev' as <-.
  assert (Hne : dev <> []).
  { intros ->. apply (fo_named _ _ Hf). by apply list_elem_of_lookup_2 in Hdev. }
  unfold report, on_reader_at, on_fleet_broker. wp_steps. rewrite Hs. cbn [mbind option_bind compose].
  rewrite Hid. wp_steps. rewrite Hs. wp_steps. apply wp_emitted.
  eapply wp_mono; [by apply (@changelog_reader_signal_spec (Wr i))|cbn beta|done].
  intros rc s1 (t & He & _ & Hsent). exists t. split; [by apply (extends_trace _ _ _ He)|].
  destruct Hsent as [[_ ->]|(_ & Hbad & _)]; [|by destruct (Hsend i)].
  wp_steps.
  eapply wp_mono; [by apply (@signal_spec Wb _ _ _ dev dev code (fo_ctx _ _ Hf))|cbn beta|done].
  intros rc1 c (Hc & Hcfg & rc0 & t0 & t1 & Hbr & _ & _). wp_steps. cbn [fl_ctx fl_readers].
  destruct (signal_fields dev code Hlen) as (Hsize & _ & Hret & _).
  assert (Htab : cc_rcid c = <[i := if code =? 0 then Some dev else None]> (cc_rcid (fl_ctx f))).
  { destruct (Z.eqb_spec code 0) as [->|Hz].
    - destruct (brokered_up _ _ _ _ _ _ _ _ i Hbr) as [[_ ->]|(_ & _ & ?)]; [lia|exact Hret| |done|done].
      apply signal_slot; [apply Hf|done|done|rewrite (fo_count _ _ Hf); lia|by apply (fo_devs _ _ Hf)|].
      intros k Hk Hat. destruct (lookup_lt_is_Some_2 devs k ltac:(lia)) as [d Hd].
      rewrite (fo_devs _ _ Hf k d Hd) in Hat. simplify_eq.
      pose proof (NoDup_lookup _ _ _ _ (fo_distinct _ _ Hf) Hd Hdev). lia.
    - rewrite <- (down_slot devs f i dev Hf Hdev).
      assert (Hnz : get_sig_ret (enc_signal (signal_message code dev)) <> 0).
      { rewrite Hret. by rewrite u64_zero. }
      inversion Hbr as [op rc2 t2 Ho|op Ho Hsh|op rc2 t2 Ho| | | |]; subst; try congruence.
      all: try (by destruct Ho as [|[|[|]]]).
      all: try (by destruct Ho).
      change (rpc_expected_length _) with sizeof_signal in Hsh. lia. }
  split; [|by rewrite Htab; unfold table_after; cbn; rewrite Hdev].
  destruct Hf as [G1 G2 G3 G4 G5 G6 G7]. constructor; cbn [fl_ctx fl_readers]; rewrite ?Hcfg; try done.
  - intros j d Hj. destruct (decide (j = i)) as [->|Hji].
    + exists s1. rewrite list_lookup_insert_eq by by eapply lookup_lt_Some.
      assert (d = dev) as -> by congruence. rewrite He. by split_and!.
    + rewrite list_lookup_insert_ne by done. by apply G4.
  - intros j cid Hj. rewrite Htab in Hj. destruct (decide (j = i)) as [->|Hji].
    + apply list_lookup_insert_Some in Hj as [(_ & Hj & _)|[? _]]; [|done].
      destruct (code =? 0); congruence.
    + rewrite list_lookup_insert_ne in Hj by done. by apply G7.
Qed.

(** C15: The table of the broker tracks the readers: in whatever order the
    readers report that they are up or that they failed, and however often,
    a slot of the table holds the identity of its reader exactly when the
    last report of that reader was that it is up; slots that were not
    reported keep what they hold; no fault. This is for devices with
    distinct names, a broker whose memory does not run out, reports that 0MQ
    takes, and codes that are an int other than -2^31. *)
Theorem broker_tracks_readers devs f es :
  fleet_ok devs f -> Forall (fun e => (e.1 < length devs)%nat /\ reader_code e.2) es ->
  wp (reports es) (fun _ f' => fleet_ok devs f' /\
        cc_rcid (fl_ctx f') = table_after devs es (cc_rcid (fl_ctx f))) safe f.
Proof.
  intros Hf Hes. revert f Hf. induction Hes as [|[i code] es [Hi Hc] Hes IH]; intros f Hf;
    cbn [reports]; wp_steps; [done|].
  eapply wp_mono; [by apply report_spec|cbn beta|done]. intros [] f1 [Hf1 Ht1].
  eapply wp_mono; [by apply IH|cbn beta|done]. intros [] f2 [Hf2 Ht2].
  split; [done|]. by rewrite Ht2, Ht1.
Qed.
End fleet.

(** ** A daemon of one reader *)

Definition demo_fleet : fleet := mkFleet demo_ctx [born].

Lemma demo_fleet_ok : fleet_ok [demo_dev] demo_fleet.
Proof.
  constructor; [exact demo_ctx_ok|done| | | | |].
  - intros [|i] dev Hi; [|done]. injection Hi as <-. reflexivity.
  - intros [|i] dev Hi; [|done]. injection Hi as <-. exists born. split; [done|]. by vm_compute.
  - apply NoDup_singleton.
  - by intros [=]%list_elem_of_singleton.
  - intros i cid Hi. apply list_elem_of_lookup_2 in Hi.
    change (cc_rcid _) with (replicate 128 (@None conn_id)) in Hi. by apply elem_of_replicate in Hi as [? _].
Qed.

Lemma broker_tracks_readers_witness :
  wp (reports Wb (fun _ => Wr) [(0%nat, 0); (0%nat, - EINVAL)]) (fun _ f' => fleet_ok [demo_dev] f' /\
        cc_rcid (fl_ctx f') = table_after [demo_dev] [(0%nat, 0); (0%nat, - EINVAL)] (replicate 128 None))
     safe demo_fleet.
Proof.
  apply (broker_tracks_readers Wb (fun _ => Wr)).
  - intros (t & sz & Hz). by change (0 < 0) in Hz.
  - intros _. exact (proj2 demo_no_refusal).
  - exact demo_fleet_ok.
  - repeat constructor; apply (bool_decide_unpack _); vm_compute; exact I.
Defined.
