(* ===== verification/Devices.v ===== *)
(** * Many devices

    The daemon has one reader per device behind one broker. A request is served
    by the reader of the device that it names and by no other, so that each
    device behaves as if it were alone: [linear], the specification of a single
    reader, holds of what is asked of each of them. *)
From S2P Require Import Prelude World Queue Idl LcapNet RpcUtils Effects Config Broker PxClient Reader ReaderRep ReaderInv ReaderBuckets ReaderRpc ReaderEnqueue ReaderSpec Demo ReaderHandlers ReaderMain ReaderRun PxSpec PxProps Routing System SystemProps Network NetworkProps Startup.
Local Open Scope Z_scope.

Section devices.
Context (Wb : World) (Wr : nat -> World) `{ChangelogRec, ZmqSocketsLaws}.
Implicit Types (f : fleet) (devs : list bytes).

(** The reader that has an identity, as the ROUTER socket finds it. *)
Definition reader_of (rid : conn_id) (ss : list rstate) : option nat :=
  fst <$> list_find (fun s => re_ident (r_env s) = Some rid) ss.

(** The readers have the identities [devs], in this order. *)
Definition p_ident (s : rstate) : option conn_id := re_ident (r_env s).
Definition idents devs (ids : list (option conn_id)) : Prop := Some <$> devs = ids.

Lemma idents_lookup devs ss i s :
  idents devs (p_ident <$> ss) -> ss !! i = Some s -> exists dev, devs !! i = Some dev /\ p_ident s = Some dev.
Proof.
  intros Hid Hs. apply (f_equal (lookup i)) in Hid. rewrite !list_lookup_fmap, Hs in Hid.
  destruct (devs !! i) as [dev|]; [|done]. injection Hid as Hid. by exists dev.
Qed.

Lemma reader_of_ident devs ss i dev :
  NoDup devs -> idents devs (p_ident <$> ss) -> devs !! i = Some dev -> reader_of dev ss = Some i.
Proof.
  intros Hnd Hid Hi. unfold reader_of. destruct (list_find _ ss) as [[j s]|] eqn:Hfind; cbn.
  - apply list_find_Some in Hfind as (Hj & Hs & _).
    destruct (idents_lookup _ _ _ _ Hid Hj) as (dev' & Hdev' & Hs'). unfold p_ident in Hs'.
    f_equal. eapply NoDup_lookup; [exact Hnd|exact Hdev'|]. congruence.
  - apply list_find_None in Hfind. rewrite Forall_forall in Hfind.
    apply (f_equal (lookup i)) in Hid. rewrite !list_lookup_fmap, Hi in Hid.
    destruct (ss !! i) as [s|] eqn:Hs; [|done]. injection Hid as Hid.
    by destruct (Hfind s); [by eapply list_elem_of_lookup_2|].
Qed.

Lemma reader_of_nobody devs ss dev :
  idents devs (p_ident <$> ss) -> dev ∉ devs -> reader_of dev ss = None.
Proof.
  intros Hid Hdev. unfold reader_of. destruct (list_find _ ss) as [[j s]|] eqn:Hfind; [|done].
  apply list_find_Some in Hfind as (Hj & Hs & _). destruct Hdev.
  destruct (idents_lookup _ _ _ _ Hid Hj) as (dev' & Hdev' & Hs'). unfold p_ident in Hs'.
  eapply list_elem_of_lookup_2. rewrite Hdev'. congruence.
Qed.

(** The client [cid] sends the RPC [body] for the device [dev]; what its socket
    hands out as the reply, if there is one. *)
Definition fleet_exchange (cid dev : conn_id) (body : bytes) : M fleet (option (list bytes)) :=
  up ← on_fleet_broker (emitted (@lcapd_process_request Wb (from_client cid (request dev body))));
  readers ← gets fl_readers;
  match router_out up.*1 with
  | Some (dst, hop) =>
      match reader_of dst readers with
      | Some i =>
          back ← on_reader_at i (emitted (@changelog_reader_rpc_hdl (Wr i) _ (request_of true hop)));
          if bool_decide (back = []) then mret None
          else
            down ← on_fleet_broker (emitted (@lcapd_process_request Wb (from_reader dst back)));
            mret (match router_out down.*1 with
                  | Some (dst', hop') => if bool_decide (dst' = cid) then req_in hop' else None
                  | None => None
                  end)
      | None => mret None
      end
  | None => mret None
  end.

(** What happens in the daemon: a request and its answer, or a batch. *)
Inductive fleet_move :=
| Request (cid dev : conn_id) (body : bytes)
| ReadBatch (i fuel : nat).

(** The history: which device served which request of which client, and how. *)
Definition fleet_exec (e : fleet_move) : M fleet (list (bytes * net_event)) :=
  match e with
  | Request cid dev body =>
      r ← fleet_exchange cid dev body; mret [(dev, (cid, serve body r))]
  | ReadBatch i fuel =>
      on_reader_at i (@changelog_reader_enqueue (Wr i) _ fuel);; mret []
  end.

Fixpoint fleet_run (es : list fleet_move) : M fleet (list (bytes * net_event)) :=
  match es with
  | [] => mret []
  | e :: es => h1 ← fleet_exec e; h2 ← fleet_run es; mret (h1 ++ h2)
  end.

Definition for_device (dev : bytes) (h : list (bytes * net_event)) : list net_event :=
  snd <$> filter (fun e => e.1 = dev) h.

Lemma for_device_app dev h1 h2 : for_device dev (h1 ++ h2) = for_device dev h1 ++ for_device dev h2.
Proof. unfold for_device. by rewrite filter_app, fmap_app. Qed.

(** ** One device alone *)

(** What [e] is for the reader of the device [dev], the number [i]. *)
Definition device_exec (i : nat) (dev : bytes) (e : fleet_move) : M rstate (list net_event) :=
  match e with
  | Request cid dev' body =>
      if bool_decide (dev' = dev) then
        r ← ask_reader (Wr i) cid body; mret [(cid, serve body r)]
      else mret []
  | ReadBatch j fuel =>
      if bool_decide (j = i) then @changelog_reader_enqueue (Wr i) _ fuel;; mret [] else mret []
  end.

Fixpoint device_run (i : nat) (dev : bytes) (es : list fleet_move) : M rstate (list net_event) :=
  match es with
  | [] => mret []
  | e :: es => h1 ← device_exec i dev e; h2 ← device_run i dev es; mret (h1 ++ h2)
  end.

(** The broker is set up; each device has a reader, which knows its name. *)
Record fleet_ready devs f : Prop := {
  fr_ctx : ctx_ok (fl_ctx f);
  fr_distinct : NoDup devs;
  fr_named : [] ∉ devs;
  fr_count : length (fl_readers f) = length devs;
  fr_readers : forall i dev, devs !! i = Some dev -> exists s v, fl_readers f !! i = Some s /\
    @represents _ s v /\ re_ident (r_env s) = Some dev;
}.

(** The requests are well formed; they may name a device that is not there. *)
Definition fleet_asks devs (e : fleet_move) : Prop :=
  match e with
  | Request cid dev body => cid <> [] /\ dev <> [] /\ exists op, rpc_of op body
  | ReadBatch i _ => (i < length devs)%nat
  end.

Lemma fleet_ready_set devs f i dev c s v :
  fleet_ready devs f -> devs !! i = Some dev -> ready dev (mkSys c s) v ->
  fleet_ready devs (mkFleet c (<[i := s]> (fl_readers f))).
Proof.
  intros [F1 F2 F3 F4 F5] Hi [Hc Hv Hid]. constructor; cbn [fl_ctx fl_readers]; try done.
  { by rewrite length_insert. }
  intros j d Hj. destruct (decide (j = i)) as [->|Hne].
  - simplify_eq. exists s, v. rewrite list_lookup_insert_eq; [done|].
    rewrite F4. by eapply lookup_lt_Some.
  - rewrite list_lookup_insert_ne by done. by apply F5.
Qed.

Lemma fleet_idents devs f : fleet_ready devs f -> idents devs (p_ident <$> fl_readers f).
Proof.
  intros [_ _ _ F4 F5]. apply list_eq. intros i. rewrite !list_lookup_fmap.
  destruct (devs !! i) as [dev|] eqn:Hi.
  - destruct (F5 i dev Hi) as (s & v & -> & _ & Hid). cbn. unfold p_ident. by rewrite Hid.
  - apply lookup_ge_None in Hi. rewrite <- F4 in Hi. by rewrite (proj2 (lookup_ge_None _ _) Hi).
Qed.

Lemma reader_of_device devs f i dev :
  fleet_ready devs f -> devs !! i = Some dev -> reader_of dev (fl_readers f) = Some i.
Proof. intros Hf. apply reader_of_ident; [apply Hf|by apply fleet_idents]. Qed.

Lemma reader_of_none devs f dev :
  fleet_ready devs f -> dev ∉ devs -> reader_of dev (fl_readers f) = None.
Proof. intros Hf. by apply reader_of_nobody, fleet_idents. Qed.

Context (Hb : ~ @send_refused Wb) (Hr : forall i, ~ @send_refused (Wr i)).
Context (Hup : forall i, @upstream_ok (Wr i) _).

(** An exchange of the fleet is the exchange of the system of that device. *)
Lemma fleet_exchange_eq devs f cid dev body op i s :
  fleet_ready devs f -> devs !! i = Some dev -> fl_readers f !! i = Some s ->
  cid <> [] -> rpc_of op body ->
  fleet_exchange cid dev body f =
    match exchange Wb (Wr i) cid dev body (mkSys (fl_ctx f) s) with
    | Ok (r, y) => Ok (r, mkFleet (sy_ctx y) (<[i := sy_reader y]> (fl_readers f)))
    | Fault x => Fault x
    end.
Proof.
  intros Hf Hi Hs Hcid (Hop & Hcode & Hlen).
  assert (Hdev : dev <> []).
  { intros ->. apply (fr_named _ _ Hf). by eapply list_elem_of_lookup_2. }
  destruct (fr_readers _ _ Hf i dev Hi) as (s0 & v & Hs0 & _ & Hid). simplify_eq.
  pose proof (reader_of_device _ _ _ _ Hf Hi) as Hrd.
  destruct (proj1 (wp_safe _ _ _) (@client_request_reaches_reader Wb _ _ (fl_ctx f) cid dev body op
    (fr_ctx _ _ Hf) Hcid Hdev Hop Hcode Hlen)) as (rc & c1 & Hrun & Hreq).
  destruct Hreq as (fs & hop & (_ & _ & t0 & t & Ht & Hcase) & Hout & _).
  destruct Hcase as [(_ & -> & Hfs)|[? _]]; [|done]. rewrite app_nil_r in Ht.
  apply (emitted_Ok _ _ _ _ t0) in Hrun; [|exact Ht]. rewrite Hfs in Hrun.
  unfold fleet_exchange, exchange, answer_path, on_fleet_broker, on_broker, on_reader_at, on_reader,
    zoom, mbind, M_bind, gets, mret, M_ret.
  cbn [sy_ctx sy_reader compose fl_readers fl_ctx]. rewrite Hrun, Hout.
  cbn [fl_readers fl_ctx sy_reader sy_ctx]. rewrite Hrd, Hid, bool_decide_eq_true_2 by done.
  cbn [fl_readers fl_ctx]. rewrite Hs. cbn [unwrap mret M_ret].
  cbn [sy_reader sy_ctx].
  destruct (emitted _ s) as [[back s2]|x]; cbn [sy_reader sy_ctx fl_ctx fl_readers]; [|done].
  case_bool_decide; [done|]. cbn [sy_reader sy_ctx fl_ctx fl_readers].
  by destruct (emitted _ c1) as [[down c2]|x].
Qed.
(** A request for a device that is not there reaches no reader. *)
Lemma fleet_exchange_nobody devs f cid dev body op :
  fleet_ready devs f -> dev ∉ devs -> cid <> [] -> dev <> [] -> rpc_of op body ->
  wp (fleet_exchange cid dev body) (fun r f' => r = None /\ ctx_ok (fl_ctx f') /\
        fl_readers f' = fl_readers f) safe f.
Proof.
  intros Hf Hdev Hcid Hd (Hop & Hcode & Hlen). unfold fleet_exchange, on_fleet_broker. wp_steps.
  apply wp_emitted.
  eapply wp_mono; [by apply (@client_request_reaches_reader Wb _ _ (fl_ctx f) cid dev body op (fr_ctx _ _ Hf))|cbn beta|done].
  intros rc c (fs & hop & (_ & Hc & t0 & t & Ht & Hcase) & Hout & _).
  destruct Hcase as [(_ & -> & Hfs)|[? _]]; [|done]. rewrite app_nil_r in Ht. exists t0.
  split; [exact Ht|]. cbn beta. rewrite Hfs, Hout. wp_steps. cbn [fl_readers].
  by rewrite (reader_of_none _ _ _ Hf Hdev).
Qed.

(** The faults of a device, asked [es]. *)
Definition device_fault (i : nat) (dev : bytes) (es : list fleet_move) (x : fault) : Prop :=
  x = OutOfFuel /\ (exists fuel, ReadBatch i fuel ∈ es) \/
  x = UseAfterFree /\ exists cid body, Request cid dev body ∈ es /\ is_clear body.

Lemma device_fault_mono i dev es es' x :
  es ⊆ es' -> device_fault i dev es x -> device_fault i dev es' x.
Proof.
  intros Hs [[-> [fuel Hx]]|[-> (cid & body & Hx & Hc)]]; [left|right]; (split; [done|]).
  - exists fuel. by apply Hs.
  - exists cid, body. split; [by apply Hs|done].
Qed.

(** The reader has served [h] one at a time since its view was [v0]. *)
Definition has_served (i : nat) (v0 : view) (h : list net_event) (s : rstate) : Prop :=
  exists v, @represents _ s v /\ linear (Wr i) (batch_of s) v0 h v.

Lemma device_exec_spec devs i dev e s v0 h :
  has_served i v0 h s -> fleet_asks devs e ->
  wp (device_exec i dev e) (fun h' => has_served i v0 (h ++ h')) (device_fault i dev [e]) s.
Proof.
  intros (v & Hv & Hlin) He.
  assert (Hsame : has_served i v0 (h ++ []) s) by (exists v; by rewrite app_nil_r).
  destruct e as [cid dev' body|j fuel]; cbn [device_exec]; case_bool_decide; wp_steps; try exact Hsame; subst.
  - destruct He as (_ & _ & op & Hrpc).
    eapply wp_mono; [by apply (ask_reader_spec (Wr i) (Hr i) cid body op s v)|cbn beta|].
    + intros r s1 (v1 & Hv1 & Hst & Hans). wp_steps. exists v1. split; [done|].
      replace (batch_of s1) with (batch_of s) by (unfold batch_of, cfg_of; by rewrite (proj1 Hst)).
      eapply linear_serve; try done. exact (represents_distinct _ _ Hv1).
    + intros x [-> ->]. right. split; [done|]. exists cid, body. split; [by left|].
      destruct Hrpc as (_ & Hcode & _). unfold is_clear. by rewrite Hcode, op_of_code_code.
  - destruct Hv as [Hinv Hdl].
    eapply wp_mono; [by apply (@enqueue_spec (Wr i) _ (Hup i))|cbn beta|].
    + intros rc s1 (t & bks & recs & lost & _ & _ & Hinv' & (Hcfg & _ & Hd & _) & Hg & _). wp_steps.
      exists (mkView bks (v_cls v) (v_deliver v)).
      assert (Hv1 : @represents _ s1 (mkView bks (v_cls v) (v_deliver v))).
      { split; [exact Hinv'|]. cbn. by rewrite Hd. }
      split; [exact Hv1|].
      replace (batch_of s1) with (batch_of s) by (unfold batch_of, cfg_of; by rewrite Hcfg).
      rewrite app_nil_r. eapply linear_read; [done|done|exact (represents_distinct _ _ Hv1)].
    + intros x <-. left. split; [done|]. exists fuel. by left.
Qed.

(** The reader alone serves its requests one at a time. *)
Lemma device_run_spec devs i dev es s v0 h :
  has_served i v0 h s -> Forall (fleet_asks devs) es ->
  wp (device_run i dev es) (fun h' => has_served i v0 (h ++ h')) (device_fault i dev es) s.
Proof.
  intros Hs Hes. revert s h Hs. induction Hes as [|e es He Hes IH]; intros s h Hs; cbn [device_run]; wp_steps.
  { by rewrite app_nil_r. }
  eapply wp_mono; [by eapply device_exec_spec|cbn beta|].
  - intros h1 s1 Hs1. wp_steps. eapply wp_mono; [by apply (IH s1 (h ++ h1))|cbn beta|].
    + intros h2 s2 Hs2. wp_steps. by rewrite app_assoc.
    + intros x. apply device_fault_mono. intros y Hy. by right.
  - intros x. apply device_fault_mono. intros y ->%list_elem_of_singleton. by left.
Qed.

(** ** All devices *)

(** What a run of the fleet is for each of its devices: the run [m] of that
    device alone, from the reader of [f]. *)
Definition each_device devs f (m : nat -> bytes -> M rstate (list net_event))
    (h : list (bytes * net_event)) f' : Prop :=
  forall i dev s, devs !! i = Some dev -> fl_readers f !! i = Some s ->
    exists s', fl_readers f' !! i = Some s' /\ m i dev s = Ok (for_device dev h, s').

Definition some_device devs f (m : nat -> bytes -> M rstate (list net_event)) (x : fault) : Prop :=
  exists i dev s, devs !! i = Some dev /\ fl_readers f !! i = Some s /\ m i dev s = Fault x.

(** Nobody answers for a device that is not there. *)
Definition unanswered devs (h : list (bytes * net_event)) : Prop :=
  forall dev e, (dev, e) ∈ h -> dev ∉ devs -> exists cid body, e = (cid, serve body None).

Lemma for_device_self dev e : for_device dev [(dev, e)] = [e].
Proof. unfold for_device. by rewrite filter_cons_True. Qed.

Lemma for_device_other dev dev' e : dev' <> dev -> for_device dev [(dev', e)] = [].
Proof. intros Hd. unfold for_device. by rewrite filter_cons_False. Qed.

(** One reader moves, the others stay. *)
Lemma each_device_set devs f m h i dev c s s' :
  NoDup devs -> devs !! i = Some dev -> fl_readers f !! i = Some s ->
  m i dev s = Ok (for_device dev h, s') ->
  (forall j dev' s0, devs !! j = Some dev' -> j <> i -> dev' <> dev ->
     m j dev' s0 = Ok (for_device dev' h, s0)) ->
  each_device devs f m h (mkFleet c (<[i := s']> (fl_readers f))).
Proof.
  intros Hnd Hi Hs Hm Hother j dev' s0 Hj Hs0. cbn [fl_readers].
  destruct (decide (j = i)) as [->|Hne].
  - simplify_eq. exists s'. rewrite list_lookup_insert_eq by by eapply lookup_lt_Some. done.
  - exists s0. rewrite list_lookup_insert_ne by done. split; [done|]. apply Hother; [done..|].
    intros ->. by eapply Hne, NoDup_lookup.
Qed.

(** The broker is transparent: the client gets what the reader alone answers. *)
Lemma fleet_exchange_alone devs f cid dev body op i s :
  fleet_ready devs f -> devs !! i = Some dev -> fl_readers f !! i = Some s ->
  cid <> [] -> rpc_of op body ->
  wp (fleet_exchange cid dev body) (fun r f' => exists c s',
        f' = mkFleet c (<[i := s']> (fl_readers f)) /\ fleet_ready devs f' /\
        ask_reader (Wr i) cid body s = Ok (r, s'))
     (fun x => ask_reader (Wr i) cid body s = Fault x) f.
Proof.
  intros Hf Hi Hs Hcid Hrpc. unfold wp. rewrite (fleet_exchange_eq _ _ _ _ _ _ _ _ Hf Hi Hs Hcid Hrpc).
  destruct (fr_readers _ _ Hf i dev Hi) as (s0 & v & Hs0 & Hv & Hid). simplify_eq.
  assert (Hdev : dev <> []).
  { intros ->. apply (fr_named _ _ Hf). by eapply list_elem_of_lookup_2. }
  assert (Hy : ready dev (mkSys (fl_ctx f) s) v) by (constructor; [apply Hf|done|done]).
  pose proof (exchange_alone Wb (Wr i) Hb (Hr i) cid dev body op _ v Hy Hcid Hdev Hrpc) as Hx.
  unfold wp in Hx. destruct (exchange _ _ _ _ _ _) as [[r [c s']]|x]; [|apply Hx].
  destruct Hx as (Hask & v' & Hy' & _). exists c, s'. split_and!; [done|by eapply fleet_ready_set|exact Hask].
Qed.

Lemma fleet_exec_spec devs f e :
  fleet_ready devs f -> fleet_asks devs e ->
  wp (fleet_exec e) (fun h f' => fleet_ready devs f' /\ unanswered devs h /\
        each_device devs f (fun i dev => device_exec i dev e) h f')
     (some_device devs f (fun i dev => device_exec i dev e)) f.
Proof.
  intros Hf He. destruct e as [cid dev body|i fuel]; cbn [fleet_exec]; wp_steps.
  - destruct He as (Hcid & Hdev & op & Hrpc). destruct (decide (dev ∈ devs)) as [Hin|Hni].
    + pose proof Hin as [i Hi]%list_elem_of_lookup_1.
      destruct (fr_readers _ _ Hf i dev Hi) as (s & v & Hs & _).
      eapply wp_mono; [by eapply fleet_exchange_alone|cbn beta|].
      * intros r f' (c & s' & -> & Hf' & Hask). wp_steps. split; [done|]. split.
        { intros d e [= -> _]%list_elem_of_singleton Hd. by destruct Hd. }
        eapply (each_device_set _ _ _ _ i dev); [apply Hf|done|done| |].
        { rewrite for_device_self. cbn [device_exec]. rewrite bool_decide_eq_true_2 by done.
          unfold mbind, M_bind. by rewrite Hask. }
        intros j d s0 Hj Hne Hnd. rewrite for_device_other by done. cbn [device_exec].
        by rewrite bool_decide_eq_false_2 by done.
      * intros x Hask. exists i, dev, s. split_and!; [done..|]. cbn [device_exec].
        rewrite bool_decide_eq_true_2 by done. unfold mbind, M_bind. by rewrite Hask.
    + eapply wp_mono; [by eapply fleet_exchange_nobody|cbn beta|done].
      intros r [c rs] (-> & Hc & Heq). cbn in Hc, Heq. subst rs. wp_steps. split_and!.
      * destruct Hf. by constructor.
      * intros d e [= -> ->]%list_elem_of_singleton _. by exists cid, body.
      * intros j d s Hj Hs. exists s. split; [done|]. cbn [device_exec].
        assert (dev <> d) by (intros ->; by apply Hni; eapply list_elem_of_lookup_2).
        by rewrite bool_decide_eq_false_2, for_device_other by done.
  - destruct (lookup_lt_is_Some_2 devs i He) as [dev Hi].
    destruct (fr_readers _ _ Hf i dev Hi) as (s & v & Hs & Hv & Hid).
    unfold on_reader_at. wp_steps. rewrite Hs. wp_steps.
    eapply wp_mono; [apply wp_self; by apply (@enqueue_spec (Wr i) _ (Hup i)), Hv|cbn beta|].
    + intros rc s' [Hrun (t & bks & recs & lost & _ & _ & Hinv' & (_ & _ & Hd & _ & Hid') & _)]. wp_steps.
      split; [|split; [by intros ? ? ?%elem_of_nil|]].
      * eapply (fleet_ready_set _ _ _ _ _ _ (mkView bks (v_cls v) (v_deliver v))); [done|done|].
        constructor; [apply Hf| |by cbn; rewrite Hid'].
        destruct Hv as [_ Hdl]. split; [exact Hinv'|]. cbn. by rewrite Hd.
      * eapply (each_device_set _ _ _ _ i dev); [apply Hf|done|done| |].
        { cbn [device_exec]. rewrite bool_decide_eq_true_2 by done. unfold mbind, M_bind. by rewrite Hrun. }
        intros j d s0 Hj Hne _. cbn [device_exec]. by rewrite bool_decide_eq_false_2 by done.
    + intros x [Hrun _]. exists i, dev, s. split_and!; [done..|]. cbn [device_exec].
      rewrite bool_decide_eq_true_2 by done. unfold mbind, M_bind. by rewrite Hrun.
Qed.

Lemma fleet_run_spec devs f es :
  fleet_ready devs f -> Forall (fleet_asks devs) es ->
  wp (fleet_run es) (fun h f' => fleet_ready devs f' /\ unanswered devs h /\
        each_device devs f (fun i dev => device_run i dev es) h f')
     (some_device devs f (fun i dev => device_run i dev es)) f.
Proof.
  intros Hf Hes. revert f Hf. induction Hes as [|e es He Hes IH]; intros f Hf; cbn [fleet_run device_run]; wp_steps.
  { split_and!; [done|by intros ? ? ?%elem_of_nil|]. intros i dev s _ Hs. by exists s. }
  eapply wp_mono; [by eapply fleet_exec_spec|cbn beta|].
  - intros h1 f1 (Hf1 & Hu1 & He1). wp_steps. eapply wp_mono; [by apply IH|cbn beta|].
    + intros h2 f2 (Hf2 & Hu2 & He2). wp_steps. split; [done|]. split.
      { intros d a [Ha|Ha]%elem_of_app; [by apply Hu1|by apply Hu2]. }
      intros i dev s Hi Hs. destruct (He1 i dev s Hi Hs) as (s1 & Hs1 & Hr1).
      destruct (He2 i dev s1 Hi Hs1) as (s2 & Hs2 & Hr2). exists s2. split; [done|].
      unfold mbind, M_bind. by rewrite Hr1, Hr2, for_device_app.
    + intros x (i & dev & s1 & Hi & Hs1 & Hr2). destruct (fr_readers _ _ Hf i dev Hi) as (s & v & Hs & _).
      destruct (He1 i dev s Hi Hs) as (s1' & Hs1' & Hr1). simplify_eq. exists i, dev, s.
      split_and!; [done..|]. unfold mbind, M_bind. by rewrite Hr1, Hr2.
  - intros x (i & dev & s & Hi & Hs & Hr1). exists i, dev, s. split_and!; [done..|].
    unfold mbind, M_bind. by rewrite Hr1.
Qed.

Lemma served_none i s v : @represents _ s v -> has_served i v [] s.
Proof. intros Hv. exists v. split; [done|]. apply linear_start. Qed.

(** C6: The devices are independent: whatever clients ask of whatever devices,
    between batches that the readers read in any order, each reader ends as
    it would end alone, asked only what names its device, the clients get
    for that device exactly the answers that it would give alone, and these
    are the answers of a reader that serves one request at a time. A request
    for a device that is not there is not answered. There is a fault only if
    one of the readers alone has it. *)
Theorem devices_independent devs f es :
  fleet_ready devs f -> Forall (fleet_asks devs) es ->
  wp (fleet_run es) (fun h f' => fleet_ready devs f' /\ unanswered devs h /\
        forall i dev s v, devs !! i = Some dev -> fl_readers f !! i = Some s -> @represents _ s v ->
          exists s', fl_readers f' !! i = Some s' /\
            device_run i dev es s = Ok (for_device dev h, s') /\
            has_served i v (for_device dev h) s')
     (fun x => exists i dev s, devs !! i = Some dev /\ fl_readers f !! i = Some s /\
        device_run i dev es s = Fault x /\ device_fault i dev es x) f.
Proof.
  intros Hf Hes. eapply wp_mono; [by eapply fleet_run_spec|cbn beta|].
  - intros h f' (Hf' & Hu & Heach). split_and!; [done..|]. intros i dev s v Hi Hs Hv.
    destruct (Heach i dev s Hi Hs) as (s' & Hs' & Hrun). exists s'. split_and!; [done..|].
    apply (wp_Ok _ _ _ _ _ _ (device_run_spec devs i dev es s v [] (served_none i s v Hv) Hes) Hrun).
  - intros x (i & dev & s & Hi & Hs & Hrun). exists i, dev, s. split_and!; [done..|].
    destruct (fr_readers _ _ Hf i dev Hi) as (s0 & v & Hs0 & Hv & _). simplify_eq.
    pose proof (device_run_spec devs i dev es s v [] (served_none i s v Hv) Hes) as Hw.
    unfold wp in Hw. by rewrite Hrun in Hw.
Qed.
End devices.

(** ** A daemon of two devices *)

Definition pair_devs : list bytes := [of_str "mdt0"; of_str "mdt1"].
Definition pair_cfg : lcap_cfg := {|
  ccf_mdt := Some <$> pair_devs; ccf_clreader := Some (of_str "cl1"); ccf_mdtcount := 2;
  ccf_file := None; ccf_loggername := None; ccf_oneshot := false; ccf_verbosity := 0;
  ccf_max_bkt := 2; ccf_rec_batch_count := 2; ccf_worker_count := 1;
|}.
Definition pair_ctx : lcap_ctx := mkCtx pair_cfg true true (replicate 128 None) rdr_null [].
Definition pair_unborn (idx : Z) : rstate := mkSt (zero_env pair_cfg idx) ∅ ∅ ∅ 1 [].
Definition pair_reader (idx : Z) : rstate :=
  after (@changelog_reader_init Wr pair_cfg idx (pair_unborn idx)) (pair_unborn idx).
Definition pair_fleet : fleet := mkFleet pair_ctx [pair_reader 0; pair_reader 1].

Lemma pair_reader_ready idx dev :
  mjoin (ccf_mdt pair_cfg !! Z.to_nat idx) = Some dev ->
  @changelog_reader_init Wr pair_cfg idx (pair_unborn idx) = Ok (0, pair_reader idx) ->
  exists b, @represents _ (pair_reader idx) (mkView [(b, new_bucket 0 2)] [] (Some b)).
Proof.
  intros Hdev Hrun. assert (Hcfg : cfg_ok pair_cfg idx) by (split; [done|split; by eexists]).
  pose proof (@changelog_reader_init_spec Wr _ (pair_unborn idx) pair_cfg idx ltac:(by repeat split) Hcfg) as Hwp.
  apply (wp_Ok _ _ _ _ _ _ Hwp) in Hrun as (_ & _ & Hs). destruct (Hs eq_refl) as (_ & b & Hinv & Hd).
  exists b. split; [exact Hinv|exact Hd].
Qed.

Lemma pair_ctx_ok : ctx_ok pair_ctx.
Proof.
  split; [done|done|]. intros [|[|i]] Hi; [exists (of_str "mdt0")|exists (of_str "mdt1")|cbn in Hi; lia];
    (split_and!; [done| |done]; by apply (bool_decide_unpack _)).
Qed.

Lemma pair_ready : fleet_ready pair_devs pair_fleet.
Proof.
  constructor; [exact pair_ctx_ok|..|done|].
  - by apply (bool_decide_unpack _).
  - by apply (bool_decide_unpack _).
  - intros [|[|i]] dev Hi; [| |done]; injection Hi as <-.
    + destruct (pair_reader_ready 0 (of_str "mdt0")) as [b Hv]; [done|vm_compute; reflexivity|].
      eexists (pair_reader 0), _. split_and!; [done|exact Hv|vm_compute; reflexivity].
    + destruct (pair_reader_ready 1 (of_str "mdt1")) as [b Hv]; [done|vm_compute; reflexivity|].
      eexists (pair_reader 1), _. split_and!; [done|exact Hv|vm_compute; reflexivity].
Qed.

(** Two clients, each of its own device; one asks a device that is not there. *)
Definition pair_moves : list fleet_move :=
  [Request demo_cid (of_str "mdt0") demo_register; ReadBatch 1 5;
   Request demo_cid2 (of_str "mdt1") demo_register; ReadBatch 0 5;
   Request demo_cid (of_str "mdt0") (enc_dequeue cl_dequeue_pack);
   Request demo_cid (of_str "mdt7") (enc_dequeue cl_dequeue_pack);
   Request demo_cid2 (of_str "mdt1") (enc_dequeue cl_dequeue_pack)].

Lemma pair_asks : Forall (fleet_asks pair_devs) pair_moves.
Proof.
  assert (Hreg : exists op, rpc_of op demo_register) by (exists RPC_OP_START; exact register_rpc).
  assert (Hdeq : exists op, rpc_of op (enc_dequeue cl_dequeue_pack))
    by (exists RPC_OP_DEQUEUE; exact dequeue_rpc).
  repeat constructor; done.
Qed.

Lemma devices_independent_witness :
  exists h f', fleet_run Wb (fun _ => Wr) pair_moves pair_fleet = Ok (h, f') /\
    length h = 5%nat /\ unanswered pair_devs h /\
    forall i dev s v, pair_devs !! i = Some dev -> fl_readers pair_fleet !! i = Some s ->
      @represents _ s v -> exists s', fl_readers f' !! i = Some s' /\
        device_run (fun _ => Wr) i dev pair_moves s = Ok (for_device dev h, s') /\
        has_served (fun _ => Wr) i v (for_device dev h) s'.
Proof.
  assert (Hrun : exists h f', fleet_run Wb (fun _ => Wr) pair_moves pair_fleet = Ok (h, f') /\
    length h = 5%nat).
  { do 2 eexists. split; vm_compute; reflexivity. }
  destruct Hrun as (h & f' & Hrun & Hlen). exists h, f'. split; [exact Hrun|]. split; [exact Hlen|].
  apply (wp_Ok _ _ _ _ _ _ (devices_independent Wb (fun _ => Wr) (proj1 demo_no_refusal)
    (fun _ => proj2 demo_no_refusal) (fun _ => demo_upstream_ok 5 0) pair_devs pair_fleet pair_moves
    pair_ready pair_asks) Hrun).
Defined.
