(* ===== verification/Fleet.v ===== *)
(** * The whole daemon, with messages under way

    Many clients, the broker and the readers of several devices, with the
    messages that are under way between them. Seen from one device - its
    reader and the clients that were started for it - every move is a move of
    the network of that device or does nothing ([sim]), so that each device of
    the daemon behaves as the network of its own ([Network]). *)
From S2P Require Import Prelude World Queue Idl LcapNet RpcUtils Effects Config Broker PxClient Reader ReaderRep ReaderInv ReaderBuckets ReaderRpc ReaderEnqueue ReaderSpec Demo ReaderHandlers ReaderMain ReaderRun PxSpec PxProps Routing System SystemProps Network NetworkProps Startup Devices.
Local Open Scope Z_scope.

(** A reader and its connection to the broker. *)
Record port := mkPort {
  p_reader : rstate;
  p_down : list (list bytes);            (** from the broker to the reader *)
  p_back : list (list (bytes * bool));   (** from the reader to the broker *)
}.

Record fleet_net := mkFNet {
  fn_ctx : lcap_ctx;
  fn_ports : list port;
  fn_up : list (conn_id * list (bytes * bool));  (** from a client to the broker *)
  fn_mail : list (conn_id * list bytes);         (** from the broker to a client *)
  fn_waiting : gset conn_id;                     (** REQ sockets that wait for a reply *)
  fn_log : list net_event;                       (** what the clients did *)
}.

Definition put_ctx c (n : fleet_net) : fleet_net :=
  mkFNet c (fn_ports n) (fn_up n) (fn_mail n) (fn_waiting n) (fn_log n).
Definition put_port (j : nat) (p : port) (n : fleet_net) : fleet_net :=
  mkFNet (fn_ctx n) (<[j := p]> (fn_ports n)) (fn_up n) (fn_mail n) (fn_waiting n) (fn_log n).
Definition put_up up (n : fleet_net) : fleet_net :=
  mkFNet (fn_ctx n) (fn_ports n) up (fn_mail n) (fn_waiting n) (fn_log n).
Definition put_mail mail (n : fleet_net) : fleet_net :=
  mkFNet (fn_ctx n) (fn_ports n) (fn_up n) mail (fn_waiting n) (fn_log n).
Definition put_client waiting log (n : fleet_net) : fleet_net :=
  mkFNet (fn_ctx n) (fn_ports n) (fn_up n) (fn_mail n) waiting log.

(** Who moves. [i] chooses among the messages of the clients, [j] among the
    readers. *)
Inductive daemon_move :=
| CAsk (cid : conn_id) (body : bytes)
| CToBroker (i : nat)
| CToReader (j : nat)
| CFromReader (j : nat)
| CToClient (i : nat)
| CBatch (j fuel : nat).

Section daemon.
Context (Wb : World) (Wr : nat -> World) `{ChangelogRec, ZmqSocketsLaws}.
(** The device that a client was started for. *)
Context (home : conn_id -> bytes).
Implicit Types (n : fleet_net) (devs : list bytes).

(** The ROUTER socket: a reader is the peer of its identity. *)
Definition port_of (rid : conn_id) n : option nat := reader_of rid (p_reader <$> fn_ports n).

Definition froute n (fs : list (bytes * bool)) : fleet_net :=
  match router_out fs.*1 with
  | Some (dst, hop) =>
      match port_of dst n with
      | Some j =>
          match fn_ports n !! j with
          | Some p => put_port j (mkPort (p_reader p) (p_down p ++ [hop]) (p_back p)) n
          | None => n
          end
      | None => put_mail (fn_mail n ++ [(dst, hop)]) n
      end
  | None => n
  end.

Definition daemon_broker (req : lcapnet_request) : M fleet_net unit :=
  fs ← zoom fn_ctx put_ctx (emitted (@lcapd_process_request Wb req));
  modify (fun n => foldl froute n (split_messages fs)).

(** The reader [j], on its connection. *)
Definition at_port {A} (j : nat) (p : port) (m : M rstate A) : M fleet_net A :=
  zoom (fun _ => p_reader p) (fun s n => put_port j (mkPort s (p_down p) (p_back p)) n) m.

(** A move that is not possible does nothing. *)
Definition daemon_exec (e : daemon_move) : M fleet_net unit :=
  n ← gets id;
  match e with
  | CAsk cid body =>
      if decide (cid ∈ fn_waiting n) then mret tt
      else modify (fun n => put_client (fn_waiting n ∪ {[ cid ]}) (fn_log n ++ [(cid, invoke body)])
                              (put_up (fn_up n ++ [(cid, request (home cid) body)]) n))
  | CToBroker i =>
      match fn_up n !! i with
      | None => mret tt
      | Some (cid, fs) =>
          modify (fun n => put_up (delete i (fn_up n)) n);;
          daemon_broker (from_client cid fs)
      end
  | CToReader j =>
      match fn_ports n !! j with
      | Some (mkPort s (hop :: down) back) =>
          fs ← at_port j (mkPort s down back)
                 (emitted (@changelog_reader_rpc_hdl (Wr j) _ (request_of true hop)));
          modify (fun n => match fn_ports n !! j with
                           | Some p => put_port j (mkPort (p_reader p) (p_down p)
                                                     (p_back p ++ split_messages fs)) n
                           | None => n
                           end)
      | _ => mret tt
      end
  | CFromReader j =>
      match fn_ports n !! j with
      | Some (mkPort s down (fs :: back)) =>
          rid ← unwrap NullDeref (re_ident (r_env s));
          modify (put_port j (mkPort s down back));;
          daemon_broker (from_reader rid fs)
      | _ => mret tt
      end
  | CToClient i =>
      match fn_mail n !! i with
      | None => mret tt
      | Some (cid, hop) =>
          modify (fun n => put_mail (delete i (fn_mail n)) n);;
          match req_in hop with
          | Some ans => modify (fun n => put_client (fn_waiting n ∖ {[ cid ]})
                                           (fn_log n ++ [(cid, receive ans)]) n)
          | None => mret tt
          end
      end
  | CBatch j fuel =>
      match fn_ports n !! j with
      | Some p => at_port j p (@changelog_reader_enqueue (Wr j) _ fuel);; mret tt
      | None => mret tt
      end
  end.

Fixpoint daemon_run (es : list daemon_move) : M fleet_net unit :=
  match es with
  | [] => mret tt
  | e :: es => daemon_exec e;; daemon_run es
  end.

(** ** The daemon as one device sees it *)

Definition ours {A} (dev : bytes) (x : conn_id * A) : Prop := home x.1 = dev.

#[export] Instance ours_dec {A} dev (x : conn_id * A) : Decision (ours dev x).
Proof. unfold ours. apply _. Defined.

Definition mine {A} (dev : bytes) (l : list (conn_id * A)) : list (conn_id * A) :=
  filter (ours dev) l.
Definition my_clients (dev : bytes) (w : gset conn_id) : gset conn_id :=
  filter (fun cid => home cid = dev) w.

#[local] Arguments mine : simpl never.
#[local] Arguments my_clients : simpl never.

Definition at_device (dev : bytes) (p : port) n : network :=
  mkNet (fn_ctx n) (p_reader p) (mine dev (fn_up n)) (p_down p) (p_back p)
    (mine dev (fn_mail n)) (my_clients dev (fn_waiting n)) (mine dev (fn_log n)).

Lemma mine_app {A} dev (l1 l2 : list (conn_id * A)) : mine dev (l1 ++ l2) = mine dev l1 ++ mine dev l2.
Proof. apply filter_app. Qed.

Lemma mine_self {A} dev c (x : A) : home c = dev -> mine dev [(c, x)] = [(c, x)].
Proof. intros Hc. unfold mine. by rewrite filter_cons_True. Qed.

Lemma mine_other {A} dev c (x : A) : home c <> dev -> mine dev [(c, x)] = [].
Proof. intros Hc. unfold mine. by rewrite filter_cons_False. Qed.

(** A message of a device, among all the messages and among those of the device. *)
Lemma mine_lookup {A} (l : list (conn_id * A)) i x :
  l !! i = Some x -> exists k, mine (home x.1) l !! k = Some x /\
    mine (home x.1) (delete i l) = delete k (mine (home x.1) l) /\
    forall dev, dev <> home x.1 -> mine dev (delete i l) = mine dev l.
Proof.
  intros Hx. pose proof (take_drop_middle _ _ _ Hx) as Hl.
  assert (Hd : delete i l = take i l ++ drop (S i) l) by apply delete_take_drop.
  set (l1 := take i l) in *. set (l2 := drop (S i) l) in *. rewrite Hd, <- Hl.
  destruct x as [c a]. exists (length (mine (home c) l1)). cbn [fst].
  change ((c, a) :: l2) with ([(c, a)] ++ l2). rewrite !mine_app, mine_self by done. split_and!.
  - apply list_lookup_middle. done.
  - cbn [app]. by rewrite delete_middle.
  - intros dev Hne. by rewrite !mine_app, mine_other by done.
Qed.

Lemma my_clients_union dev w c :
  my_clients dev (w ∪ {[ c ]}) = my_clients dev w ∪ (if decide (home c = dev) then {[ c ]} else ∅).
Proof.
  unfold my_clients. apply set_eq. intros x. rewrite elem_of_union, !elem_of_filter, elem_of_union.
  case_decide; rewrite ?elem_of_singleton, ?elem_of_empty; split; intros; intuition (subst; congruence || eauto).
Qed.

Lemma my_clients_difference dev w c :
  my_clients dev (w ∖ {[ c ]}) = my_clients dev w ∖ (if decide (home c = dev) then {[ c ]} else ∅).
Proof.
  unfold my_clients. apply set_eq. intros x. rewrite elem_of_difference, !elem_of_filter, elem_of_difference.
  case_decide; rewrite ?elem_of_singleton, ?elem_of_empty; split; intros; intuition (subst; congruence || eauto).
Qed.

(** ** The moves, as one device sees them *)

(** The deliveries that the messages under way need at most. *)
Definition port_load (p : port) : nat := 3 * length (p_down p) + 2 * length (p_back p).
Definition fn_load n : nat :=
  4 * length (fn_up n) + sum_list_with port_load (fn_ports n) + length (fn_mail n).

Lemma sum_list_insert {A} (g : A -> nat) (l : list A) j x y :
  l !! j = Some x -> (sum_list_with g (<[j := y]> l) + g x = sum_list_with g l + g y)%nat.
Proof.
  revert j. induction l as [|z l IH]; intros [|j] Hj; [done|done|injection Hj as ->; cbn; lia|].
  specialize (IH j Hj). cbn. rewrite <- !Nat.add_assoc. f_equal. exact IH.
Qed.

(** The messages and the clients that wait are those of known devices; no
    client has the name of a device. *)
Record known devs n : Prop := {
  kn_up : Forall (fun x => home x.1 ∈ devs) (fn_up n);
  kn_mail : Forall (fun x => home x.1 ∈ devs) (fn_mail n);
  kn_waiting : forall cid, cid ∈ fn_waiting n -> home cid ∈ devs /\ cid ∉ devs;
}.

Record wired devs n : Prop := {
  wi_distinct : NoDup devs;
  wi_named : [] ∉ devs;
  wi_idents : idents devs (p_ident <$> (p_reader <$> fn_ports n));
  wi_known : known devs n;
}.

(** From [n] to [n'] the device [dev], number [j], with the port [p], made a
    move of its network to [m]; the others did not move. *)
Record stepped devs j dev p n (m : network) n' : Prop := {
  st_port : exists p', fn_ports n' = <[j := p']> (fn_ports n) /\ at_device dev p' n' = m;
  st_others : forall dev' q, dev' <> dev ->
    at_device dev' q n' = set_sides (fn_ctx n') (p_reader q) (at_device dev' q n);
  st_known : known devs n';
  st_load : (fn_load n' + net_load (at_device dev p n) = fn_load n + net_load m)%nat;
}.

(** The move [e] of the daemon is the move [e'] of the network of the device. *)
Definition simulated devs j dev p n (e : daemon_move) (e' : net_move) : Prop :=
  match net_exec Wb (Wr j) dev e' (at_device dev p n) with
  | Ok (_, m) => exists n', daemon_exec e n = Ok (tt, n') /\ stepped devs j dev p n m n'
  | Fault x => daemon_exec e n = Fault x
  end.

Lemma port_of_device devs n j dev :
  wired devs n -> devs !! j = Some dev -> port_of dev n = Some j.
Proof. intros [Hnd _ Hid _]. by apply reader_of_ident. Qed.

Lemma port_of_nobody devs n cid : wired devs n -> cid ∉ devs -> port_of cid n = None.
Proof. intros [_ _ Hid _]. by apply reader_of_nobody. Qed.

Lemma port_ident devs n j dev p :
  wired devs n -> devs !! j = Some dev -> fn_ports n !! j = Some p -> re_ident (r_env (p_reader p)) = Some dev.
Proof.
  intros [_ _ Hid _] Hj Hp. destruct (idents_lookup devs (p_reader <$> fn_ports n) j (p_reader p) Hid)
    as (dev' & Hdev' & Hs); [by rewrite list_lookup_fmap, Hp|]. unfold p_ident in Hs. congruence.
Qed.

(** What a message under way is. *)
Lemma up_known W dev P v0 m i cid fs :
  net_ok W dev P v0 m -> n_up m !! i = Some (cid, fs) ->
  exists op body, fs = request dev body /\ rpc_of op body /\ cid <> [].
Proof.
  intros (v & h & f & [N1 N2 N3 [C1 C2 C3 C4] N5 N6 N7 N8 N9]) Hi.
  rewrite C1, list_lookup_fmap in Hi. destruct (f_up f !! i) as [[c body]|] eqn:Hf; [|done].
  injection Hi as <- <-. apply list_elem_of_lookup_2 in Hf. apply Forall_app in N6 as [N6 _].
  rewrite Forall_forall in N6. destruct (N6 _ Hf) as (_ & op & Hrpc). exists op, body. split_and!; try done.
  apply (cl_names _ _ _ _ N5), (cl_wait _ _ _ _ N5). apply list_elem_of_fmap.
  exists (c, asking body). split; [done|]. unfold pending. apply elem_of_app. left.
  apply list_elem_of_fmap. exists (c, body). split; [done|]. apply elem_of_app. by left.
Qed.

Lemma back_known W dev P v0 m fs back :
  net_ok W dev P v0 m -> n_back m = fs :: back ->
  exists cid pk, fs = envelope None cid pk /\ reply_body pk /\ cid <> [] /\ cid ∈ n_waiting m.
Proof.
  intros (v & h & f & [N1 N2 N3 [C1 C2 C3 C4] N5 N6 N7 N8 N9]) Hb. rewrite C3 in Hb.
  destruct f as [u d [|[c pk] b] mail l]; [done|]. cbn in Hb. injection Hb as <- _. cbn [f_back f_mail] in N7.
  apply Forall_cons in N7 as [Hpk _].
  assert (Hin : c ∈ n_waiting m).
  { apply (cl_wait _ _ _ _ N5). apply list_elem_of_fmap. exists (c, served_with (Some [pk])).
    split; [done|]. unfold pending. rewrite !elem_of_app. right. left. by left. }
  exists c, pk. split_and!; try done. by apply (cl_names _ _ _ _ N5).
Qed.

Lemma daemon_broker_run n req src dst msg c :
  emitted (@lcapd_process_request Wb req) (fn_ctx n) = Ok (envelope src dst msg, c) ->
  daemon_broker req n = Ok (tt, froute (put_ctx c n) (envelope src dst msg)).
Proof.
  intros E. unfold daemon_broker, zoom, modify, mbind, M_bind. rewrite E. by rewrite split_envelope.
Qed.

Context (Hb : ~ @send_refused Wb).

Section moves.
Context devs n j dev p (Hw : wired devs n) (Hj : devs !! j = Some dev) (Hp : fn_ports n !! j = Some p).

Lemma port_set_id : fn_ports n = <[j := p]> (fn_ports n).
Proof. by rewrite list_insert_id. Qed.

(** A move that does nothing. *)
Lemma stepped_same : stepped devs j dev p n (at_device dev p n) n.
Proof.
  constructor; [exists p; split; [apply port_set_id|done]|done|apply Hw|lia].
Qed.

Lemma sim_ask cid body :
  home cid = dev -> cid ∉ devs -> simulated devs j dev p n (CAsk cid body) (Ask cid body).
Proof.
  intros Hh Hc. unfold simulated, net_exec, daemon_exec, mbind, M_bind, gets, id.
  cbn [n_waiting at_device].
  assert (Hin : cid ∈ my_clients dev (fn_waiting n) <-> cid ∈ fn_waiting n).
  { unfold my_clients. rewrite elem_of_filter. tauto. }
  destruct (decide (cid ∈ my_clients dev (fn_waiting n))) as [Hy|Hn]; rewrite Hin in *.
  { rewrite decide_True by done. cbn. exists n. split; [done|apply stepped_same]. }
  rewrite decide_False by done. cbn. eexists. split; [reflexivity|]. destruct Hw as [_ _ _ [K1 K2 K3]].
  assert (Hdev : home cid ∈ devs) by (rewrite Hh; by eapply list_elem_of_lookup_2).
  constructor.
  - exists p. split; [apply port_set_id|]. unfold at_device. cbn.
    by rewrite !mine_app, !mine_self, my_clients_union, decide_True, Hh by done.
  - intros dev' q Hne. unfold at_device. cbn.
    by rewrite !mine_app, !mine_other, !app_nil_r, my_clients_union, decide_False, union_empty_r_L by congruence.
  - constructor; cbn; [apply Forall_app; split; [done|by constructor]|done|].
    intros c [?| ->%elem_of_singleton]%elem_of_union; [by apply K3|done].
  - unfold fn_load, net_load. cbn. rewrite !length_app. cbn. lia.
Qed.

Lemma sim_batch fuel : simulated devs j dev p n (CBatch j fuel) (Batch fuel).
Proof.
  unfold simulated, net_exec, daemon_exec, net_reader, at_port, zoom, mbind, M_bind, gets, id.
  cbn [n_reader at_device]. rewrite Hp.
  destruct (@changelog_reader_enqueue (Wr j) _ fuel (p_reader p)) as [[rc s']|x]; [|done].
  cbn. eexists. split; [reflexivity|]. constructor.
  - exists (mkPort s' (p_down p) (p_back p)). by split.
  - done.
  - destruct Hw as [_ _ _ []]. by constructor.
  - unfold fn_load, net_load. cbn.
    pose proof (sum_list_insert port_load _ _ _ (mkPort s' (p_down p) (p_back p)) Hp) as Hs.
    unfold port_load at 2 4 in Hs. cbn in Hs. lia.
Qed.

Lemma sim_to_reader : simulated devs j dev p n (CToReader j) ToReader.
Proof.
  pose proof stepped_same as Hsame.
  unfold simulated, net_exec, daemon_exec, net_reader, at_port, zoom, mbind, M_bind, gets, modify, id.
  cbn [n_down n_reader at_device set_down]. rewrite Hp. destruct p as [s [|hop down] back]; cbn.
  { by exists n. }
  destruct (emitted _ s) as [[fs s']|x]; [|done]. cbn.
  assert (Hl : (j < length (fn_ports n))%nat) by by eapply lookup_lt_Some.
  rewrite list_lookup_insert_eq by done. eexists. split; [reflexivity|].
  unfold put_port. cbn. rewrite list_insert_insert_eq. constructor.
  - eexists. by split.
  - done.
  - destruct Hw as [_ _ _ []]. by constructor.
  - unfold fn_load, net_load. cbn.
    pose proof (sum_list_insert port_load _ _ _ (mkPort s' down (back ++ split_messages fs)) Hp) as Hs.
    unfold port_load at 2 4 in Hs. cbn in Hs. lia.
Qed.

Lemma sim_to_client i cid hop :
  fn_mail n !! i = Some (cid, hop) -> home cid = dev ->
  exists k, simulated devs j dev p n (CToClient i) (ToClient k) /\
    (i < length (fn_mail n) -> k < length (n_mail (at_device dev p n)))%nat.
Proof.
  intros Hi <-. destruct (mine_lookup _ _ _ Hi) as (k & Hk & Hdel & Hoth). cbn [fst] in *.
  exists k. split; [|by intros _; eapply lookup_lt_Some].
  unfold simulated, net_exec, daemon_exec, mbind, M_bind, gets, modify, id.
  cbn [n_mail at_device]. rewrite Hi, Hk. cbn. destruct Hw as [_ _ _ [K1 K2 K3]].
  assert (Hload : (4 * length (mine (home cid) (fn_up n)) + port_load p + length (mine (home cid) (fn_mail n)) =
     S (4 * length (mine (home cid) (fn_up n)) + port_load p + length (delete k (mine (home cid) (fn_mail n)))))%nat).
  { rewrite length_delete by by eexists. apply lookup_lt_Some in Hk. lia. }
  assert (Hlen : (length (fn_mail n) = S (length (delete i (fn_mail n))))%nat).
  { rewrite length_delete by by eexists. apply lookup_lt_Some in Hi. lia. }
  assert (K2' : Forall (fun x => home x.1 ∈ devs) (delete i (fn_mail n))) by by apply Forall_delete.
  unfold port_load in Hload.
  destruct (req_in hop) as [ans|]; cbn; (eexists; split; [reflexivity|]); constructor.
  - exists p. split; [apply port_set_id|]. unfold at_device. cbn.
    by rewrite Hdel, mine_app, mine_self, my_clients_difference, decide_True by done.
  - intros dev' q Hne. unfold at_device. cbn.
    rewrite (Hoth dev') by done. rewrite mine_app, mine_other, app_nil_r by congruence.
    by rewrite my_clients_difference, decide_False, difference_empty_L by congruence.
  - constructor; cbn; try done. intros c [? _]%elem_of_difference. by apply K3.
  - unfold fn_load, net_load. cbn. lia.
  - exists p. split; [apply port_set_id|]. unfold at_device. cbn. by rewrite Hdel.
  - intros dev' q Hne. unfold at_device. cbn. by rewrite (Hoth dev').
  - by constructor.
  - unfold fn_load, net_load. cbn. lia.
Qed.

Lemma device_named : dev <> [].
Proof. intros Hd. apply (wi_named _ _ Hw). rewrite <- Hd. by eapply list_elem_of_lookup_2. Qed.

Lemma sim_to_broker P v0 i cid fs :
  net_ok (Wr j) dev P v0 (at_device dev p n) -> fn_up n !! i = Some (cid, fs) -> home cid = dev ->
  exists k, simulated devs j dev p n (CToBroker i) (ToBroker k) /\
    (i < length (fn_up n) -> k < length (n_up (at_device dev p n)))%nat.
Proof.
  intros Hok Hi Hh. destruct (mine_lookup _ _ _ Hi) as (k & Hk & Hdel & Hoth). cbn [fst] in *.
  rewrite Hh in Hk, Hdel, Hoth. exists k. split; [|by intros _; eapply lookup_lt_Some].
  destruct (up_known _ _ _ _ _ _ _ _ Hok Hk) as (op & body & -> & Hrpc & Hc).
  assert (Hctx : ctx_ok (fn_ctx n)) by (destruct Hok as (v & h & f & [[] _ _ _ _ _ _ _ _]); done).
  destruct (proj1 (wp_safe _ _ _) (request_emitted Wb dev Hb device_named _ _ _ _ Hctx Hc Hrpc))
    as (fs & c1 & E & -> & Hc1).
  assert (Hid := port_ident _ _ _ _ _ Hw Hj Hp).
  unfold simulated, net_exec, daemon_exec, mbind, M_bind, gets, modify, id.
  cbn [n_up at_device]. rewrite Hi, Hk.
  rewrite (broker_turn_run Wb _ _ (Some dev) cid body c1) by exact E.
  rewrite (daemon_broker_run _ _ (Some dev) cid body c1) by exact E.
  rewrite (route_request dev) by (apply device_named || exact Hid).
  eexists. split; [reflexivity|]. unfold froute. cbn [envelope app fmap list_fmap fst].
  rewrite router_out_identity by apply device_named.
  change (port_of dev (put_ctx c1 (put_up (delete i (fn_up n)) n))) with (port_of dev n).
  rewrite (port_of_device _ _ _ _ Hw Hj). cbn. rewrite Hp. constructor.
  - eexists. split; [reflexivity|]. unfold at_device. cbn. by rewrite Hdel.
  - intros dev' q Hne. unfold at_device. cbn. by rewrite (Hoth dev').
  - destruct Hw as [_ _ _ []]. constructor; cbn; try done. by apply Forall_delete.
  - unfold fn_load, net_load. cbn.
    pose proof (sum_list_insert port_load _ _ _
      (mkPort (p_reader p) (p_down p ++ [[[]; cid; []; body]]) (p_back p)) Hp) as Hs.
    unfold port_load at 2 4 in Hs. cbn in Hs. rewrite length_app in *. cbn in *.
    rewrite !length_delete by by eexists. apply lookup_lt_Some in Hi, Hk. lia.
Qed.

Lemma sim_from_reader P v0 :
  net_ok (Wr j) dev P v0 (at_device dev p n) -> simulated devs j dev p n (CFromReader j) FromReader.
Proof.
  intros Hok. pose proof stepped_same as Hsame. assert (Hid := port_ident _ _ _ _ _ Hw Hj Hp).
  assert (Hctx : ctx_ok (fn_ctx n)) by (destruct Hok as (v & h & f & [[] _ _ _ _ _ _ _ _]); done).
  unfold simulated, net_exec, daemon_exec, mbind, M_bind, gets, modify, unwrap, mret, M_ret, id.
  cbn [n_back at_device]. rewrite Hp. destruct p as [s down [|fs back]] eqn:Ep; cbn [p_back p_reader].
  { by exists n. }
  destruct (back_known _ _ _ _ _ _ _ Hok eq_refl) as (cid & pk & -> & Hpk & Hc & Hin).
  cbn [n_waiting at_device] in Hin. unfold my_clients in Hin. apply elem_of_filter in Hin as [Hh Hin].
  destruct (kn_waiting _ _ (wi_known _ _ Hw) cid Hin) as [_ Hnd].
  destruct (proj1 (wp_safe _ _ _) (reply_emitted Wb dev Hb device_named _ _ _ Hctx Hc Hpk))
    as (fs & c1 & E & -> & Hc1).
  cbn [p_reader] in Hid. rewrite Hid.
  rewrite (broker_turn_run Wb _ _ None cid pk c1) by exact E.
  rewrite (daemon_broker_run _ _ None cid pk c1) by exact E.
  assert (Hcd : cid <> dev) by (intros ->; apply Hnd; by eapply list_elem_of_lookup_2).
  rewrite (route_reply dev) by (done || exact Hid).
  eexists. split; [reflexivity|]. unfold froute. cbn [envelope app fmap list_fmap fst].
  rewrite router_out_identity by done.
  assert (Hw' : wired devs (put_ctx c1 (put_port j (mkPort s down back) n))).
  { destruct Hw as [W1 W2 W3 []]. constructor; try done. cbn.
    rewrite !list_fmap_insert. cbn. rewrite list_insert_id; [done|]. by rewrite !list_lookup_fmap, Hp. }
  rewrite (port_of_nobody _ _ _ Hw' Hnd). constructor.
  - eexists. split; [reflexivity|]. unfold at_device. cbn. by rewrite mine_app, mine_self.
  - intros dev' q Hne. unfold at_device. cbn. by rewrite mine_app, mine_other, app_nil_r by congruence.
  - destruct Hw as [_ _ _ []]. constructor; cbn; try done. apply Forall_app. split; [done|].
    apply Forall_singleton. cbn. rewrite Hh. by eapply list_elem_of_lookup_2.
  - unfold fn_load, net_load. cbn.
    pose proof (sum_list_insert port_load _ _ _ (mkPort s down back) Hp) as Hs.
    unfold port_load at 2 4 in Hs. cbn in Hs. rewrite !length_app. cbn. lia.
Qed.
End moves.

(** ** The invariant *)

Context (Hr : forall j, ~ @send_refused (Wr j)) (Hup : forall j, @upstream_ok (Wr j) _).
Context devs (P : bytes -> bytes -> Prop) (vs0 : nat -> view).

(** Each device behaves as a network of its own. [P dev] holds of what is asked
    of the device [dev]. *)
Record daemon_ok n : Prop := {
  dk_ctx : ctx_ok (fn_ctx n);
  dk_wired : wired devs n;
  dk_devices : forall j dev, devs !! j = Some dev -> exists p, fn_ports n !! j = Some p /\
    net_ok (Wr j) dev (P dev) (vs0 j) (at_device dev p n);
}.

Definition daemon_asks (e : daemon_move) : Prop :=
  match e with
  | CAsk cid body => cid <> [] /\ (cid ∉ devs) /\ (home cid ∈ devs) /\ P (home cid) body /\ exists op, rpc_of op body
  | _ => True
  end.

Definition daemon_deliverable (e : daemon_move) n : Prop :=
  match e with
  | CToBroker i => (i < length (fn_up n))%nat
  | CToReader j => exists p, fn_ports n !! j = Some p /\ p_down p <> []
  | CFromReader j => exists p, fn_ports n !! j = Some p /\ p_back p <> []
  | CToClient i => (i < length (fn_mail n))%nat
  | CAsk _ _ | CBatch _ _ => False
  end.

(** Too small a bound on a batch, and the use after free of a CLEAR. *)
Definition daemon_fault (e : daemon_move) (x : fault) : Prop :=
  x = OutOfFuel /\ (exists j fuel, e = CBatch j fuel) \/ exists dev, clear_fault (P dev) x.

(** After a move: the invariant, and progress if it delivered a message. *)
Definition daemon_moved (e : daemon_move) n n' : Prop :=
  daemon_ok n' /\ (daemon_deliverable e n -> (fn_load n' < fn_load n)%nat).

Lemma net_ok_ctx W dev Q v0 m c :
  net_ok W dev Q v0 m -> ctx_ok c -> net_ok W dev Q v0 (set_sides c (n_reader m) m).
Proof.
  intros (v & h & f & [N1 N2 N3 N4 N5 N6 N7 N8 N9]) Hc. exists v, h, f. constructor; try done.
  - by constructor; [|apply N1..].
  - by destruct N4.
Qed.

Lemma stepped_ok j dev p n m n' :
  daemon_ok n -> devs !! j = Some dev -> fn_ports n !! j = Some p ->
  net_ok (Wr j) dev (P dev) (vs0 j) m -> stepped devs j dev p n m n' -> daemon_ok n'.
Proof.
  intros [D1 [W1 W2 W3 W4] D3] Hj Hp Hm [(p' & Hps & Hat) Hoth Hkn _].
  assert (Hready : exists v, ready dev (mkSys (fn_ctx n') (p_reader p')) v).
  { destruct Hm as (v & h & f & [Hv _ _ _ _ _ _ _ _]). exists v. by rewrite <- Hat in Hv. }
  destruct Hready as (v & [Hc _ Hid]). cbn in Hc, Hid. constructor; [done| |].
  - constructor; try done. unfold idents in *. rewrite Hps, !list_fmap_insert, <- W3.
    rewrite list_insert_id; [done|]. rewrite list_lookup_fmap, Hj. cbn. unfold p_ident. by rewrite Hid.
  - intros j' dev' Hj'. rewrite Hps. destruct (decide (j' = j)) as [->|Hne].
    + simplify_eq. exists p'. rewrite list_lookup_insert_eq; [done|]. by eapply lookup_lt_Some.
    + destruct (D3 j' dev' Hj') as (q & Hq & Hnet). exists q. rewrite list_lookup_insert_ne by done.
      split; [done|]. rewrite Hoth; [by apply (net_ok_ctx _ _ _ _ _ _ Hnet)|].
      intros ->. by eapply Hne, NoDup_lookup.
Qed.

Lemma simulated_ok j dev p n e e' :
  daemon_ok n -> devs !! j = Some dev -> fn_ports n !! j = Some p -> asks_well dev (P dev) e' ->
  simulated devs j dev p n e e' ->
  (daemon_deliverable e n -> deliverable e' (at_device dev p n)) ->
  (forall fuel, e' = Batch fuel -> exists i fuel', e = CBatch i fuel') ->
  wp (daemon_exec e) (fun _ => daemon_moved e n) (daemon_fault e) n.
Proof.
  intros Hn Hj Hp Ha Hsim Hdel Hbatch. destruct (dk_devices _ Hn j dev Hj) as (p' & Hp' & Hnet).
  simplify_eq. assert (Hd : dev <> []) by by eapply device_named; [apply Hn|exact Hj].
  pose proof (net_exec_ok Wb (Wr j) dev Hb (Hr j) Hd (Hup j) (P dev) (vs0 j) e' _ Hnet Ha) as Hx.
  unfold wp in *. unfold simulated in Hsim. destruct (net_exec _ _ _ _ _) as [[[] m]|x].
  - destruct Hx as [Hm Hlt], Hsim as (n' & -> & Hst). split; [by eapply stepped_ok|].
    intros Hde%Hdel%Hlt. destruct Hst as [_ _ _ Hload]. lia.
  - rewrite Hsim. destruct Hx as [[-> [fuel He]]|Hclr]; [|by right; exists dev].
    left. split; [done|]. by eapply Hbatch.
Qed.

Lemma daemon_same e n : daemon_ok n -> ~ daemon_deliverable e n -> daemon_moved e n n.
Proof. by split. Qed.
End daemon.
