(* ===== verification/FleetProps.v ===== *)
(** * The properties of the daemon

    Clients of many devices, the broker and the readers, in every interleaving
    of their messages: each device behaves as a reader that serves the requests
    of its own clients one at a time, and every request is answered. *)
From S2P Require Import Prelude World Queue Idl LcapNet RpcUtils Effects Config Broker PxClient Reader ReaderRep ReaderInv ReaderBuckets ReaderRpc ReaderEnqueue ReaderSpec Demo ReaderHandlers ReaderMain ReaderRun PxSpec PxProps Routing System SystemProps Network NetworkProps Startup Devices Fleet.
Local Open Scope Z_scope.

Section daemon.
Context (Wb : World) (Wr : nat -> World) `{ChangelogRec, ZmqSocketsLaws} (home : conn_id -> bytes).
Context (Hb : ~ @send_refused Wb) (Hr : forall j, ~ @send_refused (Wr j)).
Context (Hup : forall j, @upstream_ok (Wr j) _).
Implicit Types (n : fleet_net) (devs : list bytes).

Local Abbreviation exec := (daemon_exec Wb Wr home).
Local Abbreviation run := (daemon_run Wb Wr home).

Section steps.
Context devs (P : bytes -> bytes -> Prop) (vs0 : nat -> view).
Local Abbreviation ok := (daemon_ok Wr home devs P vs0).
Local Abbreviation moved := (daemon_moved Wr home devs P vs0).

(** The device of a client, and its port. *)
Lemma device_of n dev :
  ok n -> dev ∈ devs -> exists j p, devs !! j = Some dev /\ fn_ports n !! j = Some p /\
    net_ok (Wr j) dev (P dev) (vs0 j) (at_device home dev p n).
Proof.
  intros Hn [j Hj]%list_elem_of_lookup_1. destruct (dk_devices _ _ _ _ _ _ Hn j dev Hj) as (p & Hp & Hnet).
  by exists j, p.
Qed.

(** The device of a port. *)
Lemma device_at n j p :
  ok n -> fn_ports n !! j = Some p -> exists dev, devs !! j = Some dev /\
    net_ok (Wr j) dev (P dev) (vs0 j) (at_device home dev p n).
Proof.
  intros Hn Hp. assert (Hs : (p_reader <$> fn_ports n) !! j = Some (p_reader p)) by by rewrite list_lookup_fmap, Hp.
  destruct (idents_lookup _ _ _ _ (wi_idents _ _ _ (dk_wired _ _ _ _ _ _ Hn)) Hs) as (dev & Hj & _).
  destruct (dk_devices _ _ _ _ _ _ Hn j dev Hj) as (p' & Hp' & Hnet). simplify_eq. by exists dev.
Qed.

Lemma daemon_exec_ok e n :
  ok n -> daemon_asks home devs P e -> wp (exec e) (fun _ => moved e n) (daemon_fault P e) n.
Proof.
  intros Hn He. pose proof (dk_wired _ _ _ _ _ _ Hn) as Hw. pose proof (wi_known _ _ _ Hw) as Hk.
  assert (Hstay : forall E, ~ daemon_deliverable e n -> wp (mret tt) (fun _ => moved e n) E n).
  { intros E Hd. apply wp_ret. by apply daemon_same. }
  destruct e as [cid body|i|j|j|i|j fuel].
  - destruct He as (Hc & Hnd & Hh & HP & Hrpc). destruct (device_of n _ Hn Hh) as (j & p & Hj & Hp & _).
    eapply (simulated_ok _ _ _ Hb Hr Hup); [done|done|done| |by eapply sim_ask|done..].
    split_and!; [done| |done|done]. intros Heq. apply Hnd. by rewrite Heq.
  - destruct (fn_up n !! i) as [[cid fs]|] eqn:Hi.
    2: { unfold daemon_exec. wp_steps. unfold id. rewrite Hi. apply Hstay. cbn.
         apply lookup_ge_None in Hi. lia. }
    destruct (device_of n (home cid) Hn) as (j & p & Hj & Hp & Hnet).
    { pose proof (kn_up _ _ _ Hk) as Hf. rewrite Forall_forall in Hf.
      by apply (Hf (cid, fs)), (list_elem_of_lookup_2 _ i). }
    edestruct (sim_to_broker Wb Wr home Hb) as (k & Hsim & Hd); try done.
    eapply (simulated_ok _ _ _ Hb Hr Hup); [done|done|done| |exact Hsim|exact Hd|done]. done.
  - destruct (fn_ports n !! j) as [p|] eqn:Hp.
    2: { unfold daemon_exec. wp_steps. unfold id. rewrite Hp. apply Hstay. cbn. rewrite Hp. by intros (? & ? & _). }
    destruct (device_at n j p Hn Hp) as (dev & Hj & Hnet).
    assert (Hsim : simulated Wb Wr home devs j dev p n (CToReader j) ToReader) by by eapply sim_to_reader.
    eapply (simulated_ok _ _ _ Hb Hr Hup); [done|done|done| |exact Hsim| |done]; [done|].
    intros (p' & Hp' & Hd). by simplify_eq.
  - destruct (fn_ports n !! j) as [p|] eqn:Hp.
    2: { unfold daemon_exec. wp_steps. unfold id. rewrite Hp. apply Hstay. cbn. rewrite Hp. by intros (? & ? & _). }
    destruct (device_at n j p Hn Hp) as (dev & Hj & Hnet).
    assert (Hsim : simulated Wb Wr home devs j dev p n (CFromReader j) FromReader) by by eapply sim_from_reader.
    eapply (simulated_ok _ _ _ Hb Hr Hup); [done|done|done| |exact Hsim| |done]; [done|].
    intros (p' & Hp' & Hd). by simplify_eq.
  - destruct (fn_mail n !! i) as [[cid hop]|] eqn:Hi.
    2: { unfold daemon_exec. wp_steps. unfold id. rewrite Hi. apply Hstay. cbn.
         apply lookup_ge_None in Hi. lia. }
    destruct (device_of n (home cid) Hn) as (j & p & Hj & Hp & Hnet).
    { pose proof (kn_mail _ _ _ Hk) as Hf. rewrite Forall_forall in Hf.
      by apply (Hf (cid, hop)), (list_elem_of_lookup_2 _ i). }
    edestruct (sim_to_client Wb Wr home) as (k & Hsim & Hd); try done.
    eapply (simulated_ok _ _ _ Hb Hr Hup); [done|done|done| |exact Hsim|exact Hd|done]. done.
  - destruct (fn_ports n !! j) as [p|] eqn:Hp.
    2: { unfold daemon_exec. wp_steps. unfold id. rewrite Hp. apply Hstay. by intros []. }
    destruct (device_at n j p Hn Hp) as (dev & Hj & Hnet).
    assert (Hsim : simulated Wb Wr home devs j dev p n (CBatch j fuel) (Batch fuel)) by by eapply sim_batch.
    eapply (simulated_ok _ _ _ Hb Hr Hup); [done|done|done| |exact Hsim|done|]; [done|].
    intros fuel' _. by exists j, fuel.
Qed.

Lemma daemon_run_ok es n :
  ok n -> Forall (daemon_asks home devs P) es ->
  wp (run es) (fun _ => ok)
     (fun x => x = OutOfFuel /\ (exists j fuel, CBatch j fuel ∈ es) \/ exists dev, clear_fault (P dev) x) n.
Proof.
  intros Hn Hes. revert n Hn. induction Hes as [|e es He Hes IH]; intros n Hn; cbn [daemon_run]; wp_steps; [done|].
  eapply wp_mono; [by apply daemon_exec_ok|cbn beta|].
  - intros _ n' [Hn' _]. eapply wp_mono; [by apply IH|done|].
    intros x [[-> (j & fuel & Hx)]|?]; [left; split; [done|exists j, fuel; by right]|by right].
  - intros x [[-> (j & fuel & ->)]|?]; [left; split; [done|exists j, fuel; by left]|by right].
Qed.

(** A scheduler that delivers some message as long as there is one. *)
Definition daemon_conserving (pick : fleet_net -> option daemon_move) : Prop :=
  forall n, match pick n with
            | Some e => daemon_deliverable e n
            | None => fn_load n = 0%nat
            end.

Fixpoint daemon_deliver (pick : fleet_net -> option daemon_move) (k : nat) : M fleet_net unit :=
  match k with
  | O => mret tt
  | S k =>
      n ← gets id;
      match pick n with
      | None => mret tt
      | Some e => exec e;; daemon_deliver pick k
      end
  end.

Lemma daemon_deliver_ok pick k n :
  daemon_conserving pick -> (forall dev body, P dev body -> ~ is_clear body) -> ok n -> (fn_load n <= k)%nat ->
  wp (daemon_deliver pick k) (fun _ n' => ok n' /\ fn_load n' = 0%nat) safe n.
Proof.
  intros Hp HP. revert n. induction k as [|k IH]; intros n Hn Hk; cbn [daemon_deliver]; wp_steps.
  { split; [done|]. lia. }
  unfold id. pose proof (Hp n) as He. destruct (pick n) as [e|]; wp_steps; [|done].
  eapply wp_mono; [apply daemon_exec_ok; [done|by destruct e]|cbn beta|].
  - intros _ n' [Hn' Hlt]. apply IH; [done|]. specialize (Hlt He). lia.
  - intros x [[-> (j & fuel & ->)]|(dev & _ & body & HPb & Hc)]; [done|by destruct (HP dev body)].
Qed.
End steps.

(** ** From the start of the daemon on *)

(** A daemon without messages under way. *)
Definition quiet_daemon (f : fleet) : fleet_net :=
  mkFNet (fl_ctx f) ((fun s => mkPort s [] []) <$> fl_readers f) [] [] ∅ [].

(** What is asked of the device [dev] in a schedule. *)
Definition asked_of (es : list daemon_move) (dev body : bytes) : Prop :=
  exists cid, CAsk cid body ∈ es /\ home cid = dev.

Definition daemon_well_asked devs (es : list daemon_move) : Prop :=
  forall cid body, CAsk cid body ∈ es ->
    cid <> [] /\ (cid ∉ devs) /\ (home cid ∈ devs) /\ exists op, rpc_of op body.

(** The faults of a schedule: too small a bound on a batch, and the use after
    free of a CLEAR that was asked of some device. *)
Definition daemon_run_fault (es : list daemon_move) (x : fault) : Prop :=
  x = OutOfFuel /\ (exists j fuel, CBatch j fuel ∈ es) \/ exists dev, clear_fault (asked_of es dev) x.

Section from_start.
Context devs (f : fleet) (vs0 : nat -> view) (es : list daemon_move).
Context (Hf : fleet_ready devs f) (Hes : daemon_well_asked devs es).
Context (Hvs : forall j s, fl_readers f !! j = Some s -> @represents _ s (vs0 j)).

Lemma quiet_daemon_ok P : daemon_ok Wr home devs P vs0 (quiet_daemon f).
Proof.
  pose proof Hf as [F1 F2 F3 F4 F5]. constructor; [done| |].
  - constructor; [done|done| |by constructor; try apply Forall_nil_2; intros c ?%elem_of_empty].
    pose proof (fleet_idents _ _ Hf) as Hid. unfold quiet_daemon. cbn [fn_ports].
    by rewrite <- !list_fmap_compose in *.
  - intros j dev Hj. destruct (F5 j dev Hj) as (s & v & Hs & _ & Hid). exists (mkPort s [] []).
    unfold quiet_daemon. cbn. rewrite list_lookup_fmap, Hs. split; [done|].
    unfold at_device. cbn. change (mine home dev []) with (@nil net_event).
    assert (my_clients home dev ∅ = ∅) as ->.
    { apply set_eq. intros c. unfold my_clients. rewrite elem_of_filter.
      split; [by intros [_ ?%elem_of_empty]|by intros ?%elem_of_empty]. }
    apply (quiet_ok (Wr j) dev (P dev) (mkSys (fl_ctx f) s) (vs0 j) []); [|done].
    constructor; [done|by apply Hvs|done].
Qed.

Lemma daemon_asked_Forall : Forall (daemon_asks home devs (asked_of es)) es.
Proof.
  apply Forall_forall. intros [cid body| | | | |] Hin; try done.
  destruct (Hes _ _ Hin) as (? & ? & ? & ?). split_and!; try done. by exists cid.
Qed.

Lemma daemon_reaches n :
  run es (quiet_daemon f) = Ok (tt, n) -> daemon_ok Wr home devs (asked_of es) vs0 n.
Proof.
  exact (wp_Ok _ _ _ _ _ _ (daemon_run_ok devs (asked_of es) vs0 es _ (quiet_daemon_ok _) daemon_asked_Forall)).
Qed.

(** C1: The whole daemon is linearizable, device by device: clients of several
    devices, the broker and a reader for each device, and whatever the
    interleaving of their messages and of the batches that the readers read,
    what the clients of a device see is the history of a reader that serves
    the requests of these clients, and no others, one at a time, each
    between its sending and the receipt of its answer; a client receives
    exactly what its request was served with. The only faults are the use
    after free of a CLEAR that was asked and the bound on a batch. *)
Theorem daemon_linearizable :
  wp (run es) (fun _ n => forall j dev, devs !! j = Some dev -> exists p v h,
        fn_ports n !! j = Some p /\ ready dev (mkSys (fn_ctx n) (p_reader p)) v /\
        linear (Wr j) (batch_of (p_reader p)) (vs0 j) h v /\
        erase h = filter (fun e => home e.1 = dev) (fn_log n) /\
        forall cid, exists ph, phase_of cid h = Some ph /\
          (cid ∈ fn_waiting n /\ home cid = dev <-> ph <> idle))
     (daemon_run_fault es) (quiet_daemon f).
Proof.
  eapply wp_mono; [apply (daemon_run_ok devs (asked_of es) vs0); [apply quiet_daemon_ok|apply daemon_asked_Forall]| |done].
  cbn beta. intros _ n Hn j dev Hj. destruct (dk_devices _ _ _ _ _ _ Hn j dev Hj) as (p & Hp & Hnet).
  destruct (net_ok_linear _ _ _ _ _ Hnet) as (v & h & Hv & Hlin & Hlog & Hph).
  exists p, v, h. split_and!; [done..|exact Hlog|]. intros cid. destruct (Hph cid) as (ph & Hp1 & Hp2).
  exists ph. split; [done|]. rewrite <- Hp2. cbn. unfold my_clients. rewrite elem_of_filter. tauto.
Qed.

Lemma device_rests n j dev p :
  fn_load n = 0%nat -> fn_ports n !! j = Some p -> net_load (at_device home dev p n) = 0%nat.
Proof.
  unfold fn_load. intros Hl Hp.
  assert (Hpl : port_load p = 0%nat).
  { pose proof (sum_list_insert port_load _ _ _ (mkPort (p_reader p) [] []) Hp) as Hs.
    change (port_load (mkPort (p_reader p) [] [])) with 0%nat in Hs. lia. }
  unfold port_load in Hpl. unfold net_load. cbn. unfold mine.
  pose proof (length_filter (ours home dev) (fn_up n)). pose proof (length_filter (ours home dev) (fn_mail n)). lia.
Qed.

(** C2: Every request in the daemon is answered: after any schedule without a
    CLEAR, any scheduler that delivers a message as long as there is one
    leads, without a fault and in at most as many deliveries as the messages
    need, to a state in which no client of any device waits, and every
    client has received what the reader of its device served its requests
    with. *)
Theorem daemon_answers_all pick n :
  (forall cid body, CAsk cid body ∈ es -> ~ is_clear body) ->
  run es (quiet_daemon f) = Ok (tt, n) -> daemon_conserving pick ->
  wp (daemon_deliver pick (fn_load n)) (fun _ n' => fn_waiting n' = ∅ /\ fn_load n' = 0%nat /\
        forall j dev, devs !! j = Some dev -> exists p v h,
          fn_ports n' !! j = Some p /\ ready dev (mkSys (fn_ctx n') (p_reader p)) v /\
          linear (Wr j) (batch_of (p_reader p)) (vs0 j) h v /\
          erase h = filter (fun e => home e.1 = dev) (fn_log n') /\
          forall cid, phase_of cid h = Some idle)
     safe n.
Proof.
  intros HP Hrun Hpick.
  assert (Hnc : forall dev body, asked_of es dev body -> ~ is_clear body) by (intros dev body (cid & Hin & _); eauto).
  eapply wp_mono; [apply (daemon_deliver_ok devs (asked_of es) vs0); [done|done|by apply daemon_reaches|done]| |done].
  cbn beta. intros _ n' [Hn' Hl].
  assert (Hdev : forall j dev, devs !! j = Some dev -> exists p v h,
    fn_ports n' !! j = Some p /\ ready dev (mkSys (fn_ctx n') (p_reader p)) v /\
    linear (Wr j) (batch_of (p_reader p)) (vs0 j) h v /\ erase h = mine home dev (fn_log n') /\
    my_clients home dev (fn_waiting n') = ∅ /\ forall cid, phase_of cid h = Some idle).
  { intros j dev Hj. destruct (dk_devices _ _ _ _ _ _ Hn' j dev Hj) as (p & Hp & Hnet).
    destruct (net_ok_answered _ _ _ _ _ (Hnc dev) Hnet (device_rests _ _ _ _ Hl Hp))
      as (v & h & Hv & Hlin & Hlog & Hw & _ & Hph). by exists p, v, h. }
  split_and!; [|done|].
  - apply set_eq. intros cid. split; [|by intros ?%elem_of_empty]. intros Hin.
    destruct (kn_waiting _ _ _ (wi_known _ _ _ (dk_wired _ _ _ _ _ _ Hn')) cid Hin) as [[j Hj]%list_elem_of_lookup_1 _].
    destruct (Hdev j _ Hj) as (p & v & h & _ & _ & _ & _ & He & _). rewrite <- He. unfold my_clients.
    by apply elem_of_filter.
  - intros j dev Hj. destruct (Hdev j dev Hj) as (p & v & h & Hp & Hv & Hlin & Hlog & _ & Hph).
    by exists p, v, h.
Qed.

(** C3: In a schedule of a new daemon that is shorter than the acknowledgement
    timeout, with enough memory, however many requests are under way and in
    whatever order their messages are delivered: the ENQUEUE packets that
    the clients of a device received are among the ones that the reader of
    this device sent, each received once, and these carry the records of
    this device in upstream order, none twice; no two clients hold the same
    bucket. *)
Theorem daemon_shares_streams (t0 : Z) :
  (forall j, @punctual (Wr j) t0) ->
  (forall j dev, devs !! j = Some dev -> exists b idx batch, vs0 j = mkView [(b, new_bucket idx batch)] [] (Some b)) ->
  wp (run es) (fun _ n => forall j dev, devs !! j = Some dev -> exists p v rss,
        fn_ports n !! j = Some p /\ ready dev (mkSys (fn_ctx n) (p_reader p)) v /\
        NoDup (held (v_cls v)) /\
        enqueues (replies_got (filter (fun e => home e.1 = dev) (fn_log n))) ⊆+ packet_of <$> rss /\
        sublist (concat rss) (stream (v_bks v)))
     (daemon_run_fault es) (quiet_daemon f).
Proof.
  intros Hpu Hnew.
  eapply wp_mono; [apply (daemon_run_ok devs (asked_of es) vs0); [apply quiet_daemon_ok|apply daemon_asked_Forall]| |done].
  cbn beta. intros _ n Hn j dev Hj. destruct (dk_devices _ _ _ _ _ _ Hn j dev Hj) as (p & Hp & Hnet).
  destruct (fr_readers _ _ Hf j dev Hj) as (s & _ & Hs & _ & _). pose proof (Hvs j s Hs) as Hv0.
  destruct (Hnew j dev Hj) as (b & idx & batch & Hb0).
  assert (Ho : exists pend, orderly t0 (vs0 j) [] pend).
  { rewrite Hb0. exists [(b, new_bucket idx batch)]. apply orderly_starting. }
  destruct (net_ok_stream _ _ _ _ _ _ (Hpu j) (represents_distinct _ _ Hv0) Ho Hnet)
    as (v & rss & Hv & Hnd & Hgot & Hsub).
  by exists p, v, rss.
Qed.

(** C7: In every schedule of the daemon, whatever the clocks show, however long
    it runs and even if memory runs out: each ENQUEUE packet that a client
    receives carries the whole of one bucket of its own device, a contiguous
    piece of the stream of records that the reader of this device holds, and
    that stream only grows. Buckets that are served again bring whole
    packets again, never a part, a mixture or another order. *)
Theorem daemon_packets_genuine :
  wp (run es) (fun _ n => forall j dev, devs !! j = Some dev -> exists p v more,
        fn_ports n !! j = Some p /\ ready dev (mkSys (fn_ctx n) (p_reader p)) v /\
        stream (v_bks v) = stream (v_bks (vs0 j)) ++ more /\
        Forall (genuine (v_bks v)) (enqueues (replies_got (filter (fun e => home e.1 = dev) (fn_log n)))))
     (daemon_run_fault es) (quiet_daemon f).
Proof.
  eapply wp_mono; [apply (daemon_run_ok devs (asked_of es) vs0); [apply quiet_daemon_ok|apply daemon_asked_Forall]| |done].
  cbn beta. intros _ n Hn j dev Hj. destruct (dk_devices _ _ _ _ _ _ Hn j dev Hj) as (p & Hp & Hnet).
  destruct (net_ok_genuine _ _ _ _ _ Hnet) as (v & more & Hv & Hm & Hall). by exists p, v, more.
Qed.
End from_start.
End daemon.

(** ** A daemon of two devices, with a client each *)

Definition pair_home (cid : conn_id) : bytes :=
  if bool_decide (cid = demo_cid) then of_str "mdt0" else of_str "mdt1".
Definition pair_schedule : list daemon_move :=
  [CAsk demo_cid demo_register; CAsk demo_cid2 demo_register; CToBroker 1; CToBroker 0;
   CToReader 0; CBatch 1 5; CToReader 1; CFromReader 1; CFromReader 0; CToClient 0; CBatch 0 5;
   CAsk demo_cid2 (enc_dequeue cl_dequeue_pack); CToBroker 0].

Definition first_view (b : loc) : view := mkView [(b, new_bucket 0 2)] [] (Some b).
Definition pair_views (b0 b1 : loc) (j : nat) : view := first_view (if decide (j = 0%nat) then b0 else b1).

Lemma pair_views_ok : exists b0 b1, forall j s,
  fl_readers pair_fleet !! j = Some s -> @represents _ s (pair_views b0 b1 j).
Proof.
  destruct (pair_reader_ready 0 (of_str "mdt0")) as [b0 H0]; [done|vm_compute; reflexivity|].
  destruct (pair_reader_ready 1 (of_str "mdt1")) as [b1 H1]; [done|vm_compute; reflexivity|].
  exists b0, b1. intros [|[|j]] s Hs; [| |done]; injection Hs as <-; [exact H0|exact H1].
Qed.

Lemma pair_asks_in cid body :
  CAsk cid body ∈ pair_schedule -> (cid = demo_cid \/ cid = demo_cid2) /\
    (body = demo_register \/ body = enc_dequeue cl_dequeue_pack).
Proof.
  unfold pair_schedule. rewrite !elem_of_cons, elem_of_nil.
  intros Hin. repeat destruct Hin as [Hin|Hin]; try done; injection Hin as -> ->; auto.
Qed.

Lemma pair_well_asked : daemon_well_asked pair_home pair_devs pair_schedule.
Proof.
  intros cid body [Hc Hb]%pair_asks_in. split_and!.
  - by destruct Hc as [->| ->].
  - by destruct Hc as [->| ->]; apply (bool_decide_unpack _).
  - by destruct Hc as [->| ->]; apply (bool_decide_unpack _).
  - destruct Hb as [->| ->]; [exists RPC_OP_START; exact register_rpc|exists RPC_OP_DEQUEUE; exact dequeue_rpc].
Qed.

(** Deliver the first message of the first connection that has one. *)
Definition first_delivery (n : fleet_net) : option daemon_move :=
  match fn_up n, fn_mail n with
  | _ :: _, _ => Some (CToBroker 0)
  | [], _ :: _ => Some (CToClient 0)
  | [], [] =>
      match list_find (fun p => p_down p <> []) (fn_ports n) with
      | Some (j, _) => Some (CToReader j)
      | None => match list_find (fun p => p_back p <> []) (fn_ports n) with
                | Some (j, _) => Some (CFromReader j)
                | None => None
                end
      end
  end.

Lemma first_delivery_conserves : daemon_conserving first_delivery.
Proof.
  intros n. unfold first_delivery, fn_load.
  destruct (fn_up n) as [|x up] eqn:Hu; [|cbn; rewrite Hu; cbn; lia].
  destruct (fn_mail n) as [|x mail] eqn:Hm; [|cbn; rewrite Hm; cbn; lia].
  destruct (list_find _ (fn_ports n)) as [[j p]|] eqn:Hd.
  { apply list_find_Some in Hd as (Hj & Hne & _). by exists p. }
  destruct (list_find (fun p => p_back p <> []) (fn_ports n)) as [[j p]|] eqn:Hb.
  { apply list_find_Some in Hb as (Hj & Hne & _). by exists p. }
  apply list_find_None in Hd, Hb. cbn. rewrite Nat.add_0_r.
  induction (fn_ports n) as [|p ps IH]; [done|]. apply Forall_cons in Hd as [Hd Hds], Hb as [Hb Hbs].
  cbn. rewrite IH by done. unfold port_load.
  destruct (p_down p); [|by destruct Hd]. destruct (p_back p); [done|by destruct Hb].
Qed.

Local Abbreviation pair_run := (daemon_run Wb (fun _ => Wr) pair_home pair_schedule).
Local Abbreviation pair_start := (quiet_daemon pair_fleet).

Lemma daemon_linearizable_witness : exists vs0,
  wp pair_run (fun _ n => forall j dev, pair_devs !! j = Some dev -> exists p v h,
        fn_ports n !! j = Some p /\ ready dev (mkSys (fn_ctx n) (p_reader p)) v /\
        linear Wr (batch_of (p_reader p)) (vs0 j) h v /\
        erase h = filter (fun e => pair_home e.1 = dev) (fn_log n) /\
        forall cid, exists ph, phase_of cid h = Some ph /\
          (cid ∈ fn_waiting n /\ pair_home cid = dev <-> ph <> idle))
     (daemon_run_fault pair_home pair_schedule) pair_start.
Proof.
  destruct pair_views_ok as (b0 & b1 & Hvs). exists (pair_views b0 b1).
  apply (daemon_linearizable Wb (fun _ => Wr) pair_home (proj1 demo_no_refusal) (fun _ => proj2 demo_no_refusal)
    (fun _ => demo_upstream_ok 5 0) pair_devs pair_fleet (pair_views b0 b1) pair_schedule);
    [exact pair_ready|exact pair_well_asked|exact Hvs].
Defined.

(** One request of each client is under way; both are answered. *)
Lemma daemon_answers_all_witness : exists vs0 n,
  pair_run pair_start = Ok (tt, n) /\ fn_load n = 4%nat /\
  wp (daemon_deliver Wb (fun _ => Wr) pair_home first_delivery (fn_load n))
     (fun _ n' => fn_waiting n' = ∅ /\ fn_load n' = 0%nat /\
        forall j dev, pair_devs !! j = Some dev -> exists p v h,
          fn_ports n' !! j = Some p /\ ready dev (mkSys (fn_ctx n') (p_reader p)) v /\
          linear Wr (batch_of (p_reader p)) (vs0 j) h v /\
          erase h = filter (fun e => pair_home e.1 = dev) (fn_log n') /\
          forall cid, phase_of cid h = Some idle)
     safe n.
Proof.
  destruct pair_views_ok as (b0 & b1 & Hvs). exists (pair_views b0 b1).
  assert (Hrun : exists n, pair_run pair_start = Ok (tt, n) /\ fn_load n = 4%nat).
  { eexists. split; vm_compute; reflexivity. }
  destruct Hrun as (n & Hrun & Hload). exists n. split; [exact Hrun|]. split; [exact Hload|].
  apply (daemon_answers_all Wb (fun _ => Wr) pair_home (proj1 demo_no_refusal) (fun _ => proj2 demo_no_refusal)
    (fun _ => demo_upstream_ok 5 0) pair_devs pair_fleet (pair_views b0 b1) pair_schedule);
    [exact pair_ready|exact pair_well_asked|exact Hvs| |exact Hrun|exact first_delivery_conserves].
  intros cid body [_ [->| ->]]%pair_asks_in; vm_compute; discriminate.
Defined.

Lemma daemon_shares_streams_witness :
  wp pair_run (fun _ n => forall j dev, pair_devs !! j = Some dev -> exists p v rss,
        fn_ports n !! j = Some p /\ ready dev (mkSys (fn_ctx n) (p_reader p)) v /\
        NoDup (held (v_cls v)) /\
        enqueues (replies_got (filter (fun e => pair_home e.1 = dev) (fn_log n))) ⊆+ packet_of <$> rss /\
        sublist (concat rss) (stream (v_bks v)))
     (daemon_run_fault pair_home pair_schedule) pair_start.
Proof.
  destruct pair_views_ok as (b0 & b1 & Hvs).
  apply (daemon_shares_streams Wb (fun _ => Wr) pair_home (proj1 demo_no_refusal) (fun _ => proj2 demo_no_refusal)
    (fun _ => demo_upstream_ok 5 0) pair_devs pair_fleet (pair_views b0 b1) pair_schedule) with (t0 := 5);
    [exact pair_ready|exact pair_well_asked|exact Hvs|intros _; exact demo_punctual_reader|].
  intros j dev _. by eexists _, 0, 2.
Defined.

Lemma daemon_packets_genuine_witness : exists vs0,
  wp pair_run (fun _ n => forall j dev, pair_devs !! j = Some dev -> exists p v more,
        fn_ports n !! j = Some p /\ ready dev (mkSys (fn_ctx n) (p_reader p)) v /\
        stream (v_bks v) = stream (v_bks (vs0 j)) ++ more /\
        Forall (genuine (v_bks v)) (enqueues (replies_got (filter (fun e => pair_home e.1 = dev) (fn_log n)))))
     (daemon_run_fault pair_home pair_schedule) pair_start.
Proof.
  destruct pair_views_ok as (b0 & b1 & Hvs). exists (pair_views b0 b1).
  apply (daemon_packets_genuine Wb (fun _ => Wr) pair_home (proj1 demo_no_refusal) (fun _ => proj2 demo_no_refusal)
    (fun _ => demo_upstream_ok 5 0) pair_devs pair_fleet (pair_views b0 b1) pair_schedule);
    [exact pair_ready|exact pair_well_asked|exact Hvs].
Defined.
